(* ===== verification/_CoqProject ===== *)
-Q . S2P
Prelude.v
Bytes.v
Log2.v
Memory.v
Kfifo.v
KfifoUser.v
KfifoRec.v
KfifoApi.v
KfifoDefine.v
KfifoSpsc.v
Scatterlist.v
UartHw.v
Locking.v
Kdev.v
ListHead.v
ListIter.v
Hlist.v
Uart.v
SerialLine.v
UartThreads.v
Chardev.v
Fd.v
DevFs.v
Driver.v
Loader.v
System.v
Boot.v
Math64.v
Bitops.v
Jhash.v
Swab.v
Bitmap.v
