(* ===== verification/Prelude.v ===== *)
(** * A Linux serial driver on seL4: the verified library

    The repository runs a Linux driver inside an seL4 root
    task.  liblinux (src/libs/liblinux) provides the part of the Linux kernel
    interface the driver needs: memory, locks, wait queues, lists, ring buffers,
    character devices, interrupts, a module loader, and POSIX-like calls on
    device files.  The application (src/apps/module-loader) holds the driver for
    the 16550 UART and a [main] that loads it, opens /dev/com2, reads once and
    writes back what it read.  Most other files of the tree are Linux headers.

    ** How the parts fit, and where they are

    - Prelude, Bytes: words, results, byte strings and rings.  A C function is a
      Rocq function into [res]: it returns, has undefined behaviour, trips an
      assertion, or is out of fuel.
    - Memory (kmalloc.c, mem.c, linux/slab.h, x86/asm/uaccess.h): byte blocks
      with bounds over an arbitrary [malloc] (class [Allocator]); user copies
      are an interface ([UserCopy]) with the copies of mem.c as instances.
    - Log2, Bitops, Bitmap, Math64, Swab, Jhash, Kdev: the arithmetic headers
      (linux/log2.h, linux/bitops.h, x86/asm/bitops.h, asm-generic/bitops,
      linux/math64.h, x86/asm/div64.h, uapi/linux/swab.h, linux/jhash.h,
      linux/kdev_t.h, linux/err.h).  Bitmap holds the operations on bits in
      memory.
    - Kfifo, KfifoUser, KfifoRec, KfifoApi (fifo.c, linux/kfifo.h): the ring
      buffer.  [kfifo] is struct __kfifo; its invariant [wf] says the capacity
      is a power of two, the indices are words, and the buffer is inside its
      block.  KfifoDefine: the declarations, static initialisers and locked
      variants of kfifo.h.  KfifoSpsc: one writer and one reader on the same
      fifo, a step relation on the byte transfers and index updates of
      kfifo_in, kfifo_out, kfifo_put and kfifo_get; the transfers of a copy
      happen in any order, but all between the accesses to the indices that the
      barriers of fifo.c put around them.  Scatterlist (scatterlist.c,
      linux/scatterlist.h and the DMA half of fifo.c).
    - ListHead, ListIter, Hlist (linux/list.h): intrusive lists on a heap of
      pointer fields; [is_list] relates a head to its entries.
    - Locking (lock.c, wait.c): the lock word, threads as interleaved atomic
      steps, and the busy-waiting [wait_event_interruptible].
    - UartHw (uart16550_hw.h, ioport.c): register accesses over a chip that is
      an interface ([PortIO], [Uart16550]), with a concrete chip as instance.
    - Uart (uart16550.c): both devices, [uart16550_read], [uart16550_write], the
      interrupt handler; what happens between two accesses of a waiting call is
      the parameter [env].  SerialLine: the contract of a device, two bounded
      queues and a chip, and that the driver refines it.  UartThreads: any number
      of threads in [uart16550_read] and [uart16550_write] and the interrupt
      handler on one device, a step relation whose steps are their accesses to
      the locks, the flags, the fifos and the chip.
    - Chardev (cdev.c), Fd (fd.c) and DevFs, which puts the two together against
      an abstract file system; Driver (interrupt.c, [__request_region], and
      loading and unloading of uart16550.c), Loader (loader.c, loader.h).
    - System (main.c from the start of the module on, module_start.c) and Boot
      (the rest of main.c, util.c, printk.c): the seL4 process is set up over an interface for the
      kernel and its libraries ([Sel4]; [Sel4Laws] says what their manuals
      promise, with a small kernel as instance), then [System.main] runs.

    The device layer keeps its structures by address over an allocator of
    objects ([ObjAlloc]); [enough] is the executable condition that a list of
    allocations succeeds.  The byte blocks of Memory and these objects are two
    heaps in the model and one in the program; no pointer of one is used as a
    pointer of the other.

    ** What is shown

    - The whole program echoes (Boot), over every part below; a spawned module
      gets its thread (Boot).
    - Refinement: the driver implements a pair of bounded queues, and every byte
      that arrives or is written is accounted for (SerialLine); a kfifo is a bounded queue of bytes or of
      records under every sequence of calls (KfifoApi); the registry and the
      table of open files are a file system of device files, for every client
      that chooses its calls by earlier results (DevFs).
    - Concurrency: a writer and a reader share a fifo without a lock, in every
      interleaving, and neither waits for the other (KfifoSpsc).  Threads and
      the interrupt handler on one device, in every interleaving, neither lose,
      double nor reorder a byte that was queued; a thread past its lock and the
      handler never wait; and a thread that nobody disturbs gets the result of
      the sequential kfifo calls (UartThreads).
    - Each operation on every branch, failures included: the user copies that
      stop early (KfifoUser, KfifoRec), allocation (Kfifo, Memory), reads,
      writes and interrupts (Uart), line parameters (UartHw), opening and
      closing (Fd), registering and binding (Chardev), set-up (Driver), module
      handling (Loader), DMA tables (Scatterlist).
    - Invariants: lists stay circular and doubly linked under every edit
      (ListHead, Hlist), iteration ends, also while entries are deleted
      (ListIter), [spin_trylock] excludes in every interleaving (Locking), the
      tables of devices and open files stay well formed under every sequence of
      calls (DevFs).
    - Equivalence and round trips of the arithmetic: constant and run-time
      forms agree, encodings decode, rotations and swaps are undone; the bit
      operations of x86 and the portable ones are the same functions (Bitmap).
    - Where the code does not do what it means to: [spin_lock] does not exclude,
      a wake-up can be lost or taken by another thread, a full input queue drops a byte, an unchecked
      product or header wraps, unloading is undefined, and others; each is a
      theorem about the same definitions.

    ** Bounds and fuel

    Loops that are not structural take fuel, one unit per iteration, and the
    theorems say how much is enough: the length of a list or table, the size of
    the input buffer (4096 bytes, [FIFO_SIZE]) plus one for the interrupt
    handler, a twelfth of the length of a hashed key, the quotient of an
    iterated division, and for a blocking call the instant of the interrupt.
    Words have 32 bits, as the build of liblinux fixes (CONFIG_X86_32).

    ** Parameters

    [malloc] and the object allocator, the user copies, the chip and the port
    instructions, the interrupt server, the seL4 kernel and its libraries, the
    page tables, the dynamic linker and what a loaded library exports, the
    interrupt-saving locks, the searches for a bit in an array, and the
    large-object path of [kmalloc]: none of them has its code under src/.  Each
    law class has an instance, and the theorems that use it are applied to one.

    ** Not modelled

    The text of the debug output (the strings and fields it prints are read);
    the remaining Linux headers, whose functions have no caller in the modelled
    code or no implementation in the tree; the functions linux/scatterlist.h
    only declares; memory in which a store reaches other threads late; compiler
    built-ins in place of swab.h. *)

From Stdlib Require Export ZArith Lia.
From stdpp Require Export base numbers list gmap option.

#[global] Open Scope Z_scope.
#[export] Set Warnings "-clear-no-such-hyp".

(** ** Machine words

    The build fixes [BITS_PER_LONG=32] (src/libs/liblinux/common.mk) and
    CONFIG_X86_32, so [int], [unsigned int], [long], [size_t] and pointers are
    all 32 bits wide.  A C value of an unsigned type is a [Z] in its range;
    every operator that can leave the range wraps explicitly. *)

Abbreviation W32 := 4294967296 (only parsing).

Definition u8 (z : Z) : Z := z mod 256.
Definition u16 (z : Z) : Z := z mod 65536.
Definition u32 (z : Z) : Z := z mod W32.

(** The value of a 32-bit pattern read as a signed [int] or [long]. *)
Definition s32 (z : Z) : Z :=
  let w := u32 z in if w <? 2147483648 then w else w - W32.

Declare Scope w32_scope.
Delimit Scope w32_scope with w32.
Notation "a ⊞ b" := (u32 (a + b)) (at level 50, left associativity) : w32_scope.
Notation "a ⊟ b" := (u32 (a - b)) (at level 50, left associativity) : w32_scope.
Notation "a ⊠ b" := (u32 (a * b)) (at level 40, left associativity) : w32_scope.
Notation "a '.&' b" := (Z.land a b) (at level 40, left associativity) : w32_scope.
Notation "a '.|' b" := (Z.lor a b) (at level 50, left associativity) : w32_scope.
#[global] Open Scope w32_scope.

(** C truth values. *)
Definition b2z (b : bool) : Z := if b then 1 else 0.
Definition truthy (z : Z) : bool := negb (z =? 0).

(** ** Results

    A C function either returns, or has undefined behaviour (a wild pointer,
    an out-of-range shift, ...), or trips an [assert]/[BUG_ON]/[ZF_LOGF_IF], or
    is still looping when the fuel of the model is used up. *)

Inductive fault := UB | Panic | OutOfFuel.

Inductive res (A : Type) :=
| Ok (a : A)
| Err (e : fault).
Arguments Ok {A} a.
Arguments Err {A} e.

Definition rbind {A B} (r : res A) (k : A -> res B) : res B :=
  match r with Ok a => k a | Err e => Err e end.

Declare Scope res_scope.
Delimit Scope res_scope with res.
Notation "'let!' p ':=' r 'in' k" := (rbind r (fun p => k))
  (at level 10, p pattern, r at level 100, k at level 200,
   format "'[v' 'let!'  p  ':='  r  'in' '/' k ']'") : res_scope.
#[global] Open Scope res_scope.

(** [assert(b)], [BUG_ON(!b)] and [ZF_LOGF_IF(!b, ...)]. *)
Definition cassert (b : bool) : res unit := if b then Ok tt else Err Panic.

(** A condition the C standard demands. *)
Definition defined_if (b : bool) : res unit := if b then Ok tt else Err UB.

#[global] Instance fault_eq_dec : EqDecision fault.
Proof. solve_decision. Defined.
#[global] Instance res_eq_dec {A} `{EqDecision A} : EqDecision (res A).
Proof. solve_decision. Defined.

(** ** Error numbers (asm-generic/errno-base.h) *)

Definition EIO : Z := 5.
Definition ENOENT : Z := 2.
Definition EBADF : Z := 9.
Definition ENOMEM : Z := 12.
Definition EFAULT : Z := 14.
Definition ENODEV : Z := 19.
Definition EINVAL : Z := 22.

(** ** Tactics *)

(** Linear arithmetic with quotients and remainders by constants. *)
Ltac zmod := unfold u8, u16, u32 in *; Z.to_euclidean_division_equations; lia.

(** Split every boolean test of the goal into its arithmetic meaning. *)
Ltac ztest :=
  repeat match goal with
    | |- context [?a <? ?b] => destruct (Z.ltb_spec a b)
    | |- context [?a <=? ?b] => destruct (Z.leb_spec a b)
    | |- context [?a =? ?b] => destruct (Z.eqb_spec a b)
    end.

(** Take a successful [let!] chain in a hypothesis apart. *)
Ltac res_inv :=
  repeat match goal with
    | H : rbind ?r _ = Ok _ |- _ =>
        let E := fresh "E" in
        destruct r eqn:E; [cbn [rbind] in H | discriminate H]
    | H : Ok _ = Ok _ |- _ => injection H as H
    | H : Err _ = Ok _ |- _ => discriminate H
    | H : Ok _ = Err _ |- _ => discriminate H
    end.

(** ** Generic lemmas *)

Create HintDb words.
Create Rewrite HintDb word_norm.

Lemma u32_range z : 0 <= u32 z < W32.
Proof. unfold u32. apply Z.mod_pos_bound. lia. Qed.

Lemma u8_range z : 0 <= u8 z < 256.
Proof. unfold u8. apply Z.mod_pos_bound. lia. Qed.

Lemma u32_small z : 0 <= z < W32 -> u32 z = z.
Proof. apply Z.mod_small. Qed.

Lemma u8_small z : 0 <= z < 256 -> u8 z = z.
Proof. apply Z.mod_small. Qed.

Lemma u32_idemp z : u32 (u32 z) = u32 z.
Proof. apply Z.mod_mod. lia. Qed.

Lemma u32_add_l a b : u32 (u32 a + b) = u32 (a + b).
Proof. unfold u32. now rewrite Zplus_mod_idemp_l. Qed.

Lemma u32_add_r a b : u32 (a + u32 b) = u32 (a + b).
Proof. unfold u32. now rewrite Zplus_mod_idemp_r. Qed.

Lemma u32_sub_l a b : u32 (u32 a - b) = u32 (a - b).
Proof. unfold u32. now rewrite Zminus_mod_idemp_l. Qed.

Lemma u32_sub_r a b : u32 (a - u32 b) = u32 (a - b).
Proof. unfold u32. now rewrite Zminus_mod_idemp_r. Qed.

#[export] Hint Resolve u32_range u8_range : words.
#[export] Hint Rewrite u32_idemp u32_add_l u32_add_r u32_sub_l u32_sub_r : word_norm.

Lemma rbind_ok {A B} (r : res A) (k : A -> res B) b :
  rbind r k = Ok b <-> exists a, r = Ok a /\ k a = Ok b.
Proof.
  destruct r as [a|e]; cbn; split; [eauto | | discriminate |].
  - intros (a' & [= ->] & H). exact H.
  - intros (a' & H & _). discriminate H.
Qed.

Lemma defined_if_ok b u : defined_if b = Ok u <-> b = true.
Proof. destruct b, u; cbn; naive_solver. Qed.

(** A remainder by a power of two of a word does not see the wrap. *)
Lemma u32_mod_pow2 k z : 0 <= k <= 32 -> u32 z mod 2 ^ k = z mod 2 ^ k.
Proof.
  intros Hk. unfold u32.
  apply Z.mod_mod_divide. exists (2 ^ (32 - k)). rewrite <- Z.pow_add_r by lia.
  now replace (32 - k + k) with 32 by lia.
Qed.

(** Masking with [2^k - 1] is the remainder. *)
Lemma land_mask k z : 0 <= k -> Z.land z (2 ^ k - 1) = z mod 2 ^ k.
Proof.
  intros Hk. replace (2 ^ k - 1) with (Z.ones k) by (rewrite Z.ones_equiv; lia).
  now apply Z.land_ones.
Qed.

(** Looking an index up in a concatenation, by comparing it with the length. *)
Lemma lookup_app_dec {A} (l k : list A) i :
  (l ++ k) !! i = if decide (i < length l)%nat then l !! i else k !! (i - length l)%nat.
Proof.
  case_decide; [now apply lookup_app_l | apply lookup_app_r; lia].
Qed.

(** Joining a low part below [2^n] with a high part. *)
Lemma lor_shiftl a b n : 0 <= n -> 0 <= a < 2 ^ n -> Z.lor a (Z.shiftl b n) = a + b * 2 ^ n.
Proof.
  intros Hn Ha. assert (Z.land a (Z.shiftl b n) = 0) as H.
  { apply Z.bits_inj'. intros i Hi. rewrite Z.land_spec, Z.shiftl_spec, Z.bits_0 by lia.
    destruct (Z.lt_ge_cases i n).
    - rewrite (Z.testbit_neg_r b) by lia. apply andb_false_r.
    - rewrite <- (Z.mod_small a (2 ^ n)) by lia. rewrite Z.mod_pow2_bits_high by lia. reflexivity. }
  rewrite <- Z.lxor_lor, <- Z.add_nocarry_lxor by assumption.
  now rewrite Z.shiftl_mul_pow2.
Qed.
