(* ===== verification/Bytes.v ===== *)
(** * Byte strings and byte rings

    The list theory behind the memory and the fifo: reading and writing a byte
    string at an offset, and rings, byte strings read from a rotating position.
    [ring_store] is what the two [memcpy]s of a wrapping copy leave behind; the
    lemmas say how the rotated view changes under a store and under a move of
    the read position.  Nothing here models code on its own. *)

From S2P Require Import Prelude.

Module Bytes.

(** ** Reading and writing at an offset *)

Definition zlen (l : list Z) : Z := Z.of_nat (length l).
Definition read_at (D : list Z) (o n : nat) : list Z := take n (drop o D).
Definition write_at (D : list Z) (o : nat) (bs : list Z) : list Z :=
  take o D ++ bs ++ drop (o + length bs) D.

Lemma length_read_at D o n : (o + n <= length D)%nat -> length (read_at D o n) = n.
Proof. unfold read_at. rewrite length_take, length_drop. lia. Qed.

Lemma length_write_at D o bs :
  (o + length bs <= length D)%nat -> length (write_at D o bs) = length D.
Proof. unfold write_at. rewrite !length_app, length_take, length_drop. lia. Qed.

Lemma lookup_read_at D o n i :
  read_at D o n !! i = if decide (i < n)%nat then D !! (o + i)%nat else None.
Proof.
  unfold read_at. destruct (decide (i < n)%nat).
  - rewrite lookup_take_lt, lookup_drop by lia. reflexivity.
  - now rewrite lookup_take_ge by lia.
Qed.

Lemma lookup_write_at D o bs i :
  (o + length bs <= length D)%nat ->
  write_at D o bs !! i =
    if decide (i < o)%nat then D !! i
    else if decide (i < o + length bs)%nat then bs !! (i - o)%nat else D !! i.
Proof.
  intros Hb. unfold write_at.
  destruct (decide (i < o)%nat).
  - rewrite lookup_app_l by (rewrite length_take; lia). now rewrite lookup_take_lt by lia.
  - rewrite lookup_app_r by (rewrite length_take; lia).
    rewrite length_take, Nat.min_l by lia.
    destruct (decide (i < o + length bs)%nat).
    + rewrite lookup_app_l by lia. reflexivity.
    + rewrite lookup_app_r, lookup_drop by lia. f_equal. lia.
Qed.

Lemma zlen_app l k : zlen (l ++ k) = zlen l + zlen k.
Proof. unfold zlen. rewrite length_app. lia. Qed.

Lemma zlen_nonneg l : 0 <= zlen l.
Proof. unfold zlen. lia. Qed.

(** ** Rings *)

(** The ring read from position [o]. *)
Definition rot (W : list Z) (o : nat) : list Z := drop o W ++ take o W.

(** The bytes two [memcpy]s leave in the ring. *)
Definition ring_store (W : list Z) (io : nat) (src : list Z) : list Z :=
  let l := Nat.min (length src) (length W - io) in
  write_at (write_at W io (take l src)) 0 (drop l src).

Lemma length_rot W o : length (rot W o) = length W.
Proof. unfold rot. rewrite length_app, length_drop, length_take. lia. Qed.

Lemma lookup_rot W o i :
  (o <= length W)%nat ->
  rot W o !! i =
    if decide (i < length W - o)%nat then W !! (o + i)%nat
    else if decide (i < length W)%nat then W !! (i + o - length W)%nat else None.
Proof.
  intros Ho. unfold rot. destruct (decide (i < length W - o)%nat).
  - rewrite lookup_app_l by (rewrite length_drop; lia). now rewrite lookup_drop.
  - rewrite lookup_app_r by (rewrite length_drop; lia). rewrite length_drop.
    destruct (decide (i < length W)%nat).
    + rewrite lookup_take_lt by lia. f_equal. lia.
    + now rewrite lookup_take_ge by lia.
Qed.

(** A list equality by looking every index up; what is left is arithmetic on
    indices. *)
Ltac slen :=
  repeat first
    [ rewrite length_app | rewrite length_take | rewrite length_drop | rewrite length_rot
    | rewrite length_write_at by slen | rewrite length_read_at by slen ];
  lia.

Ltac list_by_lookup :=
  apply list_eq; intros ?;
  repeat first
    [ rewrite lookup_rot by slen | rewrite lookup_write_at by slen
    | rewrite lookup_read_at | rewrite lookup_app_dec
    | rewrite lookup_drop | rewrite lookup_take ];
  repeat first
    [ rewrite length_app | rewrite length_take | rewrite length_drop | rewrite length_rot
    | rewrite length_write_at by slen | rewrite length_read_at by slen ];
  repeat case_decide; try lia; try reflexivity; try (f_equal; lia);
  try (symmetry; apply lookup_ge_None; slen);
  try (apply lookup_ge_None; slen).

Lemma ring_read W o n :
  (o < length W)%nat -> (n <= length W)%nat ->
  let l := Nat.min n (length W - o) in
  read_at W o l ++ read_at W 0 (n - l) = take n (rot W o).
Proof. intros Ho Hn l. list_by_lookup. Qed.

(** Two [memcpy]s into the ring at [io], [u] bytes past the read position [o],
    splice the source into the rotated view after its first [u] bytes. *)
Lemma ring_write W o io u src :
  (o < length W)%nat -> (io < length W)%nat -> (u + length src <= length W)%nat ->
  (io = o + u \/ io + length W = o + u)%nat ->
  let l := Nat.min (length src) (length W - io) in
  rot (write_at (write_at W io (take l src)) 0 (drop l src)) o =
    take u (rot W o) ++ src ++ drop (u + length src) (rot W o).
Proof. intros Ho Hio Hu Heq l. list_by_lookup. Qed.

(** Moving the read position past the first [n] bytes drops them. *)
Lemma ring_advance W o o' u n :
  (o < length W)%nat -> (o' < length W)%nat -> (n <= u <= length W)%nat ->
  (o' = o + n \/ o' + length W = o + n)%nat ->
  take (u - n) (rot W o') = drop n (take u (rot W o)).
Proof. intros Ho Ho' Hn Heq. list_by_lookup. Qed.

(** A write inside the window is a write to the window. *)
Lemma window_write D o0 S o bs :
  (o0 + S <= length D)%nat -> (o + length bs <= S)%nat ->
  read_at (write_at D (o0 + o) bs) o0 S = write_at (read_at D o0 S) o bs.
Proof. intros H1 H2. list_by_lookup. Qed.

Lemma length_ring_store W io src :
  (io < length W)%nat -> (length src <= length W)%nat ->
  length (ring_store W io src) = length W.
Proof. intros Hio Hs. unfold ring_store. rewrite !length_write_at by slen. reflexivity. Qed.

(** Two writes to a block, at [o0 + io] and at [o0], are one write of the stored
    ring at [o0]. *)
Lemma ring_store_block D o0 S io bs :
  (o0 + S <= length D)%nat -> (io < S)%nat -> (length bs <= S)%nat ->
  let l := Nat.min (length bs) (S - io) in
  write_at (write_at D (o0 + io) (take l bs)) o0 (drop l bs) =
    write_at D o0 (ring_store (read_at D o0 S) io bs).
Proof.
  intros HD Hio Hbs l. unfold ring_store.
  replace (length (read_at D o0 S)) with S by (rewrite length_read_at; lia).
  fold l. list_by_lookup.
Qed.

(** Consecutive writes are one write, and a read splits anywhere. *)
Lemma write_at_app B d b1 b2 :
  (d + length b1 + length b2 <= length B)%nat ->
  write_at (write_at B d b1) (d + length b1) b2 = write_at B d (b1 ++ b2).
Proof. intros H. list_by_lookup. Qed.

Lemma read_at_take D o n l : (l <= n)%nat -> take l (read_at D o n) = read_at D o l.
Proof. intros H. unfold read_at. rewrite take_take. f_equal. lia. Qed.

Lemma read_at_drop D o n l : drop l (read_at D o n) = read_at D (o + l) (n - l).
Proof. unfold read_at. rewrite skipn_firstn_comm, drop_drop. reflexivity. Qed.

Lemma read_at_window D o0 S o n :
  (o + n <= S)%nat -> read_at (read_at D o0 S) o n = read_at D (o0 + o) n.
Proof.
  intros H. unfold read_at. rewrite <- drop_drop. rewrite skipn_firstn_comm, take_take.
  f_equal. lia.
Qed.

Lemma read_write_same D o bs :
  (o + length bs <= length D)%nat -> read_at (write_at D o bs) o (length bs) = bs.
Proof. intros H. list_by_lookup. Qed.

Lemma write_at_insert D o b :
  (o < length D)%nat -> write_at D o [b] = <[o := b]> D.
Proof.
  intros Ho. apply list_eq. intros i. rewrite lookup_write_at by (cbn; lia). cbn [length].
  repeat case_decide; try lia.
  - rewrite list_lookup_insert_ne; [reflexivity | lia].
  - replace i with o by lia. rewrite Nat.sub_diag, list_lookup_insert_eq by lia. reflexivity.
  - rewrite list_lookup_insert_ne; [reflexivity | lia].
Qed.

Lemma write_at_nil X o : write_at X o [] = X.
Proof. unfold write_at. cbn. rewrite Nat.add_0_r. apply take_drop. Qed.

(** A store that does not wrap is a single write. *)
Lemma ring_store_block_one D o0 S io bs :
  (o0 + S <= length D)%nat -> (io < S)%nat -> (io + length bs <= S)%nat ->
  write_at D (o0 + io) bs = write_at D o0 (ring_store (read_at D o0 S) io bs).
Proof.
  intros HD Hio Hbs. rewrite <- ring_store_block by lia. cbn zeta.
  rewrite Nat.min_l, take_ge, drop_ge by lia. now rewrite write_at_nil.
Qed.

End Bytes.
