(* ===== verification/Log2.v ===== *)
(** * Find-last-set and base-2 logarithms

    Models the bit-search primitives the kfifo allocator rounds its size with:
    x86/asm/bitops.h ([fls] through [bsrl]), asm-generic/bitops/fls.h (the
    portable binary search), asm-generic/bitops/fls64.h, linux/bitops.h
    ([fls_long], [get_count_order]) and linux/log2.h.  A shift count outside
    the width of the shifted type is undefined behaviour and faults. *)

From S2P Require Import Prelude.

Module Log2.

(** ** Bit search *)

(** The [bsrl] instruction: the index of the highest set bit, or ZF. *)
Definition bsrl (x : Z) : option Z := if x =? 0 then None else Some (Z.log2 x).

(** x86/asm/bitops.h, CONFIG_X86_CMOV branch: [cmovzl] puts -1 when ZF is set. *)
Definition fls (x : Z) : Z :=
  let r := match bsrl x with Some r => r | None => -1 end in
  r + 1.

(** asm-generic/bitops/fls.h: one halving step of the binary search. *)
Definition fls_halve (mask w : Z) (xr : Z * Z) : Z * Z :=
  let '(x, r) := xr in
  if negb (truthy (x .& mask)) then (u32 (Z.shiftl x w), r - w) else (x, r).

Definition generic_fls (x : Z) : Z :=
  if negb (truthy x) then 0
  else
    let s := (x, 32) in
    let s := fls_halve 0xffff0000 16 s in
    let s := fls_halve 0xff000000 8 s in
    let s := fls_halve 0xf0000000 4 s in
    let s := fls_halve 0xc0000000 2 s in
    let s := fls_halve 0x80000000 1 s in
    snd s.

(** asm-generic/bitops/fls64.h, BITS_PER_LONG == 32. *)
Definition fls64 (x : Z) : Z :=
  let h := u32 (Z.shiftr x 32) in
  if truthy h then fls h + 32 else fls (u32 x).

(** linux/bitops.h; [sizeof(l) == 4]. *)
Definition fls_long (l : Z) : Z := fls l.

Definition get_count_order (count : Z) : Z :=
  let order := fls count - 1 in
  if truthy (count .& (count ⊟ 1)) then order + 1 else order.

Definition get_count_order_long (l : Z) : Z :=
  if l =? 0 then -1
  else if truthy (l .& (l ⊟ 1)) then fls_long l
  else fls_long l - 1.

(** ** linux/log2.h *)

Definition __ilog2_u32 (n : Z) : Z := fls n - 1.
Definition __ilog2_u64 (n : Z) : Z := fls64 n - 1.

Definition is_power_of_2 (n : Z) : bool := negb (n =? 0) && ((n .& (n ⊟ 1)) =? 0).

(** [1UL << c]. *)
Definition shl1 (c : Z) : res Z :=
  let! _ := defined_if ((0 <=? c) && (c <? 32)) in
  Ok (Z.shiftl 1 c).

Definition __roundup_pow_of_two (n : Z) : res Z := shl1 (fls_long (n ⊟ 1)).
Definition __rounddown_pow_of_two (n : Z) : res Z := shl1 (fls_long n - 1).

(** The constant ladder of [ilog2]: test bit 63, then 62, ... down to 0;
    [____ilog2_NaN] (declared [noreturn], never defined) is [None]. *)
Fixpoint ilog2_ladder (n : Z) (k : nat) : option Z :=
  if truthy (n .& Z.shiftl 1 (Z.of_nat k)) then Some (Z.of_nat k)
  else match k with O => None | S k' => ilog2_ladder n k' end.

Definition ilog2_const (n : Z) : option Z :=
  if n <? 1 then None else ilog2_ladder n 63.

(** [ilog2(n)]: [const] says whether the compiler knows [n], [size] is
    [sizeof(n)]. *)
Definition ilog2 (const : bool) (size n : Z) : option Z :=
  if const then ilog2_const n
  else if size <=? 4 then Some (__ilog2_u32 n) else Some (__ilog2_u64 n).

Definition roundup_pow_of_two (const : bool) (n : Z) : res Z :=
  if const then
    if n =? 1 then Ok 1
    else match ilog2 true 4 (n - 1) with
         | Some l => shl1 (l + 1)
         | None => Err UB
         end
  else __roundup_pow_of_two n.

Definition rounddown_pow_of_two (const : bool) (n : Z) : res Z :=
  if const then
    match ilog2 true 4 n with Some l => shl1 l | None => Err UB end
  else __rounddown_pow_of_two n.

Definition order_base_2 (const : bool) (n : Z) : option Z :=
  match roundup_pow_of_two const n with
  | Ok p => ilog2 const 4 p
  | Err _ => None
  end.

(** ** Lemmas *)

Lemma fls_log2 x : 0 < x -> fls x = Z.log2 x + 1.
Proof. intros H. unfold fls, bsrl. ztest; lia. Qed.

Lemma log2_u32_bound x : 0 < x < W32 -> 0 <= Z.log2 x < 32.
Proof.
  intros H. split; [apply Z.log2_nonneg |]. apply Z.log2_lt_pow2; lia.
Qed.

(** [land] with the top bits keeps the multiple of [2^k] below the word. *)
Lemma land_top k x :
  0 <= k <= 32 -> 0 <= x < W32 ->
  Z.land x (W32 - 2 ^ k) = 2 ^ k * (x / 2 ^ k).
Proof.
  intros Hk Hx.
  replace (W32 - 2 ^ k) with (Z.shiftl (Z.ones (32 - k)) k).
  2: { rewrite Z.shiftl_mul_pow2, Z.ones_equiv by lia.
       rewrite <- Z.sub_1_r, Z.mul_sub_distr_r, <- Z.pow_add_r by lia.
       replace (32 - k + k) with 32 by lia. lia. }
  rewrite Z.mul_comm, <- Z.shiftr_div_pow2, <- Z.shiftl_mul_pow2 by lia.
  apply Z.bits_inj'. intros i Hi.
  rewrite Z.land_spec.
  destruct (Z.ltb_spec i k).
  - rewrite !Z.shiftl_spec_low by lia. apply andb_false_r.
  - rewrite !Z.shiftl_spec, Z.shiftr_spec by lia.
    replace (i - k + k) with i by lia.
    destruct (Z.ltb_spec i 32).
    + rewrite Z.ones_spec_low by lia. apply andb_true_r.
    + rewrite (Z.bits_above_log2 x i); [reflexivity | lia |].
      destruct (Z.eqb_spec x 0) as [->|]; [cbn; lia |].
      pose proof (log2_u32_bound x). lia.
Qed.

Lemma fls_halve_spec w x r x' r' :
  0 < w <= 16 -> 2 ^ (32 - 2 * w) <= x < W32 ->
  fls_halve (W32 - 2 ^ (32 - w)) w (x, r) = (x', r') ->
  2 ^ (32 - w) <= x' < W32 /\ Z.log2 x' + r' = Z.log2 x + r.
Proof.
  intros Hw [Hlo Hhi].
  assert (0 < x) by (pose proof (Z.pow_pos_nonneg 2 (32 - 2 * w)); lia).
  assert (0 < 2 ^ (32 - w)) by (apply Z.pow_pos_nonneg; lia).
  unfold fls_halve, truthy. rewrite land_top by lia.
  destruct (Z.eqb_spec (2 ^ (32 - w) * (x / 2 ^ (32 - w))) 0) as [E|E];
    cbn [negb]; intros [= <- <-].
  - assert (x / 2 ^ (32 - w) = 0) as Hq by nia.
    apply Z.div_small_iff in Hq; [|lia]. destruct Hq as [Hq|Hq]; [|lia].
    assert (2 ^ w * 2 ^ (32 - w) = W32) as Hm.
    { rewrite <- Z.pow_add_r by lia. now replace (w + (32 - w)) with 32 by lia. }
    assert (2 ^ w * 2 ^ (32 - 2 * w) = 2 ^ (32 - w)) as Hm2.
    { rewrite <- Z.pow_add_r by lia. f_equal. lia. }
    assert (0 < 2 ^ w) by (apply Z.pow_pos_nonneg; lia).
    rewrite u32_small; rewrite Z.shiftl_mul_pow2 by lia; [|nia].
    split; [nia |]. rewrite Z.log2_mul_pow2 by lia. lia.
  - assert (2 ^ (32 - w) <= x); [|lia].
    destruct (Z.le_gt_cases (2 ^ (32 - w)) x); [assumption | exfalso].
    apply E. rewrite (Z.div_small x) by lia. lia.
Qed.

Lemma fls64_log2 x : 0 < x < 2 ^ 64 -> fls64 x = Z.log2 x + 1.
Proof.
  intros Hx. unfold fls64, truthy.
  assert (x / 2 ^ 32 < W32) by (apply Z.div_lt_upper_bound; lia).
  assert (0 <= x / 2 ^ 32) by (apply Z.div_pos; lia).
  rewrite Z.shiftr_div_pow2, u32_small by lia.
  destruct (Z.eqb_spec (x / 2 ^ 32) 0) as [E|E]; cbn [negb].
  - apply Z.div_small_iff in E; [|lia]. destruct E as [E|E]; [|lia].
    rewrite u32_small by lia. apply fls_log2. lia.
  - rewrite fls_log2 by lia.
    assert (Z.log2 (x / 2 ^ 32) = Z.log2 x - 32); [|lia].
    rewrite <- Z.shiftr_div_pow2, Z.log2_shiftr by lia.
    assert (32 <= Z.log2 x); [|lia].
    apply Z.log2_le_pow2; [lia |].
    destruct (Z.le_gt_cases (2 ^ 32) x); [assumption |].
    contradict E. apply Z.div_small. lia.
Qed.

Lemma ilog2_ladder_log2 n k :
  0 < n < 2 ^ (Z.of_nat k + 1) -> ilog2_ladder n k = Some (Z.log2 n).
Proof.
  intros Hn. induction k as [|k IH]; cbn [ilog2_ladder]; unfold truthy.
  - replace n with 1 by (cbn in Hn; lia). reflexivity.
  - destruct (Z.le_gt_cases (2 ^ Z.of_nat (S k)) n) as [Hge|Hlt].
    + assert (Z.log2 n = Z.of_nat (S k)) as Hl.
      { apply Z.log2_unique; [lia |]. split; [lia |]. unfold Z.succ. lia. }
      destruct (Z.eqb_spec (Z.land n (Z.shiftl 1 (Z.of_nat (S k)))) 0) as [E|E];
        cbn [negb]; [exfalso | congruence].
      apply (f_equal (fun z => Z.testbit z (Z.of_nat (S k)))) in E.
      rewrite Z.land_spec, Z.shiftl_1_l, Z.pow2_bits_true, Z.bits_0, andb_true_r in E by lia.
      rewrite <- Hl, Z.bit_log2 in E by lia. discriminate.
    + replace (Z.land n (Z.shiftl 1 (Z.of_nat (S k)))) with 0; [cbn [Z.eqb negb] |].
      * apply IH. replace (Z.of_nat k + 1) with (Z.of_nat (S k)) by lia. lia.
      * symmetry. apply Z.bits_inj_0. intros i.
        rewrite Z.land_spec, Z.shiftl_1_l, Z.pow2_bits_eqb by lia.
        destruct (Z.eqb_spec (Z.of_nat (S k)) i) as [<-|]; [|apply andb_false_r].
        rewrite Z.bits_above_log2; [reflexivity | lia |].
        apply Z.log2_lt_pow2; lia.
Qed.

Lemma land_pred_pow2 n : 0 < n -> Z.land n (n - 1) = 0 -> n = 2 ^ Z.log2 n.
Proof.
  intros Hn Hl. destruct (Z.log2_spec n Hn) as [Hlo Hhi].
  destruct (Z.eq_dec n (2 ^ Z.log2 n)) as [|Hne]; [assumption | exfalso].
  assert (Z.log2 (n - 1) = Z.log2 n) as Hlog.
  { apply Z.log2_unique; [apply Z.log2_nonneg |]. lia. }
  apply (f_equal (fun z => Z.testbit z (Z.log2 n))) in Hl.
  rewrite Z.land_spec, Z.bits_0, Z.bit_log2 in Hl by lia.
  rewrite <- Hlog, Z.bit_log2 in Hl; [discriminate |].
  pose proof (Z.pow_pos_nonneg 2 (Z.log2 n)). pose proof (Z.log2_nonneg n). lia.
Qed.

Lemma land_pow2_pred k : 0 <= k -> Z.land (2 ^ k) (2 ^ k - 1) = 0.
Proof. intros Hk. rewrite land_mask by lia. apply Z.mod_same. apply Z.pow_nonzero; lia. Qed.

Lemma shl1_ok c : 0 <= c < 32 -> shl1 c = Ok (2 ^ c).
Proof.
  intros Hc. unfold shl1. ztest; try lia. cbn. now rewrite Z.shiftl_1_l.
Qed.

Lemma roundup_log2_up n :
  1 <= n <= 2 ^ 31 -> __roundup_pow_of_two n = Ok (2 ^ Z.log2_up n).
Proof.
  intros Hn. unfold __roundup_pow_of_two, fls_long.
  rewrite u32_small by lia.
  destruct (Z.eq_dec n 1) as [->|Hn1]; [reflexivity |].
  rewrite fls_log2, Z.log2_up_eqn by lia. rewrite <- Z.sub_1_r.
  rewrite shl1_ok; [f_equal; f_equal; lia |].
  split; [pose proof (Z.log2_nonneg (n - 1)); lia |].
  assert (Z.log2 (n - 1) < 31) by (apply Z.log2_lt_pow2; lia). lia.
Qed.

Lemma log2_up_bounds n : 1 < n -> n <= 2 ^ Z.log2_up n < 2 * n.
Proof.
  intros Hn. pose proof (Z.log2_up_spec n Hn). pose proof (Z.log2_up_pos n Hn).
  replace (Z.log2_up n) with (Z.succ (Z.pred (Z.log2_up n))) at 2 by lia.
  rewrite Z.pow_succ_r by lia. lia.
Qed.

Lemma roundup_ub n :
  0 <= n < W32 -> (n = 0 \/ 2 ^ 31 < n) -> __roundup_pow_of_two n = Err UB.
Proof.
  intros Hr Hn. unfold __roundup_pow_of_two, fls_long.
  assert (2 ^ 31 <= u32 (n - 1) < W32) as Hw by (split; [zmod | apply u32_range]).
  rewrite fls_log2 by lia.
  assert (Z.log2 (u32 (n - 1)) = 31) as ->; [|reflexivity].
  apply Z.log2_unique; lia.
Qed.

(** ** Properties *)

(** The portable binary-search [fls] of asm-generic/bitops/fls.h and the
    [bsrl]-based one the x86 build uses return the same position for every
    32-bit word, zero included. *)
Theorem generic_fls_equiv x : 0 <= x < W32 -> generic_fls x = fls x.
Proof.
  intros Hx. unfold generic_fls, truthy.
  destruct (Z.eqb_spec x 0) as [->|Hnz]; [reflexivity |]. cbn [negb].
  rewrite fls_log2 by lia.
  destruct (fls_halve 0xffff0000 16 (x, 32)) as [x1 r1] eqn:E1.
  apply (fls_halve_spec 16) in E1 as [R1 I1]; [|lia..].
  destruct (fls_halve 0xff000000 8 (x1, r1)) as [x2 r2] eqn:E2.
  apply (fls_halve_spec 8) in E2 as [R2 I2]; [|lia..].
  destruct (fls_halve 0xf0000000 4 (x2, r2)) as [x3 r3] eqn:E3.
  apply (fls_halve_spec 4) in E3 as [R3 I3]; [|lia..].
  destruct (fls_halve 0xc0000000 2 (x3, r3)) as [x4 r4] eqn:E4.
  apply (fls_halve_spec 2) in E4 as [R4 I4]; [|lia..].
  destruct (fls_halve 0x80000000 1 (x4, r4)) as [x5 r5] eqn:E5.
  apply (fls_halve_spec 1) in E5 as [R5 I5]; [|lia..].
  cbn [snd]. rewrite (Z.log2_unique x5 31) in I5 by lia. lia.
Qed.

Lemma generic_fls_equiv_witness : generic_fls 0x12345 = fls 0x12345 /\ fls 0x12345 = 17.
Proof. split; [apply (generic_fls_equiv 0x12345); lia | reflexivity]. Defined.

(** [roundup_pow_of_two] on a run-time value is the least power of two at
    or above its argument, for every argument it is defined on; it is
    undefined (the shift count is 32) exactly at 0, as its comment says, and
    above 2^31, which the comment does not say. *)
Theorem roundup_pow_of_two_spec n :
  0 <= n < W32 ->
  (1 <= n <= 2 ^ 31 ->
     exists k, 0 <= k <= 31 /\ roundup_pow_of_two false n = Ok (2 ^ k) /\
       n <= 2 ^ k /\ forall j, 0 <= j -> n <= 2 ^ j -> 2 ^ k <= 2 ^ j) /\
  ((n = 0 \/ 2 ^ 31 < n) -> roundup_pow_of_two false n = Err UB).
Proof.
  intros Hr. split; [intros Hn | now apply roundup_ub].
  exists (Z.log2_up n). unfold roundup_pow_of_two. rewrite roundup_log2_up by lia.
  split; [|split; [reflexivity|]].
  - split; [apply Z.log2_up_nonneg |]. apply Z.log2_up_le_pow2; lia.
  - split.
    + destruct (Z.eq_dec n 1) as [->|]; [cbn; lia |]. apply Z.log2_up_spec. lia.
    + intros j Hj Hle. apply Z.pow_le_mono_r; [lia |]. apply Z.log2_up_le_pow2; lia.
Qed.

Lemma roundup_pow_of_two_spec_witness :
  roundup_pow_of_two false 100 = Ok 128 /\ roundup_pow_of_two false (2 ^ 31 + 1) = Err UB.
Proof.
  split; [reflexivity |]. apply (roundup_pow_of_two_spec (2 ^ 31 + 1)); lia.
Defined.

(** For an argument the compiler knows, [ilog2] walks a 64-rung ladder of
    bit tests; for one it does not, it uses [fls]/[fls64].  Both ways give the
    floor of the base-2 logarithm, at both widths. *)
Theorem ilog2_const_runtime_agree n :
  (0 < n < 2 ^ 64 -> ilog2 true 8 n = ilog2 false 8 n /\ ilog2 false 8 n = Some (Z.log2 n)) /\
  (0 < n < W32 -> ilog2 true 4 n = ilog2 false 4 n /\ ilog2 false 4 n = Some (Z.log2 n)).
Proof.
  split; intros Hn; unfold ilog2, ilog2_const, __ilog2_u32, __ilog2_u64;
    (rewrite ilog2_ladder_log2 by lia); ztest; try lia.
  - rewrite fls64_log2 by lia. split; f_equal; lia.
  - rewrite fls_log2 by lia. split; f_equal; lia.
Qed.

(** [is_power_of_2] decides being a power of two. *)
Lemma is_power_of_2_iff n :
  0 <= n < W32 -> is_power_of_2 n = true <-> exists k, 0 <= k /\ n = 2 ^ k.
Proof.
  intros Hr. unfold is_power_of_2. rewrite andb_true_iff, negb_true_iff, Z.eqb_neq, Z.eqb_eq.
  split.
  - intros [Hn Hl]. rewrite u32_small in Hl by lia.
    exists (Z.log2 n). split; [apply Z.log2_nonneg |]. apply land_pred_pow2; [lia | assumption].
  - intros (k & Hk & ->). pose proof (Z.pow_pos_nonneg 2 k).
    rewrite u32_small by lia. split; [lia | now apply land_pow2_pred].
Qed.

End Log2.
