(* ===== verification/Memory.v ===== *)
(** * Memory, kmalloc and user copies

    The byte memory the fifo and driver code works on, the allocator of
    src/libs/liblinux/src/kmalloc.c with the inline wrappers of linux/slab.h,
    and the user-space copies of src/libs/liblinux/src/mem.c with their
    wrappers of x86/asm/uaccess.h.

    Memory is a finite map from the base address of an object to its bytes; a
    pointer is a base address with an offset.  [dyn] records which objects come
    from the allocator, since only those may be freed.  An access outside an
    object is undefined behaviour.  [malloc] is not under src/: it is the
    [Allocator] parameter, and [AllocatorLaws] states what C promises of it. *)

From S2P Require Import Prelude Bytes.
Import Bytes.

Record ptr := Ptr { blk : Z; ofs : Z }.

#[global] Instance ptr_eq_dec : EqDecision ptr.
Proof. solve_decision. Defined.

Record mem := Mem { blocks : gmap Z (list Z); dyn : gset Z }.

Definition NULL : ptr := Ptr 0 0.
Definition is_null (p : ptr) : bool := bool_decide (p = NULL).
Definition padd (p : ptr) (n : Z) : ptr := Ptr (blk p) (ofs p + n).

Module Memory.

(** ** Access *)

Definition in_bounds (D : list Z) (o n : Z) : bool :=
  (0 <=? o) && (0 <=? n) && (o + n <=? zlen D).

Definition load (m : mem) (p : ptr) (n : Z) : res (list Z) :=
  match blocks m !! blk p with
  | Some D =>
      let! _ := defined_if (in_bounds D (ofs p) n) in
      Ok (read_at D (Z.to_nat (ofs p)) (Z.to_nat n))
  | None => Err UB
  end.

Definition store (m : mem) (p : ptr) (bs : list Z) : res mem :=
  match blocks m !! blk p with
  | Some D =>
      let! _ := defined_if (in_bounds D (ofs p) (zlen bs)) in
      Ok (Mem (<[blk p := write_at D (Z.to_nat (ofs p)) bs]> (blocks m)) (dyn m))
  | None => Err UB
  end.

(** [memcpy] on overlapping ranges is undefined. *)
Definition overlaps (p q : ptr) (n : Z) : bool :=
  (blk p =? blk q) && (ofs p <? ofs q + n) && (ofs q <? ofs p + n).

Definition memcpy (m : mem) (dst src : ptr) (n : Z) : res mem :=
  let! bs := load m src n in
  let! _ := defined_if (negb (overlaps dst src n)) in
  store m dst bs.

Definition memset (m : mem) (dst : ptr) (c n : Z) : res mem :=
  store m dst (replicate (Z.to_nat n) (u8 c)).

(** ** The allocator *)

(** [malloc m n] is the address and the (indeterminate) initial bytes of the
    block it returns in state [m], or [None] for NULL. *)
Class Allocator := malloc : mem -> Z -> option (Z * list Z).

Class AllocatorLaws (A : Allocator) : Prop := {
  malloc_fresh m n a bs : malloc m n = Some (a, bs) -> a <> 0 /\ blocks m !! a = None;
  malloc_size m n a bs : 0 <= n -> malloc m n = Some (a, bs) -> zlen bs = n
}.

Definition free (m : mem) (p : ptr) : res mem :=
  let! _ := defined_if (bool_decide (blk p ∈ dyn m) && (ofs p =? 0)) in
  Ok (Mem (delete (blk p) (blocks m)) (dyn m ∖ {[blk p]})).

(** linux/gfp.h *)
Definition __GFP_ZERO : Z := 0x8000.
Definition GFP_KERNEL : Z := 0x24000c0.
Definition GFP_USER : Z := 0x24200c0.

Definition KMALLOC_MAX_CACHE_SIZE : Z := 4096.
Definition SIZE_MAX : Z := W32 - 1.

Section Kmalloc.
Context {A : Allocator}.

(** [kmalloc_large] of linux/slab.h hands to [kmalloc_order_trace], which is
    not in the tree. *)
Variable kmalloc_large : mem -> Z -> Z -> res (mem * ptr).

(** src/kmalloc.c *)
Definition __kmalloc (m : mem) (size flags : Z) : res (mem * ptr) :=
  match malloc m size with
  | None => Ok (m, NULL)
  | Some (a, bs) =>
      let m := Mem (<[a := bs]> (blocks m)) ({[a]} ∪ dyn m) in
      let p := Ptr a 0 in
      if truthy (__GFP_ZERO .& flags) then
        let! m := memset m p 0 size in
        Ok (m, p)
      else Ok (m, p)
  end.

Definition kmem_cache_alloc_trace (c flags s : Z) : ptr := NULL.

Definition kfree (m : mem) (p : ptr) : res mem :=
  if negb (is_null p) then free m p else Ok m.

(** linux/slab.h under CONFIG_SLOB (so without the size-class branch);
    [const] is what [__builtin_constant_p] says of the size. *)
Definition kmalloc (const : bool) (m : mem) (size flags : Z) : res (mem * ptr) :=
  if const && (KMALLOC_MAX_CACHE_SIZE <? size) then kmalloc_large m size flags
  else __kmalloc m size flags.

Definition kmalloc_array (const : bool) (m : mem) (n size flags : Z) : res (mem * ptr) :=
  if negb (size =? 0) && (SIZE_MAX / size <? n) then Ok (m, NULL)
  else if const then kmalloc const m (n ⊠ size) flags
  else __kmalloc m (n ⊠ size) flags.

Definition kcalloc (const : bool) (m : mem) (n size flags : Z) : res (mem * ptr) :=
  kmalloc_array const m n size (flags .| __GFP_ZERO).

Definition kzalloc (const : bool) (m : mem) (size flags : Z) : res (mem * ptr) :=
  kmalloc const m size (flags .| __GFP_ZERO).
End Kmalloc.

(** ** User copies *)

(** src/mem.c *)
Definition _copy_from_user (m : mem) (dest src : ptr) (s : Z) : res (mem * Z) :=
  let! m := memcpy m dest src s in
  Ok (m, 0).

Definition _copy_to_user (m : mem) (dest src : ptr) (s : Z) : res (mem * Z) :=
  let! m := memcpy m dest src s in
  Ok (m, 0).

(** x86/asm/uaccess.h: [sz] is [__compiletime_object_size(to)], -1 when the
    compiler does not know it; the overflow branch only warns. *)
Definition copy_from_user (sz : Z) (m : mem) (to from : ptr) (n : Z) : res (mem * Z) :=
  if (sz <? 0) || (n <=? sz) then _copy_from_user m to from n
  else Ok (m, n).

(** The tree's version sets [int sz = n], so the test always passes. *)
Definition copy_to_user (m : mem) (to from : ptr) (n : Z) : res (mem * Z) :=
  let sz := s32 n in
  if (sz <? 0) || (n <=? sz) then _copy_to_user m to from n
  else Ok (m, n).

(** What a client may rely on of a user copy: it returns how many of the
    trailing bytes it did not copy; the copied prefix is exact, the rest of the
    target range is unspecified, and no other byte moves. *)
Definition copies (m : mem) (dst src : ptr) (n : Z) (m' : mem) (r : Z) : Prop :=
  exists D S pad,
    blocks m !! blk dst = Some D /\ blocks m !! blk src = Some S /\
    0 <= r <= n /\ zlen pad = r /\
    m' = Mem (<[blk dst := write_at D (Z.to_nat (ofs dst))
                (read_at S (Z.to_nat (ofs src)) (Z.to_nat (n - r)) ++ pad)]> (blocks m)) (dyn m).

Definition user_copy : Type := mem -> ptr -> ptr -> Z -> res (mem * Z).

Class UserCopy (cp : user_copy) : Prop := {
  user_copy_spec m dst src n D S :
    blocks m !! blk dst = Some D -> blocks m !! blk src = Some S ->
    blk dst <> blk src -> n < W32 ->
    in_bounds D (ofs dst) n = true -> in_bounds S (ofs src) n = true ->
    exists m' r, cp m dst src n = Ok (m', r) /\ copies m dst src n m' r
}.

(** ** Lemmas on access *)

Lemma padd_padd p a b : padd (padd p a) b = padd p (a + b).
Proof. unfold padd. cbn. f_equal. lia. Qed.

Lemma in_bounds_iff D o n :
  in_bounds D o n = true <-> 0 <= o /\ 0 <= n /\ o + n <= zlen D.
Proof. unfold in_bounds. rewrite !andb_true_iff, !Z.leb_le. tauto. Qed.

Lemma zlen_read_at D o n :
  in_bounds D o n = true -> zlen (read_at D (Z.to_nat o) (Z.to_nat n)) = n.
Proof. rewrite in_bounds_iff. unfold zlen. intros H. rewrite length_read_at; lia. Qed.

Lemma load_ok m p n D :
  blocks m !! blk p = Some D -> in_bounds D (ofs p) n = true ->
  load m p n = Ok (read_at D (Z.to_nat (ofs p)) (Z.to_nat n)).
Proof. intros H Hb. unfold load. now rewrite H, Hb. Qed.

Lemma store_ok m p bs D :
  blocks m !! blk p = Some D -> in_bounds D (ofs p) (zlen bs) = true ->
  store m p bs = Ok (Mem (<[blk p := write_at D (Z.to_nat (ofs p)) bs]> (blocks m)) (dyn m)).
Proof. intros H Hb. unfold store. now rewrite H, Hb. Qed.

Lemma memcpy_ok m dst src n D S :
  blocks m !! blk dst = Some D -> blocks m !! blk src = Some S -> blk dst <> blk src ->
  in_bounds D (ofs dst) n = true -> in_bounds S (ofs src) n = true ->
  memcpy m dst src n =
    Ok (Mem (<[blk dst := write_at D (Z.to_nat (ofs dst))
               (read_at S (Z.to_nat (ofs src)) (Z.to_nat n))]> (blocks m)) (dyn m)).
Proof.
  intros HD HS Hne Hbd Hbs. unfold memcpy.
  rewrite (load_ok _ _ _ S) by assumption. cbn [rbind].
  unfold overlaps. destruct (Z.eqb_spec (blk dst) (blk src)); [congruence | cbn].
  apply store_ok; [assumption |]. now rewrite zlen_read_at.
Qed.

(** ** Writing a byte string to memory *)

(** The memory with the bytes at [p] replaced. *)
Definition put_bytes (m : mem) (p : ptr) (bs : list Z) : mem :=
  match blocks m !! blk p with
  | Some B => Mem (<[blk p := write_at B (Z.to_nat (ofs p)) bs]> (blocks m)) (dyn m)
  | None => m
  end.

(** [n] accessible bytes at [p]. *)
Definition valid_at (m : mem) (p : ptr) (n : Z) : Prop :=
  exists B, blocks m !! blk p = Some B /\ in_bounds B (ofs p) n = true.

(** [m'] differs from [m] at most inside the block at [b]. *)
Definition only_block (b : Z) (m m' : mem) : Prop :=
  dyn m' = dyn m /\ forall b', b' <> b -> blocks m' !! b' = blocks m !! b'.

Lemma load_inv m p n bs :
  load m p n = Ok bs ->
  exists D, blocks m !! blk p = Some D /\ in_bounds D (ofs p) n = true /\
    bs = read_at D (Z.to_nat (ofs p)) (Z.to_nat n).
Proof.
  unfold load. destruct (blocks m !! blk p) as [D|] eqn:HD; [|discriminate].
  destruct (in_bounds D (ofs p) n) eqn:Hb; cbn; [|discriminate].
  intros [= <-]. eauto.
Qed.

Lemma load_length m p n bs : load m p n = Ok bs -> length bs = Z.to_nat n.
Proof.
  intros (D & _ & Hb & ->)%load_inv. apply in_bounds_iff in Hb. unfold zlen in Hb.
  apply length_read_at. lia.
Qed.

Lemma load_valid m p n : valid_at m p n -> exists bs, load m p n = Ok bs.
Proof. intros (B & HB & Hb). eauto using load_ok. Qed.

Lemma load_nonneg m p n bs : load m p n = Ok bs -> 0 <= n.
Proof. intros (D & _ & Hb & _)%load_inv. apply in_bounds_iff in Hb. lia. Qed.

Lemma load_split m p n bs l :
  load m p n = Ok bs -> 0 <= l <= n ->
  load m p l = Ok (take (Z.to_nat l) bs) /\
  load m (padd p l) (n - l) = Ok (drop (Z.to_nat l) bs).
Proof.
  intros (D & HD & Hb & ->)%load_inv Hl. apply in_bounds_iff in Hb.
  rewrite read_at_take, read_at_drop by lia. split.
  - apply load_ok; [assumption | apply in_bounds_iff; lia].
  - rewrite (load_ok _ _ _ D); [|assumption | apply in_bounds_iff; cbn; lia].
    f_equal. f_equal; cbn; lia.
Qed.

Lemma valid_split m p n l :
  valid_at m p n -> 0 <= l <= n -> valid_at m p l /\ valid_at m (padd p l) (n - l).
Proof.
  intros (B & HB & Hb) Hl. apply in_bounds_iff in Hb.
  split; exists B; (split; [assumption | apply in_bounds_iff; cbn; lia]).
Qed.

Lemma put_bytes_only m p bs : only_block (blk p) m (put_bytes m p bs).
Proof.
  unfold put_bytes. destruct (blocks m !! _) as [D|]; split; try reflexivity.
  intros b' Hb. cbn. now rewrite lookup_insert_ne by congruence.
Qed.

(** Only the block written to matters. *)
Lemma put_bytes_ext m m' p bs :
  blocks m !! blk p = blocks m' !! blk p -> blocks (put_bytes m p bs) !! blk p = blocks (put_bytes m' p bs) !! blk p.
Proof.
  intros E. unfold put_bytes. rewrite E. destruct (blocks m' !! _) as [D|] eqn:E'; cbn; [now rewrite !lookup_insert_eq | congruence].
Qed.

Lemma load_only_block b m m' p n :
  only_block b m m' -> blk p <> b -> load m' p n = load m p n.
Proof. intros [_ H] Hne. unfold load. now rewrite H. Qed.

Lemma valid_only_block b m m' p n :
  only_block b m m' -> blk p <> b -> valid_at m p n -> valid_at m' p n.
Proof. intros [_ H] Hne (B & HB & Hb). exists B. now rewrite H. Qed.

Lemma only_block_trans b m1 m2 m3 :
  only_block b m1 m2 -> only_block b m2 m3 -> only_block b m1 m3.
Proof.
  intros [D1 B1] [D2 B2]. split; [congruence |]. intros b' Hb'. rewrite B2, B1; auto.
Qed.

Lemma load_put_other m p q bs n :
  blk p <> blk q -> load (put_bytes m q bs) p n = load m p n.
Proof.
  intros Hne. destruct (put_bytes_only m q bs) as [_ H]. unfold load. now rewrite H.
Qed.

Lemma valid_put m p q bs n :
  valid_at m q (zlen bs) -> valid_at m p n -> valid_at (put_bytes m q bs) p n.
Proof.
  intros (B & HB & HbB) (P & HP & HbP). unfold put_bytes, valid_at. rewrite HB. cbn.
  apply in_bounds_iff in HbB. unfold zlen in HbB.
  destruct (decide (blk p = blk q)) as [E|E].
  - rewrite E, lookup_insert_eq. rewrite E, HB in HP. injection HP as <-.
    eexists. split; [reflexivity |]. apply in_bounds_iff in HbP. apply in_bounds_iff.
    unfold zlen in *. rewrite length_write_at; lia.
  - rewrite lookup_insert_ne by congruence. eauto.
Qed.

Lemma load_put_bytes m p n bs :
  valid_at m p n -> length bs = Z.to_nat n -> load (put_bytes m p bs) p n = Ok bs.
Proof.
  intros (B & HB & Hb) Hl. apply in_bounds_iff in Hb. unfold zlen in Hb.
  unfold put_bytes. rewrite HB. erewrite load_ok; [|apply lookup_insert_eq|].
  - f_equal. rewrite <- Hl. apply read_write_same. lia.
  - apply in_bounds_iff. unfold zlen. rewrite length_write_at; lia.
Qed.

Lemma put_bytes_app m p b1 b2 :
  valid_at m p (zlen b1 + zlen b2) ->
  put_bytes (put_bytes m p b1) (padd p (zlen b1)) b2 = put_bytes m p (b1 ++ b2).
Proof.
  intros (B & HB & Hb). apply in_bounds_iff in Hb. unfold zlen in *.
  unfold put_bytes. rewrite HB. cbn. rewrite lookup_insert_eq, insert_insert_eq.
  do 2 f_equal. replace (Z.to_nat (ofs p + _)) with (Z.to_nat (ofs p) + length b1)%nat by lia.
  apply write_at_app. lia.
Qed.

Lemma store_put m p bs :
  valid_at m p (zlen bs) -> store m p bs = Ok (put_bytes m p bs).
Proof.
  intros (B & HB & Hb). rewrite (store_ok _ _ _ B) by assumption.
  unfold put_bytes. now rewrite HB.
Qed.

Lemma memcpy_put m dst src n bs :
  load m src n = Ok bs -> blk dst <> blk src -> valid_at m dst n ->
  memcpy m dst src n = Ok (put_bytes m dst bs).
Proof.
  intros (S & HS & HbS & ->)%load_inv Hne (D & HD & HbD).
  rewrite (memcpy_ok _ _ _ _ D S) by assumption. unfold put_bytes. now rewrite HD.
Qed.

(** What [UserCopy] gives, in the same terms. *)
Lemma user_copy_put cp m dst src n bs :
  UserCopy cp -> load m src n = Ok bs -> blk dst <> blk src -> n < W32 -> valid_at m dst n ->
  exists r pad, 0 <= r <= n /\ zlen pad = r /\
    cp m dst src n = Ok (put_bytes m dst (take (Z.to_nat (n - r)) bs ++ pad), r).
Proof.
  intros Hcp (S & HS & HbS & ->)%load_inv Hne Hn (D & HD & HbD).
  destruct (user_copy_spec m dst src n D S) as (m' & r & -> & D' & S' & pad & HD' & HS' & Hr & Hp & ->);
    try assumption.
  rewrite HD in HD'. rewrite HS in HS'. injection HD' as <-. injection HS' as <-.
  exists r, pad. unfold put_bytes. rewrite HD, read_at_take by lia. auto.
Qed.

(** ** The tree's user copies meet the client interface *)

Lemma memcpy_user_copy (cp : user_copy) :
  (forall m d s n, 0 <= n < W32 -> cp m d s n = (let! m := memcpy m d s n in Ok (m, 0))) ->
  UserCopy cp.
Proof.
  intros Hcp. split. intros m dst src n D S HD HS Hne Hn Hbd Hbs.
  pose proof (proj1 (in_bounds_iff _ _ _) Hbd).
  rewrite Hcp, (memcpy_ok _ _ _ _ D S) by (assumption || lia). cbn [rbind].
  eexists _, 0. split; [reflexivity |]. exists D, S, [].
  repeat split; try assumption; try lia.
  now rewrite Z.sub_0_r, app_nil_r.
Qed.

#[export] Instance copy_from_user_ok : UserCopy (copy_from_user (-1)).
Proof. apply memcpy_user_copy. reflexivity. Qed.

#[export] Instance copy_to_user_ok : UserCopy copy_to_user.
Proof.
  apply memcpy_user_copy. intros m d s n Hn. unfold copy_to_user, s32.
  rewrite u32_small by lia. destruct (Z.ltb_spec n 2147483648).
  - destruct (Z.leb_spec n n); [now rewrite orb_true_r | lia].
  - destruct (Z.ltb_spec (n - W32) 0); [reflexivity | lia].
Qed.

(** ** The allocator *)

(** A bump allocator over a heap of bounded size, to run the model with: it
    returns addresses past every live block and refuses once [limit] is
    passed. *)
Definition next_addr (m : mem) : Z :=
  set_fold (fun k r => Z.max (k + 1) r) 4096 (dom (blocks m)).

Definition bump_malloc (limit : Z) : Allocator := fun m n =>
  if (n <? 0) || (limit <? next_addr m + n) then None
  else Some (next_addr m, replicate (Z.to_nat n) 0xa5).

Lemma next_addr_fresh m k : k ∈ dom (blocks m) -> k < next_addr m.
Proof.
  unfold next_addr. generalize (dom (blocks m)) as X. intros X. revert k.
  apply (set_fold_ind_L (fun (r : Z) (X : gset Z) => forall k : Z, k ∈ X -> k < r)); [set_solver |].
  intros x Y r Hx IH k [->%elem_of_singleton|Hk]%elem_of_union; [lia |].
  specialize (IH k Hk). lia.
Qed.

Lemma next_addr_pos m : 4096 <= next_addr m.
Proof.
  unfold next_addr.
  apply (set_fold_ind_L (fun (r : Z) (_ : gset Z) => 4096 <= r)); [lia |]. intros. lia.
Qed.

#[export] Instance bump_malloc_laws limit : AllocatorLaws (bump_malloc limit).
Proof.
  split; intros m n a bs; unfold malloc, bump_malloc.
  - destruct (_ || _); intros [= <- <-].
    pose proof (next_addr_pos m). split; [lia |].
    apply not_elem_of_dom. intros Hin%next_addr_fresh. lia.
  - intros Hn. destruct (_ || _); intros [= <- <-].
    unfold zlen. rewrite length_replicate. lia.
Qed.

Section KmallocFacts.
Context {A : Allocator} {L : AllocatorLaws A}.

(** What a successful allocation leaves behind. *)
Definition fresh_block (m : mem) (size flags : Z) (m' : mem) (p : ptr) : Prop :=
  ofs p = 0 /\ blk p <> 0 /\ blocks m !! blk p = None /\ dyn m' = {[blk p]} ∪ dyn m /\
  (exists bs, blocks m' = <[blk p := bs]> (blocks m) /\ zlen bs = size /\
    (truthy (__GFP_ZERO .& flags) = true -> bs = replicate (Z.to_nat size) 0)).

Lemma write_at_all D bs : length bs = length D -> write_at D 0 bs = bs.
Proof.
  intros H. unfold write_at. rewrite take_0, drop_ge by (cbn; lia). now rewrite app_nil_r.
Qed.

Lemma __kmalloc_ok m size flags :
  0 <= size ->
  exists m' p, __kmalloc m size flags = Ok (m', p) /\
    (malloc m size = None -> m' = m /\ p = NULL) /\
    (malloc m size <> None -> fresh_block m size flags m' p).
Proof.
  intros Hs. unfold __kmalloc.
  destruct (malloc m size) as [[a bs]|] eqn:E.
  2: { exists m, NULL. split; [reflexivity | split; [auto | congruence]]. }
  pose proof (malloc_fresh _ _ _ _ E) as [Ha Hn].
  pose proof (malloc_size _ _ _ _ Hs E) as Hl.
  unfold fresh_block.
  destruct (truthy (__GFP_ZERO .& flags)) eqn:Hz.
  - unfold memset. erewrite store_ok; cycle 1.
    + cbn. apply lookup_insert_eq.
    + apply in_bounds_iff. unfold zlen in *. cbn. rewrite length_replicate. lia.
    + cbn [rbind]. eexists _, _. split; [reflexivity |]. split; [congruence |].
      intros _. cbn. repeat split; try assumption.
      exists (replicate (Z.to_nat size) 0). rewrite insert_insert_eq.
      rewrite write_at_all by (rewrite length_replicate; unfold zlen in *; lia).
      repeat split. unfold zlen. rewrite length_replicate. lia.
  - eexists _, _. split; [reflexivity |]. split; [congruence |].
    intros _. cbn. repeat split; try assumption.
    exists bs. repeat split; [assumption | congruence].
Qed.


(** Releasing a fresh block gives the old memory back. *)
Lemma kfree_fresh m size flags m' p :
  dyn m ⊆ dom (blocks m) -> fresh_block m size flags m' p -> kfree m' p = Ok m.
Proof.
  intros Hd (Ho & Hnz & Hfr & Hdyn & bs & Hblk & _). unfold kfree, is_null, free.
  rewrite bool_decide_eq_false_2 by (intros ->; now apply Hnz). cbn [negb].
  rewrite bool_decide_eq_true_2 by set_solver. rewrite Ho. cbn [andb Z.eqb defined_if rbind].
  rewrite Hblk, Hdyn, delete_insert_eq, delete_id by assumption.
  assert (blk p ∉ dyn m) by (apply not_elem_of_dom in Hfr; set_solver).
  destruct m as [b d]. cbn in *. do 2 f_equal. set_solver.
Qed.
End KmallocFacts.

(** [kcalloc] cannot be tricked by a product that does not fit a word: such
    a request gives NULL and leaves the memory alone.  Otherwise, when [malloc]
    can serve it, the block is fresh and holds [n * size] zero bytes, and
    [kfree] of it gives exactly the memory before the allocation. *)
Theorem kcalloc_spec (A : Allocator) (L : AllocatorLaws A) large m n size flags :
  0 <= n < W32 -> 0 <= size < W32 -> dyn m ⊆ dom (blocks m) ->
  exists m' p, kcalloc large false m n size flags = Ok (m', p) /\
    (W32 <= n * size -> p = NULL /\ m' = m) /\
    (n * size < W32 -> malloc m (n * size) <> None ->
       blocks m !! blk p = None /\ kfree m' p = Ok m /\
       load m' p (n * size) = Ok (replicate (Z.to_nat (n * size)) 0)) /\
    (n * size < W32 -> malloc m (n * size) = None -> p = NULL /\ m' = m).
Proof.
  intros Hn Hs Hd. unfold kcalloc, kmalloc_array, SIZE_MAX.
  assert (negb (size =? 0) && ((W32 - 1) / size <? n) = (W32 <=? n * size)) as ->.
  { destruct (Z.eqb_spec size 0) as [->|Hz]; cbn [negb andb]; [ztest; lia |].
    pose proof (Z.div_mod (W32 - 1) size Hz). pose proof (Z.mod_pos_bound (W32 - 1) size ltac:(lia)).
    ztest; nia. }
  destruct (Z.leb_spec W32 (n * size)) as [Hb|Hb].
  { exists m, NULL. repeat split; lia. }
  rewrite u32_small by nia.
  destruct (__kmalloc_ok m (n * size) (flags .| __GFP_ZERO)) as (m' & p & -> & Hnone & Hsome); [nia |].
  exists m', p. split; [reflexivity |]. split; [lia | split]; intros _ Hm; [|destruct (Hnone Hm); auto].
  pose proof (Hsome Hm) as Hf. split; [apply Hf | split; [now apply (kfree_fresh m _ _ _ _ Hd Hf) |]].
  destruct Hf as (Ho & _ & _ & _ & bs & Hblk & Hlen & Hzero).
  rewrite (load_ok _ _ _ bs).
  - rewrite Ho, Hzero.
    + f_equal. unfold read_at. rewrite drop_0. apply take_ge. rewrite length_replicate. lia.
    + rewrite Z.land_lor_distr_r. unfold truthy. change (__GFP_ZERO .& __GFP_ZERO) with __GFP_ZERO.
      destruct (Z.eqb_spec (Z.lor (__GFP_ZERO .& flags) __GFP_ZERO) 0) as [E|]; [|reflexivity].
      apply Z.lor_eq_0_iff in E as [_ E]. discriminate.
  - rewrite Hblk. apply lookup_insert_eq.
  - apply in_bounds_iff. nia.
Qed.

Lemma kcalloc_spec_witness :
  let m := Mem {[ 64 := [1; 2] ]} ∅ in
  (exists m' p, kcalloc (A := bump_malloc 65536) (fun m _ _ => Ok (m, NULL)) false m 3 4 GFP_KERNEL = Ok (m', p) /\
     kfree m' p = Ok m /\ load m' p 12 = Ok (replicate 12 0)) /\
  kcalloc (A := bump_malloc 65536) (fun m _ _ => Ok (m, NULL)) false m 65536 65537 GFP_KERNEL = Ok (m, NULL).
Proof.
  intros m. split.
  - destruct (kcalloc_spec (bump_malloc 65536) _ (fun m _ _ => Ok (m, NULL)) m 3 4 GFP_KERNEL)
      as (m' & p & E & _ & H & _); [lia | lia | set_solver |].
    destruct H as (_ & Hk & Hl); [lia | vm_compute; discriminate |].
    exists m', p. split; [exact E | split; [exact Hk | exact Hl]].
  - destruct (kcalloc_spec (bump_malloc 65536) _ (fun m _ _ => Ok (m, NULL)) m 65536 65537 GFP_KERNEL)
      as (m' & p & E & H & _); [lia | lia | set_solver |].
    destruct H as [-> ->]; [lia |]. exact E.
Defined.

End Memory.
