(* ===== verification/Kfifo.v ===== *)
(** * The kfifo ring buffer

    Models the element-wise half of src/libs/liblinux/src/fifo.c: allocation,
    initialisation, release, [__kfifo_in], [__kfifo_out_peek], [__kfifo_out]
    and the copy loops under them.  The indices [in] and [out] run freely
    through the 32-bit words and are only masked on access ("let the indices
    wrap"), sizes in bytes are products of words, and both [memcpy] calls of a
    copy go through the bounds-checked memory of Memory.v. *)

From S2P Require Import Prelude Bytes Log2 Memory.
Import Bytes Log2 Memory.

(** struct __kfifo of linux/kfifo.h *)
Record kfifo := Kfifo {
  k_in : Z;
  k_out : Z;
  k_mask : Z;
  k_esize : Z;
  k_data : ptr
}.

Module Kfifo.

(** ** Operations *)

Definition set_in (f : kfifo) (i : Z) : kfifo :=
  Kfifo i (k_out f) (k_mask f) (k_esize f) (k_data f).
Definition set_out (f : kfifo) (o : Z) : kfifo :=
  Kfifo (k_in f) o (k_mask f) (k_esize f) (k_data f).

Definition kfifo_unused (f : kfifo) : Z :=
  (k_mask f ⊞ 1) ⊟ (k_in f ⊟ k_out f).

(** [kmalloc] with a run-time size is [__kmalloc]. *)
Definition __kfifo_alloc {A : Allocator} (m : mem) (f : kfifo) (size esize gfp_mask : Z)
    : res (mem * kfifo * Z) :=
  let! size := roundup_pow_of_two false size in
  if size <? 2 then Ok (m, Kfifo 0 0 0 esize NULL, - EINVAL)
  else
    let! (m, data) := __kmalloc m (size ⊠ esize) gfp_mask in
    if is_null data then Ok (m, Kfifo 0 0 0 esize NULL, - ENOMEM)
    else Ok (m, Kfifo 0 0 (size ⊟ 1) esize data, 0).

Definition __kfifo_free (m : mem) (f : kfifo) : res (mem * kfifo) :=
  let! m := kfree m (k_data f) in
  Ok (m, Kfifo 0 0 0 0 NULL).

Definition __kfifo_init (f : kfifo) (buffer : ptr) (size esize : Z) : res (kfifo * Z) :=
  let! _ := defined_if (negb (esize =? 0)) in
  let size := size / esize in
  let! size := roundup_pow_of_two false size in
  if size <? 2 then Ok (Kfifo 0 0 0 esize buffer, - EINVAL)
  else Ok (Kfifo 0 0 (size ⊟ 1) esize buffer, 0).

(** The prologue every copy routine of the file opens with: mask the offset,
    scale offset, size and length by the element size, and cut the length at
    the end of the buffer.  Gives the byte offset, byte length and cut. *)
Definition kfifo_span (f : kfifo) (len off : Z) : Z * Z * Z :=
  let size := k_mask f ⊞ 1 in
  let esize := k_esize f in
  let off := off .& k_mask f in
  let '(off, size, len) :=
    if negb (esize =? 1) then (off ⊠ esize, size ⊠ esize, len ⊠ esize)
    else (off, size, len) in
  (off, len, Z.min len (size ⊟ off)).

Definition kfifo_copy_in (m : mem) (f : kfifo) (src : ptr) (len off : Z) : res mem :=
  let '(off, len, l) := kfifo_span f len off in
  let! m := memcpy m (padd (k_data f) off) src l in
  memcpy m (k_data f) (padd src l) (len ⊟ l).

Definition __kfifo_in (m : mem) (f : kfifo) (buf : ptr) (len : Z) : res (mem * kfifo * Z) :=
  let l := kfifo_unused f in
  let len := if l <? len then l else len in
  let! m := kfifo_copy_in m f buf len (k_in f) in
  Ok (m, set_in f (k_in f ⊞ len), len).

Definition kfifo_copy_out (m : mem) (f : kfifo) (dst : ptr) (len off : Z) : res mem :=
  let '(off, len, l) := kfifo_span f len off in
  let! m := memcpy m dst (padd (k_data f) off) l in
  memcpy m (padd dst l) (k_data f) (len ⊟ l).

Definition __kfifo_out_peek (m : mem) (f : kfifo) (buf : ptr) (len : Z) : res (mem * Z) :=
  let l := k_in f ⊟ k_out f in
  let len := if l <? len then l else len in
  let! m := kfifo_copy_out m f buf len (k_out f) in
  Ok (m, len).

Definition __kfifo_out (m : mem) (f : kfifo) (buf : ptr) (len : Z) : res (mem * kfifo * Z) :=
  let! (m, len) := __kfifo_out_peek m f buf len in
  Ok (m, set_out f (k_out f ⊞ len), len).

(** ** Well-formedness and contents *)

(** Elements the buffer holds, and elements in it. *)
Definition capacity (f : kfifo) : Z := k_mask f + 1.
Definition used (f : kfifo) : Z := k_in f ⊟ k_out f.

Record wf (m : mem) (f : kfifo) : Prop := {
  wf_pow : exists k, 1 <= k <= 31 /\ capacity f = 2 ^ k;
  wf_in : 0 <= k_in f < W32;
  wf_out : 0 <= k_out f < W32;
  wf_esize : 1 <= k_esize f;
  wf_bytes : capacity f * k_esize f < W32;
  wf_used : used f <= capacity f;
  wf_data : exists D, blocks m !! blk (k_data f) = Some D /\
              in_bounds D (ofs (k_data f)) (capacity f * k_esize f) = true
}.

(** The bytes of the buffer. *)
Definition window (m : mem) (f : kfifo) : list Z :=
  match blocks m !! blk (k_data f) with
  | Some D => read_at D (Z.to_nat (ofs (k_data f))) (Z.to_nat (capacity f * k_esize f))
  | None => []
  end.

(** The queue the fifo holds, oldest byte first. *)
Definition contents (m : mem) (f : kfifo) : list Z :=
  take (Z.to_nat (used f * k_esize f))
    (rot (window m f) (Z.to_nat (k_out f mod capacity f * k_esize f))).

(** ** Index arithmetic *)

Section Facts.
Context (m : mem) (f : kfifo) (Hwf : wf m f).

Lemma wf_cap : 2 <= capacity f <= 2147483648.
Proof.
  destruct (wf_pow _ _ Hwf) as (k & Hk & ->). split.
  - change 2 with (2 ^ 1). apply Z.pow_le_mono_r; lia.
  - change 2147483648 with (2 ^ 31). apply Z.pow_le_mono_r; lia.
Qed.

Lemma wf_mask_word : k_mask f ⊞ 1 = capacity f.
Proof. pose proof wf_cap. unfold capacity in *. apply u32_small. lia. Qed.

Lemma wf_and_mask z : z .& k_mask f = z mod capacity f.
Proof.
  destruct (wf_pow _ _ Hwf) as (k & Hk & Hc). rewrite Hc.
  unfold capacity in Hc. replace (k_mask f) with (2 ^ k - 1) by lia.
  apply land_mask. lia.
Qed.

Lemma wf_mod_word z : u32 z mod capacity f = z mod capacity f.
Proof.
  destruct (wf_pow _ _ Hwf) as (k & Hk & Hc). rewrite Hc. apply u32_mod_pow2. lia.
Qed.

Lemma wf_mod_bound z : 0 <= z mod capacity f < capacity f.
Proof. apply Z.mod_pos_bound. pose proof wf_cap. lia. Qed.

Lemma used_nonneg : 0 <= used f.
Proof. unfold used. apply u32_range. Qed.

Lemma unused_eq : kfifo_unused f = capacity f - used f.
Proof.
  pose proof wf_cap. pose proof used_nonneg. pose proof (wf_used _ _ Hwf).
  unfold kfifo_unused. rewrite wf_mask_word. fold (used f). apply u32_small. lia.
Qed.

Lemma span_eq len off :
  0 <= len <= capacity f ->
  kfifo_span f len off =
    (off mod capacity f * k_esize f, len * k_esize f,
     Z.min (len * k_esize f) ((capacity f - off mod capacity f) * k_esize f)).
Proof.
  intros Hl. pose proof (wf_mod_bound off) as Hm. pose proof (wf_bytes _ _ Hwf) as Hb.
  pose proof (wf_esize _ _ Hwf) as He. pose proof wf_cap as Hc.
  unfold kfifo_span. rewrite wf_mask_word, wf_and_mask.
  set (a := off mod capacity f) in *.
  destruct (Z.eqb_spec (k_esize f) 1) as [E|E]; cbn [negb].
  - rewrite E, !Z.mul_1_r. rewrite u32_small by lia. reflexivity.
  - rewrite (u32_small (a * _)), (u32_small (capacity f * _)), (u32_small (len * _)) by nia.
    rewrite u32_small by nia. rewrite Z.mul_sub_distr_r. reflexivity.
Qed.

Lemma span_bounds len off :
  0 <= len <= capacity f ->
  let a := off mod capacity f * k_esize f in
  let n := len * k_esize f in
  let l := Z.min n ((capacity f - off mod capacity f) * k_esize f) in
  0 <= a < capacity f * k_esize f /\ 0 <= n <= capacity f * k_esize f /\
  0 <= l <= n /\ a + l <= capacity f * k_esize f.
Proof.
  intros Hl a n l. pose proof (wf_mod_bound off) as Hm. pose proof (wf_esize _ _ Hwf).
  subst a n l. repeat split; nia.
Qed.

(** Where the write position stands from the read position, in bytes. *)
Lemma in_position :
  let a := k_out f mod capacity f * k_esize f in
  let b := k_in f mod capacity f * k_esize f in
  let u := used f * k_esize f in
  b = a + u \/ b + capacity f * k_esize f = a + u.
Proof.
  pose proof wf_cap. pose proof used_nonneg. pose proof (wf_used _ _ Hwf).
  assert (k_in f mod capacity f = (k_out f + used f) mod capacity f) as ->.
  { unfold used. rewrite <- Zplus_mod_idemp_r, wf_mod_word, Zplus_mod_idemp_r.
    f_equal. lia. }
  set (N := capacity f) in *. set (u := used f) in *.
  pose proof (wf_mod_bound (k_out f)) as Ha. fold N in Ha.
  rewrite <- (Zplus_mod_idemp_l (k_out f)). set (a := k_out f mod N) in *.
  destruct (Z.lt_ge_cases (a + u) N).
  - left. rewrite Z.mod_small by lia. lia.
  - right. replace (a + u) with (a + u - N + 1 * N) at 1 by lia.
    rewrite Z.mod_add by lia. rewrite Z.mod_small by lia. lia.
Qed.

Lemma out_position n :
  0 <= n <= capacity f ->
  let a := k_out f mod capacity f * k_esize f in
  let b := (k_out f ⊞ n) mod capacity f * k_esize f in
  b = a + n * k_esize f \/ b + capacity f * k_esize f = a + n * k_esize f.
Proof.
  intros Hn. pose proof wf_cap. rewrite wf_mod_word, <- Zplus_mod_idemp_l.
  pose proof (wf_mod_bound (k_out f)) as Ha.
  set (N := capacity f) in *. set (a := k_out f mod N) in *.
  destruct (Z.lt_ge_cases (a + n) N).
  - left. rewrite Z.mod_small by lia. lia.
  - right. replace (a + n) with (a + n - N + 1 * N) at 1 by lia.
    rewrite Z.mod_add by lia. rewrite Z.mod_small by lia. lia.
Qed.

Lemma window_length : length (window m f) = Z.to_nat (capacity f * k_esize f).
Proof.
  destruct (wf_data _ _ Hwf) as (D & HD & Hb). unfold window. rewrite HD.
  apply in_bounds_iff in Hb. unfold zlen in Hb. rewrite length_read_at; lia.
Qed.
End Facts.

(** ** The copy routines *)

(** The memory with the bytes of the buffer replaced. *)
Definition put_window (m : mem) (f : kfifo) (W : list Z) : mem :=
  match blocks m !! blk (k_data f) with
  | Some D => Mem (<[blk (k_data f) := write_at D (Z.to_nat (ofs (k_data f))) W]> (blocks m)) (dyn m)
  | None => m
  end.

(** [n] readable bytes at [p], outside the buffer of [f]. *)
Definition readable (m : mem) (f : kfifo) (p : ptr) (n : Z) (bs : list Z) : Prop :=
  blk p <> blk (k_data f) /\ load m p n = Ok bs.

(** The buffer, seen as memory. *)
Lemma data_valid m f : wf m f -> valid_at m (k_data f) (capacity f * k_esize f).
Proof. intros Hwf. exact (wf_data _ _ Hwf). Qed.

Lemma load_data m f : wf m f -> load m (k_data f) (capacity f * k_esize f) = Ok (window m f).
Proof.
  intros Hwf. destruct (wf_data _ _ Hwf) as (D & HD & Hb).
  rewrite (load_ok _ _ _ D) by assumption. unfold window. now rewrite HD.
Qed.

Lemma load_window m f o n :
  wf m f -> 0 <= o -> 0 <= n -> o + n <= capacity f * k_esize f ->
  load m (padd (k_data f) o) n = Ok (read_at (window m f) (Z.to_nat o) (Z.to_nat n)).
Proof.
  intros Hwf Ho Hn Hb. unfold read_at.
  destruct (load_split _ _ _ _ o (load_data _ _ Hwf)) as [_ H]; [lia |].
  destruct (load_split _ _ _ _ n H) as [H' _]; [lia | exact H'].
Qed.

(** Writes into the buffer are stores to the ring. *)
Lemma put_bytes_store_one m f io bs :
  wf m f -> 0 <= io < capacity f * k_esize f -> io + zlen bs <= capacity f * k_esize f ->
  put_bytes m (padd (k_data f) io) bs =
    put_window m f (ring_store (window m f) (Z.to_nat io) bs).
Proof.
  intros Hwf Hio Hb. destruct (wf_data _ _ Hwf) as (D & HD & HbD).
  apply in_bounds_iff in HbD. unfold zlen in *.
  unfold put_bytes, put_window, window. cbn [blk ofs padd]. rewrite HD. do 2 f_equal.
  rewrite <- ring_store_block_one by lia. f_equal. lia.
Qed.

Lemma put_bytes_store_two m f io bs :
  wf m f -> 0 <= io < capacity f * k_esize f -> zlen bs <= capacity f * k_esize f ->
  let l := Z.to_nat (Z.min (zlen bs) (capacity f * k_esize f - io)) in
  put_bytes (put_bytes m (padd (k_data f) io) (take l bs)) (k_data f) (drop l bs) =
    put_window m f (ring_store (window m f) (Z.to_nat io) bs).
Proof.
  intros Hwf Hio Hb l. destruct (wf_data _ _ Hwf) as (D & HD & HbD).
  apply in_bounds_iff in HbD. unfold zlen in *.
  unfold put_bytes, put_window, window. cbn [blk ofs padd]. rewrite HD. cbn.
  rewrite lookup_insert_eq, insert_insert_eq. do 2 f_equal.
  rewrite <- ring_store_block by lia. cbn zeta.
  replace (Nat.min (length bs) _) with l by lia. f_equal. f_equal. lia.
Qed.

Lemma copy_in_spec m f src len off bs :
  wf m f -> 0 <= len <= capacity f -> readable m f src (len * k_esize f) bs ->
  kfifo_copy_in m f src len off =
    Ok (put_window m f
          (ring_store (window m f) (Z.to_nat (off mod capacity f * k_esize f)) bs)).
Proof.
  intros Hwf Hl [Hne Hld]. pose proof (load_length _ _ _ _ Hld) as Hlen.
  pose proof (span_bounds _ _ Hwf len off Hl) as (Ha & Hln & Hcut & Hend).
  pose proof (wf_bytes _ _ Hwf) as Hbytes.
  unfold kfifo_copy_in. rewrite (span_eq m) by assumption.
  set (a := off mod capacity f * k_esize f) in *. set (n := len * k_esize f) in *.
  set (l := Z.min n _) in *.
  destruct (load_split _ _ _ _ l Hld) as [Hl1 Hl2]; [lia |].
  destruct (valid_split _ _ _ a (data_valid _ _ Hwf)) as [_ Hv]; [lia |].
  destruct (valid_split _ _ _ l Hv) as [Hv1 _]; [lia |].
  rewrite (memcpy_put _ _ _ _ _ Hl1) by (cbn; congruence || assumption). cbn [rbind].
  rewrite u32_small by lia.
  erewrite memcpy_put; [|rewrite load_put_other by (cbn; congruence); exact Hl2 | cbn; congruence |].
  - f_equal. rewrite <- put_bytes_store_two by (assumption || (unfold zlen; lia)). cbn zeta.
    replace (Z.min (zlen bs) _) with l; [reflexivity |].
    subst l n. unfold zlen. rewrite Hlen. subst a. nia.
  - apply valid_put.
    + unfold zlen. rewrite length_take, Nat.min_l by lia.
      now rewrite Z2Nat.id by lia.
    + destruct (valid_split _ _ _ (n - l) (data_valid _ _ Hwf)) as [H _]; [lia | exact H].
Qed.

Lemma copy_out_spec m f dst len off :
  wf m f -> 0 <= len <= capacity f -> blk dst <> blk (k_data f) ->
  valid_at m dst (len * k_esize f) ->
  kfifo_copy_out m f dst len off =
    Ok (put_bytes m dst
          (take (Z.to_nat (len * k_esize f))
             (rot (window m f) (Z.to_nat (off mod capacity f * k_esize f))))).
Proof.
  intros Hwf Hl Hne Hv. pose proof (window_length _ _ Hwf) as HW.
  pose proof (span_bounds _ _ Hwf len off Hl) as (Ha & Hln & Hcut & Hend).
  pose proof (wf_bytes _ _ Hwf) as Hbytes.
  unfold kfifo_copy_out. rewrite (span_eq m) by assumption.
  set (a := off mod capacity f * k_esize f) in *. set (n := len * k_esize f) in *.
  set (l := Z.min n _) in *.
  destruct (valid_split _ _ _ l Hv) as [Hv1 Hv2]; [lia |].
  erewrite memcpy_put; [|apply load_window; [assumption | lia..] | cbn; congruence | assumption].
  cbn [rbind]. rewrite u32_small by lia.
  assert (zlen (read_at (window m f) (Z.to_nat a) (Z.to_nat l)) = l) as Hz.
  { unfold zlen. rewrite length_read_at; lia. }
  erewrite memcpy_put; cycle 1.
  - rewrite load_put_other by (cbn; congruence).
    replace (k_data f) with (padd (k_data f) 0) by (unfold padd; destruct (k_data f); cbn; f_equal; lia).
    apply load_window; [assumption | lia..].
  - cbn. congruence.
  - apply valid_put; [now rewrite Hz | exact Hv2].
  - f_equal. rewrite <- Hz at 2.
    rewrite put_bytes_app by (rewrite Hz; unfold zlen; rewrite length_read_at by lia;
                              replace (l + Z.of_nat _) with n by lia; exact Hv).
    f_equal. rewrite <- ring_read by (rewrite HW; lia). cbn zeta. rewrite HW.
    replace (Nat.min (Z.to_nat n) _) with (Z.to_nat l) by (subst l a n; lia).
    f_equal. f_equal. lia.
Qed.

(** ** Effect of an operation on the queue *)

(** Same buffer, same geometry; the indices may differ. *)
Definition same_buffer (f f' : kfifo) : Prop :=
  k_mask f' = k_mask f /\ k_esize f' = k_esize f /\ k_data f' = k_data f.

Lemma same_buffer_refl f : same_buffer f f.
Proof. now repeat split. Qed.

Lemma put_window_only m f W : only_block (blk (k_data f)) m (put_window m f W).
Proof.
  unfold put_window. destruct (blocks m !! _) as [D|]; split; try reflexivity.
  intros b' Hb. cbn. now rewrite lookup_insert_ne by congruence.
Qed.

Lemma window_only_block m m' f b :
  only_block b m m' -> b <> blk (k_data f) -> window m' f = window m f.
Proof. intros [_ H] Hne. unfold window. now rewrite H by congruence. Qed.

Lemma wf_only_block m m' f b :
  only_block b m m' -> b <> blk (k_data f) -> wf m f -> wf m' f.
Proof. intros [_ H] Hne []. split; try assumption. now rewrite H by congruence. Qed.

Lemma window_same_buffer m f f' : same_buffer f f' -> window m f' = window m f.
Proof. intros (H1 & H2 & H3). unfold window, capacity. now rewrite H1, H2, H3. Qed.

Lemma wf_move m f f' :
  wf m f -> same_buffer f f' -> 0 <= k_in f' < W32 -> 0 <= k_out f' < W32 ->
  used f' <= capacity f -> wf m f'.
Proof.
  intros [Hp _ _ He Hb _ Hd] (H1 & H2 & H3) Hi Ho Hu.
  split; unfold capacity in *; rewrite ?H1, ?H2, ?H3; assumption.
Qed.

Lemma put_window_wf m f W :
  wf m f -> length W = length (window m f) ->
  wf (put_window m f W) f /\ window (put_window m f W) f = W.
Proof.
  intros Hwf HW. pose proof (window_length _ _ Hwf) as HL. rewrite HL in HW.
  destruct (wf_data _ _ Hwf) as (D & HD & Hb). pose proof Hb as Hb'.
  apply in_bounds_iff in Hb'. unfold zlen in Hb'.
  assert (length (write_at D (Z.to_nat (ofs (k_data f))) W) = length D) as HlD
    by (apply length_write_at; lia).
  unfold put_window. rewrite HD. split.
  - destruct Hwf. split; try assumption. eexists. cbn. rewrite lookup_insert_eq.
    split; [reflexivity |]. apply in_bounds_iff. unfold zlen. rewrite HlD. lia.
  - unfold window. cbn. rewrite lookup_insert_eq, <- HW. apply read_write_same. lia.
Qed.

Lemma contents_length m f :
  wf m f -> length (contents m f) = Z.to_nat (used f * k_esize f).
Proof.
  intros Hwf. unfold contents. rewrite length_take, length_rot, (window_length _ _ Hwf).
  pose proof (wf_used _ _ Hwf). pose proof (used_nonneg f). pose proof (wf_esize _ _ Hwf).
  assert (0 <= used f * k_esize f <= capacity f * k_esize f) by nia. lia.
Qed.

Lemma used_add f n :
  used f + n < W32 -> 0 <= n -> used (set_in f (k_in f ⊞ n)) = used f + n.
Proof.
  intros H Hn. pose proof (used_nonneg f). unfold used in *. cbn.
  rewrite u32_sub_l. rewrite <- (u32_small (u32 (k_in f - k_out f) + n)) by lia.
  rewrite u32_add_l. f_equal. lia.
Qed.

Lemma used_sub f n :
  0 <= n <= used f -> used (set_out f (k_out f ⊞ n)) = used f - n.
Proof.
  intros H. pose proof (u32_range (k_in f - k_out f)). unfold used in *. cbn.
  rewrite u32_sub_r. rewrite <- (u32_small (u32 (k_in f - k_out f) - n)) by lia.
  rewrite u32_sub_l. f_equal. lia.
Qed.

Lemma empty_iff m f : wf m f -> (k_in f =? k_out f) = (used f =? 0).
Proof.
  intros Hwf. pose proof (wf_in _ _ Hwf). pose proof (wf_out _ _ Hwf). unfold used.
  ztest; trivial; exfalso; zmod.
Qed.

(** Storing [bs] at the write position and advancing [in] by [n] elements, all
    of them stored, appends their bytes; what [bs] holds beyond them stays in
    the unused part of the buffer. *)
Lemma push_contents m f n bs :
  wf m f -> 0 <= n -> n * k_esize f <= zlen bs <= (capacity f - used f) * k_esize f ->
  let W := ring_store (window m f) (Z.to_nat (k_in f mod capacity f * k_esize f)) bs in
  let f' := set_in f (k_in f ⊞ n) in
  wf (put_window m f W) f' /\
  contents (put_window m f W) f' = contents m f ++ take (Z.to_nat (n * k_esize f)) bs.
Proof.
  intros Hwf Hn0 Hbs W f'. pose proof (window_length _ _ Hwf) as HL.
  pose proof (wf_cap _ _ Hwf) as Hc. pose proof (used_nonneg f) as Hu.
  pose proof (wf_esize _ _ Hwf) as He. pose proof (wf_mod_bound _ _ Hwf) as Hm.
  pose proof (Hm (k_in f)) as Hmi. pose proof (Hm (k_out f)) as Hmo.
  assert (n <= capacity f - used f) as Hn by nia.
  assert (used f' = used f + n) as Hu' by (apply used_add; lia).
  assert (0 <= k_in f mod capacity f * k_esize f < capacity f * k_esize f) by nia.
  assert (0 <= k_out f mod capacity f * k_esize f < capacity f * k_esize f) by nia.
  assert (0 <= used f * k_esize f) by nia. assert (0 <= n * k_esize f) by nia.
  unfold zlen in Hbs.
  assert (used f * k_esize f + Z.of_nat (length bs) <= capacity f * k_esize f) by lia.
  assert (length W = length (window m f)) as HW by (apply length_ring_store; lia).
  destruct (put_window_wf m f W Hwf HW) as [Hwf' HWin].
  assert (same_buffer f f') as Hsb by now repeat split.
  split.
  - eapply wf_move; [exact Hwf' | exact Hsb | apply u32_range | apply (wf_out _ _ Hwf) | lia].
  - unfold contents. rewrite (window_same_buffer _ f f' Hsb), HWin.
    change (k_esize f') with (k_esize f). change (k_out f') with (k_out f).
    change (capacity f') with (capacity f). rewrite Hu'.
    subst W. unfold ring_store. cbn zeta.
    rewrite (ring_write _ _ _ (Z.to_nat (used f * k_esize f)));
      [|lia|lia|rewrite HL; lia|pose proof (in_position _ _ Hwf) as Hp; cbn zeta in Hp; rewrite HL; lia].
    rewrite take_app_ge by (rewrite length_take, length_rot, HL; lia).
    f_equal. rewrite length_take, length_rot, HL, take_app_le by lia. f_equal. lia.
Qed.

(** Advancing [out] drops the oldest elements. *)
Lemma pop_contents m f n :
  wf m f -> 0 <= n <= used f ->
  let f' := set_out f (k_out f ⊞ n) in
  wf m f' /\ contents m f' = drop (Z.to_nat (n * k_esize f)) (contents m f).
Proof.
  intros Hwf Hn f'. pose proof (window_length _ _ Hwf) as HL.
  pose proof (wf_cap _ _ Hwf) as Hc. pose proof (wf_used _ _ Hwf) as Hu.
  pose proof (wf_esize _ _ Hwf) as He. pose proof (wf_mod_bound _ _ Hwf) as Hm.
  assert (used f' = used f - n) as Hu' by (apply used_sub; lia).
  split.
  - eapply wf_move; [exact Hwf | now repeat split | apply (wf_in _ _ Hwf) | apply u32_range | lia].
  - unfold contents. rewrite Hu'.
    change (window m f') with (window m f). change (k_esize f') with (k_esize f).
    change (capacity f') with (capacity f). change (k_out f') with (k_out f ⊞ n).
    pose proof (Hm (k_out f)). pose proof (Hm (k_out f ⊞ n)).
    pose proof (out_position _ _ Hwf n) as Hp. cbn zeta in Hp.
    assert (0 <= k_out f mod capacity f * k_esize f < capacity f * k_esize f) by nia.
    assert (0 <= (k_out f ⊞ n) mod capacity f * k_esize f < capacity f * k_esize f) by nia.
    assert (0 <= n * k_esize f <= used f * k_esize f) by nia.
    assert (used f * k_esize f <= capacity f * k_esize f) by nia.
    rewrite <- (ring_advance _ _ (Z.to_nat ((k_out f ⊞ n) mod capacity f * k_esize f)));
      [f_equal; lia | rewrite ?HL; lia..].
Qed.

(** Taking back the last [n] elements, by setting [in] back. *)
Lemma unpush_contents m f n :
  0 <= n -> used f + n <= capacity f -> 0 <= k_in f < W32 ->
  let f' := set_in f (k_in f ⊞ n) in
  wf m f' -> wf m f /\ contents m f = take (Z.to_nat (used f * k_esize f)) (contents m f').
Proof.
  intros Hn Hu Hi f' Hwf. pose proof (wf_cap _ _ Hwf) as Hc.
  change (capacity f') with (capacity f) in Hc. pose proof (used_nonneg f).
  assert (used f' = used f + n) as Hu' by (apply used_add; lia).
  split.
  - eapply wf_move; [exact Hwf | now repeat split | exact Hi | apply (wf_out _ _ Hwf) |].
    change (capacity f') with (capacity f). lia.
  - unfold contents. rewrite Hu'. change (k_esize f') with (k_esize f).
    rewrite take_take. f_equal. pose proof (wf_esize _ _ Hwf) as He.
    change (k_esize f') with (k_esize f) in He. nia.
Qed.

(** Copying in at the write position and advancing [in]. *)
Lemma copy_in_push m f buf n bs :
  wf m f -> 0 <= n <= capacity f - used f -> readable m f buf (n * k_esize f) bs ->
  let f' := set_in f (k_in f ⊞ n) in
  exists m', kfifo_copy_in m f buf n (k_in f) = Ok m' /\
    wf m' f' /\ contents m' f' = contents m f ++ bs /\ only_block (blk (k_data f)) m m'.
Proof.
  intros Hwf Hn Hr f'. pose proof (used_nonneg f). pose proof (wf_esize _ _ Hwf).
  pose proof (load_length _ _ _ _ (proj2 Hr)).
  rewrite (copy_in_spec _ _ _ _ _ bs) by (assumption || lia).
  destruct (push_contents m f n bs) as [Hwf' Hc']; [assumption | lia | unfold zlen; nia |].
  rewrite take_ge in Hc' by lia. eauto using put_window_only.
Qed.

Lemma in_ok m f buf len bs :
  wf m f -> 0 <= len ->
  let n := Z.min len (capacity f - used f) in
  readable m f buf (n * k_esize f) bs ->
  exists m',
    __kfifo_in m f buf len = Ok (m', set_in f (k_in f ⊞ n), n) /\
    wf m' (set_in f (k_in f ⊞ n)) /\
    contents m' (set_in f (k_in f ⊞ n)) = contents m f ++ bs /\
    only_block (blk (k_data f)) m m'.
Proof.
  intros Hwf Hlen n Hr. pose proof (wf_used _ _ Hwf).
  unfold __kfifo_in. rewrite (unused_eq m) by assumption.
  replace (if _ <? _ then _ else _) with n by (subst n; ztest; lia).
  destruct (copy_in_push m f buf n bs Hwf) as (m' & -> & Hp); [lia | assumption |]. eauto.
Qed.

(** [n] writable bytes at [p], outside the buffer of [f]. *)
Definition writable (m : mem) (f : kfifo) (p : ptr) (n : Z) : Prop :=
  blk p <> blk (k_data f) /\ valid_at m p n.

(** Copying out from the read position leaves the queue as it is. *)
Lemma copy_out_front m f buf n :
  wf m f -> 0 <= n <= used f -> writable m f buf (n * k_esize f) ->
  let bs := take (Z.to_nat (n * k_esize f)) (contents m f) in
  exists m', kfifo_copy_out m f buf n (k_out f) = Ok m' /\ m' = put_bytes m buf bs /\
    load m' buf (n * k_esize f) = Ok bs /\
    wf m' f /\ contents m' f = contents m f /\ only_block (blk buf) m m'.
Proof.
  intros Hwf Hn (Hne & Hv) bs. pose proof (wf_used _ _ Hwf). pose proof (wf_esize _ _ Hwf).
  rewrite copy_out_spec by (assumption || lia).
  assert (0 <= n * k_esize f <= used f * k_esize f) by nia.
  assert (take (Z.to_nat (n * k_esize f))
            (rot (window m f) (Z.to_nat (k_out f mod capacity f * k_esize f))) = bs) as ->.
  { subst bs. unfold contents. rewrite take_take. f_equal. lia. }
  eexists. split; [reflexivity |]. split; [reflexivity |].
  pose proof (put_bytes_only m buf bs) as Ho.
  split; [|split; [eapply wf_only_block; eassumption | split; [|exact Ho]]].
  - apply load_put_bytes; [assumption |].
    subst bs. rewrite length_take, contents_length by assumption. lia.
  - unfold contents at 1. now rewrite (window_only_block _ _ _ _ Ho Hne).
Qed.

Lemma peek_ok m f buf len :
  wf m f -> 0 <= len ->
  let n := Z.min len (used f) in
  writable m f buf (n * k_esize f) ->
  exists m',
    __kfifo_out_peek m f buf len = Ok (m', n) /\
    m' = put_bytes m buf (take (Z.to_nat (n * k_esize f)) (contents m f)) /\
    load m' buf (n * k_esize f) = Ok (take (Z.to_nat (n * k_esize f)) (contents m f)) /\
    wf m' f /\ contents m' f = contents m f /\ only_block (blk buf) m m'.
Proof.
  intros Hwf Hlen n Hw. pose proof (used_nonneg f).
  unfold __kfifo_out_peek. fold (used f).
  replace (if _ <? _ then _ else _) with n by (subst n; ztest; lia).
  destruct (copy_out_front m f buf n Hwf) as (m' & -> & Hp); [lia | assumption |]. eauto.
Qed.

Lemma out_ok m f buf len :
  wf m f -> 0 <= len ->
  let n := Z.min len (used f) in
  writable m f buf (n * k_esize f) ->
  exists m',
    __kfifo_out m f buf len = Ok (m', set_out f (k_out f ⊞ n), n) /\
    m' = put_bytes m buf (take (Z.to_nat (n * k_esize f)) (contents m f)) /\
    load m' buf (n * k_esize f) = Ok (take (Z.to_nat (n * k_esize f)) (contents m f)) /\
    wf m' (set_out f (k_out f ⊞ n)) /\
    contents m' (set_out f (k_out f ⊞ n)) = drop (Z.to_nat (n * k_esize f)) (contents m f) /\
    only_block (blk buf) m m'.
Proof.
  intros Hwf Hlen n Hw. pose proof (used_nonneg f).
  destruct (peek_ok m f buf len Hwf Hlen Hw) as (m' & Hp & Hm' & Hld & Hwf' & Hc & Ho).
  unfold __kfifo_out. rewrite Hp. cbn [rbind].
  destruct (pop_contents m' f n Hwf') as [Hwf2 Hc2]; [subst n; lia |].
  rewrite Hc in Hc2. exists m'. auto 10.
Qed.

(** ** Creation *)

Lemma fresh_fifo_wf m data k esize D :
  1 <= k <= 31 -> 1 <= esize -> 2 ^ k * esize < W32 ->
  blocks m !! blk data = Some D -> in_bounds D (ofs data) (2 ^ k * esize) = true ->
  let f := Kfifo 0 0 (2 ^ k ⊟ 1) esize data in
  wf m f /\ capacity f = 2 ^ k /\ contents m f = [].
Proof.
  intros Hk He Hb HD Hin f.
  assert (0 < 2 ^ k <= 2 ^ 31) by (split; [apply Z.pow_pos_nonneg | apply Z.pow_le_mono_r]; lia).
  assert (capacity f = 2 ^ k) as Hc.
  { unfold capacity. subst f. cbn [k_mask]. rewrite u32_small by lia. lia. }
  assert (used f = 0) as Hu by reflexivity.
  split; [|split; [exact Hc |]].
  - split; rewrite ?Hc, ?Hu; cbn [k_in k_out k_esize k_data f]; try lia; eauto.
  - unfold contents. now rewrite Hu.
Qed.

(** Past the two refusals: the fifo is set up over a fresh block of the product,
    whatever the product has become in a word. *)
Lemma alloc_answered (A : Allocator) (L : AllocatorLaws A) m f size esize gfp :
  1 < size <= 2 ^ 31 -> 1 <= esize -> malloc m (2 ^ Z.log2_up size ⊠ esize) <> None ->
  exists m' p bs, let f' := Kfifo 0 0 (2 ^ Z.log2_up size ⊟ 1) esize p in
    __kfifo_alloc m f size esize gfp = Ok (m', f', 0) /\ capacity f' = 2 ^ Z.log2_up size /\
    ofs p = 0 /\ blocks m !! blk p = None /\ blocks m' = <[blk p := bs]> (blocks m) /\
    dyn m' = {[blk p]} ∪ dyn m /\ zlen bs = 2 ^ Z.log2_up size ⊠ esize.
Proof.
  intros Hs He Hm. unfold __kfifo_alloc, roundup_pow_of_two. rewrite roundup_log2_up by lia. cbn [rbind].
  assert (1 <= Z.log2_up size <= 31) as Hk.
  { split; [|apply Z.log2_up_le_pow2; lia]. pose proof (Z.log2_up_pos size). lia. }
  set (P := 2 ^ Z.log2_up size) in *.
  assert (2 <= P <= 2 ^ 31) as HP.
  { split; [change 2 with (2 ^ 1) at 1|]; apply Z.pow_le_mono_r; lia. }
  destruct (Z.ltb_spec P 2); [lia |]. pose proof (u32_range (P * esize)) as Hr.
  destruct (__kmalloc_ok m (P ⊠ esize) gfp) as (m' & p & -> & _ & Hsome); [lia |].
  destruct (Hsome Hm) as (Ho & Hnz & Hfr & Hdyn & bs & Hblk & Hlen & _). cbn [rbind].
  assert (is_null p = false) as ->.
  { unfold is_null. apply bool_decide_eq_false. intros ->. now apply Hnz. }
  exists m', p, bs. split; [reflexivity | split; [|auto]].
  unfold capacity. cbn [k_mask]. rewrite u32_small by lia. lia.
Qed.

(** C29: [__kfifo_alloc] on every size, with elements of at least a byte.  A size that is zero or
    above 2^31 has no power of two in a word at or above it, and the shift that
    would compute it is undefined.  One element is refused with -EINVAL; when
    the allocator refuses, the result is -ENOMEM; both leave a null, zero-mask
    fifo and the memory as it was.  Otherwise the result is 0 with a capacity
    of the least power of two at or above [size] (rounded up, where the comment
    says down) and a fresh block, and nothing else changed.  When the product
    with the element size fits a word that fifo is well formed and empty; when
    it does not, the unchecked product wraps: the block is too short and the
    fifo is not well formed although the call reported success. *)
Theorem kfifo_alloc_spec (A : Allocator) (L : AllocatorLaws A) m f size esize gfp :
  0 <= size < W32 -> 1 <= esize ->
  let n := 2 ^ Z.log2_up size in
  (size = 0 \/ 2 ^ 31 < size -> __kfifo_alloc m f size esize gfp = Err UB) /\
  (size = 1 -> __kfifo_alloc m f size esize gfp = Ok (m, Kfifo 0 0 0 esize NULL, - EINVAL)) /\
  (1 < size <= 2 ^ 31 -> malloc m (n ⊠ esize) = None ->
     __kfifo_alloc m f size esize gfp = Ok (m, Kfifo 0 0 0 esize NULL, - ENOMEM)) /\
  (1 < size <= 2 ^ 31 -> malloc m (n ⊠ esize) <> None ->
     exists m' f' D, __kfifo_alloc m f size esize gfp = Ok (m', f', 0) /\
       k_esize f' = esize /\ capacity f' = n /\ size <= n < 2 * size /\
       blocks m !! blk (k_data f') = None /\ blocks m' !! blk (k_data f') = Some D /\
       only_block (blk (k_data f')) m (Mem (blocks m') (dyn m)) /\
       (n * esize < W32 -> wf m' f' /\ contents m' f' = []) /\
       (W32 <= n * esize -> zlen D < capacity f' * esize /\ ~ wf m' f')).
Proof.
  intros Hsz He n. split; [|split; [|split]].
  - intros Hbad. unfold __kfifo_alloc, roundup_pow_of_two. now rewrite roundup_ub.
  - now intros ->.
  - intros Hs Hm. unfold __kfifo_alloc, roundup_pow_of_two. rewrite roundup_log2_up by lia. cbn [rbind]. fold n.
    pose proof (Z.log2_up_spec size ltac:(lia)) as Hn. fold n in Hn.
    destruct (Z.ltb_spec n 2); [lia |]. pose proof (u32_range (n * esize)).
    destruct (__kmalloc_ok m (n ⊠ esize) gfp) as (m' & p & -> & Hnone & _); [lia |].
    destruct (Hnone Hm) as [-> ->]. reflexivity.
  - intros Hs Hm. destruct (alloc_answered A L m f size esize gfp Hs He Hm)
      as (m' & p & D & E & Hcap & Ho & Hfr & Hblk & _ & Hlen). fold n in E, Hcap, Hlen.
    assert (1 <= Z.log2_up size <= 31) as Hk.
    { split; [|apply Z.log2_up_le_pow2; lia]. pose proof (Z.log2_up_pos size). lia. }
    eexists m', _, D. split; [exact E |]. cbn [k_esize k_data]. rewrite Hcap, Hblk, lookup_insert_eq.
    do 2 (split; [reflexivity |]). split; [now apply log2_up_bounds |]. split; [assumption | split; [reflexivity | split; [|split]]].
    + split; [reflexivity |]. intros b Hb. cbn. now rewrite lookup_insert_ne by congruence.
    + intros Hfit. rewrite u32_small in Hlen by (unfold n in *; nia).
      destruct (fresh_fifo_wf m' p (Z.log2_up size) esize D) as (H1 & _ & H3); auto.
      * rewrite Hblk. apply lookup_insert_eq.
      * apply in_bounds_iff. fold n. unfold n in *. lia.
    + intros Hwrap. pose proof (u32_range (n * esize)). split; [lia |]. intros Hwf.
      pose proof (wf_bytes _ _ Hwf) as Hb. rewrite Hcap in Hb. cbn [k_esize] in Hb. lia.
Qed.

Definition m0 : mem := Mem ∅ ∅.
Definition f0 : kfifo := Kfifo 7 7 7 7 NULL.

(** 100 elements of 4 bytes; and 2^20 elements of 4096 bytes, whose product is
    zero in a word. *)
Lemma kfifo_alloc_spec_witness :
  (exists m' f', __kfifo_alloc (A := bump_malloc 65536) m0 f0 100 4 0 = Ok (m', f', 0) /\
     wf m' f' /\ contents m' f' = [] /\ capacity f' = 128) /\
  (exists m' f', __kfifo_alloc (A := bump_malloc 65536) m0 f0 (2 ^ 20) 4096 0 = Ok (m', f', 0) /\ ~ wf m' f').
Proof.
  split.
  - destruct (kfifo_alloc_spec (bump_malloc 65536) _ m0 f0 100 4 0)
      as (_ & _ & _ & H); [lia | lia |].
    destruct H as (m' & f' & D & E & _ & Hcap & _ & _ & _ & _ & Hfit & _); [lia | discriminate |].
    destruct Hfit as [Hwf Hc]; [reflexivity |]. exists m', f'. auto.
  - destruct (kfifo_alloc_spec (bump_malloc 65536) _ m0 f0 (2 ^ 20) 4096 0)
      as (_ & _ & _ & H); [lia | lia |].
    destruct H as (m' & f' & D & E & _ & _ & _ & _ & _ & _ & _ & Hw); [lia | vm_compute; discriminate |].
    exists m', f'. split; [exact E |]. apply Hw. vm_compute. discriminate.
Defined.

(** [__kfifo_init] on a caller's buffer of [size] bytes.  Fewer than two
    elements are refused; with two or more it returns 0 and an empty fifo whose
    capacity is the element count rounded up to a power of two, so the fifo
    stays inside the buffer exactly when the count was a power of two already,
    and is well-formed then. *)
Theorem kfifo_init_spec f buffer size esize :
  1 <= esize -> 0 <= size < W32 -> 1 <= size / esize <= 2 ^ 31 ->
  exists f' r, __kfifo_init f buffer size esize = Ok (f', r) /\
    k_data f' = buffer /\ k_esize f' = esize /\
    (size / esize = 1 -> r = - EINVAL) /\
    (1 < size / esize -> r = 0 /\ used f' = 0 /\
       capacity f' = 2 ^ Z.log2_up (size / esize) /\
       (capacity f' * esize <= size <-> is_power_of_2 (size / esize) = true) /\
       forall m D, is_power_of_2 (size / esize) = true ->
         blocks m !! blk buffer = Some D -> in_bounds D (ofs buffer) size = true ->
         wf m f' /\ contents m f' = []).
Proof.
  intros He Hsz Hs. unfold __kfifo_init, roundup_pow_of_two.
  destruct (Z.eqb_spec esize 0); [lia |]. cbn [negb defined_if rbind].
  set (s := size / esize) in *.
  rewrite roundup_log2_up by lia. cbn [rbind].
  destruct (Z.eq_dec s 1) as [->|Hne].
  { cbn. eexists _, _. split; [reflexivity |]. repeat split; intros; lia. }
  assert (1 <= Z.log2_up s <= 31) as Hk.
  { split; [|apply Z.log2_up_le_pow2; lia]. pose proof (Z.log2_up_pos s). lia. }
  set (P := 2 ^ Z.log2_up s) in *.
  assert (2 <= P <= 2 ^ 31) as HP.
  { split; [change 2 with (2 ^ 1) at 1|]; apply Z.pow_le_mono_r; lia. }
  assert (s <= P) as HsP by (apply Z.log2_up_spec; lia).
  destruct (Z.ltb_spec P 2); [lia |].
  assert (s * esize <= size < (s + 1) * esize) as Hq.
  { pose proof (Z.div_mod size esize). pose proof (Z.mod_pos_bound size esize). subst s. nia. }
  assert (is_power_of_2 s = true <-> P = s) as Hpow.
  { rewrite is_power_of_2_iff by lia. split.
    - intros (k & Hk0 & Hks). unfold P. rewrite Hks at 1. now rewrite Z.log2_up_pow2.
    - intros HPs. exists (Z.log2_up s). split; [lia | now symmetry]. }
  eexists _, _. split; [reflexivity |]. do 2 (split; [reflexivity |]). split; [lia |].
  intros _. split; [reflexivity | split; [reflexivity |]].
  assert (capacity (Kfifo 0 0 (P ⊟ 1) esize buffer) = P) as Hcap.
  { unfold capacity. cbn [k_mask]. rewrite u32_small; lia. }
  rewrite Hcap. split; [reflexivity | split].
  - rewrite Hpow. split; [intros; nia | intros HPs; rewrite HPs; lia].
  - intros m D HpP HD Hb. apply Hpow in HpP. apply in_bounds_iff in Hb.
    assert (2 ^ Z.log2_up s * esize <= size) by (fold P; rewrite HpP; lia).
    destruct (fresh_fifo_wf m buffer (Z.log2_up s) esize D) as (Hw & _ & Hnil);
      [lia | lia | lia | assumption | apply in_bounds_iff; lia | auto].
Qed.

Lemma kfifo_init_spec_witness :
  exists f', __kfifo_init f0 (Ptr 64 0) 100 4 = Ok (f', 0) /\
    capacity f' = 32 /\ ~ (capacity f' * 4 <= 100).
Proof.
  destruct (kfifo_init_spec f0 (Ptr 64 0) 100 4) as (f' & r & E & _ & _ & _ & H);
    [lia | lia | vm_compute; split; discriminate |].
  destruct H as (-> & _ & Hc & Hiff & _); [vm_compute; reflexivity |].
  exists f'. rewrite Hiff. split; [exact E | split; [exact Hc | vm_compute; discriminate]].
Defined.

End Kfifo.
