(* ===== verification/KfifoUser.v ===== *)
(** * kfifo and user space

    [__kfifo_from_user] and [__kfifo_to_user] of src/libs/liblinux/src/fifo.c.
    The user copy they call is an argument, constrained by the [UserCopy]
    interface of Memory.v, so the partial-failure paths of fifo.c are reached;
    the copies of mem.c, which always succeed, are instances of it. *)

From S2P Require Import Prelude Bytes Log2 Memory Kfifo.
Import Bytes Log2 Memory Kfifo.

Module KfifoUser.

(** ** Operations *)

(** uapi/linux/kernel.h, on [unsigned long] operands. *)
Definition DIV_ROUND_UP (n d : Z) : Z := (n ⊞ d ⊟ 1) / d.

Section Operations.
Variable copy_from_user copy_to_user : user_copy.

(** Returns the memory, the number of elements not copied and [*copied]. *)
Definition kfifo_copy_from_user (m : mem) (f : kfifo) (from : ptr) (len off : Z)
    : res (mem * Z * Z) :=
  let esize := k_esize f in
  let '(off, len, l) := kfifo_span f len off in
  let! (m, ret) := copy_from_user m (padd (k_data f) off) from l in
  let! (m, ret) :=
    if truthy ret then Ok (m, DIV_ROUND_UP (ret ⊞ len ⊟ l) esize)
    else
      let! (m, ret) := copy_from_user m (k_data f) (padd from l) (len ⊟ l) in
      if truthy ret then Ok (m, DIV_ROUND_UP ret esize) else Ok (m, ret) in
  let copied := len ⊟ (ret ⊠ esize) in
  Ok (m, ret, copied).

(** Returns the memory, the fifo, the error code and [*copied]. *)
Definition __kfifo_from_user (m : mem) (f : kfifo) (from : ptr) (len : Z)
    : res (mem * kfifo * Z * Z) :=
  let esize := k_esize f in
  let len := if negb (esize =? 1) then len / esize else len in
  let l := kfifo_unused f in
  let len := if l <? len then l else len in
  let! (m, ret, copied) := kfifo_copy_from_user m f from len (k_in f) in
  let '(len, err) := if truthy ret then (len ⊟ ret, - EFAULT) else (len, 0) in
  Ok (m, set_in f (k_in f ⊞ len), err, copied).

Definition kfifo_copy_to_user (m : mem) (f : kfifo) (to : ptr) (len off : Z)
    : res (mem * Z * Z) :=
  let esize := k_esize f in
  let '(off, len, l) := kfifo_span f len off in
  let! (m, ret) := copy_to_user m to (padd (k_data f) off) l in
  let! (m, ret) :=
    if truthy ret then Ok (m, DIV_ROUND_UP (ret ⊞ len ⊟ l) esize)
    else
      let! (m, ret) := copy_to_user m (padd to l) (k_data f) (len ⊟ l) in
      if truthy ret then Ok (m, DIV_ROUND_UP ret esize) else Ok (m, ret) in
  let copied := len ⊟ (ret ⊠ esize) in
  Ok (m, ret, copied).

Definition __kfifo_to_user (m : mem) (f : kfifo) (to : ptr) (len : Z)
    : res (mem * kfifo * Z * Z) :=
  let esize := k_esize f in
  let len := if negb (esize =? 1) then len / esize else len in
  let l := k_in f ⊟ k_out f in
  let len := if l <? len then l else len in
  let! (m, ret, copied) := kfifo_copy_to_user m f to len (k_out f) in
  let '(len, err) := if truthy ret then (len ⊟ ret, - EFAULT) else (len, 0) in
  Ok (m, set_out f (k_out f ⊞ len), err, copied).
End Operations.

(** ** Lemmas *)

Lemma div_round_up_spec n d :
  0 <= n -> 1 <= d -> n + d <= W32 ->
  DIV_ROUND_UP n d = (n + d - 1) / d.
Proof.
  intros Hn Hd Hb. unfold DIV_ROUND_UP. f_equal.
  rewrite u32_sub_l. apply u32_small. lia.
Qed.

(** [n] whole elements less the rounded-up rest is the rounded-down part. *)
Lemma elements_copied n r e :
  1 <= e -> 0 <= r <= n * e ->
  let ret := (r + e - 1) / e in
  0 <= ret <= n /\ n - ret = (n * e - r) / e /\
  (n - ret) * e <= n * e - r /\ (ret = 0 <-> r = 0).
Proof.
  intros He Hr ret.
  pose proof (Z.div_mod (r + e - 1) e) as H1. pose proof (Z.mod_pos_bound (r + e - 1) e) as H2.
  fold ret in H1. assert (0 <= ret) by (apply Z.div_pos; lia).
  assert (n - ret = (n * e - r) / e).
  { apply (Z.div_unique_pos _ _ _ (e - 1 - (r + e - 1) mod e)); lia. }
  repeat split; try nia.
Qed.

(** What a user copy of [n] bytes in two pieces, the first of [l] bytes, gets
    over: it stops where the copy of a piece reports bytes it could not move. *)
Definition went_over (cp : user_copy) (m : mem) (dst1 src1 dst2 src2 : ptr) (l n : Z) : res Z :=
  let! (m, r) := cp m dst1 src1 l in
  if r =? 0 then let! (_, r) := cp m dst2 src2 (n - l) in Ok (n - r)
  else Ok (l - r).

(** Where element [off] starts in the buffer of [f], and how many of [n] bytes
    from there lie before its end. *)
Definition ring_pos (f : kfifo) (off : Z) : Z := off mod capacity f * k_esize f.
Definition to_end (f : kfifo) (off n : Z) : Z := Z.min n (capacity f * k_esize f - ring_pos f off).

(** Between the user's buffer [u] and the ring from element [off] on. *)
Definition went_in (cp : user_copy) (m : mem) (f : kfifo) (u : ptr) (off n : Z) : res Z :=
  let l := to_end f off n in
  went_over cp m (padd (k_data f) (ring_pos f off)) u (k_data f) (padd u l) l n.
Definition went_out (cp : user_copy) (m : mem) (f : kfifo) (u : ptr) (off n : Z) : res Z :=
  let l := to_end f off n in
  went_over cp m u (padd (k_data f) (ring_pos f off)) (padd u l) (k_data f) l n.

(** The state a copy into the fifo leaves: [bs'], whose first [c] bytes are the
    user's, is stored at the write position. *)
Definition stored_prefix (m : mem) (f : kfifo) (off : Z) (bs : list Z) (m' : mem) (c : Z) : Prop :=
  exists bs', m' = put_window m f
      (ring_store (window m f) (Z.to_nat (off mod capacity f * k_esize f)) bs') /\
    c <= zlen bs' <= zlen bs /\ take (Z.to_nat c) bs' = take (Z.to_nat c) bs.

(** The arithmetic of the two return paths: [c] bytes copied out of [len]
    elements. *)
Lemma not_copied f len c :
  1 <= k_esize f -> 0 <= len <= capacity f -> 0 <= c <= len * k_esize f ->
  capacity f * k_esize f + k_esize f <= W32 ->
  let ret := DIV_ROUND_UP (len * k_esize f - c) (k_esize f) in
  ret = len - c / k_esize f /\
  u32 (len * k_esize f - u32 (ret * k_esize f)) = c / k_esize f * k_esize f.
Proof.
  intros He Hl Hc Hb ret. set (e := k_esize f) in *. subst ret.
  rewrite div_round_up_spec by nia.
  destruct (elements_copied len (len * e - c) e) as (H1 & H2 & H3 & _); [lia | lia |].
  replace (len * e - (len * e - c)) with c in H2 by lia.
  split; [lia |]. rewrite (u32_small (_ * _)) by nia. rewrite u32_small by nia. nia.
Qed.

(** Cutting [take k bs ++ pad] at [l <= k]. *)
Lemma take_padded (bs pad : list Z) k l :
  (l <= k <= length bs)%nat ->
  take l (take k bs ++ pad) = take l bs /\
  drop l (take k bs ++ pad) = take (k - l) (drop l bs) ++ pad.
Proof.
  intros H. rewrite take_app_le, drop_app_le by (rewrite length_take; lia).
  rewrite take_take, Nat.min_l, skipn_firstn_comm by lia. auto.
Qed.

Lemma stored_prefix_padded m f off bs pad c :
  0 <= c -> zlen pad + c <= zlen bs ->
  stored_prefix m f off bs
    (put_window m f (ring_store (window m f) (Z.to_nat (off mod capacity f * k_esize f))
       (take (Z.to_nat c) bs ++ pad))) c.
Proof.
  unfold zlen. intros Hc Hp. eexists. split; [reflexivity |].
  split; [unfold zlen; rewrite length_app, length_take; lia |].
  apply (take_padded bs pad (Z.to_nat c) (Z.to_nat c)). lia.
Qed.

(** Both directions copy a first chunk up to the end of the buffer and a second
    one from its start. *)
Section Chunks.
Context (cp : user_copy) (Hcp : UserCopy cp) (m : mem) (f : kfifo) (Hwf : wf m f)
  (Hbig : capacity f * k_esize f + k_esize f <= W32)
  (len off : Z) (Hl : 0 <= len <= capacity f).

Let a := off mod capacity f * k_esize f.
Let n := len * k_esize f.
Let l := Z.min n ((capacity f - off mod capacity f) * k_esize f).

Lemma chunk_bounds :
  0 <= a < capacity f * k_esize f /\ 0 <= n <= capacity f * k_esize f /\
  0 <= l <= n /\ a + l <= capacity f * k_esize f /\ l = Z.min n (capacity f * k_esize f - a).
Proof.
  destruct (span_bounds _ _ Hwf len off Hl) as (H1 & H2 & H3 & H4).
  do 4 (split; [assumption |]). subst l a. f_equal. lia.
Qed.

Definition second_chunk (dst src : ptr) (m : mem) : res (mem * Z) :=
  let! (m, ret) := cp m dst src (n ⊟ l) in
  if truthy ret then Ok (m, DIV_ROUND_UP ret (k_esize f)) else Ok (m, ret).

Lemma second_chunk_spec m1 dst src bs :
  load m1 src (n - l) = Ok bs -> blk dst <> blk src -> valid_at m1 dst (n - l) ->
  exists r pad, 0 <= r <= n - l /\ zlen pad = r /\
    cp m1 dst src (n - l) = Ok (put_bytes m1 dst (take (Z.to_nat (n - l - r)) bs ++ pad), r) /\
    second_chunk dst src m1 =
      Ok (put_bytes m1 dst (take (Z.to_nat (n - l - r)) bs ++ pad), len - (n - r) / k_esize f).
Proof.
  intros Hld Hne Hv. destruct chunk_bounds as (_ & Hn & Hcut & _).
  pose proof (wf_bytes _ _ Hwf). pose proof (wf_esize _ _ Hwf) as He.
  destruct (user_copy_put cp m1 dst src (n - l) bs Hcp Hld Hne) as (r & pad & Hr & Hpad & E);
    [lia | assumption |].
  exists r, pad. do 3 (split; [assumption |]).
  unfold second_chunk, truthy. rewrite u32_small, E by lia. cbn [rbind].
  destruct (not_copied f len (n - r)) as [Hret _]; [lia | lia | fold n; lia | lia |].
  fold n in Hret. replace (n - (n - r)) with r in Hret by lia.
  destruct (Z.eqb_spec r 0) as [->|]; cbn [negb]; [|congruence].
  unfold n. rewrite !Z.sub_0_r, Z.div_mul by lia. do 2 f_equal. lia.
Qed.

Lemma first_chunk_short r1 :
  0 < r1 <= l -> DIV_ROUND_UP (r1 ⊞ n ⊟ l) (k_esize f) = len - (l - r1) / k_esize f.
Proof.
  intros Hr. destruct chunk_bounds as (_ & Hn & Hcut & _). pose proof (wf_esize _ _ Hwf) as He.
  destruct (not_copied f len (l - r1)) as [Hret _]; [lia | lia | fold n; lia | lia |].
  fold n in Hret. rewrite <- Hret. f_equal. rewrite u32_sub_l. rewrite u32_small by lia. lia.
Qed.

Lemma copied_eq c :
  0 <= c <= n ->
  u32 (n - u32 ((len - c / k_esize f) * k_esize f)) = c / k_esize f * k_esize f.
Proof.
  intros Hc. destruct (not_copied f len c) as [Hret Hcop];
    [apply (wf_esize _ _ Hwf) | lia | assumption | lia |].
  now rewrite Hret in Hcop.
Qed.

Lemma copy_from_user_spec from bs :
  readable m f from n bs ->
  exists m' c, 0 <= c <= n /\ went_in cp m f from off n = Ok c /\
    kfifo_copy_from_user cp m f from len off =
      Ok (m', len - c / k_esize f, c / k_esize f * k_esize f) /\
    stored_prefix m f off bs m' c.
Proof.
  intros [Hne Hld]. pose proof (load_length _ _ _ _ Hld) as Hlen.
  destruct chunk_bounds as (Ha & Hn & Hcut & Hend & Hl').
  pose proof (wf_bytes _ _ Hwf). pose proof (wf_esize _ _ Hwf) as He.
  unfold kfifo_copy_from_user. rewrite (span_eq m) by assumption. fold a n l.
  unfold went_in, went_over, to_end. change (ring_pos f off) with a. rewrite <- Hl'.
  destruct (load_split _ _ _ _ l Hld) as [Hl1 Hl2]; [lia |].
  destruct (valid_split _ _ _ a (data_valid _ _ Hwf)) as [_ Hv]; [lia |].
  destruct (valid_split _ _ _ l Hv) as [Hv1 _]; [lia |].
  destruct (user_copy_put cp m (padd (k_data f) a) from l _ Hcp Hl1)
    as (r1 & pad & Hr1 & Hpad & E1); [cbn; congruence | lia | exact Hv1 |].
  rewrite take_take, Nat.min_l in E1 by lia. rewrite E1. cbn [rbind]. unfold truthy at 1.
  destruct (Z.eqb_spec r1 0) as [->|Hnz]; cbn [negb].
  - destruct pad; [|unfold zlen in Hpad; cbn in Hpad; lia]. rewrite app_nil_r, Z.sub_0_r.
    destruct (second_chunk_spec (put_bytes m (padd (k_data f) a) (take (Z.to_nat l) bs))
                (k_data f) (padd from l) (drop (Z.to_nat l) bs)) as (r2 & pad & Hr2 & Hpad2 & Ecp & E2).
    + rewrite load_put_other by (cbn; congruence). exact Hl2.
    + cbn. congruence.
    + apply valid_put; [|destruct (valid_split _ _ _ (n - l) (data_valid _ _ Hwf)); [lia | assumption]].
      unfold zlen. rewrite length_take, Nat.min_l, Z2Nat.id by lia. exact Hv1.
    + unfold second_chunk in E2. rewrite Ecp, E2. cbn [rbind]. rewrite copied_eq by lia.
      eexists _, (n - r2). split; [lia |]. do 2 (split; [reflexivity |]).
      destruct (take_padded bs pad (Z.to_nat (n - r2)) (Z.to_nat l)) as [T1 T2]; [lia |].
      pose proof (put_bytes_store_two m f a (take (Z.to_nat (n - r2)) bs ++ pad) Hwf Ha) as Hput.
      assert (zlen (take (Z.to_nat (n - r2)) bs ++ pad) = n) as Hz
        by (unfold zlen in *; rewrite length_app, length_take; lia).
      cbn zeta in Hput. rewrite Hz, <- Hl', T1, T2 in Hput.
      replace (Z.to_nat (n - l - r2)) with (Z.to_nat (n - r2) - Z.to_nat l)%nat by lia.
      rewrite Hput by lia. apply stored_prefix_padded; unfold zlen in *; lia.
  - rewrite first_chunk_short by lia. cbn [rbind]. rewrite copied_eq by lia.
    eexists _, (l - r1). split; [lia |]. do 2 (split; [reflexivity |]).
    rewrite put_bytes_store_one; [|assumption | assumption |].
    + apply stored_prefix_padded; unfold zlen in *; lia.
    + unfold zlen in *. rewrite length_app, length_take. lia.
Qed.

(** The state a copy out of the fifo leaves: the user's buffer starts with the
    first [c] bytes at the read position. *)
Definition delivered (off : Z) (to : ptr) (m' : mem) (c : Z) : Prop :=
  exists bs', m' = put_bytes m to bs' /\ c <= zlen bs' <= n /\
    take (Z.to_nat c) bs' = take (Z.to_nat c) (rot (window m f) (Z.to_nat a)).

(** The bytes at the read position, as the two chunks have them. *)
Lemma chunk_ring :
  let b1 := read_at (window m f) (Z.to_nat a) (Z.to_nat l) in
  let b2 := read_at (window m f) (Z.to_nat 0) (Z.to_nat (n - l)) in
  length b1 = Z.to_nat l /\ length b2 = Z.to_nat (n - l) /\
  forall c bs', c <= n -> take (Z.to_nat c) bs' = take (Z.to_nat c) (b1 ++ b2) ->
    take (Z.to_nat c) bs' = take (Z.to_nat c) (rot (window m f) (Z.to_nat a)).
Proof.
  intros b1 b2. destruct chunk_bounds as (Ha & Hn & Hcut & Hend & Hl'). pose proof (window_length _ _ Hwf) as HW.
  assert (take (Z.to_nat n) (rot (window m f) (Z.to_nat a)) = b1 ++ b2) as Hring.
  { rewrite <- ring_read by lia. cbn zeta. subst b1 b2.
    replace (Nat.min _ _) with (Z.to_nat l) by lia. f_equal. f_equal. lia. }
  split; [apply length_read_at; lia |]. split; [apply length_read_at; lia |].
  intros c bs' Hc ->. rewrite <- Hring, take_take. f_equal. lia.
Qed.

Lemma copy_to_user_spec to :
  writable m f to n ->
  exists m' c, 0 <= c <= n /\ went_out cp m f to off n = Ok c /\
    kfifo_copy_to_user cp m f to len off =
      Ok (m', len - c / k_esize f, c / k_esize f * k_esize f) /\
    delivered off to m' c.
Proof.
  intros [Hne Hv]. destruct chunk_bounds as (Ha & Hn & Hcut & Hend & Hl').
  pose proof (window_length _ _ Hwf) as HW.
  pose proof (wf_bytes _ _ Hwf). pose proof (wf_esize _ _ Hwf) as He.
  unfold kfifo_copy_to_user. rewrite (span_eq m) by assumption. fold a n l.
  unfold went_out, went_over, to_end. change (ring_pos f off) with a. rewrite <- Hl'.
  destruct (valid_split _ _ _ l Hv) as [Hv1 Hv2]; [lia |].
  pose proof (load_window _ _ a l Hwf) as Hl1. pose proof (load_window _ _ 0 (n - l) Hwf) as Hl2.
  specialize (Hl1 ltac:(lia) ltac:(lia) Hend). specialize (Hl2 ltac:(lia) ltac:(lia) ltac:(lia)).
  set (b1 := read_at (window m f) (Z.to_nat a) (Z.to_nat l)) in *.
  set (b2 := read_at (window m f) (Z.to_nat 0) (Z.to_nat (n - l))) in *.
  destruct chunk_ring as (Hb1 & Hb2 & Hpre). fold b1 in Hb1, Hpre. fold b2 in Hb2, Hpre.
  destruct (user_copy_put cp m to (padd (k_data f) a) l _ Hcp Hl1)
    as (r1 & pad & Hr1 & Hpad & E1); [cbn; congruence | lia | exact Hv1 |].
  rewrite E1. cbn [rbind]. unfold truthy at 1.
  unfold zlen in *.
  destruct (Z.eqb_spec r1 0) as [->|Hnz]; cbn [negb].
  - destruct pad; [|cbn in Hpad; lia]. rewrite app_nil_r, Z.sub_0_r, take_ge by lia.
    destruct (second_chunk_spec (put_bytes m to b1) (padd to l) (k_data f) b2)
      as (r2 & pad & Hr2 & Hpad2 & Ecp & E2).
    + rewrite load_put_other by congruence.
      replace (k_data f) with (padd (k_data f) 0); [exact Hl2 |].
      unfold padd. destruct (k_data f). cbn. f_equal. lia.
    + cbn. congruence.
    + apply valid_put; [|exact Hv2]. unfold zlen. rewrite Hb1, Z2Nat.id by lia. exact Hv1.
    + unfold second_chunk in E2. rewrite Ecp, E2. cbn [rbind]. rewrite copied_eq by lia.
      eexists _, (n - r2). split; [lia |]. do 2 (split; [reflexivity |]).
      exists (b1 ++ take (Z.to_nat (n - l - r2)) b2 ++ pad). unfold zlen in Hpad2.
      split; [|split].
      * assert (zlen b1 = l) as Hz1 by (unfold zlen; lia).
        rewrite <- (put_bytes_app m to b1), Hz1; [reflexivity |]. rewrite Hz1.
        unfold zlen. rewrite length_app, length_take.
        replace (l + Z.of_nat _) with n by lia. exact Hv.
      * unfold zlen. rewrite !length_app, length_take. lia.
      * apply Hpre; [lia |]. rewrite (take_app_ge b1 b2), (take_app_ge b1 (_ ++ _)) by lia.
        f_equal. rewrite Hb1, take_app_le by (rewrite length_take; lia).
        rewrite take_take. f_equal. lia.
  - rewrite first_chunk_short by lia. cbn [rbind]. rewrite copied_eq by lia.
    eexists _, (l - r1). split; [lia |]. do 2 (split; [reflexivity |]).
    eexists. split; [reflexivity |]. split.
    + unfold zlen. rewrite length_app, length_take. lia.
    + apply Hpre; [lia |]. rewrite !take_app_le by (rewrite ?length_take; lia).
      rewrite take_take. f_equal. lia.
Qed.
End Chunks.

(** Requests are counted in bytes and cut down to whole elements. *)
Lemma whole_elements f len :
  1 <= k_esize f -> (if negb (k_esize f =? 1) then len / k_esize f else len) = len / k_esize f.
Proof. intros He. ztest; cbn; [|reflexivity]. replace (k_esize f) with 1. now rewrite Z.div_1_r. Qed.

(** The exit path both directions share: [c] of [k * esize] bytes went over. *)
Lemma exit_path (k j : Z) :
  0 <= j <= k -> k < W32 ->
  (if truthy (k - j) then (k ⊟ (k - j), - EFAULT) else (k, 0)) =
    (j, if j =? k then 0 else - EFAULT).
Proof.
  intros Hj Hk. unfold truthy. destruct (Z.eqb_spec j k) as [->|].
  - rewrite Z.sub_diag. reflexivity.
  - destruct (Z.eqb_spec (k - j) 0); [lia |]. cbn. rewrite u32_small by lia. f_equal. lia.
Qed.

(** A user copy that faults after [limit] bytes, to run the failure path. *)
Definition faulting_copy (limit : Z) : user_copy := fun m dst src n =>
  let k := Z.min (Z.max 0 limit) n in
  let! m := memcpy m dst src k in Ok (m, n - k).

#[export] Instance faulting_copy_ok limit : UserCopy (faulting_copy limit).
Proof.
  split. intros m dst src n D S HD HS Hne Hn Hbd Hbs. unfold faulting_copy.
  pose proof (proj1 (in_bounds_iff _ _ _) Hbd) as Hd.
  pose proof (proj1 (in_bounds_iff _ _ _) Hbs) as Hs. set (k := Z.min _ n).
  rewrite (memcpy_ok _ _ _ _ D S) by (assumption || (apply in_bounds_iff; lia)).
  cbn [rbind]. eexists _, (n - k). split; [reflexivity |].
  exists D, S, (read_at D (Z.to_nat (ofs dst + k)) (Z.to_nat (n - k))).
  split; [assumption |]. split; [assumption |]. split; [lia |]. unfold zlen in *.
  split; [rewrite length_read_at; lia |].
  f_equal. f_equal. replace (n - (n - k)) with k by lia.
  list_by_lookup.
Qed.

(** A fifo of four two-byte elements whose indices are about to wrap, holding
    [20;21;22;23], next to an eight-byte user buffer. *)
Definition sample_fifo : kfifo := Kfifo 1 (W32 - 1) 3 2 (Ptr 16 0).
Definition sample_mem : mem :=
  Mem {[ 16 := [22; 23; 0; 0; 0; 0; 20; 21]; 64 := [1; 2; 3; 4; 5; 6; 7; 8] ]} ∅.

Lemma sample_wf : wf sample_mem sample_fifo.
Proof.
  split; try (vm_compute; intuition congruence).
  - exists 2. vm_compute. intuition congruence.
  - eexists. split; reflexivity.
Qed.

(** C26: [__kfifo_from_user] appends exactly the whole elements that came over.
    With [k] the elements asked for that fit and [c] the number of bytes the
    user copies moved ([went_in]: of the piece up to the end of the buffer, and
    of the piece from its start if the first was complete), [c / esize]
    elements are appended, they are the first of the user's buffer, their size
    in bytes is reported, and the result is 0 when all [k] came over and
    -EFAULT otherwise; memory outside the fifo's block stays as it is. *)
Theorem kfifo_from_user_spec cp (Hcp : UserCopy cp) m f from len bs :
  wf m f -> capacity f * k_esize f + k_esize f <= W32 -> 0 <= len ->
  let k := Z.min (len / k_esize f) (capacity f - used f) in
  readable m f from (k * k_esize f) bs ->
  exists m' c, let j := c / k_esize f in let f' := set_in f (k_in f ⊞ j) in
    went_in cp m f from (k_in f) (k * k_esize f) = Ok c /\ 0 <= c <= k * k_esize f /\
    __kfifo_from_user cp m f from len =
      Ok (m', f', (if j =? k then 0 else - EFAULT), j * k_esize f) /\
    wf m' f' /\ contents m' f' = contents m f ++ take (Z.to_nat (j * k_esize f)) bs /\
    only_block (blk (k_data f)) m m'.
Proof.
  intros Hwf Hbig Hlen k Hr. pose proof (wf_used _ _ Hwf). pose proof (used_nonneg f).
  pose proof (wf_esize _ _ Hwf) as He. pose proof (wf_cap _ _ Hwf).
  assert (0 <= len / k_esize f) by (apply Z.div_pos; lia).
  unfold __kfifo_from_user. rewrite whole_elements, (unused_eq m) by assumption.
  replace (if _ <? _ then _ else _) with k by (subst k; ztest; lia).
  destruct (copy_from_user_spec cp Hcp m f Hwf Hbig k (k_in f) ltac:(lia) from bs Hr)
    as (m' & c & Hc & Hw0 & -> & bs' & -> & Hz & Hpre).
  cbn [rbind]. set (j := c / k_esize f).
  assert (0 <= j /\ j * k_esize f <= c) as [Hj0 Hjc].
  { subst j. pose proof (Z.mul_div_le c (k_esize f)). split; [apply Z.div_pos|]; lia. }
  pose proof (load_length _ _ _ _ (proj2 Hr)) as Hlb. unfold zlen in Hz.
  assert (j <= k) by nia. rewrite exit_path by lia.
  eexists _, c. fold j. split; [exact Hw0 | split; [exact Hc | split; [reflexivity |]]].
  destruct (push_contents m f j bs' Hwf Hj0) as [Hw' Hc']; [unfold zlen; nia |].
  split; [exact Hw' | split; [|apply put_window_only]]. rewrite Hc'. f_equal.
  rewrite <- (Nat.min_l (Z.to_nat (j * k_esize f)) (Z.to_nat c)) by lia.
  now rewrite <- !take_take, Hpre.
Qed.

(** The copy of mem.c; a copy that faults after three bytes, in the second
    element; and one that faults at once. *)
Lemma kfifo_from_user_spec_witness :
  exists m1 m2 m3,
    __kfifo_from_user (copy_from_user (-1)) sample_mem sample_fifo (Ptr 64 0) 8 = Ok (m1, set_in sample_fifo 3, 0, 4) /\
    __kfifo_from_user (faulting_copy 3) sample_mem sample_fifo (Ptr 64 0) 8 = Ok (m2, set_in sample_fifo 2, - EFAULT, 2) /\
    contents m2 (set_in sample_fifo 2) = [20; 21; 22; 23; 1; 2] /\
    __kfifo_from_user (faulting_copy 0) sample_mem sample_fifo (Ptr 64 0) 8 = Ok (m3, set_in sample_fifo 1, - EFAULT, 0).
Proof.
  destruct (kfifo_from_user_spec (copy_from_user (-1)) _ sample_mem sample_fifo (Ptr 64 0) 8 [1; 2; 3; 4])
    as (m1 & c1 & W1 & _ & E1 & _); [apply sample_wf | vm_compute; discriminate | lia | now split |].
  destruct (kfifo_from_user_spec (faulting_copy 3) _ sample_mem sample_fifo (Ptr 64 0) 8 [1; 2; 3; 4])
    as (m2 & c2 & W2 & _ & E2 & _ & H2 & _); [apply sample_wf | vm_compute; discriminate | lia | now split |].
  destruct (kfifo_from_user_spec (faulting_copy 0) _ sample_mem sample_fifo (Ptr 64 0) 8 [1; 2; 3; 4])
    as (m3 & c3 & W3 & _ & E3 & _); [apply sample_wf | vm_compute; discriminate | lia | now split |].
  vm_compute in W1, W2, W3. injection W1 as <-. injection W2 as <-. injection W3 as <-.
  exists m1, m2, m3. split; [exact E1 | split; [exact E2 | split; [exact H2 | exact E3]]].
Defined.

(** C27: [__kfifo_to_user] removes exactly the whole elements the user received.
    With [k] the elements asked for that are present and [c] the number of bytes
    the user copies moved ([went_out]), the first [c / esize] elements of the
    queue are in the user's buffer and no longer in the queue, their size in
    bytes is reported, and the result is 0 when all [k] went over and -EFAULT
    otherwise; memory outside the user's block stays as it is. *)
Theorem kfifo_to_user_spec cp (Hcp : UserCopy cp) m f to len :
  wf m f -> capacity f * k_esize f + k_esize f <= W32 -> 0 <= len ->
  let k := Z.min (len / k_esize f) (used f) in
  writable m f to (k * k_esize f) ->
  exists m' c, let j := c / k_esize f in let f' := set_out f (k_out f ⊞ j) in
    went_out cp m f to (k_out f) (k * k_esize f) = Ok c /\ 0 <= c <= k * k_esize f /\
    __kfifo_to_user cp m f to len =
      Ok (m', f', (if j =? k then 0 else - EFAULT), j * k_esize f) /\
    load m' to (j * k_esize f) = Ok (take (Z.to_nat (j * k_esize f)) (contents m f)) /\
    wf m' f' /\ contents m' f' = drop (Z.to_nat (j * k_esize f)) (contents m f) /\
    only_block (blk to) m m'.
Proof.
  intros Hwf Hbig Hlen k Hw. pose proof (wf_used _ _ Hwf). pose proof (used_nonneg f).
  pose proof (wf_esize _ _ Hwf) as He. pose proof (wf_cap _ _ Hwf).
  assert (0 <= len / k_esize f) by (apply Z.div_pos; lia).
  unfold __kfifo_to_user. rewrite whole_elements by assumption. fold (used f).
  replace (if _ <? _ then _ else _) with k by (subst k; ztest; lia).
  destruct (copy_to_user_spec cp Hcp m f Hwf Hbig k (k_out f) ltac:(lia) to Hw)
    as (m' & c & Hc & Hw0 & -> & bs' & -> & Hz & Hpre).
  cbn [rbind]. set (j := c / k_esize f).
  assert (0 <= j /\ j * k_esize f <= c) as [Hj0 Hjc].
  { subst j. pose proof (Z.mul_div_le c (k_esize f)). split; [apply Z.div_pos|]; lia. }
  assert (j <= k) by nia. rewrite exit_path by lia. destruct Hw as [Hne Hv].
  pose proof (put_bytes_only m to bs') as Ho.
  assert (wf (put_bytes m to bs') f) as Hwf' by (eapply wf_only_block; eassumption).
  assert (contents (put_bytes m to bs') f = contents m f) as Hcon.
  { unfold contents. now rewrite (window_only_block _ _ _ _ Ho Hne). }
  destruct (pop_contents _ f j Hwf') as [Hw2 Hc2]; [lia |]. rewrite Hcon in Hc2.
  eexists _, c. fold j. split; [exact Hw0 | split; [exact Hc | split; [reflexivity |]]].
  split; [|split; [exact Hw2 | split; [exact Hc2 | exact Ho]]].
  assert (valid_at m to (zlen bs')) as Hvb.
  { destruct (valid_split _ _ _ (zlen bs') Hv); [unfold zlen in *; lia | assumption]. }
  pose proof (load_put_bytes m to (zlen bs') bs' Hvb) as Hld.
  destruct (load_split _ _ _ _ (j * k_esize f) (Hld ltac:(unfold zlen; lia))) as [-> _]; [nia |].
  f_equal. unfold contents.
  assert (j * k_esize f <= used f * k_esize f) by nia.
  rewrite take_take, (Nat.min_l _ (Z.to_nat (used f * _))) by lia.
  rewrite <- (Nat.min_l (Z.to_nat (j * k_esize f)) (Z.to_nat c)) by lia.
  now rewrite <- !take_take, Hpre.
Qed.

Lemma kfifo_to_user_spec_witness :
  exists m1 m2,
    __kfifo_to_user copy_to_user sample_mem sample_fifo (Ptr 64 0) 9 = Ok (m1, set_out sample_fifo 1, 0, 4) /\
    __kfifo_to_user (faulting_copy 1) sample_mem sample_fifo (Ptr 64 0) 9 = Ok (m2, sample_fifo, - EFAULT, 0) /\
    contents m2 sample_fifo = [20; 21; 22; 23].
Proof.
  destruct (kfifo_to_user_spec copy_to_user _ sample_mem sample_fifo (Ptr 64 0) 9)
    as (m1 & c1 & W1 & _ & E1 & _);
    [apply sample_wf | vm_compute; discriminate | lia | split; [easy | eexists; split; reflexivity] |].
  destruct (kfifo_to_user_spec (faulting_copy 1) _ sample_mem sample_fifo (Ptr 64 0) 9)
    as (m2 & c2 & W2 & _ & E2 & _ & _ & H2 & _);
    [apply sample_wf | vm_compute; discriminate | lia | split; [easy | eexists; split; reflexivity] |].
  vm_compute in W1, W2. injection W1 as <-. injection W2 as <-.
  exists m1, m2. split; [exact E1 | split; [exact E2 | exact H2]].
Defined.

End KfifoUser.
