(* ===== verification/KfifoRec.v ===== *)
(** * Records in a kfifo

    The [_r] functions of src/libs/liblinux/src/fifo.c: each record is stored as
    a little-endian length of [recsize] bytes (1 or 2) followed by its payload.
    The header is poked and peeked byte by byte through the index mask, so a
    header may straddle the end of the buffer. *)

From S2P Require Import Prelude Bytes Log2 Memory Kfifo KfifoUser.
Import Bytes Log2 Memory Kfifo KfifoUser.

Module KfifoRec.

(** ** Operations *)

(** [1 << (recsize << 3)] is undefined from 32 on. *)
Definition __kfifo_max_r (len recsize : Z) : res Z :=
  let sh := u32 (Z.shiftl recsize 3) in
  let! _ := defined_if (sh <? 32) in
  let max := Z.shiftl 1 sh ⊟ 1 in
  if max <? len then Ok max else Ok len.

Definition __KFIFO_PEEK (m : mem) (data : ptr) (out mask : Z) : res Z :=
  let! bs := load m (padd data (out .& mask)) 1 in
  match bs with [b] => Ok b | _ => Err UB end.

Definition __kfifo_peek_n (m : mem) (f : kfifo) (recsize : Z) : res Z :=
  let mask := k_mask f in
  let data := k_data f in
  let! l := __KFIFO_PEEK m data (k_out f) mask in
  let recsize := recsize ⊟ 1 in
  if truthy recsize then
    let! b := __KFIFO_PEEK m data (k_out f ⊞ 1) mask in
    Ok (l .| Z.shiftl b 8)
  else Ok l.

Definition __KFIFO_POKE (m : mem) (data : ptr) (in_ mask val : Z) : res mem :=
  store m (padd data (in_ .& mask)) [u8 val].

Definition __kfifo_poke_n (m : mem) (f : kfifo) (n recsize : Z) : res mem :=
  let mask := k_mask f in
  let data := k_data f in
  let! m := __KFIFO_POKE m data (k_in f) mask n in
  if 1 <? recsize then __KFIFO_POKE m data (k_in f ⊞ 1) mask (Z.shiftr n 8) else Ok m.

Definition __kfifo_len_r (m : mem) (f : kfifo) (recsize : Z) : res Z :=
  __kfifo_peek_n m f recsize.

Definition __kfifo_in_r (m : mem) (f : kfifo) (buf : ptr) (len recsize : Z)
    : res (mem * kfifo * Z) :=
  if kfifo_unused f <? (len ⊞ recsize) then Ok (m, f, 0)
  else
    let! m := __kfifo_poke_n m f len recsize in
    let! m := kfifo_copy_in m f buf len (k_in f ⊞ recsize) in
    Ok (m, set_in f (k_in f ⊞ (len ⊞ recsize)), len).

(** Returns the memory, the length copied and [*n], the length of the record. *)
Definition kfifo_out_copy_r (m : mem) (f : kfifo) (buf : ptr) (len recsize : Z)
    : res (mem * Z * Z) :=
  let! n := __kfifo_peek_n m f recsize in
  let len := if n <? len then n else len in
  let! m := kfifo_copy_out m f buf len (k_out f ⊞ recsize) in
  Ok (m, len, n).

Definition __kfifo_out_peek_r (m : mem) (f : kfifo) (buf : ptr) (len recsize : Z)
    : res (mem * Z) :=
  if k_in f =? k_out f then Ok (m, 0)
  else
    let! (m, len, n) := kfifo_out_copy_r m f buf len recsize in
    Ok (m, len).

Definition __kfifo_out_r (m : mem) (f : kfifo) (buf : ptr) (len recsize : Z)
    : res (mem * kfifo * Z) :=
  if k_in f =? k_out f then Ok (m, f, 0)
  else
    let! (m, len, n) := kfifo_out_copy_r m f buf len recsize in
    Ok (m, set_out f (k_out f ⊞ (n ⊞ recsize)), len).

Definition __kfifo_skip_r (m : mem) (f : kfifo) (recsize : Z) : res kfifo :=
  let! n := __kfifo_peek_n m f recsize in
  Ok (set_out f (k_out f ⊞ (n ⊞ recsize))).

(** The user-space pair returns the memory, the fifo, the error code and
    [*copied]; on a fault the fifo is returned as it was. *)
Definition __kfifo_from_user_r (cp : user_copy) (m : mem) (f : kfifo) (from : ptr) (len recsize : Z)
    : res (mem * kfifo * Z * Z) :=
  let! len := __kfifo_max_r len recsize in
  if kfifo_unused f <? (len ⊞ recsize) then Ok (m, f, 0, 0)
  else
    let! m := __kfifo_poke_n m f len recsize in
    let! (m, ret, copied) := kfifo_copy_from_user cp m f from len (k_in f ⊞ recsize) in
    if truthy ret then Ok (m, f, - EFAULT, 0)
    else Ok (m, set_in f (k_in f ⊞ (len ⊞ recsize)), 0, copied).

Definition __kfifo_to_user_r (cp : user_copy) (m : mem) (f : kfifo) (to : ptr) (len recsize : Z)
    : res (mem * kfifo * Z * Z) :=
  if k_in f =? k_out f then Ok (m, f, 0, 0)
  else
    let! n := __kfifo_peek_n m f recsize in
    let len := if n <? len then n else len in
    let! (m, ret, copied) := kfifo_copy_to_user cp m f to len (k_out f ⊞ recsize) in
    if truthy ret then Ok (m, f, - EFAULT, 0)
    else Ok (m, set_out f (k_out f ⊞ (n ⊞ recsize)), 0, copied).

(** The bookkeeping half of a DMA transfer of one record. *)
Definition __kfifo_dma_in_finish_r (m : mem) (f : kfifo) (len recsize : Z) : res (mem * kfifo) :=
  let! len := __kfifo_max_r len recsize in
  let! m := __kfifo_poke_n m f len recsize in
  Ok (m, set_in f (k_in f ⊞ (len ⊞ recsize))).

Definition __kfifo_dma_out_finish_r (m : mem) (f : kfifo) (recsize : Z) : res kfifo :=
  let! len := __kfifo_peek_n m f recsize in
  Ok (set_out f (k_out f ⊞ (len ⊞ recsize))).

(** ** Records and their encoding *)

Definition header (recsize n : Z) : list Z :=
  if 1 <? recsize then [u8 n; u8 (Z.shiftr n 8)] else [u8 n].

Definition encode (recsize : Z) (r : list Z) : list Z := header recsize (zlen r) ++ r.

(** Record lengths a header of [recsize] bytes can hold. *)
Definition max_rec (recsize : Z) : Z := 2 ^ (8 * recsize) - 1.

(** [f] holds the records [rs], oldest first. *)
Record records (m : mem) (f : kfifo) (recsize : Z) (rs : list (list Z)) : Prop := {
  rec_wf : wf m f;
  rec_bytes : k_esize f = 1;
  rec_size : recsize = 1 \/ recsize = 2;
  rec_contents : contents m f = concat (encode recsize <$> rs);
  rec_len : Forall (fun r => zlen r <= max_rec recsize) rs
}.

(** ** Lemmas *)

Lemma header_length recsize n : recsize = 1 \/ recsize = 2 -> zlen (header recsize n) = recsize.
Proof. intros [-> | ->]; reflexivity. Qed.

(** The header read back: the length, when it fits. *)
Definition decode_header (h : list Z) : Z :=
  match h with
  | [b] => b
  | [b; c] => b .| Z.shiftl c 8
  | _ => 0
  end.

Lemma decode_header_mod recsize n :
  recsize = 1 \/ recsize = 2 -> 0 <= n -> decode_header (header recsize n) = n mod 2 ^ (8 * recsize).
Proof.
  intros [-> | ->] Hn; cbn; [reflexivity |].
  rewrite lor_shiftl by (try lia; apply u8_range).
  rewrite Z.shiftr_div_pow2 by lia. change (2 ^ 8) with 256.
  change (Z.pow_pos 2 16) with 65536. zmod.
Qed.

(** *** One byte through the mask *)

Section Bytewise.
Context (m : mem) (f : kfifo) (Hwf : wf m f) (He : k_esize f = 1).

(** Poking [v] at the write position appends it. *)
Lemma poke_ok v :
  used f < capacity f ->
  let f' := set_in f (k_in f ⊞ 1) in
  exists m', __KFIFO_POKE m (k_data f) (k_in f) (k_mask f) v = Ok m' /\
    wf m' f' /\ contents m' f' = contents m f ++ [u8 v] /\ only_block (blk (k_data f)) m m'.
Proof.
  intros Hu f'. pose proof (wf_mod_bound _ _ Hwf (k_in f)) as Hm.
  unfold __KFIFO_POKE. rewrite (wf_and_mask m) by assumption.
  destruct (valid_split _ _ _ (k_in f mod capacity f) (data_valid _ _ Hwf)) as [_ Hv]; [lia |].
  destruct (valid_split _ _ _ 1 Hv) as [Hv1 _]; [lia |].
  rewrite store_put by exact Hv1. eexists. split; [reflexivity |].
  rewrite put_bytes_store_one by (assumption || (unfold zlen; cbn [length]; lia)).
  destruct (push_contents m f 1 [u8 v] Hwf) as [Hw Hc];
    [lia | rewrite He; unfold zlen; cbn [length]; lia |].
  rewrite He, !Z.mul_1_r in Hw, Hc. auto using put_window_only.
Qed.

(** Peeking at the read position gives the oldest byte. *)
Lemma peek_byte_ok :
  0 < used f ->
  exists b, __KFIFO_PEEK m (k_data f) (k_out f) (k_mask f) = Ok b /\
    contents m f = b :: drop 1 (contents m f).
Proof.
  intros Hu. pose proof (wf_mod_bound _ _ Hwf (k_out f)) as Hm.
  pose proof (window_length _ _ Hwf) as HW. pose proof (contents_length _ _ Hwf) as Hlen.
  unfold __KFIFO_PEEK. rewrite (wf_and_mask m), load_window by (assumption || lia). cbn [rbind].
  destruct (contents m f) as [|b bs] eqn:Hc; [cbn in Hlen; lia |].
  exists b. split; [|now rewrite skipn_cons, skipn_O].
  assert (read_at (window m f) (Z.to_nat (k_out f mod capacity f)) (Z.to_nat 1) = [b]) as ->; [|reflexivity].
  assert (contents m f !! 0%nat = Some b) as H0 by now rewrite Hc.
  unfold contents in H0. rewrite He, !Z.mul_1_r in H0.
  rewrite lookup_take_lt in H0 by lia. rewrite lookup_rot in H0 by lia.
  apply list_eq. intros [|i].
  - rewrite lookup_read_at. case_decide; [|lia]. cbn. rewrite <- H0. case_decide; f_equal; lia.
  - rewrite lookup_ge_None_2 by (rewrite length_read_at; lia). reflexivity.
Qed.
End Bytewise.

(** *** Headers *)

Section Headers.
Context (m : mem) (f : kfifo) (Hwf : wf m f) (He : k_esize f = 1)
  (recsize : Z) (Hrs : recsize = 1 \/ recsize = 2).

Lemma poke_n_ok n :
  used f + recsize <= capacity f ->
  let f' := set_in f (k_in f ⊞ recsize) in
  exists m', __kfifo_poke_n m f n recsize = Ok m' /\
    wf m' f' /\ contents m' f' = contents m f ++ header recsize n /\
    only_block (blk (k_data f)) m m'.
Proof.
  intros Hu f'. unfold __kfifo_poke_n. pose proof (wf_cap _ _ Hwf).
  destruct (poke_ok m f Hwf He n) as (m1 & -> & Hw1 & Hc1 & Ho1); [lia |]. cbn [rbind].
  unfold header. destruct Hrs as [-> | ->]; cbn [Z.ltb Z.compare Pos.compare Pos.compare_cont];
    [eauto |].
  pose proof (used_nonneg f).
  destruct (poke_ok m1 (set_in f (k_in f ⊞ 1)) Hw1 He (Z.shiftr n 8)) as (m2 & E2 & Hw2 & Hc2 & Ho2).
  { rewrite used_add by lia. unfold capacity in *. cbn. lia. }
  cbn in E2 |- *. rewrite E2. exists m2. split; [reflexivity |].
  assert (set_in (set_in f (k_in f ⊞ 1)) (k_in (set_in f (k_in f ⊞ 1)) ⊞ 1) = f') as Hf'.
  { subst f'. unfold set_in. cbn. f_equal. change (u32 (u32 (k_in f + 1) + 1) = u32 (k_in f + 2)).
    rewrite u32_add_l. f_equal. lia. }
  rewrite Hf' in Hw2, Hc2. split; [exact Hw2 | split].
  - rewrite Hc2, Hc1, <- app_assoc. reflexivity.
  - exact (only_block_trans _ _ _ _ Ho1 Ho2).
Qed.

(** The first [recsize] bytes are taken for a header, whatever they are. *)
Lemma peek_n_bytes h rest :
  contents m f = h ++ rest -> zlen h = recsize -> __kfifo_peek_n m f recsize = Ok (decode_header h).
Proof.
  intros Hc Hh. pose proof (contents_length _ _ Hwf) as Hlen. rewrite Hc, He, Z.mul_1_r in Hlen.
  rewrite length_app in Hlen. unfold zlen in Hh. unfold __kfifo_peek_n.
  destruct (peek_byte_ok m f Hwf He) as (b & -> & Hb); [lia |]. cbn [rbind].
  rewrite Hc in Hb. unfold truthy.
  destruct Hrs as [-> | ->]; (destruct h as [|b0 [|b1 [|]]]; cbn in Hh; try lia); cbn in Hb |- *;
    injection Hb as <-; [reflexivity |].
  destruct (pop_contents m f 1 Hwf) as [Hw' Hc']; [cbn in Hlen; lia |].
  destruct (peek_byte_ok m (set_out f (k_out f ⊞ 1)) Hw' He) as (b & E & Hb').
  { rewrite used_sub by (cbn in Hlen; lia). cbn in Hlen. lia. }
  cbn in E |- *. rewrite E. cbn [rbind]. rewrite Hc', Hc, He in Hb'. cbn in Hb'.
  injection Hb' as Hb'. now subst b.
Qed.

Lemma peek_n_ok n rest :
  contents m f = header recsize n ++ rest -> 0 <= n ->
  __kfifo_peek_n m f recsize = Ok (n mod 2 ^ (8 * recsize)).
Proof.
  intros Hc Hn. rewrite <- (decode_header_mod recsize n) by assumption.
  apply (peek_n_bytes _ rest Hc). now apply header_length.
Qed.

(** Poking the header and copying the payload behind it. *)
Lemma in_r_ok buf len bs :
  0 <= len -> len + recsize <= capacity f - used f -> readable m f buf len bs ->
  let f' := set_in f (k_in f ⊞ (len ⊞ recsize)) in
  exists m', __kfifo_in_r m f buf len recsize = Ok (m', f', len) /\
    wf m' f' /\ contents m' f' = contents m f ++ encode recsize bs /\
    only_block (blk (k_data f)) m m'.
Proof.
  intros Hl Hfit [Hne Hr] f'. pose proof (wf_cap _ _ Hwf). pose proof (used_nonneg f).
  pose proof (load_length _ _ _ _ Hr) as Hlen.
  assert (len ⊞ recsize = len + recsize) as Hu by (apply u32_small; lia).
  unfold __kfifo_in_r. rewrite (unused_eq m) by assumption. rewrite Hu.
  destruct (Z.ltb_spec (capacity f - used f) (len + recsize)); [lia |].
  destruct (poke_n_ok len) as (m1 & -> & Hw1 & Hc1 & Ho1); [lia |]. cbn [rbind].
  destruct (copy_in_push m1 (set_in f (k_in f ⊞ recsize)) buf len bs Hw1)
    as (m2 & E2 & Hw2 & Hc2 & Ho2).
  { rewrite used_add by lia. unfold capacity in *. cbn. lia. }
  { split; [exact Hne |]. cbn. rewrite He, Z.mul_1_r.
    now rewrite (load_only_block _ _ _ _ _ Ho1). }
  change (kfifo_copy_in m1 (set_in f _) buf len _)
    with (kfifo_copy_in m1 f buf len (k_in f ⊞ recsize)) in E2.
  rewrite E2. cbn [rbind]. exists m2.
  assert (set_in (set_in f (k_in f ⊞ recsize)) (k_in (set_in f (k_in f ⊞ recsize)) ⊞ len) = f') as Hf'.
  { subst f'. unfold set_in. cbn [k_in k_out k_mask k_esize k_data]. f_equal.
    rewrite !u32_add_l, u32_add_r. f_equal. lia. }
  rewrite Hf' in Hw2, Hc2. subst f'. rewrite Hu in Hw2, Hc2 |- *.
  split; [reflexivity | split; [assumption | split]].
  - rewrite Hc2, Hc1, <- app_assoc. unfold encode, zlen. rewrite Hlen, Z2Nat.id by lia. reflexivity.
  - exact (only_block_trans _ _ _ _ Ho1 Ho2).
Qed.

(** The record at the front, whose header says [k] bytes, is copied out; the
    queue stays. *)
Lemma out_copy_r_ok n rest buf len :
  contents m f = header recsize n ++ rest -> 0 <= n -> 0 <= len ->
  let k := n mod 2 ^ (8 * recsize) in
  k <= zlen rest -> writable m f buf (Z.min len k) ->
  exists m', kfifo_out_copy_r m f buf len recsize = Ok (m', Z.min len k, k) /\
    m' = put_bytes m buf (take (Z.to_nat (Z.min len k)) rest) /\
    load m' buf (Z.min len k) = Ok (take (Z.to_nat (Z.min len k)) rest) /\
    wf m' f /\ contents m' f = contents m f /\ only_block (blk buf) m m'.
Proof.
  intros Hc Hn Hlen k Hk Hw. pose proof (contents_length _ _ Hwf) as HL.
  rewrite Hc, length_app, He, Z.mul_1_r in HL. pose proof (used_nonneg f).
  pose proof (header_length recsize n Hrs) as Hh. unfold zlen in *.
  assert (0 <= k) by (apply Z.mod_pos_bound; apply Z.pow_pos_nonneg; lia).
  unfold kfifo_out_copy_r. rewrite (peek_n_ok n rest) by assumption. cbn [rbind]. fold k.
  replace (if k <? len then k else len) with (Z.min len k) by (ztest; lia).
  destruct (pop_contents m f recsize Hwf) as [Hw1 Hc1]; [lia |].
  rewrite Hc, He, Z.mul_1_r, drop_app_length' in Hc1 by lia.
  destruct (copy_out_front m (set_out f (k_out f ⊞ recsize)) buf (Z.min len k) Hw1)
    as (m' & E & Hm' & Hld & Hw' & Hc' & Ho).
  { rewrite used_sub by lia. lia. }
  { unfold writable in *. cbn. now rewrite He, Z.mul_1_r. }
  change (kfifo_copy_out m (set_out f _) buf _ _)
    with (kfifo_copy_out m f buf (Z.min len k) (k_out f ⊞ recsize)) in E.
  rewrite E. cbn [rbind]. exists m'. split; [reflexivity |].
  change (k_esize (set_out f _)) with (k_esize f) in Hld, Hm'.
  rewrite He, Z.mul_1_r, Hc1 in Hld, Hm'. split; [exact Hm' | split; [exact Hld |]]. destruct Hw as [Hne _].
  split; [eapply wf_only_block; eassumption | split; [|exact Ho]].
  unfold contents. now rewrite (window_only_block _ _ _ _ Ho Hne).
Qed.

(** Stepping over the record at the front. *)
Lemma skip_record_ok n rest :
  contents m f = header recsize n ++ rest -> 0 <= n ->
  let k := n mod 2 ^ (8 * recsize) in
  k <= zlen rest ->
  let f' := set_out f (k_out f ⊞ (k ⊞ recsize)) in
  wf m f' /\ contents m f' = drop (Z.to_nat k) rest.
Proof.
  intros Hc Hn k Hk f'. pose proof (contents_length _ _ Hwf) as HL.
  rewrite Hc, length_app, He, Z.mul_1_r in HL. pose proof (wf_cap _ _ Hwf).
  pose proof (wf_used _ _ Hwf).
  pose proof (header_length recsize n Hrs) as Hh. unfold zlen in *.
  assert (0 <= k) by (apply Z.mod_pos_bound; apply Z.pow_pos_nonneg; lia).
  subst f'. rewrite (u32_small (k + recsize)) by lia.
  destruct (pop_contents m f (k + recsize) Hwf) as [Hw1 Hc1]; [lia |].
  split; [exact Hw1 |]. rewrite Hc1, He, Hc, drop_app_ge by lia. f_equal. lia.
Qed.

Lemma in_use n rest : contents m f = header recsize n ++ rest -> (k_in f =? k_out f) = false.
Proof.
  intros Hc. rewrite (empty_iff m) by assumption.
  pose proof (contents_length _ _ Hwf) as HL. rewrite Hc, length_app in HL.
  pose proof (header_length recsize n Hrs) as Hh. unfold zlen in *.
  apply Z.eqb_neq. intros E. rewrite E in HL. cbn in HL. lia.
Qed.
End Headers.

(** ** Operations on the queue of records *)

Section Records.
Context (m : mem) (f : kfifo) (recsize : Z) (rs : list (list Z)) (Hrec : records m f recsize rs).

Lemma records_moved m' f' rs' :
  wf m' f' -> same_buffer f f' -> contents m' f' = concat (encode recsize <$> rs') ->
  Forall (fun r => zlen r <= max_rec recsize) rs' -> records m' f' recsize rs'.
Proof.
  destruct Hrec as [_ He Hs _ _]. intros Hw (_ & E & _) Hc Hf. split; congruence || assumption.
Qed.

Lemma records_in_full buf len :
  0 <= len -> len + recsize < W32 -> capacity f - used f < len + recsize ->
  __kfifo_in_r m f buf len recsize = Ok (m, f, 0).
Proof.
  intros Hl Hb Hf. destruct Hrec as [Hwf _ Hs _ _].
  unfold __kfifo_in_r. rewrite (unused_eq m), (u32_small (len + recsize)) by (assumption || lia).
  ztest; [reflexivity | lia].
Qed.

Lemma records_in buf len bs :
  0 <= len <= max_rec recsize -> len + recsize <= capacity f - used f -> readable m f buf len bs ->
  exists m' f', __kfifo_in_r m f buf len recsize = Ok (m', f', len) /\
    records m' f' recsize (rs ++ [bs]) /\ same_buffer f f' /\ only_block (blk (k_data f)) m m'.
Proof.
  intros Hl Hfit Hr. destruct Hrec as [Hwf He Hs Hc Hlen].
  destruct (in_r_ok m f Hwf He recsize Hs buf len bs) as (m' & E & Hw' & Hc' & Ho);
    [lia | assumption | assumption |].
  eexists _, _. split; [exact E |]. split; [|split; [now repeat split | exact Ho]].
  apply records_moved; [exact Hw' | now repeat split | |].
  - rewrite Hc', Hc, fmap_app, concat_app. cbn. now rewrite app_nil_r.
  - apply Forall_app. split; [exact Hlen |]. apply Forall_singleton.
    pose proof (load_length _ _ _ _ (proj2 Hr)). unfold zlen. lia.
Qed.

Lemma records_empty : rs = [] -> (k_in f =? k_out f) = true.
Proof.
  intros ->. destruct Hrec as [Hwf He _ Hc _]. rewrite (empty_iff m) by assumption.
  pose proof (contents_length _ _ Hwf) as HL. rewrite Hc, He, Z.mul_1_r in HL. cbn in HL.
  pose proof (used_nonneg f). apply Z.eqb_eq. lia.
Qed.

Lemma records_front r rs' :
  rs = r :: rs' ->
  contents m f = header recsize (zlen r) ++ (r ++ concat (encode recsize <$> rs')) /\
  zlen r mod 2 ^ (8 * recsize) = zlen r.
Proof.
  intros ->. destruct Hrec as [_ _ _ Hc Hl]. rewrite Hc. cbn. unfold encode at 1.
  rewrite <- app_assoc. split; [reflexivity |]. apply Forall_cons_1 in Hl as [Hl _].
  unfold max_rec in Hl. apply Z.mod_small. unfold zlen in *. lia.
Qed.

Lemma records_len r rs' : rs = r :: rs' -> __kfifo_len_r m f recsize = Ok (zlen r).
Proof.
  intros Hr. destruct (records_front r rs' Hr) as [Hc Hm]. destruct Hrec as [Hwf He Hs _ _].
  unfold __kfifo_len_r. rewrite (peek_n_ok m f Hwf He recsize Hs _ _ Hc), Hm by (unfold zlen; lia).
  reflexivity.
Qed.

Lemma records_drop r rs' m' :
  rs = r :: rs' -> wf m' f -> contents m' f = contents m f ->
  records m' (set_out f (k_out f ⊞ (zlen r ⊞ recsize))) recsize rs'.
Proof.
  intros Hr Hw' Hc'. destruct (records_front r rs' Hr) as [Hc Hm].
  destruct Hrec as [Hwf He Hs _ Hlen]. rewrite Hc in Hc'.
  destruct (skip_record_ok m' f Hw' He recsize Hs _ _ Hc') as [Hw2 Hc2];
    rewrite ?Hm in *; [unfold zlen; lia | unfold zlen; rewrite length_app; lia |].
  apply records_moved; [exact Hw2 | now repeat split | |].
  - rewrite Hc2. apply drop_app_length'. unfold zlen. lia.
  - subst rs. now apply Forall_cons_1 in Hlen as [_ Hlen].
Qed.

Lemma records_skip r rs' :
  rs = r :: rs' ->
  exists f', __kfifo_skip_r m f recsize = Ok f' /\ records m f' recsize rs' /\ same_buffer f f'.
Proof.
  intros Hr. pose proof (records_len r rs' Hr) as Hl. unfold __kfifo_len_r in Hl.
  unfold __kfifo_skip_r. rewrite Hl. cbn [rbind]. eexists. split; [reflexivity |].
  split; [|now repeat split]. apply (records_drop r); [assumption | apply Hrec | reflexivity].
Qed.

Lemma records_copy r rs' buf len :
  rs = r :: rs' -> 0 <= len ->
  let n := Z.min len (zlen r) in
  writable m f buf n ->
  exists m', kfifo_out_copy_r m f buf len recsize = Ok (m', n, zlen r) /\
    m' = put_bytes m buf (take (Z.to_nat n) r) /\ load m' buf n = Ok (take (Z.to_nat n) r) /\
    wf m' f /\ contents m' f = contents m f /\ only_block (blk buf) m m'.
Proof.
  intros Hr Hl n Hw. destruct (records_front r rs' Hr) as [Hc Hm]. destruct Hrec as [Hwf He Hs _ _].
  destruct (out_copy_r_ok m f Hwf He recsize Hs _ _ buf len Hc) as (m' & E & Hp & Hld & H);
    rewrite ?Hm in *; [unfold zlen; lia | assumption | unfold zlen; rewrite length_app; lia
      | assumption |].
  exists m'. split; [exact E |]. rewrite take_app_le in Hp, Hld by (unfold zlen in *; lia). auto.
Qed.

Lemma records_out r rs' buf len :
  rs = r :: rs' -> 0 <= len ->
  let n := Z.min len (zlen r) in
  writable m f buf n ->
  exists m' f', __kfifo_out_r m f buf len recsize = Ok (m', f', n) /\
    m' = put_bytes m buf (take (Z.to_nat n) r) /\ load m' buf n = Ok (take (Z.to_nat n) r) /\
    records m' f' recsize rs' /\ same_buffer f f' /\ only_block (blk buf) m m'.
Proof.
  intros Hr Hl n Hw. destruct (records_copy r rs' buf len Hr Hl Hw) as (m' & E & Hp & Hld & Hw' & Hc' & Ho).
  destruct (records_front r rs' Hr) as [Hc _].
  unfold __kfifo_out_r. rewrite (in_use m f (rec_wf _ _ _ _ Hrec) recsize (rec_size _ _ _ _ Hrec) _ _ Hc).
  rewrite E. cbn [rbind]. eexists _, _. split; [reflexivity |].
  split; [exact Hp | split; [exact Hld |]]. split; [now apply records_drop | split; [now repeat split | exact Ho]].
Qed.

Lemma records_peek r rs' buf len :
  rs = r :: rs' -> 0 <= len ->
  let n := Z.min len (zlen r) in
  writable m f buf n ->
  exists m', __kfifo_out_peek_r m f buf len recsize = Ok (m', n) /\
    m' = put_bytes m buf (take (Z.to_nat n) r) /\ load m' buf n = Ok (take (Z.to_nat n) r) /\
    records m' f recsize rs /\ only_block (blk buf) m m'.
Proof.
  intros Hr Hl n Hw. destruct (records_copy r rs' buf len Hr Hl Hw) as (m' & E & Hp & Hld & Hw' & Hc' & Ho).
  destruct (records_front r rs' Hr) as [Hc _].
  unfold __kfifo_out_peek_r.
  rewrite (in_use m f (rec_wf _ _ _ _ Hrec) recsize (rec_size _ _ _ _ Hrec) _ _ Hc).
  rewrite E. cbn [rbind]. exists m'. split; [reflexivity |]. split; [exact Hp | split; [exact Hld | split; [|exact Ho]]].
  apply records_moved; [exact Hw' | now repeat split | rewrite Hc' | ]; apply Hrec.
Qed.
End Records.

(** C31: [__kfifo_in_r] checks the record against the free space but not against
    the header: a payload longer than [recsize] bytes can count is stored whole
    and its length returned, but the header keeps the length modulo
    [2^(8*recsize)].  Reading it back gives only that many bytes; the rest of
    the payload stays in the fifo, and its first bytes are taken for the length
    of the next record. *)
Theorem kfifo_in_r_truncates m f recsize buf len bs dst :
  wf m f -> k_esize f = 1 -> recsize = 1 \/ recsize = 2 -> contents m f = [] ->
  max_rec recsize < len -> len + recsize <= capacity f ->
  readable m f buf len bs -> writable m f dst len ->
  let k := len mod 2 ^ (8 * recsize) in
  exists m1 f1 m2 f2,
    __kfifo_in_r m f buf len recsize = Ok (m1, f1, len) /\
    __kfifo_out_r m1 f1 dst len recsize = Ok (m2, f2, k) /\ k < len /\
    load m2 dst k = Ok (take (Z.to_nat k) bs) /\
    contents m2 f2 = drop (Z.to_nat k) bs /\ contents m2 f2 <> [] /\
    __kfifo_len_r m2 f2 recsize = Ok (decode_header (take (Z.to_nat recsize) (drop (Z.to_nat k) bs))).
Proof.
  intros Hwf He Hs Hnil Hmax Hfit Hr [Hne Hv] k.
  assert (0 < 2 ^ (8 * recsize)) as Hpos by (apply Z.pow_pos_nonneg; lia). unfold max_rec in Hmax.
  pose proof (Z.mod_pos_bound len _ Hpos) as Hk. fold k in Hk.
  pose proof (contents_length _ _ Hwf) as HL. rewrite Hnil, He in HL. cbn in HL.
  pose proof (used_nonneg f). pose proof (load_length _ _ _ _ (proj2 Hr)) as Hlen.
  destruct (in_r_ok m f Hwf He recsize Hs buf len bs) as (m1 & E1 & Hw1 & Hc1 & Ho1);
    [lia | lia | assumption |].
  rewrite Hnil in Hc1. cbn [app] in Hc1. unfold encode in Hc1.
  replace (zlen bs) with len in Hc1 by (unfold zlen; lia).
  set (f1 := set_in f (k_in f ⊞ (len ⊞ recsize))) in *.
  destruct (out_copy_r_ok m1 f1 Hw1 He recsize Hs len bs dst len Hc1) as (m2 & E2 & _ & Hld & Hw2 & Hc2 & _);
    [lia | lia | fold k; unfold zlen; lia | |].
  { fold k. rewrite Z.min_r by lia. split; [exact Hne |].
    destruct (valid_split _ _ _ k Hv) as [Hv1 _]; [lia |]. eapply valid_only_block; eassumption. }
  rewrite Hc1 in Hc2. fold k in E2, Hld. rewrite Z.min_r in E2, Hld by lia.
  destruct (skip_record_ok m2 f1 Hw2 He recsize Hs len bs Hc2) as [Hw3 Hc3];
    [lia | fold k; unfold zlen; lia |]. fold k in Hw3, Hc3.
  exists m1, f1, m2, (set_out f1 (k_out f1 ⊞ (k ⊞ recsize))). split; [exact E1 | split].
  - unfold __kfifo_out_r. rewrite (in_use m1 f1 Hw1 recsize Hs len bs Hc1), E2. reflexivity.
  - assert (2 ^ (8 * recsize) <= len - k) as Hrest.
    { pose proof (Z.div_mod len (2 ^ (8 * recsize)) ltac:(lia)) as Hd. fold k in Hd.
      assert (1 <= len / 2 ^ (8 * recsize)) by (apply Z.div_le_lower_bound; lia). nia. }
    assert (recsize < 2 ^ (8 * recsize)) by (destruct Hs as [-> | ->]; reflexivity).
    split; [lia | split; [exact Hld | split; [exact Hc3 | split]]].
    + rewrite Hc3. intros E. apply (f_equal length) in E. rewrite length_drop in E. cbn in E. lia.
    + apply (peek_n_bytes m2 _ Hw3 He recsize Hs _ (drop (Z.to_nat recsize) (drop (Z.to_nat k) bs))).
      * now rewrite take_drop.
      * unfold zlen. rewrite length_take, length_drop. lia.
Qed.

(** 300 bytes of sevens into a 512-byte fifo with one-byte headers come back as
    44, and the next record seems to have 7. *)
Lemma kfifo_in_r_truncates_witness :
  let f := Kfifo 0 0 511 1 (Ptr 4096 0) in
  let m := Mem {[ 4096 := replicate 512 0; 8192 := replicate 300 7; 12288 := replicate 300 0 ]} ∅ in
  exists m1 f1 m2 f2,
    __kfifo_in_r m f (Ptr 8192 0) 300 1 = Ok (m1, f1, 300) /\
    __kfifo_out_r m1 f1 (Ptr 12288 0) 300 1 = Ok (m2, f2, 44) /\ __kfifo_len_r m2 f2 1 = Ok 7.
Proof.
  intros f m.
  destruct (kfifo_in_r_truncates m f 1 (Ptr 8192 0) 300 (replicate 300 7) (Ptr 12288 0))
    as (m1 & f1 & m2 & f2 & E1 & E2 & _ & _ & _ & _ & E3).
  - split; try (vm_compute; intuition congruence).
    + exists 9. vm_compute. intuition congruence.
    + eexists. split; reflexivity.
  - reflexivity.
  - auto.
  - reflexivity.
  - reflexivity.
  - vm_compute. discriminate.
  - split; [easy | reflexivity].
  - split; [easy | eexists; split; reflexivity].
  - exists m1, f1, m2, f2. split; [exact E1 | split; [exact E2 | exact E3]].
Defined.

(** *** Records to and from user space *)

Lemma max_r_eq len recsize :
  recsize = 1 \/ recsize = 2 -> __kfifo_max_r len recsize = Ok (Z.min len (max_rec recsize)).
Proof.
  intros [-> | ->].
  - change (__kfifo_max_r len 1) with (if 255 <? len then Ok 255 else Ok len).
    change (max_rec 1) with 255. ztest; f_equal; lia.
  - change (__kfifo_max_r len 2) with (if 65535 <? len then Ok 65535 else Ok len).
    change (max_rec 2) with 65535. ztest; f_equal; lia.
Qed.

(** The payload copy into a byte fifo: the queue is untouched until [in] moves. *)
Lemma user_payload_in cp (Hcp : UserCopy cp) m f from n bs :
  wf m f -> k_esize f = 1 -> 0 <= n <= capacity f - used f -> readable m f from n bs ->
  let f' := set_in f (k_in f ⊞ n) in
  exists m' c, 0 <= c <= n /\
    kfifo_copy_from_user cp m f from n (k_in f) = Ok (m', n - c, c) /\
    wf m' f /\ contents m' f = contents m f /\ only_block (blk (k_data f)) m m' /\
    (c = n -> wf m' f' /\ contents m' f' = contents m f ++ bs).
Proof.
  intros Hwf He Hn [Hne Hld] f'. pose proof (load_length _ _ _ _ Hld) as Hbs.
  pose proof (used_nonneg f). pose proof (wf_cap _ _ Hwf). pose proof (wf_in _ _ Hwf).
  destruct (copy_from_user_spec cp Hcp m f Hwf) with (len := n) (off := k_in f) (from := from) (bs := bs)
    as (m' & c & Hcn & _ & E & bs' & -> & Hz & Hpre); [lia | lia | split; [|rewrite He, Z.mul_1_r]; assumption |].
  rewrite He, !Z.mul_1_r, Z.div_1_r in *. unfold zlen in Hz. eexists _, c.
  split; [lia | split; [exact E |]].
  destruct (push_contents m f 0 bs' Hwf) as [Hq1 Hq2]; [lia | rewrite He; unfold zlen; lia |].
  rewrite He, ?Z.mul_1_r, Z.add_0_r, (u32_small (k_in f)) in Hq1, Hq2 by lia.
  rewrite app_nil_r in Hq2.
  replace (set_in f (k_in f)) with f in Hq1, Hq2 by now destruct f.
  split; [exact Hq1 | split; [exact Hq2 | split; [apply put_window_only |]]]. intros ->.
  destruct (push_contents m f n bs' Hwf) as [Hq3 Hq4]; [lia | rewrite He; unfold zlen; lia |].
  rewrite He, !Z.mul_1_r, Hpre, take_ge in Hq4 by lia. rewrite He, Z.mul_1_r in Hq3. auto.
Qed.

(** C24: [__kfifo_from_user_r] is atomic: the payload is cut to what the header
    can count, a record that does not fit is refused with nothing copied, and
    otherwise either the whole record is appended (result 0, its length
    reported) or the user copy faulted, the result is -EFAULT, 0 bytes are
    reported and the fifo holds the records it held before. *)
Theorem kfifo_from_user_r_spec cp (Hcp : UserCopy cp) m f recsize rs from len bs :
  records m f recsize rs -> 0 <= len ->
  let n := Z.min len (max_rec recsize) in
  readable m f from n bs ->
  (capacity f - used f < n + recsize ->
     __kfifo_from_user_r cp m f from len recsize = Ok (m, f, 0, 0)) /\
  (n + recsize <= capacity f - used f ->
     exists m' f' r copied,
       __kfifo_from_user_r cp m f from len recsize = Ok (m', f', r, copied) /\
       only_block (blk (k_data f)) m m' /\
       (r = 0 /\ copied = n /\ records m' f' recsize (rs ++ [bs]) \/
        r = - EFAULT /\ copied = 0 /\ f' = f /\ records m' f recsize rs)).
Proof.
  intros Hrec Hlen n Hr. pose proof Hrec as [Hwf He Hs Hc Hl].
  pose proof (used_nonneg f). pose proof (wf_cap _ _ Hwf). pose proof (wf_used _ _ Hwf).
  assert (0 <= n <= 65535) as Hn.
  { subst n. unfold max_rec. destruct Hs as [-> | ->]; cbn; lia. }
  unfold __kfifo_from_user_r. rewrite max_r_eq by assumption. cbn [rbind]. fold n.
  rewrite (unused_eq m), (u32_small (n + recsize)) by (assumption || lia).
  split; intros Hfit; (destruct (Z.ltb_spec (capacity f - used f) (n + recsize)); try lia); [reflexivity |].
  destruct (poke_n_ok m f Hwf He recsize Hs n) as (m1 & -> & Hw1 & Hc1 & Ho1); [lia |]. cbn [rbind].
  set (f1 := set_in f (k_in f ⊞ recsize)) in *. destruct Hr as [Hne Hld].
  assert (used f1 = used f + recsize) as Hu1 by (apply used_add; lia).
  destruct (user_payload_in cp Hcp m1 f1 from n bs Hw1 He) as (m2 & c & Hcn & E2 & Hw2 & Hc2 & Ho2 & Hall).
  { change (capacity f1) with (capacity f). lia. }
  { split; [exact Hne |]. now rewrite (load_only_block _ _ _ _ _ Ho1). }
  change (kfifo_copy_from_user cp m1 f1 from n (k_in f1))
    with (kfifo_copy_from_user cp m1 f from n (k_in f ⊞ recsize)) in E2.
  rewrite E2. cbn [rbind]. pose proof (only_block_trans _ _ _ _ Ho1 Ho2) as Ho.
  unfold truthy. destruct (Z.eqb_spec (n - c) 0) as [Hz|Hz]; cbn [negb];
    eexists _, _, _, _; (split; [reflexivity | split; [exact Ho |]]).
  - left. destruct Hall as [Hw3 Hc3]; [lia |]. split; [reflexivity | split; [lia |]].
    replace (set_in f1 (k_in f1 ⊞ n)) with (set_in f (k_in f ⊞ (n + recsize))) in Hw3, Hc3.
    2:{ subst f1. unfold set_in. cbn [k_in k_out k_mask k_esize k_data]. f_equal.
        rewrite u32_add_l. f_equal. lia. }
    apply (records_moved m f recsize rs Hrec); [exact Hw3 | now repeat split | |].
    + rewrite Hc3, Hc1, Hc, fmap_app, concat_app, <- app_assoc. cbn. rewrite app_nil_r.
      f_equal. pose proof (load_length _ _ _ _ Hld) as Hb. unfold encode, zlen.
      now rewrite Hb, Z2Nat.id by lia.
    + apply Forall_app. split; [exact Hl |]. apply Forall_singleton.
      pose proof (load_length _ _ _ _ Hld). unfold zlen. lia.
  - right. do 3 (split; [reflexivity |]).
    destruct (unpush_contents m2 f recsize) as [Hw3 Hc3];
      [lia | lia | apply (wf_in _ _ Hwf) | exact Hw2 |].
    apply (records_moved m f recsize rs Hrec); [exact Hw3 | now repeat split | | exact Hl].
    rewrite Hc3. fold f1. rewrite Hc2, Hc1, <- (contents_length _ _ Hwf), take_app_length. exact Hc.
Qed.

(** The payload copy out of a byte fifo. *)
Lemma user_payload_out cp (Hcp : UserCopy cp) m f to n :
  wf m f -> k_esize f = 1 -> 0 <= n <= used f -> writable m f to n ->
  exists m' c, 0 <= c <= n /\
    kfifo_copy_to_user cp m f to n (k_out f) = Ok (m', n - c, c) /\
    only_block (blk to) m m' /\
    (c = n -> load m' to n = Ok (take (Z.to_nat n) (contents m f))).
Proof.
  intros Hwf He Hn [Hne Hv]. pose proof (wf_used _ _ Hwf). pose proof (wf_cap _ _ Hwf).
  destruct (copy_to_user_spec cp Hcp m f Hwf) with (len := n) (off := k_out f) (to := to)
    as (m' & c & Hcn & _ & E & bs' & -> & Hz & Hpre); [lia | lia | split; [|rewrite He, Z.mul_1_r]; assumption |].
  rewrite He, !Z.mul_1_r, Z.div_1_r in *. unfold zlen in Hz. eexists _, c.
  split; [lia | split; [exact E | split; [apply put_bytes_only |]]]. intros ->.
  rewrite load_put_bytes by (assumption || lia). f_equal.
  rewrite <- (take_ge bs' (Z.to_nat n)), Hpre by lia.
  unfold contents. rewrite take_take, He, !Z.mul_1_r. f_equal. lia.
Qed.

(** C25: [__kfifo_to_user_r] is atomic: an empty fifo gives 0 bytes; otherwise
    either the first [min len |r|] bytes of the oldest record are delivered
    (result 0, that many reported) and the whole record is consumed, or the
    user copy faulted, the result is -EFAULT, 0 bytes are reported and the fifo
    still holds the record. *)
Theorem kfifo_to_user_r_spec cp (Hcp : UserCopy cp) m f recsize rs to len :
  records m f recsize rs -> 0 <= len ->
  match rs with
  | [] => __kfifo_to_user_r cp m f to len recsize = Ok (m, f, 0, 0)
  | r :: rs' =>
      let n := Z.min len (zlen r) in
      writable m f to n ->
      exists m' f' res copied,
        __kfifo_to_user_r cp m f to len recsize = Ok (m', f', res, copied) /\
        only_block (blk to) m m' /\
        (res = 0 /\ copied = n /\ load m' to n = Ok (take (Z.to_nat n) r) /\
           records m' f' recsize rs' \/
         res = - EFAULT /\ copied = 0 /\ f' = f /\ records m' f recsize rs)
  end.
Proof.
  intros Hrec Hlen. unfold __kfifo_to_user_r. destruct rs as [|r rs'].
  { now rewrite (records_empty _ _ _ _ Hrec eq_refl). }
  set (n := Z.min len (zlen r)). intros [Hne Hv]. pose proof Hrec as [Hwf He Hs _ Hl].
  destruct (records_front _ _ _ _ Hrec r rs' eq_refl) as [Hc Hm].
  pose proof (records_len _ _ _ _ Hrec r rs' eq_refl) as Hpk. unfold __kfifo_len_r in Hpk.
  rewrite (in_use m f Hwf recsize Hs _ _ Hc), Hpk. cbn [rbind].
  replace (if zlen r <? len then zlen r else len) with n by (subst n; ztest; lia).
  pose proof (contents_length _ _ Hwf) as HL. rewrite Hc, !length_app, He, Z.mul_1_r in HL.
  pose proof (header_length recsize (zlen r) Hs) as Hh. pose proof (used_nonneg f). unfold zlen in Hh, HL.
  destruct (pop_contents m f recsize Hwf) as [Hw1 Hc1]; [lia |].
  rewrite He, Z.mul_1_r, Hc, drop_app_length' in Hc1 by (unfold zlen; lia).
  destruct (user_payload_out cp Hcp m (set_out f (k_out f ⊞ recsize)) to n Hw1 He)
    as (m' & c & Hcn & E & Ho & Hall); [|now split|].
  { rewrite used_sub by lia. subst n. unfold zlen. lia. }
  change (kfifo_copy_to_user cp m (set_out f _) to n _)
    with (kfifo_copy_to_user cp m f to n (k_out f ⊞ recsize)) in E.
  rewrite E. cbn [rbind].
  assert (wf m' f) as Hw' by (eapply wf_only_block; eassumption).
  assert (contents m' f = contents m f) as Hc'
    by (unfold contents; now rewrite (window_only_block _ _ _ _ Ho Hne)).
  unfold truthy. destruct (Z.eqb_spec (n - c) 0) as [Hz|Hz]; cbn [negb];
    eexists _, _, _, _; (split; [reflexivity | split; [exact Ho |]]).
  - left. split; [reflexivity | split; [lia | split]].
    + rewrite Hall by lia. rewrite Hc1, take_app_le by (subst n; unfold zlen; lia). reflexivity.
    + now apply (records_drop _ _ _ _ Hrec r).
  - right. do 3 (split; [reflexivity |]).
    apply (records_moved m f recsize _ Hrec); [exact Hw' | now repeat split | | exact Hl].
    rewrite Hc'. apply Hrec.
Qed.

(** A 16-byte fifo with one-byte headers whose first header is the last byte of
    the buffer, holding the records [5;6;7] and []. *)
Definition rec_fifo : kfifo := Kfifo 4 (W32 - 1) 15 1 (Ptr 32 0).
Definition rec_mem : mem :=
  Mem {[ 32 := [5; 6; 7; 0; 9; 9; 9; 9; 9; 9; 9; 9; 9; 9; 9; 3]; 64 := [1; 2; 3; 4; 5; 6; 7; 8] ]} ∅.

Lemma rec_sample : records rec_mem rec_fifo 1 [[5; 6; 7]; []].
Proof.
  split; try (left; reflexivity); try reflexivity.
  - split; try (vm_compute; intuition congruence).
    + exists 4. vm_compute. intuition congruence.
    + eexists. split; reflexivity.
  - repeat constructor; vm_compute; discriminate.
Qed.

Lemma kfifo_from_user_r_spec_witness :
  exists m' f' r copied,
    __kfifo_from_user_r (faulting_copy 3) rec_mem rec_fifo (Ptr 64 0) 8 1 = Ok (m', f', r, copied) /\
    only_block 32 rec_mem m'.
Proof.
  destruct (kfifo_from_user_r_spec (faulting_copy 3) _ rec_mem rec_fifo 1 [[5; 6; 7]; []] (Ptr 64 0) 8
              [1; 2; 3; 4; 5; 6; 7; 8]) as [_ H];
    [apply rec_sample | lia | now split |].
  destruct H as (m' & f' & r & copied & E & Ho & _); [vm_compute; discriminate |].
  exists m', f', r, copied. split; [exact E | exact Ho].
Defined.

Lemma kfifo_to_user_r_spec_witness :
  exists m' f' r copied,
    __kfifo_to_user_r copy_to_user rec_mem rec_fifo (Ptr 64 0) 2 1 = Ok (m', f', r, copied) /\
    only_block 64 rec_mem m'.
Proof.
  destruct (kfifo_to_user_r_spec copy_to_user _ rec_mem rec_fifo 1 [[5; 6; 7]; []] (Ptr 64 0) 2)
    as (m' & f' & r & copied & E & Ho & _);
    [apply rec_sample | lia | split; [easy | eexists; split; reflexivity] |].
  exists m', f', r, copied. split; [exact E | exact Ho].
Defined.

End KfifoRec.
