(* ===== verification/KfifoApi.v ===== *)
(** * The kfifo interface

    The macros of linux/kfifo.h.  A macro sees the declared type of the fifo:
    the element type, the length of the in-place buffer and the size of the
    record header are compile-time constants, gathered here in [ftype]; the
    run-time state is the [kfifo] record and memory.

    Two refinement theorems close the file: any sequence of interface calls on
    a fifo agrees, in return values and in what the callers' buffers hold, with
    the same calls on a plain list: of bytes for element fifos, of records for
    record fifos. *)

From S2P Require Import Prelude Bytes Log2 Memory Kfifo KfifoUser KfifoRec.
Import Bytes Log2 Memory Kfifo KfifoUser KfifoRec.

(** The checked result is an [unsigned int], so an error code is converted. *)
Definition __kfifo_uint_must_check_helper (val : Z) : Z := u32 val.

(** What [__STRUCT_KFIFO_COMMON], [__STRUCT_KFIFO] and [__STRUCT_KFIFO_PTR]
    fix at compile time. *)
Record ftype := FType {
  t_recsize : Z;     (** [sizeof( *rectype)] *)
  t_size : Z;        (** [sizeof( *type)] *)
  t_ptrsize : Z;     (** [sizeof( *ptr)], 1 for [void] *)
  t_nbuf : Z;        (** [ARRAY_SIZE(buf)], 0 for the pointer kind *)
  t_buf : ptr        (** the address of [buf] *)
}.

Module KfifoApi.

Section Api.
Variable t : ftype.

Definition sizeof_kfifo : Z := 20.

Definition __is_kfifo_ptr : bool := (sizeof_kfifo + t_nbuf t * t_size t) =? sizeof_kfifo.

(** The array length in [__STRUCT_KFIFO] is -1, a compile-time error, for other
    sizes. *)
Definition struct_kfifo_ok (size : Z) : bool := negb ((size <? 2) || truthy (size .& (size ⊟ 1))).

Definition INIT_KFIFO : kfifo :=
  Kfifo 0 0 (if __is_kfifo_ptr then 0 else t_nbuf t ⊟ 1) (t_size t)
    (if __is_kfifo_ptr then NULL else t_buf t).

Definition kfifo_initialized (f : kfifo) : bool := truthy (k_mask f).
Definition kfifo_esize (f : kfifo) : Z := k_esize f.
Definition kfifo_recsize : Z := t_recsize t.
Definition kfifo_size (f : kfifo) : Z := k_mask f ⊞ 1.

Definition kfifo_reset (f : kfifo) : kfifo := set_in (set_out f 0) 0.
Definition kfifo_reset_out (f : kfifo) : kfifo := set_out f (k_in f).

Definition kfifo_len (f : kfifo) : Z := k_in f ⊟ k_out f.
Definition kfifo_is_empty (f : kfifo) : bool := k_in f =? k_out f.
Definition kfifo_is_full (f : kfifo) : bool := k_mask f <? kfifo_len f.

Definition kfifo_avail (f : kfifo) : res Z :=
  let recsize := t_recsize t in
  let avail := kfifo_size f ⊟ kfifo_len f in
  if truthy recsize then
    if avail <=? recsize then Ok 0 else __kfifo_max_r (avail ⊟ recsize) recsize
  else Ok avail.

Definition kfifo_skip (m : mem) (f : kfifo) : res kfifo :=
  let recsize := t_recsize t in
  if truthy recsize then __kfifo_skip_r m f recsize
  else Ok (set_out f (k_out f ⊞ 1)).

Definition kfifo_peek_len (m : mem) (f : kfifo) : res Z :=
  let recsize := t_recsize t in
  if negb (truthy recsize) then Ok (kfifo_len f ⊠ t_size t)
  else __kfifo_len_r m f recsize.

Definition kfifo_alloc {A : Allocator} (m : mem) (f : kfifo) (size gfp_mask : Z)
    : res (mem * kfifo * Z) :=
  if __is_kfifo_ptr then __kfifo_alloc m f size (t_size t) gfp_mask
  else Ok (m, f, - EINVAL).

Definition kfifo_free (m : mem) (f : kfifo) : res (mem * kfifo) :=
  if __is_kfifo_ptr then __kfifo_free m f else Ok (m, f).

Definition kfifo_init (f : kfifo) (buffer : ptr) (size : Z) : res (kfifo * Z) :=
  if __is_kfifo_ptr then __kfifo_init f buffer size (t_size t) else Ok (f, - EINVAL).

(** The array the element macros index: the data pointer or the in-place
    buffer. *)
Definition elements (f : kfifo) : ptr := if __is_kfifo_ptr then k_data f else t_buf t.

(** [val] is the address of the macro's local copy [__val]. *)
Definition kfifo_put (m : mem) (f : kfifo) (val : ptr) : res (mem * kfifo * Z) :=
  let recsize := t_recsize t in
  if truthy recsize then __kfifo_in_r m f val (t_size t) recsize
  else
    let ret := b2z (negb (kfifo_is_full f)) in
    if truthy ret then
      let! m := memcpy m (padd (elements f) ((k_in f .& k_mask f) * t_size t)) val (t_size t) in
      Ok (m, set_in f (k_in f ⊞ 1), ret)
    else Ok (m, f, ret).

Definition kfifo_get (m : mem) (f : kfifo) (val : ptr) : res (mem * kfifo * Z) :=
  let recsize := t_recsize t in
  if truthy recsize then __kfifo_out_r m f val (t_ptrsize t) recsize
  else
    let ret := b2z (negb (kfifo_is_empty f)) in
    if truthy ret then
      let! m := memcpy m val (padd (elements f) ((k_out f .& k_mask f) * t_size t)) (t_size t) in
      Ok (m, set_out f (k_out f ⊞ 1), ret)
    else Ok (m, f, ret).

Definition kfifo_peek (m : mem) (f : kfifo) (val : ptr) : res (mem * Z) :=
  let recsize := t_recsize t in
  if truthy recsize then __kfifo_out_peek_r m f val (t_ptrsize t) recsize
  else
    let ret := b2z (negb (kfifo_is_empty f)) in
    if truthy ret then
      let! m := memcpy m val (padd (elements f) ((k_out f .& k_mask f) * t_size t)) (t_size t) in
      Ok (m, ret)
    else Ok (m, ret).

Definition kfifo_in (m : mem) (f : kfifo) (buf : ptr) (n : Z) : res (mem * kfifo * Z) :=
  let recsize := t_recsize t in
  if truthy recsize then __kfifo_in_r m f buf n recsize else __kfifo_in m f buf n.

Definition kfifo_out (m : mem) (f : kfifo) (buf : ptr) (n : Z) : res (mem * kfifo * Z) :=
  let recsize := t_recsize t in
  if truthy recsize then __kfifo_out_r m f buf n recsize else __kfifo_out m f buf n.

Definition kfifo_out_peek (m : mem) (f : kfifo) (buf : ptr) (n : Z) : res (mem * Z) :=
  let recsize := t_recsize t in
  if truthy recsize then __kfifo_out_peek_r m f buf n recsize else __kfifo_out_peek m f buf n.

Definition kfifo_from_user (cp : user_copy) (m : mem) (f : kfifo) (from : ptr) (len : Z)
    : res (mem * kfifo * Z * Z) :=
  let recsize := t_recsize t in
  let! (m, f, ret, copied) :=
    if truthy recsize then __kfifo_from_user_r cp m f from len recsize
    else __kfifo_from_user cp m f from len in
  Ok (m, f, __kfifo_uint_must_check_helper ret, copied).

Definition kfifo_to_user (cp : user_copy) (m : mem) (f : kfifo) (to : ptr) (len : Z)
    : res (mem * kfifo * Z * Z) :=
  let recsize := t_recsize t in
  let! (m, f, ret, copied) :=
    if truthy recsize then __kfifo_to_user_r cp m f to len recsize
    else __kfifo_to_user cp m f to len in
  Ok (m, f, __kfifo_uint_must_check_helper ret, copied).

Definition kfifo_dma_in_finish (m : mem) (f : kfifo) (len : Z) : res (mem * kfifo) :=
  let recsize := t_recsize t in
  if truthy recsize then __kfifo_dma_in_finish_r m f len recsize
  else Ok (m, set_in f (k_in f ⊞ len / t_size t)).

Definition kfifo_dma_out_finish (m : mem) (f : kfifo) (len : Z) : res kfifo :=
  let recsize := t_recsize t in
  if truthy recsize then __kfifo_dma_out_finish_r m f recsize
  else Ok (set_out f (k_out f ⊞ len / t_size t)).
End Api.

(** ** Calls, and what they do to a plain queue *)

Inductive op :=
| OPut (val : ptr)
| OGet (val : ptr)
| OPeek (val : ptr)
| OIn (buf : ptr) (n : Z)
| OOut (buf : ptr) (n : Z)
| OOutPeek (buf : ptr) (n : Z)
| OSkip
| OReset
| OResetOut
| OLen
| OAvail
| OIsEmpty
| OIsFull
| OPeekLen
| OWrite (p : ptr) (bs : list Z)   (** the caller writes its own memory *).

(** One call, with its return value (0 for the [void] macros). *)
Definition exec (t : ftype) (m : mem) (f : kfifo) (o : op) : res (mem * kfifo * Z) :=
  match o with
  | OPut val => kfifo_put t m f val
  | OGet val => kfifo_get t m f val
  | OPeek val => let! (m, r) := kfifo_peek t m f val in Ok (m, f, r)
  | OIn buf n => kfifo_in t m f buf n
  | OOut buf n => kfifo_out t m f buf n
  | OOutPeek buf n => let! (m, r) := kfifo_out_peek t m f buf n in Ok (m, f, r)
  | OSkip => let! f := kfifo_skip t m f in Ok (m, f, 0)
  | OReset => Ok (m, kfifo_reset f, 0)
  | OResetOut => Ok (m, kfifo_reset_out f, 0)
  | OLen => Ok (m, f, kfifo_len f)
  | OAvail => let! r := kfifo_avail t f in Ok (m, f, r)
  | OIsEmpty => Ok (m, f, b2z (kfifo_is_empty f))
  | OIsFull => Ok (m, f, b2z (kfifo_is_full f))
  | OPeekLen => let! r := kfifo_peek_len t m f in Ok (m, f, r)
  | OWrite p bs => let! m := store m p bs in Ok (m, f, 0)
  end.

(** A program: calls in order, return values collected. *)
Fixpoint run (t : ftype) (m : mem) (f : kfifo) (os : list op) : res (mem * kfifo * list Z) :=
  match os with
  | [] => Ok (m, f, [])
  | o :: os =>
      let! (m, f, r) := exec t m f o in
      let! (m, f, rs) := run t m f os in
      Ok (m, f, r :: rs)
  end.

(** The callers' accesses must stay off the block [b] of the fifo's buffer. *)
Definition client_load (b : Z) (m : mem) (p : ptr) (n : Z) : res (list Z) :=
  let! _ := defined_if (negb (blk p =? b)) in load m p n.
Definition client_store (b : Z) (m : mem) (p : ptr) (bs : list Z) : res mem :=
  let! _ := defined_if (negb (blk p =? b)) in store m p bs.

(** The element queue: [q] is the queue in bytes, [N] its bound and [e] the
    size of an element.  Skipping on an empty queue is outside the contract. *)
Definition q_in (b N e : Z) (m : mem) (q : list Z) (p : ptr) (n : Z) : res (mem * list Z * Z) :=
  let! _ := defined_if (0 <=? n) in
  let n := Z.min n (N - zlen q / e) in
  let! bs := client_load b m p (n * e) in
  Ok (m, q ++ bs, n).

Definition q_out (b e : Z) (pop : bool) (m : mem) (q : list Z) (p : ptr) (n : Z)
    : res (mem * list Z * Z) :=
  let! _ := defined_if (0 <=? n) in
  let n := Z.min n (zlen q / e) in
  let! m := client_store b m p (take (Z.to_nat (n * e)) q) in
  Ok (m, if pop then drop (Z.to_nat (n * e)) q else q, n).

Definition q_exec (b N e : Z) (m : mem) (q : list Z) (o : op) : res (mem * list Z * Z) :=
  let len := zlen q / e in
  match o with
  | OPut val => if N <=? len then Ok (m, q, 0) else q_in b N e m q val 1
  | OGet val => if len =? 0 then Ok (m, q, 0) else q_out b e true m q val 1
  | OPeek val => if len =? 0 then Ok (m, q, 0) else q_out b e false m q val 1
  | OIn buf n => q_in b N e m q buf n
  | OOut buf n => q_out b e true m q buf n
  | OOutPeek buf n => q_out b e false m q buf n
  | OSkip => let! _ := defined_if (0 <? len) in Ok (m, drop (Z.to_nat e) q, 0)
  | OReset | OResetOut => Ok (m, [], 0)
  | OLen => Ok (m, q, len)
  | OAvail => Ok (m, q, N - len)
  | OIsEmpty => Ok (m, q, b2z (len =? 0))
  | OIsFull => Ok (m, q, b2z (len =? N))
  | OPeekLen => Ok (m, q, zlen q)
  | OWrite p bs => let! m := client_store b m p bs in Ok (m, q, 0)
  end.

Fixpoint q_run (b N e : Z) (m : mem) (q : list Z) (os : list op) : res (mem * list Z * list Z) :=
  match os with
  | [] => Ok (m, q, [])
  | o :: os =>
      let! (m, q, r) := q_exec b N e m q o in
      let! (m, q, rs) := q_run b N e m q os in
      Ok (m, q, r :: rs)
  end.

(** ** Lemmas *)

Lemma client_load_inv b m p n bs : client_load b m p n = Ok bs -> blk p <> b /\ load m p n = Ok bs.
Proof. unfold client_load. destruct (Z.eqb_spec (blk p) b); cbn; [discriminate | auto]. Qed.

Lemma store_inv m p bs m' :
  store m p bs = Ok m' -> m' = put_bytes m p bs /\ valid_at m p (zlen bs).
Proof.
  unfold store, put_bytes, valid_at. destruct (blocks m !! blk p) as [B|] eqn:HB; [|discriminate].
  destruct (in_bounds _ _ _) eqn:Hb; cbn; [|discriminate]. intros [= <-]. eauto.
Qed.

Lemma client_store_inv b m p bs m' :
  client_store b m p bs = Ok m' -> blk p <> b /\ m' = put_bytes m p bs /\ valid_at m p (zlen bs).
Proof.
  unfold client_store. destruct (Z.eqb_spec (blk p) b); cbn; [discriminate |].
  intros H%store_inv. tauto.
Qed.

(** The two views agree off the block of the buffer, and a caller's write keeps
    it so. *)
Lemma put_bytes_agree b mA m p bs :
  only_block b mA m -> blk p <> b -> only_block b (put_bytes mA p bs) (put_bytes m p bs).
Proof.
  intros [Hd Hb] Hne. unfold put_bytes. rewrite (Hb (blk p)) by assumption.
  destruct (blocks mA !! blk p); split; cbn; auto.
  intros b' Hb'. rewrite !lookup_insert. case_decide; auto.
Qed.

(** A fifo as the macros of its declared type expect it. *)
Record typed (t : ftype) (f : kfifo) : Prop := {
  typed_size : k_esize f = t_size t;
  typed_data : elements t f = k_data f
}.

Lemma typed_same_buffer t f f' : same_buffer f f' -> typed t f -> typed t f'.
Proof.
  intros (_ & H1 & H2) [H3 H4]. split; [congruence |].
  unfold elements in *. destruct (__is_kfifo_ptr t); congruence.
Qed.

Lemma put_bytes_nil m p : put_bytes m p [] = m.
Proof.
  unfold put_bytes. destruct (blocks m !! blk p) as [B|] eqn:HB; [|reflexivity].
  rewrite write_at_nil, insert_id by assumption. now destruct m.
Qed.

(** *** One element at a time *)

Section OneElement.
Context (t : ftype) (m : mem) (f : kfifo) (Hwf : wf m f) (Ht : typed t f) (Hnr : t_recsize t = 0).

Lemma full_iff : kfifo_is_full f = (capacity f - used f =? 0).
Proof.
  unfold kfifo_is_full, kfifo_len. fold (used f). pose proof (wf_used _ _ Hwf).
  unfold capacity in *. ztest; lia.
Qed.

(** With one element the copy does not wrap. *)
Lemma span_one off :
  kfifo_span f 1 off = (off mod capacity f * k_esize f, k_esize f, k_esize f).
Proof.
  pose proof (wf_cap _ _ Hwf). pose proof (wf_mod_bound _ _ Hwf off).
  pose proof (wf_esize _ _ Hwf). rewrite (span_eq m) by (assumption || lia).
  rewrite Z.mul_1_l. f_equal. apply Z.min_l. nia.
Qed.

Lemma element_valid off :
  valid_at m (padd (k_data f) (off mod capacity f * k_esize f)) (k_esize f) /\ valid_at m (k_data f) 0.
Proof.
  pose proof (wf_mod_bound _ _ Hwf off). pose proof (wf_esize _ _ Hwf). pose proof (wf_cap _ _ Hwf).
  destruct (valid_split _ _ _ (off mod capacity f * k_esize f) (data_valid _ _ Hwf)) as [_ Hv]; [nia |].
  destruct (valid_split _ _ _ (k_esize f) Hv) as [Hv1 _]; [nia |].
  destruct (valid_split _ _ _ 0 (data_valid _ _ Hwf)) as [Hv0 _]; [nia | auto].
Qed.

Lemma memcpy_zero m' dst src :
  valid_at m' dst 0 -> valid_at m' src 0 -> blk dst <> blk src -> memcpy m' dst src 0 = Ok m'.
Proof.
  intros Hd Hs Hne. destruct (load_valid _ _ _ Hs) as [bs Hl].
  pose proof (load_length _ _ _ _ Hl) as Hn. destruct bs; [|discriminate].
  rewrite (memcpy_put _ _ _ _ _ Hl) by assumption. now rewrite put_bytes_nil.
Qed.

Lemma copy_in_zero src off :
  blk src <> blk (k_data f) -> valid_at m src 0 -> kfifo_copy_in m f src 0 off = Ok m.
Proof.
  intros Hne Hv. rewrite (copy_in_spec _ _ _ _ _ []); [| exact Hwf | pose proof (wf_cap _ _ Hwf); lia |].
  - destruct (element_valid off) as [Hv1 _]. pose proof (wf_mod_bound _ _ Hwf off).
    pose proof (wf_esize _ _ Hwf).
    rewrite <- put_bytes_store_one by (exact Hwf || (unfold zlen; cbn [length]; nia)).
    now rewrite put_bytes_nil.
  - split; [exact Hne |]. destruct (load_valid _ _ _ Hv) as [bs Hl].
    pose proof (load_length _ _ _ _ Hl) as Hn. destruct bs; [exact Hl | discriminate].
Qed.

Lemma put_is_in val bs :
  readable m f val (k_esize f) bs -> kfifo_put t m f val = __kfifo_in m f val 1.
Proof.
  intros [Hne Hld]. destruct Ht as [Hs Hd]. pose proof (wf_cap _ _ Hwf). pose proof (wf_esize _ _ Hwf).
  pose proof (wf_used _ _ Hwf). pose proof (load_length _ _ _ _ Hld) as Hlen.
  unfold kfifo_put, __kfifo_in. rewrite Hnr, full_iff, (unused_eq m) by assumption. cbn [truthy Z.eqb negb].
  destruct (load_split _ _ _ _ 0 Hld) as [Hl0 _]; [lia |].
  destruct (load_split _ _ _ _ (k_esize f) Hld) as [_ Hl1]; [lia |]. rewrite Z.sub_diag in Hl1.
  destruct (Z.eqb_spec (capacity f - used f) 0) as [E|E]; cbn [negb b2z truthy Z.eqb].
  - rewrite E. cbn [Z.ltb Z.compare]. apply load_inv in Hl0 as (D & HD & Hb & _).
    rewrite copy_in_zero; [|exact Hne|exists D; auto]. cbn [rbind].
    rewrite Z.add_0_r, u32_small by (apply (wf_in _ _ Hwf)). now destruct f.
  - destruct (Z.ltb_spec (capacity f - used f) 1); [lia |]. unfold kfifo_copy_in.
    rewrite span_one. rewrite Hd, <- Hs, (wf_and_mask m) by assumption.
    destruct (element_valid (k_in f)) as [Hv1 Hv0].
    rewrite (memcpy_put _ _ _ _ _ Hld) by (cbn; congruence || assumption). cbn [rbind].
    rewrite Z.sub_diag. change (u32 0) with 0. apply load_inv in Hl1 as (D & HD & Hb & _).
    rewrite memcpy_zero; [reflexivity | | | cbn; congruence].
    + apply valid_put; [unfold zlen; rewrite Hlen, Z2Nat.id by lia|]; assumption.
    + apply valid_put; [unfold zlen; rewrite Hlen, Z2Nat.id by lia; assumption | exists D; auto].
Qed.

Lemma copy_out_zero dst off :
  blk dst <> blk (k_data f) -> valid_at m dst 0 -> kfifo_copy_out m f dst 0 off = Ok m.
Proof.
  intros Hne Hv. rewrite copy_out_spec; try assumption; [|pose proof (wf_cap _ _ Hwf); lia].
  cbn. now rewrite put_bytes_nil.
Qed.

Lemma copy_out_one dst off :
  writable m f dst (k_esize f) ->
  kfifo_copy_out m f dst 1 off =
    memcpy m dst (padd (k_data f) (off mod capacity f * k_esize f)) (k_esize f).
Proof.
  intros [Hne Hv]. unfold kfifo_copy_out. rewrite span_one. pose proof (wf_esize _ _ Hwf).
  destruct (element_valid off) as [Hv1 Hv0]. destruct (load_valid _ _ _ Hv1) as [bs Hl].
  pose proof (load_length _ _ _ _ Hl) as Hlen.
  assert (zlen bs = k_esize f) as Hz by (unfold zlen; lia).
  rewrite (memcpy_put _ _ _ _ _ Hl) by (cbn; congruence || assumption). cbn [rbind].
  rewrite Z.sub_diag. change (u32 0) with 0.
  destruct (valid_split _ _ _ (k_esize f) Hv) as [_ Hve]; [lia |]. rewrite Z.sub_diag in Hve.
  apply memcpy_zero; [| | cbn; congruence]; apply valid_put; rewrite ?Hz; assumption.
Qed.

Lemma peek_is_out_peek val :
  writable m f val (k_esize f) -> kfifo_peek t m f val = __kfifo_out_peek m f val 1.
Proof.
  intros Hw. destruct Ht as [Hs Hd]. pose proof (wf_esize _ _ Hwf).
  unfold kfifo_peek, __kfifo_out_peek, kfifo_is_empty.
  rewrite Hnr, (empty_iff m) by assumption. fold (used f). cbn [truthy Z.eqb negb].
  pose proof (used_nonneg f). destruct Hw as [Hne Hv].
  destruct (valid_split _ _ _ 0 Hv) as [Hv0 _]; [lia |].
  destruct (Z.eqb_spec (used f) 0) as [E|E]; cbn [negb b2z truthy Z.eqb].
  - rewrite E. cbn [Z.ltb Z.compare]. now rewrite copy_out_zero.
  - destruct (Z.ltb_spec (used f) 1); [lia |]. rewrite copy_out_one by now split.
    now rewrite Hd, <- Hs, (wf_and_mask m).
Qed.

Lemma get_is_out val :
  writable m f val (k_esize f) -> kfifo_get t m f val = __kfifo_out m f val 1.
Proof.
  intros Hw. pose proof (peek_is_out_peek val Hw) as E. unfold __kfifo_out. rewrite <- E.
  unfold kfifo_peek, kfifo_get. rewrite Hnr. cbn [truthy Z.eqb negb].
  pose proof (wf_out _ _ Hwf).
  destruct (kfifo_is_empty f); cbn [negb b2z truthy Z.eqb rbind].
  - rewrite Z.add_0_r, u32_small by assumption. now destruct f.
  - destruct (memcpy _ _ _ _); reflexivity.
Qed.
End OneElement.

(** C28: the open-coded single-element macros do what the copying functions do
    with a count of one: on a well-formed element fifo [kfifo_put], [kfifo_get]
    and [kfifo_peek] have the same result, the same memory and the same fifo
    as [__kfifo_in], [__kfifo_out] and [__kfifo_out_peek] of one element, full
    and empty fifos included. *)
Theorem kfifo_put_get_equiv t m f val bs :
  wf m f -> typed t f -> t_recsize t = 0 ->
  readable m f val (k_esize f) bs ->
  kfifo_put t m f val = __kfifo_in m f val 1 /\
  kfifo_get t m f val = __kfifo_out m f val 1 /\
  kfifo_peek t m f val = __kfifo_out_peek m f val 1.
Proof.
  intros Hwf Ht Hnr Hr. assert (writable m f val (k_esize f)) as Hw.
  { destruct Hr as [Hne (D & HD & Hb & _)%load_inv]. split; [exact Hne | exists D; auto]. }
  split; [now apply (put_is_in _ _ _ Hwf Ht Hnr _ bs) |].
  split; [now apply get_is_out | now apply peek_is_out_peek].
Qed.

(** The type of [sample_fifo]: a pointer fifo of two-byte elements. *)
Definition sample_type : ftype := FType 0 2 2 0 NULL.

Lemma kfifo_put_get_equiv_witness :
  kfifo_put sample_type sample_mem sample_fifo (Ptr 64 0) =
    __kfifo_in sample_mem sample_fifo (Ptr 64 0) 1.
Proof.
  apply (kfifo_put_get_equiv sample_type sample_mem sample_fifo (Ptr 64 0) [1; 2]).
  - apply sample_wf.
  - now split.
  - reflexivity.
  - now split.
Defined.

(** *** The element queue refines to the fifo *)

(** [f] in memory [m] stands for the queue [q] next to the callers' memory [mA]. *)
Record repr (t : ftype) (mA : mem) (q : list Z) (m : mem) (f : kfifo) : Prop := {
  repr_wf : wf m f;
  repr_typed : typed t f;
  repr_queue : contents m f = q;
  repr_client : only_block (blk (k_data f)) mA m
}.

Section Refinement.
Context (t : ftype) (Hnr : t_recsize t = 0).

Lemma repr_len mA q m f : repr t mA q m f -> zlen q = used f * k_esize f /\ zlen q / k_esize f = used f.
Proof.
  intros [Hwf _ <- _]. pose proof (wf_esize _ _ Hwf). pose proof (used_nonneg f).
  assert (zlen (contents m f) = used f * k_esize f) as H1.
  { unfold zlen. rewrite contents_length by assumption. nia. }
  split; [exact H1 |]. rewrite H1, Z.div_mul; lia.
Qed.

Lemma repr_in mA q m f buf n mA' q' r :
  repr t mA q m f -> q_in (blk (k_data f)) (capacity f) (k_esize f) mA q buf n = Ok (mA', q', r) ->
  exists m' f', __kfifo_in m f buf n = Ok (m', f', r) /\ repr t mA' q' m' f' /\ same_buffer f f'.
Proof.
  intros Hrep. destruct (repr_len _ _ _ _ Hrep) as [_ Hq]. destruct Hrep as [Hwf Ht Hc Ho].
  unfold q_in. rewrite Hq. destruct (Z.leb_spec 0 n) as [Hn|]; [cbn [defined_if rbind]|discriminate].
  destruct (client_load _ _ _ _) as [bs|] eqn:El; cbn; [intros [= <- <- <-] | discriminate].
  apply client_load_inv in El as [Hne Hl]. rewrite <- (load_only_block _ _ _ _ _ Ho) in Hl by assumption.
  destruct (in_ok m f buf n bs Hwf Hn) as (m' & E & Hw' & Hc' & Ho'); [now split |].
  eexists _, _. split; [exact E |]. split; [|now repeat split].
  split; [exact Hw' | now apply (typed_same_buffer t f) | now rewrite Hc', Hc |].
  exact (only_block_trans _ _ _ _ Ho Ho').
Qed.

Lemma repr_out (pop : bool) mA q m f buf n mA' q' r :
  repr t mA q m f -> q_out (blk (k_data f)) (k_esize f) pop mA q buf n = Ok (mA', q', r) ->
  exists m' f', (if pop then __kfifo_out m f buf n
                 else let! (m, r) := __kfifo_out_peek m f buf n in Ok (m, f, r)) = Ok (m', f', r) /\
    repr t mA' q' m' f' /\ same_buffer f f'.
Proof.
  intros Hrep. destruct (repr_len _ _ _ _ Hrep) as [HL Hq]. destruct Hrep as [Hwf Ht Hc Ho].
  unfold q_out. rewrite Hq. destruct (Z.leb_spec 0 n) as [Hn|]; [cbn [defined_if rbind]|discriminate].
  destruct (client_store _ _ _ _) as [mA1|] eqn:Es; cbn; [intros [= <- <- <-] | discriminate].
  apply client_store_inv in Es as (Hne & -> & Hv). pose proof (used_nonneg f). pose proof (wf_esize _ _ Hwf).
  set (k := Z.min n (used f)) in *.
  assert (0 <= k * k_esize f <= used f * k_esize f) as Hk by nia.
  assert (zlen (take (Z.to_nat (k * k_esize f)) q) = k * k_esize f) as Hz.
  { unfold zlen in *. rewrite length_take. lia. }
  rewrite Hz in Hv. assert (writable m f buf (k * k_esize f)) as Hw.
  { split; [exact Hne | eapply valid_only_block; eassumption]. }
  destruct pop.
  - destruct (out_ok m f buf n Hwf Hn Hw) as (m' & E & -> & _ & Hw' & Hc' & _).
    eexists _, _. split; [exact E |]. split; [|now repeat split].
    split; [exact Hw' | now apply (typed_same_buffer t f) | now rewrite Hc', Hc |].
    rewrite Hc. now apply put_bytes_agree.
  - destruct (peek_ok m f buf n Hwf Hn Hw) as (m' & -> & -> & _ & Hw' & Hc' & _).
    cbn [rbind]. eexists _, _. split; [reflexivity |]. split; [|now repeat split].
    split; [exact Hw' | assumption | congruence |]. rewrite Hc. now apply put_bytes_agree.
Qed.

Lemma repr_put mA q m f val mA' q' r :
  repr t mA q m f -> used f < capacity f ->
  q_in (blk (k_data f)) (capacity f) (k_esize f) mA q val 1 = Ok (mA', q', r) ->
  exists m' f', kfifo_put t m f val = Ok (m', f', r) /\ repr t mA' q' m' f' /\ same_buffer f f'.
Proof.
  intros Hrep Hu Hq. destruct (repr_in _ _ _ _ _ _ _ _ _ Hrep Hq) as (m' & f' & E & H).
  exists m', f'. split; [|exact H]. rewrite <- E.
  destruct (repr_len _ _ _ _ Hrep) as [_ HL]. destruct Hrep as [Hwf Ht _ Ho].
  unfold q_in in Hq. rewrite HL, Z.min_l, Z.mul_1_l in Hq by lia. cbn in Hq.
  destruct (client_load _ _ _ _) as [bs|] eqn:El; [|discriminate].
  apply client_load_inv in El as [Hne Hl].
  apply (put_is_in t m f Hwf Ht Hnr val bs). split; [exact Hne |].
  now rewrite (load_only_block _ _ _ _ _ Ho).
Qed.

Lemma repr_get (pop : bool) mA q m f val mA' q' r :
  repr t mA q m f -> 0 < used f ->
  q_out (blk (k_data f)) (k_esize f) pop mA q val 1 = Ok (mA', q', r) ->
  exists m' f', (if pop then kfifo_get t m f val
                 else let! (m, r) := kfifo_peek t m f val in Ok (m, f, r)) = Ok (m', f', r) /\
    repr t mA' q' m' f' /\ same_buffer f f'.
Proof.
  intros Hrep Hu Hq. destruct (repr_out pop _ _ _ _ _ _ _ _ _ Hrep Hq) as (m' & f' & E & H).
  exists m', f'. split; [|exact H]. destruct (repr_len _ _ _ _ Hrep) as [HZ HL].
  destruct Hrep as [Hwf Ht _ Ho]. pose proof (wf_esize _ _ Hwf).
  unfold q_out in Hq. rewrite HL, Z.min_l, Z.mul_1_l in Hq by lia. cbn in Hq.
  destruct (client_store _ _ _ _) as [mA1|] eqn:Es; [|discriminate].
  apply client_store_inv in Es as (Hne & _ & Hv).
  replace (zlen (take _ q)) with (k_esize f) in Hv by (unfold zlen in *; rewrite length_take; nia).
  assert (writable m f val (k_esize f)) as Hw.
  { split; [exact Hne | eapply valid_only_block; eassumption]. }
  rewrite <- E. destruct pop; [now apply get_is_out | now rewrite peek_is_out_peek].
Qed.

Lemma repr_pop mA q m f n :
  repr t mA q m f -> 0 <= n <= used f ->
  repr t mA (drop (Z.to_nat (n * k_esize f)) q) m (set_out f (k_out f ⊞ n)).
Proof.
  intros [Hwf Ht Hc Ho] Hn. destruct (pop_contents m f n Hwf Hn) as [Hw' Hc'].
  split; [exact Hw' | now apply (typed_same_buffer t f) | congruence | exact Ho].
Qed.

Lemma repr_reset mA q m f x :
  repr t mA q m f -> 0 <= x < W32 -> repr t mA [] m (set_in (set_out f x) x).
Proof.
  intros [Hwf Ht Hc Ho] Hx. pose proof (wf_cap _ _ Hwf).
  assert (used (set_in (set_out f x) x) = 0) as Hu by (unfold used; cbn; now rewrite Z.sub_diag).
  split; [|now apply (typed_same_buffer t f) | unfold contents; now rewrite Hu | exact Ho].
  apply (wf_move m f); [assumption | now repeat split | assumption.. | lia].
Qed.

Lemma repr_write mA q m f p bs mA' :
  repr t mA q m f -> client_store (blk (k_data f)) mA p bs = Ok mA' ->
  exists m', store m p bs = Ok m' /\ repr t mA' q m' f.
Proof.
  intros [Hwf Ht Hc Ho] (Hne & -> & Hv)%client_store_inv.
  exists (put_bytes m p bs). pose proof (put_bytes_only m p bs) as Hp. split.
  - apply store_put. eapply valid_only_block; eassumption.
  - split; [eapply wf_only_block; eassumption | assumption | | now apply put_bytes_agree].
    rewrite <- Hc. unfold contents. now rewrite (window_only_block _ _ _ _ Hp Hne).
Qed.

Lemma repr_exec mA q m f o mA' q' r :
  repr t mA q m f ->
  q_exec (blk (k_data f)) (capacity f) (k_esize f) mA q o = Ok (mA', q', r) ->
  exists m' f', exec t m f o = Ok (m', f', r) /\ repr t mA' q' m' f' /\ same_buffer f f'.
Proof.
  intros Hrep. destruct (repr_len _ _ _ _ Hrep) as [HZ HL]. pose proof (used_nonneg f).
  pose proof Hrep as [Hwf Ht Hc Ho]. pose proof (wf_used _ _ Hwf) as Hu.
  unfold q_exec. rewrite HL. destruct o; unfold exec.
  - destruct (Z.leb_spec (capacity f) (used f)); [|now apply repr_put].
    intros [= <- <- <-]. exists m, f. split; [|exact (conj Hrep (same_buffer_refl f))].
    unfold kfifo_put. rewrite Hnr, (full_iff m f Hwf). cbn [truthy Z.eqb negb].
    destruct (Z.eqb_spec (capacity f - used f) 0); [reflexivity | lia].
  - destruct (Z.eqb_spec (used f) 0) as [E|]; [|apply (repr_get true); [assumption | lia]].
    intros [= <- <- <-]. exists m, f. split; [|exact (conj Hrep (same_buffer_refl f))].
    unfold kfifo_get, kfifo_is_empty. now rewrite Hnr, (empty_iff m), E.
  - destruct (Z.eqb_spec (used f) 0) as [E|]; [|apply (repr_get false); [assumption | lia]].
    intros [= <- <- <-]. exists m, f. split; [|exact (conj Hrep (same_buffer_refl f))].
    unfold kfifo_peek, kfifo_is_empty. now rewrite Hnr, (empty_iff m), E.
  - unfold kfifo_in. rewrite Hnr. now apply repr_in.
  - unfold kfifo_out. rewrite Hnr. now apply (repr_out true).
  - unfold kfifo_out_peek. rewrite Hnr. now apply (repr_out false).
  - unfold kfifo_skip. rewrite Hnr. destruct (Z.ltb_spec 0 (used f)); [|discriminate].
    intros [= <- <- <-]. eexists _, _. split; [reflexivity | split; [|now repeat split]].
    rewrite <- (Z.mul_1_l (k_esize f)). apply repr_pop; [assumption | lia].
  - intros [= <- <- <-]. eexists _, _. split; [reflexivity | split; [|now repeat split]].
    apply (repr_reset _ q); [assumption | lia].
  - intros [= <- <- <-]. eexists _, _. split; [reflexivity | split; [|now repeat split]].
    replace (kfifo_reset_out f) with (set_in (set_out f (k_in f)) (k_in f)) by now destruct f.
    apply (repr_reset _ q); [assumption | apply (wf_in _ _ Hwf)].
  - intros [= <- <- <-]. exists m, f. exact (conj eq_refl (conj Hrep (same_buffer_refl f))).
  - intros [= <- <- <-]. exists m, f. split; [|exact (conj Hrep (same_buffer_refl f))].
    unfold kfifo_avail, kfifo_size, kfifo_len. rewrite Hnr, (wf_mask_word m) by assumption.
    fold (used f). pose proof (wf_cap _ _ Hwf). cbn [truthy Z.eqb negb rbind].
    rewrite u32_small by lia. reflexivity.
  - intros [= <- <- <-]. exists m, f. split; [|exact (conj Hrep (same_buffer_refl f))].
    unfold kfifo_is_empty. now rewrite (empty_iff m).
  - intros [= <- <- <-]. exists m, f. split; [|exact (conj Hrep (same_buffer_refl f))].
    rewrite (full_iff m f Hwf). do 3 f_equal. ztest; lia.
  - intros [= <- <- <-]. exists m, f. split; [|exact (conj Hrep (same_buffer_refl f))].
    unfold kfifo_peek_len, kfifo_len. rewrite Hnr. cbn [truthy Z.eqb negb rbind].
    fold (used f). rewrite HZ, <- (typed_size _ _ Ht). pose proof (wf_bytes _ _ Hwf).
    pose proof (wf_esize _ _ Hwf). rewrite u32_small by nia. reflexivity.
  - destruct (client_store _ _ _ _) as [mA1|] eqn:Es; cbn [rbind]; [intros [= <- <- <-] | discriminate].
    destruct (repr_write _ _ _ _ _ _ _ Hrep Es) as (m' & -> & Hr). cbn [rbind].
    exists m', f. exact (conj eq_refl (conj Hr (same_buffer_refl f))).
Qed.
End Refinement.

(** C6: an element fifo is a bounded queue.  Whenever a sequence of interface
    calls and caller writes runs on a plain byte queue bounded by [capacity]
    elements (that is, the callers' buffers are accessible and apart from the
    fifo's, and nothing is skipped on empty), it runs on the fifo without
    undefined behaviour, every call returns the same value, the callers'
    memory ends up the same and the fifo holds the bytes of the queue. *)
Theorem kfifo_refines_queue t mA q m f os mA' q' rs :
  t_recsize t = 0 -> repr t mA q m f ->
  q_run (blk (k_data f)) (capacity f) (k_esize f) mA q os = Ok (mA', q', rs) ->
  exists m' f', run t m f os = Ok (m', f', rs) /\ repr t mA' q' m' f'.
Proof.
  intros Hnr. revert mA q m f rs.
  induction os as [|o os IH]; cbn; intros mA q m f rs Hrep Hq.
  { injection Hq as <- <- <-. eauto. }
  destruct (q_exec _ _ _ mA q o) as [[[mA1 q1] r]|] eqn:E1; [cbn in Hq | discriminate].
  destruct (repr_exec t Hnr _ _ _ _ _ _ _ _ Hrep E1) as (m1 & f1 & -> & Hrep1 & Hm & He & Hd).
  destruct (q_run _ _ _ mA1 q1 os) as [[[mA2 q2] rs2]|] eqn:E2; [cbn in Hq | discriminate].
  injection Hq as <- <- <-. cbn [rbind].
  destruct (IH mA1 q1 m1 f1 rs2 Hrep1) as (m2 & f2 & -> & Hrep2).
  - unfold capacity in *. now rewrite Hm, He, Hd.
  - cbn [rbind]. eauto.
Qed.

Lemma kfifo_refines_queue_witness :
  let os := [OIn (Ptr 64 0) 3; OPeekLen; OGet (Ptr 64 6); OOut (Ptr 64 0) 9; OIsEmpty;
             OPut (Ptr 64 4); OLen; OReset; OAvail] in
  exists m' f', run sample_type sample_mem sample_fifo os =
    Ok (m', f', [2; 8; 1; 3; 1; 1; 1; 0; 4]).
Proof.
  intros os.
  destruct (kfifo_refines_queue sample_type sample_mem [20; 21; 22; 23] sample_mem sample_fifo os
              (Mem {[ 16 := [22; 23; 0; 0; 0; 0; 20; 21]; 64 := [22; 23; 1; 2; 3; 4; 20; 21] ]} ∅)
              [] [2; 8; 1; 3; 1; 1; 1; 0; 4]) as (m' & f' & E & _).
  - reflexivity.
  - split; [apply sample_wf | now split | reflexivity | now split].
  - vm_compute. reflexivity.
  - exists m', f'. exact E.
Defined.

(** *** The queue of records *)

(** Bytes a queue of records takes. *)
Definition footprint (recsize : Z) (rs : list (list Z)) : Z :=
  zlen (concat (encode recsize <$> rs)).

(** A record that does not fit is refused; one whose length does not fit the
    header, or a request whose size wraps, is outside the contract. *)
Definition r_in (b N recsize : Z) (m : mem) (rs : list (list Z)) (p : ptr) (n : Z)
    : res (mem * list (list Z) * Z) :=
  let! _ := defined_if ((0 <=? n) && (n + recsize <? W32)) in
  if N - footprint recsize rs <? n + recsize then Ok (m, rs, 0)
  else
    let! _ := defined_if (n <=? max_rec recsize) in
    let! bs := client_load b m p n in
    Ok (m, rs ++ [bs], n).

Definition r_out (b : Z) (pop : bool) (m : mem) (rs : list (list Z)) (p : ptr) (n : Z)
    : res (mem * list (list Z) * Z) :=
  let! _ := defined_if (0 <=? n) in
  match rs with
  | [] => Ok (m, rs, 0)
  | r :: rs' =>
      let n := Z.min n (zlen r) in
      let! m := client_store b m p (take (Z.to_nat n) r) in
      Ok (m, if pop then rs' else rs, n)
  end.

Definition r_exec (t : ftype) (b N : Z) (m : mem) (rs : list (list Z)) (o : op)
    : res (mem * list (list Z) * Z) :=
  let recsize := t_recsize t in
  let len := footprint recsize rs in
  match o with
  | OPut val => r_in b N recsize m rs val (t_size t)
  | OGet val => r_out b true m rs val (t_ptrsize t)
  | OPeek val => r_out b false m rs val (t_ptrsize t)
  | OIn buf n => r_in b N recsize m rs buf n
  | OOut buf n => r_out b true m rs buf n
  | OOutPeek buf n => r_out b false m rs buf n
  | OSkip => match rs with [] => Err UB | _ :: rs' => Ok (m, rs', 0) end
  | OReset | OResetOut => Ok (m, [], 0)
  | OLen => Ok (m, rs, len)
  | OAvail => Ok (m, rs, Z.min (Z.max 0 (N - len - recsize)) (max_rec recsize))
  | OIsEmpty => Ok (m, rs, b2z (bool_decide (rs = [])))
  | OIsFull => Ok (m, rs, b2z (len =? N))
  | OPeekLen => match rs with [] => Err UB | r :: _ => Ok (m, rs, zlen r) end
  | OWrite p bs => let! m := client_store b m p bs in Ok (m, rs, 0)
  end.

Fixpoint r_run (t : ftype) (b N : Z) (m : mem) (rs : list (list Z)) (os : list op)
    : res (mem * list (list Z) * list Z) :=
  match os with
  | [] => Ok (m, rs, [])
  | o :: os =>
      let! (m, rs, v) := r_exec t b N m rs o in
      let! (m, rs, vs) := r_run t b N m rs os in
      Ok (m, rs, v :: vs)
  end.

(** [f] in memory [m] stands for the records [rs] next to the callers' memory. *)
Record rec_repr (recsize : Z) (mA : mem) (rs : list (list Z)) (m : mem) (f : kfifo) : Prop := {
  rr_records : records m f recsize rs;
  rr_client : only_block (blk (k_data f)) mA m
}.

Section RecRefinement.
Context (t : ftype).
Abbreviation recsize := (t_recsize t).

Lemma rr_used mA rs m f : rec_repr recsize mA rs m f -> footprint recsize rs = used f.
Proof.
  intros [[Hwf He _ Hc _] _]. unfold footprint, zlen. rewrite <- Hc, contents_length by assumption.
  rewrite He. pose proof (used_nonneg f). lia.
Qed.

Lemma rr_in mA rs m f buf n mA' rs' r :
  rec_repr recsize mA rs m f -> r_in (blk (k_data f)) (capacity f) recsize mA rs buf n = Ok (mA', rs', r) ->
  exists m' f', __kfifo_in_r m f buf n recsize = Ok (m', f', r) /\ rec_repr recsize mA' rs' m' f' /\
    same_buffer f f'.
Proof.
  intros Hrep. pose proof (rr_used _ _ _ _ Hrep) as Hu. destruct Hrep as [Hrec Ho].
  unfold r_in. rewrite Hu. destruct (Z.leb_spec 0 n) as [Hn|]; [|discriminate].
  destruct (Z.ltb_spec (n + recsize) W32); [cbn [andb defined_if rbind]|discriminate].
  destruct (Z.ltb_spec (capacity f - used f) (n + recsize)) as [Hf|Hf].
  { intros [= <- <- <-]. exists m, f. split; [now apply (records_in_full m f recsize rs) |].
    split; [now split | apply same_buffer_refl]. }
  destruct (Z.leb_spec n (max_rec recsize)); [cbn [defined_if rbind]|discriminate].
  destruct (client_load _ _ _ _) as [bs|] eqn:El; cbn; [intros [= <- <- <-] | discriminate].
  apply client_load_inv in El as [Hne Hl]. rewrite <- (load_only_block _ _ _ _ _ Ho) in Hl by assumption.
  destruct (records_in m f recsize rs Hrec buf n bs) as (m' & f' & E & Hr' & Hs & Ho');
    [lia | lia | now split |].
  exists m', f'. split; [exact E | split; [|exact Hs]]. split; [exact Hr' |].
  destruct Hs as (_ & _ & ->). exact (only_block_trans _ _ _ _ Ho Ho').
Qed.

Lemma rr_out (pop : bool) mA rs m f buf n mA' rs' r :
  rec_repr recsize mA rs m f -> r_out (blk (k_data f)) pop mA rs buf n = Ok (mA', rs', r) ->
  exists m' f', (if pop then __kfifo_out_r m f buf n recsize
                 else let! (m, r) := __kfifo_out_peek_r m f buf n recsize in Ok (m, f, r)) = Ok (m', f', r) /\
    rec_repr recsize mA' rs' m' f' /\ same_buffer f f'.
Proof.
  intros [Hrec Ho]. unfold r_out. destruct (Z.leb_spec 0 n) as [Hn|]; [cbn [defined_if rbind]|discriminate].
  destruct rs as [|x rs1].
  { intros [= <- <- <-]. exists m, f. pose proof (records_empty _ _ _ _ Hrec eq_refl) as E.
    unfold __kfifo_out_r, __kfifo_out_peek_r. rewrite E. split; [now destruct pop |].
    split; [now split | apply same_buffer_refl]. }
  destruct (client_store _ _ _ _) as [mA1|] eqn:Es; cbn; [intros [= <- <- <-] | discriminate].
  apply client_store_inv in Es as (Hne & -> & Hv). set (k := Z.min n (zlen x)) in *.
  assert (zlen (take (Z.to_nat k) x) = k) as Hz.
  { unfold zlen in *. rewrite length_take. subst k. unfold zlen. lia. }
  rewrite Hz in Hv. assert (writable m f buf k) as Hw.
  { split; [exact Hne | eapply valid_only_block; eassumption]. }
  destruct pop.
  - destruct (records_out m f recsize _ Hrec x rs1 buf n eq_refl Hn Hw)
      as (m' & f' & E & -> & _ & Hr' & Hs & _).
    eexists _, f'. split; [exact E | split; [|exact Hs]]. split; [exact Hr' |].
    destruct Hs as (_ & _ & ->). now apply put_bytes_agree.
  - destruct (records_peek m f recsize _ Hrec x rs1 buf n eq_refl Hn Hw) as (m' & -> & -> & _ & Hr' & _).
    eexists _, f. split; [reflexivity | split; [|apply same_buffer_refl]].
    split; [exact Hr' | now apply put_bytes_agree].
Qed.

Lemma rr_reset mA rs m f x :
  rec_repr recsize mA rs m f -> 0 <= x < W32 -> rec_repr recsize mA [] m (set_in (set_out f x) x).
Proof.
  intros [Hrec Ho] Hx. split; [|exact Ho]. pose proof Hrec as [Hwf He Hs _ _].
  assert (used (set_in (set_out f x) x) = 0) as Hu by (unfold used; cbn; now rewrite Z.sub_diag).
  pose proof (wf_cap _ _ Hwf).
  apply (records_moved m f recsize rs Hrec); [| now repeat split | | constructor].
  - apply (wf_move m f); [assumption | now repeat split | assumption.. | lia].
  - unfold contents. now rewrite Hu.
Qed.

Lemma rr_write mA rs m f p bs mA' :
  rec_repr recsize mA rs m f -> client_store (blk (k_data f)) mA p bs = Ok mA' ->
  exists m', store m p bs = Ok m' /\ rec_repr recsize mA' rs m' f.
Proof.
  intros [Hrec Ho] (Hne & -> & Hv)%client_store_inv.
  exists (put_bytes m p bs). pose proof (put_bytes_only m p bs) as Hp. split.
  - apply store_put. eapply valid_only_block; eassumption.
  - split; [|now apply put_bytes_agree]. pose proof Hrec as [Hwf _ _ Hc Hl].
    apply (records_moved m f recsize rs Hrec); [eapply wf_only_block; eassumption | now repeat split | | exact Hl].
    rewrite <- Hc. unfold contents. now rewrite (window_only_block _ _ _ _ Hp Hne).
Qed.

Lemma rr_avail mA rs m f :
  rec_repr recsize mA rs m f ->
  kfifo_avail t f = Ok (Z.min (Z.max 0 (capacity f - footprint recsize rs - recsize)) (max_rec recsize)).
Proof.
  intros Hrep. rewrite (rr_used _ _ _ _ Hrep). destruct Hrep as [[Hwf _ Hs _ _] _].
  pose proof (wf_cap _ _ Hwf). pose proof (wf_used _ _ Hwf). pose proof (used_nonneg f).
  unfold kfifo_avail, kfifo_size, kfifo_len. rewrite (wf_mask_word m) by assumption. fold (used f).
  rewrite (u32_small (capacity f - used f)) by lia.
  assert (truthy recsize = true) as -> by (destruct Hs as [-> | ->]; reflexivity).
  assert (0 <= max_rec recsize) by (destruct Hs as [-> | ->]; vm_compute; discriminate).
  destruct (Z.leb_spec (capacity f - used f) recsize); [f_equal; lia |].
  rewrite max_r_eq by assumption. rewrite u32_small by lia. f_equal. lia.
Qed.

Lemma rr_exec mA rs m f o mA' rs' r :
  rec_repr recsize mA rs m f ->
  r_exec t (blk (k_data f)) (capacity f) mA rs o = Ok (mA', rs', r) ->
  exists m' f', exec t m f o = Ok (m', f', r) /\ rec_repr recsize mA' rs' m' f' /\ same_buffer f f'.
Proof.
  intros Hrep. pose proof (rr_used _ _ _ _ Hrep) as Hu. pose proof Hrep as [Hrec Ho].
  pose proof Hrec as [Hwf He Hs Hc Hl]. pose proof (wf_used _ _ Hwf).
  assert (truthy recsize = true) as Htr by (destruct Hs as [-> | ->]; reflexivity).
  unfold r_exec. destruct o; unfold exec.
  - unfold kfifo_put. rewrite Htr. now apply rr_in.
  - unfold kfifo_get. rewrite Htr. now apply (rr_out true).
  - unfold kfifo_peek. rewrite Htr. now apply (rr_out false).
  - unfold kfifo_in. rewrite Htr. now apply rr_in.
  - unfold kfifo_out. rewrite Htr. now apply (rr_out true).
  - unfold kfifo_out_peek. rewrite Htr. now apply (rr_out false).
  - unfold kfifo_skip. rewrite Htr. destruct rs as [|x rs1]; [discriminate | intros [= <- <- <-]].
    destruct (records_skip m f recsize _ Hrec x rs1 eq_refl) as (f' & -> & Hr' & Hsb). cbn [rbind].
    exists m, f'. split; [reflexivity | split; [|exact Hsb]]. split; [exact Hr' |].
    now destruct Hsb as (_ & _ & ->).
  - intros [= <- <- <-]. eexists _, _. split; [reflexivity | split; [|now repeat split]].
    apply (rr_reset _ rs); [assumption | lia].
  - intros [= <- <- <-]. eexists _, _. split; [reflexivity | split; [|now repeat split]].
    replace (kfifo_reset_out f) with (set_in (set_out f (k_in f)) (k_in f)) by now destruct f.
    apply (rr_reset _ rs); [assumption | apply (wf_in _ _ Hwf)].
  - intros [= <- <- <-]. exists m, f. rewrite Hu. exact (conj eq_refl (conj Hrep (same_buffer_refl f))).
  - intros [= <- <- <-]. exists m, f. rewrite (rr_avail _ _ _ _ Hrep).
    exact (conj eq_refl (conj Hrep (same_buffer_refl f))).
  - intros [= <- <- <-]. exists m, f. split; [|exact (conj Hrep (same_buffer_refl f))].
    unfold kfifo_is_empty. do 2 f_equal. destruct rs as [|x rs1].
    + now rewrite (records_empty _ _ _ _ Hrec eq_refl).
    + destruct (records_front _ _ _ _ Hrec x rs1 eq_refl) as [Hc' _].
      now rewrite (in_use m f Hwf recsize Hs _ _ Hc').
  - intros [= <- <- <-]. exists m, f. split; [|exact (conj Hrep (same_buffer_refl f))].
    rewrite (full_iff m f Hwf), Hu. do 3 f_equal. ztest; lia.
  - unfold kfifo_peek_len. rewrite Htr. destruct rs as [|x rs1]; [discriminate | intros [= <- <- <-]].
    cbn [negb]. rewrite (records_len _ _ _ _ Hrec x rs1 eq_refl). exists m, f.
    exact (conj eq_refl (conj Hrep (same_buffer_refl f))).
  - destruct (client_store _ _ _ _) as [mA1|] eqn:Es; cbn [rbind]; [intros [= <- <- <-] | discriminate].
    destruct (rr_write _ _ _ _ _ _ _ Hrep Es) as (m' & -> & Hr). cbn [rbind].
    exists m', f. exact (conj eq_refl (conj Hr (same_buffer_refl f))).
Qed.
End RecRefinement.

(** C7: a record fifo is a bounded queue of records.  Whenever a sequence of
    interface calls and caller writes runs on a plain list of records (bounded
    by the bytes of the fifo, headers included, and with payloads the header
    can count), it runs on the fifo without undefined behaviour, with the same
    return values and the same callers' memory, and the fifo holds the records
    of the list. *)
Theorem kfifo_refines_record_queue t mA rs m f os mA' rs' vs :
  rec_repr (t_recsize t) mA rs m f ->
  r_run t (blk (k_data f)) (capacity f) mA rs os = Ok (mA', rs', vs) ->
  exists m' f', run t m f os = Ok (m', f', vs) /\ rec_repr (t_recsize t) mA' rs' m' f'.
Proof.
  revert mA rs m f vs.
  induction os as [|o os IH]; cbn; intros mA rs m f vs Hrep Hq.
  { injection Hq as <- <- <-. eauto. }
  destruct (r_exec _ _ _ mA rs o) as [[[mA1 rs1] r]|] eqn:E1; [cbn in Hq | discriminate].
  destruct (rr_exec t _ _ _ _ _ _ _ _ Hrep E1) as (m1 & f1 & -> & Hrep1 & Hm & He & Hd).
  destruct (r_run _ _ _ mA1 rs1 os) as [[[mA2 rs2] vs2]|] eqn:E2; [cbn in Hq | discriminate].
  injection Hq as <- <- <-. cbn [rbind].
  destruct (IH mA1 rs1 m1 f1 vs2 Hrep1) as (m2 & f2 & -> & Hrep2).
  - unfold capacity in *. now rewrite Hm, Hd.
  - cbn [rbind]. eauto.
Qed.

(** [rec_fifo] as a [STRUCT_KFIFO_REC_1]-like pointer fifo. *)
Lemma kfifo_refines_record_queue_witness :
  let t := FType 1 1 1 0 NULL in
  let os := [OAvail; OIn (Ptr 64 0) 4; OIn (Ptr 64 0) 8; OPeekLen; OOut (Ptr 64 0) 2; OPeekLen;
             OSkip; OLen; OOut (Ptr 64 4) 8; OIsEmpty] in
  exists m' f', run t rec_mem rec_fifo os = Ok (m', f', [10; 4; 0; 3; 2; 0; 0; 5; 4; 1]).
Proof.
  intros t os.
  destruct (kfifo_refines_record_queue t rec_mem [[5; 6; 7]; []] rec_mem rec_fifo os
              (Mem {[ 32 := [5; 6; 7; 0; 9; 9; 9; 9; 9; 9; 9; 9; 9; 9; 9; 3];
                      64 := [5; 6; 3; 4; 1; 2; 3; 4] ]} ∅)
              [] [10; 4; 0; 3; 2; 0; 0; 5; 4; 1]) as (m' & f' & E & _).
  - split; [apply rec_sample | now split].
  - vm_compute. reflexivity.
  - exists m', f'. exact E.
Defined.

End KfifoApi.
