(* ===== verification/KfifoDefine.v ===== *)
(** * Declaring a fifo, and the locked calls

    The rest of linux/kfifo.h: the macros that declare fifo types and define a
    fifo statically, and the macros that take a spin lock around [kfifo_in] and
    [kfifo_out].  The locks that save the interrupt flag are declared by
    linux/spinlock.h and defined by no file of the library: they are the
    class [IrqLock]. *)

From S2P Require Import Prelude Bytes Log2 Memory Kfifo KfifoApi.
Import Bytes Log2 Memory Kfifo KfifoApi.

Module KfifoDefine.

(** ** Declarations *)

(** The types a declaration can give; [None] is the array of length -1, which
    does not compile.  [esize] is [sizeof(type)], [buf] the address of the
    array inside the structure. *)
Definition __STRUCT_KFIFO (esize size recsize ptrsize : Z) (buf : ptr) : option ftype :=
  if (size <? 2) || truthy (size .& (size ⊟ 1)) then None
  else Some (FType recsize esize ptrsize size buf).

Definition STRUCT_KFIFO (esize size : Z) (buf : ptr) : option ftype :=
  __STRUCT_KFIFO esize size 0 esize buf.

Definition __STRUCT_KFIFO_PTR (esize recsize ptrsize : Z) (buf : ptr) : ftype :=
  FType recsize esize ptrsize 0 buf.

Definition STRUCT_KFIFO_PTR (esize : Z) (buf : ptr) : ftype := __STRUCT_KFIFO_PTR esize 0 esize buf.

(** Fifos of records of bytes; [sizeof(void)] is 1. *)
Definition STRUCT_KFIFO_REC_1 (size : Z) (buf : ptr) : option ftype := __STRUCT_KFIFO 1 size 1 1 buf.
Definition STRUCT_KFIFO_REC_2 (size : Z) (buf : ptr) : option ftype := __STRUCT_KFIFO 1 size 2 1 buf.

Definition DECLARE_KFIFO (esize size : Z) (buf : ptr) : option ftype := STRUCT_KFIFO esize size buf.
Definition DECLARE_KFIFO_PTR (esize : Z) (buf : ptr) : ftype := STRUCT_KFIFO_PTR esize buf.

Definition DEFINE_KFIFO (esize size : Z) (buf : ptr) : option (ftype * kfifo) :=
  match DECLARE_KFIFO esize size buf with
  | None => None
  | Some t =>
      Some (t, Kfifo 0 0 (if __is_kfifo_ptr t then 0 else t_nbuf t ⊟ 1) (t_size t)
                 (if __is_kfifo_ptr t then NULL else t_buf t))
  end.

Definition __kfifo_int_must_check_helper (val : Z) : Z := val.

(** ** Locked calls *)

Class IrqLock (L : Type) := {
  spin_lock_irqsave : L -> res (L * Z);
  spin_unlock_irqrestore : L -> Z -> res L
}.

(** Documented of the locks: taking a free one returns, and giving it back with
    the flags it returned leaves it as it was. *)
Class IrqLockLaws {L} (K : IrqLock L) (is_free : L -> Prop) : Prop := {
  irqsave_ok l : is_free l -> exists l' flags, spin_lock_irqsave l = Ok (l', flags) /\
                   spin_unlock_irqrestore l' flags = Ok l
}.

Section Locked.
Context {L : Type} {K : IrqLock L} (t : ftype).

Definition kfifo_in_spinlocked (l : L) (m : mem) (f : kfifo) (buf : ptr) (n : Z) : res (L * mem * kfifo * Z) :=
  let! (l, __flags) := spin_lock_irqsave l in
  let! (m, f, __ret) := kfifo_in t m f buf n in
  let! l := spin_unlock_irqrestore l __flags in
  Ok (l, m, f, __ret).

Definition kfifo_in_locked := kfifo_in_spinlocked.

Definition kfifo_out_spinlocked (l : L) (m : mem) (f : kfifo) (buf : ptr) (n : Z) : res (L * mem * kfifo * Z) :=
  let! (l, __flags) := spin_lock_irqsave l in
  let! (m, f, __ret) := kfifo_out t m f buf n in
  let! l := spin_unlock_irqrestore l __flags in
  Ok (l, m, f, __kfifo_uint_must_check_helper __ret).

Definition kfifo_out_locked := kfifo_out_spinlocked.
End Locked.

(** ** Theorems *)

(** The sizes that compile. *)
Lemma size_test size :
  0 <= size < W32 ->
  ((size <? 2) || truthy (size .& (size ⊟ 1))) = false <-> exists k, 1 <= k /\ size = 2 ^ k.
Proof.
  intros Hs. rewrite orb_false_iff, Z.ltb_ge.
  assert (2 <= size -> truthy (size .& (size ⊟ 1)) = false <-> is_power_of_2 size = true) as H.
  { intros H2. unfold truthy, is_power_of_2. rewrite negb_false_iff, andb_true_iff, negb_true_iff, Z.eqb_neq.
    split; [intros H; split; [lia | exact H] | tauto]. }
  split.
  - intros [H2 Ht]. apply H in Ht; [|exact H2]. apply is_power_of_2_iff in Ht as (k & Hk & ->); [|exact Hs].
    exists k. split; [|reflexivity]. destruct (Z.eq_dec k 0) as [->|]; lia.
  - intros (k & Hk & ->). assert (2 ^ 1 <= 2 ^ k) by (apply Z.pow_le_mono_r; lia).
    split; [lia |]. apply H; [lia |]. apply is_power_of_2_iff; [exact Hs |]. exists k. split; [lia | reflexivity].
Qed.

(** A statically defined fifo.  [DEFINE_KFIFO] compiles exactly for the powers
    of two from two up; the fifo it defines is the one [INIT_KFIFO] sets up,
    and where its array lies in memory it is well formed, empty, and holds
    [size] elements: no call has to be made before it is used. *)
Theorem define_kfifo_spec esize size buf :
  1 <= esize -> 0 <= size -> size * esize < W32 ->
  match DEFINE_KFIFO esize size buf with
  | None => ~ exists k, 1 <= k /\ size = 2 ^ k
  | Some (t, f) => (exists k, 1 <= k /\ size = 2 ^ k) /\ f = INIT_KFIFO t /\
      t_recsize t = 0 /\ k_esize f = esize /\ kfifo_size f = size /\
      kfifo_is_empty f = true /\ kfifo_is_full f = false /\ kfifo_avail t f = Ok size /\
      forall m D, blocks m !! blk buf = Some D -> in_bounds D (ofs buf) (size * esize) = true ->
        wf m f /\ contents m f = [] /\ capacity f = size
  end.
Proof.
  intros He Hs Hw. assert (0 <= size < W32) as Hr by nia. pose proof (size_test size Hr) as Ht.
  unfold DEFINE_KFIFO, DECLARE_KFIFO, STRUCT_KFIFO, __STRUCT_KFIFO.
  destruct ((size <? 2) || truthy (size .& (size ⊟ 1))).
  { intros Hk. apply Ht in Hk. discriminate. }
  destruct (proj1 Ht eq_refl) as (k & Hk & ->). split; [eauto |]. split; [reflexivity |].
  assert (2 ^ 1 <= 2 ^ k) as H2 by (apply Z.pow_le_mono_r; lia).
  assert (k < 32) as Hk32 by (apply (Z.pow_lt_mono_r_iff 2); [lia | lia | change (2 ^ 32) with W32; lia]).
  set (t := FType 0 esize esize (2 ^ k) buf).
  assert (__is_kfifo_ptr t = false) as Hp
    by (unfold __is_kfifo_ptr, sizeof_kfifo; cbn [t_nbuf t_size t]; apply Z.eqb_neq; nia).
  rewrite Hp. cbn [t_nbuf t_size t_buf t_recsize t k_esize].
  assert (kfifo_size (Kfifo 0 0 (2 ^ k ⊟ 1) esize buf) = 2 ^ k) as Hsz.
  { unfold kfifo_size. cbn [k_mask]. rewrite u32_add_l. replace (2 ^ k - 1 + 1) with (2 ^ k) by lia. now apply u32_small. }
  split; [reflexivity | split; [reflexivity | split; [exact Hsz | split; [reflexivity | split]]]].
  - unfold kfifo_is_full, kfifo_len. cbn [k_mask k_in k_out]. rewrite (u32_small (2 ^ k - 1)) by lia. apply Z.ltb_ge.
    change (u32 (0 - 0)) with 0. lia.
  - split.
    + unfold kfifo_avail, kfifo_len. cbn [t_recsize t]. rewrite Hsz. cbn [k_in k_out truthy Z.eqb negb].
      change (0 ⊟ 0) with 0. rewrite Z.sub_0_r, u32_small by exact Hr. reflexivity.
    + intros m D HD Hb. destruct (fresh_fifo_wf m buf k esize D) as (H3 & H4 & H5); try assumption; try lia. auto.
Qed.

Lemma define_kfifo_spec_witness :
  match DEFINE_KFIFO 4 16 (Ptr 64 0) with
  | Some (t, f) => kfifo_size f = 16 /\ kfifo_avail t f = Ok 16
  | None => False
  end /\ DEFINE_KFIFO 4 12 (Ptr 64 0) = None.
Proof.
  split; [|reflexivity]. pose proof (define_kfifo_spec 4 16 (Ptr 64 0) ltac:(lia) ltac:(lia) ltac:(lia)) as H.
  cbn -[kfifo_size kfifo_avail kfifo_is_empty kfifo_is_full INIT_KFIFO] in H. destruct H as (_ & _ & _ & _ & H1 & _ & _ & H2 & _).
  split; assumption.
Defined.

(** The locked calls are the plain ones with the lock given back: on a free
    lock they return what [kfifo_in] and [kfifo_out] return on the same fifo
    and memory, and where those are undefined so are they. *)
Theorem spinlocked_spec {L} (K : IrqLock L) is_free (H : IrqLockLaws K is_free) t (l : L) m f buf n :
  is_free l ->
  kfifo_in_spinlocked t l m f buf n = (let! (m, f, r) := kfifo_in t m f buf n in Ok (l, m, f, r)) /\
  kfifo_out_spinlocked t l m f buf n = (let! (m, f, r) := kfifo_out t m f buf n in Ok (l, m, f, u32 r)).
Proof.
  intros Hl. destruct (irqsave_ok l Hl) as (l' & flags & E1 & E2).
  unfold kfifo_in_spinlocked, kfifo_out_spinlocked. rewrite E1. cbn [rbind].
  destruct (kfifo_in t m f buf n) as [[[m1 f1] r1]|], (kfifo_out t m f buf n) as [[[m2 f2] r2]|];
    cbn [rbind]; rewrite ?E2; split; reflexivity.
Qed.

(** A lock word with the interrupt flag of the processor. *)
#[local] Instance flag_lock : IrqLock (bool * Z) := {|
  spin_lock_irqsave := fun (l : bool * Z) => if fst l then Err OutOfFuel else Ok ((true, 0), snd l);
  spin_unlock_irqrestore := fun (l : bool * Z) flags => Ok (false, flags)
|}.

#[local] Instance flag_lock_laws : IrqLockLaws flag_lock (fun l => fst l = false).
Proof. split. intros [b flags] Hb. cbn in *. subst b. eexists _, _. split; reflexivity. Qed.

Lemma spinlocked_spec_witness :
  let t := FType 0 1 1 4 (Ptr 64 0) in
  let m := Mem {[ 64 := [0; 0; 0; 0]; 65 := [7; 8] ]} ∅ in
  kfifo_in_spinlocked t (false, 512) m (INIT_KFIFO t) (Ptr 65 0) 2 =
    Ok (false, 512, Mem {[ 64 := [7; 8; 0; 0]; 65 := [7; 8] ]} ∅, Kfifo 2 0 3 1 (Ptr 64 0), 2).
Proof.
  intros t m. rewrite (proj1 (spinlocked_spec flag_lock _ flag_lock_laws t (false, 512) m (INIT_KFIFO t) (Ptr 65 0) 2 eq_refl)).
  vm_compute. reflexivity.
Defined.
End KfifoDefine.
