(* ===== verification/KfifoSpsc.v ===== *)
(** * One writer and one reader, without a lock

    linux/kfifo.h says of its fifos that no lock is needed as long as there is
    one writer and one reader, and that the reader may also call
    [kfifo_reset_out].  The UART driver relies on it: its interrupt handler
    adds to the receive fifo ([kfifo_put]) while [uart16550_read] takes from it
    ([kfifo_out]), and the other way round for the transmit fifo.

    Here [__kfifo_in], [kfifo_put], [__kfifo_out], [kfifo_get] and
    [kfifo_reset_out] (on fifos of elements) are cut at their accesses to the
    shared fifo, and the steps of one writer and one reader
    interleave freely.  A [memcpy] is a set of byte transfers that may be
    carried out in any order; the barriers [smp_wmb] of the source are the
    points where the set has to be empty.  Each side has a private buffer and
    reads the index of the other side once per call, as the source does. *)

From S2P Require Import Prelude Bytes Memory Kfifo KfifoApi.
Import Bytes Memory Kfifo KfifoApi.

Module KfifoSpsc.

(** ** The calls, access by access *)

(** One byte transfer: destination and source. *)
Definition move : Type := ptr * ptr.

Definition memcpy_moves (dst src : ptr) (n : Z) : list move :=
  (fun i => (padd dst i, padd src i)) <$> seqZ 0 n.

Definition move_byte (m : mem) (mv : move) : res mem := memcpy m mv.1 mv.2 1.

Definition copy_in_moves (f : kfifo) (src : ptr) (len off : Z) : list move :=
  let '(off, len, l) := kfifo_span f len off in
  memcpy_moves (padd (k_data f) off) src l ++
  memcpy_moves (k_data f) (padd src l) (len ⊟ l).

Definition copy_out_moves (f : kfifo) (dst : ptr) (len off : Z) : list move :=
  let '(off, len, l) := kfifo_span f len off in
  memcpy_moves dst (padd (k_data f) off) l ++
  memcpy_moves (padd dst l) (k_data f) (len ⊟ l).

(** The element [kfifo_put] stores, and the one [kfifo_get] takes. *)
Definition put_moves (f : kfifo) (val : ptr) : list move :=
  memcpy_moves (padd (k_data f) ((k_in f .& k_mask f) * k_esize f)) val (k_esize f).
Definition get_moves (f : kfifo) (val : ptr) : list move :=
  memcpy_moves val (padd (k_data f) ((k_out f .& k_mask f) * k_esize f)) (k_esize f).

(** Where the writer stands: between calls; inside [__kfifo_in], before the
    free space is read; inside [kfifo_put], before the test; with the transfers
    still to do before the barrier. *)
Inductive writer : Type :=
| WIdle
| WSize (buf : ptr) (len : Z)
| WPut (val : ptr)
| WCopy (todo : list move) (buf : ptr) (len : Z).

(** The reader, inside [__kfifo_out] or [kfifo_get], or inside
    [kfifo_reset_out] with the value of [in] it has read. *)
Inductive reader : Type :=
| RIdle
| RSize (buf : ptr) (len : Z)
| RGet (val : ptr)
| RCopy (todo : list move) (buf : ptr) (len : Z)
| RReset (i : Z).

(** What left the fifo: bytes handed to the reader, or skipped by a reset. *)
Inductive event : Type :=
| Took (bs : list Z)
| Skipped (bs : list Z).

Definition event_bytes (e : event) : list Z :=
  match e with Took bs => bs | Skipped bs => bs end.

(** Memory and fifo are shared; [s_sent] is every byte the writer has
    published, [s_log] everything that left the fifo, in order. *)
Record spsc := Spsc {
  s_mem : mem;
  s_fifo : kfifo;
  s_writer : writer;
  s_reader : reader;
  s_sent : list Z;
  s_log : list event
}.

Definition bytes_at (m : mem) (p : ptr) (n : Z) : list Z :=
  match load m p n with Ok bs => bs | Err _ => [] end.

(** The private buffers of the two sides. *)
Section Steps.
Variables wbuf rbuf : Z.

Inductive wstep : spsc -> spsc -> Prop :=
| W_call m f r se lg bs len :
    0 <= len < W32 -> len * k_esize f <= zlen bs ->
    wstep (Spsc m f WIdle r se lg)
          (Spsc (Mem (<[wbuf := bs]> (blocks m)) (dyn m)) f (WSize (Ptr wbuf 0) len) r se lg)
| W_size m f r se lg buf len :
    let l := kfifo_unused f in
    let n := if l <? len then l else len in
    wstep (Spsc m f (WSize buf len) r se lg)
          (Spsc m f (WCopy (copy_in_moves f buf n (k_in f)) buf n) r se lg)
| W_put_call m f r se lg bs :
    k_esize f <= zlen bs ->
    wstep (Spsc m f WIdle r se lg)
          (Spsc (Mem (<[wbuf := bs]> (blocks m)) (dyn m)) f (WPut (Ptr wbuf 0)) r se lg)
| W_put_full m f r se lg val :
    kfifo_is_full f = true ->
    wstep (Spsc m f (WPut val) r se lg) (Spsc m f WIdle r se lg)
| W_put m f r se lg val :
    kfifo_is_full f = false ->
    wstep (Spsc m f (WPut val) r se lg) (Spsc m f (WCopy (put_moves f val) val 1) r se lg)
| W_byte m m' f r se lg t1 mv t2 buf len :
    move_byte m mv = Ok m' ->
    wstep (Spsc m f (WCopy (t1 ++ mv :: t2) buf len) r se lg)
          (Spsc m' f (WCopy (t1 ++ t2) buf len) r se lg)
| W_publish m f r se lg buf len :
    wstep (Spsc m f (WCopy [] buf len) r se lg)
          (Spsc m (set_in f (k_in f ⊞ len)) WIdle r
             (se ++ bytes_at m buf (len * k_esize f)) lg).

Inductive rstep : spsc -> spsc -> Prop :=
| R_call m f w se lg D len :
    0 <= len < W32 -> len * k_esize f <= zlen D ->
    rstep (Spsc m f w RIdle se lg)
          (Spsc (Mem (<[rbuf := D]> (blocks m)) (dyn m)) f w (RSize (Ptr rbuf 0) len) se lg)
| R_size m f w se lg buf len :
    let l := k_in f ⊟ k_out f in
    let n := if l <? len then l else len in
    rstep (Spsc m f w (RSize buf len) se lg)
          (Spsc m f w (RCopy (copy_out_moves f buf n (k_out f)) buf n) se lg)
| R_get_call m f w se lg D :
    k_esize f <= zlen D ->
    rstep (Spsc m f w RIdle se lg)
          (Spsc (Mem (<[rbuf := D]> (blocks m)) (dyn m)) f w (RGet (Ptr rbuf 0)) se lg)
| R_get_empty m f w se lg val :
    kfifo_is_empty f = true ->
    rstep (Spsc m f w (RGet val) se lg) (Spsc m f w RIdle se lg)
| R_get m f w se lg val :
    kfifo_is_empty f = false ->
    rstep (Spsc m f w (RGet val) se lg) (Spsc m f w (RCopy (get_moves f val) val 1) se lg)
| R_byte m m' f w se lg t1 mv t2 buf len :
    move_byte m mv = Ok m' ->
    rstep (Spsc m f w (RCopy (t1 ++ mv :: t2) buf len) se lg)
          (Spsc m' f w (RCopy (t1 ++ t2) buf len) se lg)
| R_publish m f w se lg buf len :
    rstep (Spsc m f w (RCopy [] buf len) se lg)
          (Spsc m (set_out f (k_out f ⊞ len)) w RIdle se
             (lg ++ [Took (bytes_at m buf (len * k_esize f))]))
| R_reset_read m f w se lg :
    rstep (Spsc m f w RIdle se lg) (Spsc m f w (RReset (k_in f)) se lg)
| R_reset_write m f w se lg i :
    rstep (Spsc m f w (RReset i) se lg)
          (Spsc m (set_out f i) w RIdle se
             (lg ++ [Skipped (take (Z.to_nat ((i ⊟ k_out f) * k_esize f)) (contents m f))])).

Definition step (s s' : spsc) : Prop := wstep s s' \/ rstep s s'.

Definition initial (s : spsc) : Prop :=
  wf (s_mem s) (s_fifo s) /\ s_writer s = WIdle /\ s_reader s = RIdle /\
  s_sent s = contents (s_mem s) (s_fifo s) /\ s_log s = [] /\
  NoDup [wbuf; rbuf; blk (k_data (s_fifo s))].

Definition reachable (s : spsc) : Prop := exists s0, initial s0 /\ rtc step s0 s.
End Steps.

(** ** Positions in the ring *)

(** Bytes of the buffer. *)
Definition nbytes (f : kfifo) : Z := capacity f * k_esize f.

(** Where the [i]-th byte from the read position lies. *)
Definition bpos (f : kfifo) (i : Z) : Z :=
  (k_out f mod capacity f * k_esize f + i) mod nbytes f.

Section Positions.
Context (m : mem) (f : kfifo) (Hwf : wf m f).

Lemma nbytes_pos : 0 < nbytes f < W32.
Proof.
  pose proof (wf_cap _ _ Hwf). pose proof (wf_esize _ _ Hwf).
  pose proof (wf_bytes _ _ Hwf). unfold nbytes. nia.
Qed.

Lemma bpos_range i : 0 <= bpos f i < nbytes f.
Proof. apply Z.mod_pos_bound. pose proof nbytes_pos. lia. Qed.

Lemma used_bytes : 0 <= used f * k_esize f <= nbytes f.
Proof.
  pose proof (used_nonneg f). pose proof (wf_used _ _ Hwf). pose proof (wf_esize _ _ Hwf).
  unfold nbytes. nia.
Qed.

Lemma bpos_inj i j :
  0 <= i < nbytes f -> 0 <= j < nbytes f -> bpos f i = bpos f j -> i = j.
Proof.
  unfold bpos. set (a := _ * k_esize f). intros Hi Hj E.
  assert ((a + i - (a + j)) mod nbytes f = 0) as H
    by (rewrite Zminus_mod, E, Z.sub_diag; apply Z.mod_0_l; lia).
  replace (a + i - (a + j)) with (i - j) in H by lia.
  destruct (Z.lt_ge_cases i j).
  - rewrite <- (Z.mod_add _ 1) in H by lia. rewrite Z.mod_small in H; lia.
  - rewrite Z.mod_small in H; lia.
Qed.

(** Scaling by the element size commutes with the wrap. *)
Lemma mod_scale a i :
  (a mod capacity f * k_esize f + i) mod nbytes f = (a * k_esize f + i) mod nbytes f.
Proof.
  pose proof (wf_cap _ _ Hwf). pose proof (wf_esize _ _ Hwf).
  unfold nbytes. rewrite (Z.mod_eq a) by lia.
  replace ((a - capacity f * (a / capacity f)) * k_esize f + i)
    with (a * k_esize f + i + (- (a / capacity f)) * (capacity f * k_esize f)) by lia.
  apply Z.mod_add. nia.
Qed.

(** The words wrap at a multiple of the buffer. *)
Lemma word_mod a b i :
  u32 a = u32 b ->
  (a * k_esize f + i) mod nbytes f = (b * k_esize f + i) mod nbytes f.
Proof.
  intros E. rewrite <- (mod_scale a), <- (mod_scale b), <- (wf_mod_word _ _ Hwf a), E.
  now rewrite (wf_mod_word _ _ Hwf).
Qed.

Lemma bpos_in i :
  bpos f (used f * k_esize f + i) = (k_in f mod capacity f * k_esize f + i) mod nbytes f.
Proof.
  unfold bpos. rewrite !mod_scale, Z.add_assoc, <- Z.mul_add_distr_r. apply word_mod.
  unfold used. rewrite u32_add_r. f_equal. lia.
Qed.

Lemma bpos_out n i :
  bpos (set_out f (k_out f ⊞ n)) i = bpos f (n * k_esize f + i).
Proof.
  unfold bpos. change (capacity (set_out f _)) with (capacity f).
  change (nbytes (set_out f _)) with (nbytes f). cbn [k_esize k_out set_out].
  rewrite !mod_scale, Z.add_assoc, <- Z.mul_add_distr_r. apply word_mod.
  apply u32_idemp.
Qed.

(** The ring seen from the read position, byte by byte. *)
Lemma contents_lookup i :
  0 <= i < used f * k_esize f ->
  contents m f !! Z.to_nat i = window m f !! Z.to_nat (bpos f i).
Proof.
  intros Hi. pose proof used_bytes as Hu. pose proof (wf_mod_bound _ _ Hwf (k_out f)) as Hm.
  pose proof (window_length _ _ Hwf) as HW. pose proof (wf_esize _ _ Hwf).
  fold (nbytes f) in HW. unfold contents. rewrite lookup_take_lt by lia.
  set (a := k_out f mod capacity f * k_esize f).
  assert (0 <= a < nbytes f) as Ha by (unfold nbytes, a; nia).
  rewrite lookup_rot by lia. rewrite HW. unfold bpos. fold a.
  destruct (Z.lt_ge_cases (a + i) (nbytes f)).
  - rewrite decide_True by lia. rewrite Z.mod_small by lia. f_equal. lia.
  - rewrite decide_False by lia. rewrite decide_True by lia.
    rewrite <- (Z.mod_add _ (-1)) by lia. rewrite Z.mod_small by lia. f_equal. lia.
Qed.
End Positions.

(** ** The transfers of a call *)

Definition in_move (f : kfifo) (buf : ptr) (i : Z) : move :=
  (padd (k_data f) (bpos f (used f * k_esize f + i)), padd buf i).
Definition out_move (f : kfifo) (buf : ptr) (i : Z) : move :=
  (padd buf i, padd (k_data f) (bpos f i)).

(** Both halves of a copy, as one run over the ring. *)
Lemma ring_moves_eq {B} (g : ptr -> ptr -> B) m f p len off :
  wf m f -> 0 <= len <= capacity f ->
  let a := off mod capacity f * k_esize f in
  let n := len * k_esize f in
  let l := Z.min n ((capacity f - off mod capacity f) * k_esize f) in
  ((fun i => g (padd (padd (k_data f) a) i) (padd p i)) <$> seqZ 0 l) ++
  ((fun i => g (padd (k_data f) i) (padd (padd p l) i)) <$> seqZ 0 (n ⊟ l)) =
  (fun i => g (padd (k_data f) ((a + i) mod nbytes f)) (padd p i)) <$> seqZ 0 n.
Proof.
  intros Hwf Hlen a n l. pose proof (nbytes_pos _ _ Hwf) as HN.
  pose proof (span_bounds _ _ Hwf len off Hlen) as (Ha & Hn & Hl & Hend).
  fold a n l in Ha, Hn, Hl, Hend. fold (nbytes f) in Ha, Hn, Hend.
  rewrite (u32_small (n - l)) by lia.
  replace (seqZ 0 n) with (seqZ 0 l ++ (Z.add l <$> seqZ 0 (n - l)))
    by (rewrite fmap_add_seqZ, (Z.add_comm l 0), <- (seqZ_app 0 l (n - l)) by lia; f_equal; lia).
  rewrite fmap_app, <- list_fmap_compose. f_equal; apply list_fmap_ext; intros k i Hi;
    apply lookup_seqZ in Hi; cbn; rewrite padd_padd.
  - rewrite Z.mod_small by lia. reflexivity.
  - assert (l = nbytes f - a) as El.
    { unfold l, nbytes, a in *. lia. }
    rewrite <- (Z.mod_add (a + (l + i)) (-1)), Z.mod_small by lia. do 2 f_equal. lia.
Qed.

Lemma copy_in_moves_eq m f src n :
  wf m f -> 0 <= n <= capacity f ->
  copy_in_moves f src n (k_in f) = in_move f src <$> seqZ 0 (n * k_esize f).
Proof.
  intros Hwf Hn. unfold copy_in_moves, memcpy_moves. rewrite (span_eq m) by assumption.
  rewrite (ring_moves_eq (fun d s => (d, s)) m) by assumption.
  apply list_fmap_ext. intros k i _. unfold in_move. now rewrite (bpos_in m) by assumption.
Qed.

Lemma copy_out_moves_eq m f dst n :
  wf m f -> 0 <= n <= capacity f ->
  copy_out_moves f dst n (k_out f) = out_move f dst <$> seqZ 0 (n * k_esize f).
Proof.
  intros Hwf Hn. unfold copy_out_moves, memcpy_moves. rewrite (span_eq m) by assumption.
  now rewrite (ring_moves_eq (fun d s => (s, d)) m) by assumption.
Qed.

(** One element never wraps. *)
Lemma put_moves_eq m f val :
  wf m f -> put_moves f val = in_move f val <$> seqZ 0 (1 * k_esize f).
Proof.
  intros Hwf. pose proof (wf_cap _ _ Hwf). pose proof (wf_esize _ _ Hwf).
  rewrite <- (copy_in_moves_eq m) by (assumption || lia). unfold copy_in_moves, put_moves.
  rewrite (span_one m) by assumption. rewrite (wf_and_mask _ _ Hwf).
  replace (k_esize f ⊟ k_esize f) with 0 by (rewrite Z.sub_diag; reflexivity).
  unfold memcpy_moves at 3. cbn. now rewrite app_nil_r.
Qed.

Lemma get_moves_eq m f val :
  wf m f -> get_moves f val = out_move f val <$> seqZ 0 (1 * k_esize f).
Proof.
  intros Hwf. pose proof (wf_cap _ _ Hwf). pose proof (wf_esize _ _ Hwf).
  rewrite <- (copy_out_moves_eq m) by (assumption || lia). unfold copy_out_moves, get_moves.
  rewrite (span_one m) by assumption. rewrite (wf_and_mask _ _ Hwf).
  replace (k_esize f ⊟ k_esize f) with 0 by (rewrite Z.sub_diag; reflexivity).
  unfold memcpy_moves at 3. cbn. now rewrite app_nil_r.
Qed.

Lemma elem_of_moves (g : Z -> move) mv n :
  mv ∈ g <$> seqZ 0 n <-> exists i, mv = g i /\ 0 <= i < n.
Proof.
  rewrite list_elem_of_fmap. split; intros (i & -> & Hi); exists i; (split; [reflexivity |]);
    [apply elem_of_seqZ in Hi | apply elem_of_seqZ]; lia.
Qed.

(** ** One byte *)

Lemma load_byte m p n bs i :
  load m p n = Ok bs -> 0 <= i < n ->
  exists b, bs !! Z.to_nat i = Some b /\ load m (padd p i) 1 = Ok [b].
Proof.
  intros Hld Hi. pose proof (load_length _ _ _ _ Hld) as Hlen.
  destruct (load_split _ _ _ _ i Hld) as [_ H]; [lia |].
  destruct (load_split _ _ _ _ 1 H) as [H1 _]; [lia |].
  destruct (lookup_lt_is_Some_2 bs (Z.to_nat i)) as [b Hb]; [lia |].
  exists b. split; [exact Hb |]. rewrite H1. f_equal.
  rewrite (drop_S _ _ _ Hb). reflexivity.
Qed.

(** A byte written inside a loaded range. *)
Lemma load_after_byte m p n bs i b :
  load m p n = Ok bs -> 0 <= i < n ->
  load (put_bytes m (padd p i) [b]) p n = Ok (<[Z.to_nat i := b]> bs).
Proof.
  intros (D & HD & Hb & ->)%load_inv Hi. apply in_bounds_iff in Hb as Hb'. unfold zlen in Hb'.
  unfold put_bytes. cbn [blk ofs padd]. rewrite HD.
  replace (Z.to_nat (ofs p + i)) with (Z.to_nat (ofs p) + Z.to_nat i)%nat by lia.
  erewrite load_ok; [|apply lookup_insert_eq |].
  - f_equal. rewrite window_write by (cbn; lia). rewrite write_at_insert; [reflexivity |].
    rewrite length_read_at; lia.
  - apply in_bounds_iff. unfold zlen. rewrite length_write_at; cbn; lia.
Qed.

Lemma ring_byte m f p b :
  wf m f -> 0 <= p < nbytes f ->
  put_bytes m (padd (k_data f) p) [b] = put_window m f (<[Z.to_nat p := b]> (window m f)).
Proof.
  intros Hwf Hp. pose proof (window_length _ _ Hwf) as HW. fold (nbytes f) in HW.
  rewrite put_bytes_store_one by (assumption || (unfold nbytes, zlen in *; cbn [length]; lia)).
  f_equal. rewrite <- write_at_insert by lia. unfold ring_store. cbn zeta. cbn [length].
  rewrite take_ge, drop_ge by (cbn [length]; lia). apply write_at_nil.
Qed.

(** A byte written past the used part is outside the queue. *)
Lemma free_byte m f j b :
  wf m f -> 0 <= j -> used f * k_esize f + j < nbytes f ->
  let p := bpos f (used f * k_esize f + j) in
  let m' := put_bytes m (padd (k_data f) p) [b] in
  wf m' f /\ window m' f = <[Z.to_nat p := b]> (window m f) /\ contents m' f = contents m f.
Proof.
  intros Hwf Hj Hlt p m'. pose proof (used_bytes _ _ Hwf) as Hu.
  pose proof (bpos_range _ _ Hwf) as Hr.
  assert (m' = put_window m f (<[Z.to_nat p := b]> (window m f))) as -> by (apply ring_byte; [exact Hwf | apply Hr]).
  destruct (put_window_wf m f (<[Z.to_nat p := b]> (window m f)) Hwf) as [Hwf' HW];
    [apply length_insert |].
  split; [exact Hwf' | split; [exact HW |]]. apply list_eq. intros i.
  destruct (Nat.lt_ge_cases i (Z.to_nat (used f * k_esize f))) as [Hi|Hi].
  - replace i with (Z.to_nat (Z.of_nat i)) by lia.
    rewrite !contents_lookup by (assumption || lia). rewrite HW.
    apply list_lookup_insert_ne. intros E. apply Z2Nat.inj in E; [|apply Hr..].
    apply bpos_inj in E; lia.
  - rewrite !lookup_ge_None_2; [reflexivity | rewrite contents_length by assumption; lia..].
Qed.

(** ** The invariant *)

Section Invariant.
Variables wbuf rbuf : Z.

Definition writer_inv (m : mem) (f : kfifo) (w : writer) : Prop :=
  match w with
  | WIdle => True
  | WSize buf len => buf = Ptr wbuf 0 /\ 0 <= len < W32 /\ valid_at m buf (len * k_esize f)
  | WPut val => val = Ptr wbuf 0 /\ valid_at m val (k_esize f)
  | WCopy todo buf len =>
      buf = Ptr wbuf 0 /\ 0 <= len <= capacity f - used f /\
      todo ⊆ in_move f buf <$> seqZ 0 (len * k_esize f) /\
      exists bs, load m buf (len * k_esize f) = Ok bs /\
        forall i, 0 <= i < len * k_esize f ->
          in_move f buf i ∈ todo \/
          window m f !! Z.to_nat (bpos f (used f * k_esize f + i)) = bs !! Z.to_nat i
  end.

Definition reader_inv (m : mem) (f : kfifo) (r : reader) : Prop :=
  match r with
  | RIdle => True
  | RSize buf len => buf = Ptr rbuf 0 /\ 0 <= len < W32 /\ valid_at m buf (len * k_esize f)
  | RGet val => val = Ptr rbuf 0 /\ valid_at m val (k_esize f)
  | RCopy todo buf len =>
      buf = Ptr rbuf 0 /\ 0 <= len <= used f /\
      todo ⊆ out_move f buf <$> seqZ 0 (len * k_esize f) /\
      exists bs, load m buf (len * k_esize f) = Ok bs /\
        forall i, 0 <= i < len * k_esize f ->
          out_move f buf i ∈ todo \/ bs !! Z.to_nat i = contents m f !! Z.to_nat i
  | RReset i => 0 <= i < W32 /\ i ⊟ k_out f <= used f
  end.

Definition log_bytes (l : list event) : list Z := concat (event_bytes <$> l).

Record inv (s : spsc) : Prop := {
  inv_wf : wf (s_mem s) (s_fifo s);
  inv_blocks : NoDup [wbuf; rbuf; blk (k_data (s_fifo s))];
  inv_writer : writer_inv (s_mem s) (s_fifo s) (s_writer s);
  inv_reader : reader_inv (s_mem s) (s_fifo s) (s_reader s);
  inv_stream : log_bytes (s_log s) ++ contents (s_mem s) (s_fifo s) = s_sent s
}.

Lemma log_bytes_app l e : log_bytes (l ++ [e]) = log_bytes l ++ event_bytes e.
Proof. unfold log_bytes. rewrite fmap_app, concat_app. cbn. now rewrite app_nil_r. Qed.

Lemma three_blocks (d : Z) : NoDup [wbuf; rbuf; d] -> wbuf <> rbuf /\ wbuf <> d /\ rbuf <> d.
Proof.
  intros H. apply list.NoDup_cons in H as [H1 H]. apply list.NoDup_cons in H as [H2 _].
  repeat split; intros ->; [apply H1 | apply H1 | apply H2]; repeat constructor.
Qed.

(** What a side relies on when the other side moves.  The writer does not mind
    the reader's buffer changing, nor the reader freeing space. *)
Lemma writer_only_block m m' f w b :
  only_block b m m' -> b <> wbuf -> b <> blk (k_data f) ->
  writer_inv m f w -> writer_inv m' f w.
Proof.
  intros Ho Hw Hd. destruct w as [|buf len|val|todo buf len]; cbn; [trivial | | |].
  - intros (-> & Hl & Hv). split; [reflexivity | split; [exact Hl |]].
    eapply valid_only_block; [exact Ho | cbn; congruence | exact Hv].
  - intros (-> & Hv). split; [reflexivity |].
    eapply valid_only_block; [exact Ho | cbn; congruence | exact Hv].
  - intros (-> & Hl & Ht & bs & Hld & H). do 3 (split; [trivial |]). exists bs.
    erewrite load_only_block by (exact Ho || (cbn; congruence)).
    erewrite window_only_block by eassumption. auto.
Qed.

Lemma writer_out m f w n :
  wf m f -> 0 <= n <= used f -> writer_inv m f w -> writer_inv m (set_out f (k_out f ⊞ n)) w.
Proof.
  intros Hwf Hn. pose proof (used_sub f n Hn) as Hu.
  destruct w as [|buf len|val|todo buf len]; cbn [writer_inv k_esize set_out]; [trivial.. |].
  assert (forall i, bpos (set_out f (k_out f ⊞ n)) (used (set_out f (k_out f ⊞ n)) * k_esize f + i)
            = bpos f (used f * k_esize f + i)) as Hb.
  { intros i. rewrite (bpos_out m), Hu by assumption. f_equal. lia. }
  assert (forall i, in_move (set_out f (k_out f ⊞ n)) buf i = in_move f buf i) as Hm.
  { intros i. unfold in_move. cbn [k_esize k_data set_out]. now rewrite Hb. }
  intros (-> & Hl & Ht & bs & Hld & H). split; [reflexivity |].
  change (capacity (set_out f _)) with (capacity f). rewrite Hu. split; [lia | split].
  - erewrite list_fmap_ext by (intros; apply Hm). exact Ht.
  - exists bs. split; [exact Hld |]. intros i Hi. rewrite Hm, <- Hu, Hb. exact (H i Hi).
Qed.

(** The reader does not mind bytes written outside its buffer and the queue,
    nor bytes appended to the queue. *)
Lemma reader_grow m m' f f' r b :
  only_block b m m' -> b <> rbuf -> same_buffer f f' -> k_out f' = k_out f ->
  used f <= used f' -> contents m f `prefix_of` contents m' f' -> wf m f ->
  reader_inv m f r -> reader_inv m' f' r.
Proof.
  intros Ho Hb (Hm & He & Hd) Hout Hu [ext Hc] Hwf.
  destruct r as [|buf len|val|todo buf len|i]; cbn; [trivial | | | |].
  - intros (-> & Hl & Hv). rewrite He. split; [reflexivity | split; [exact Hl |]].
    eapply valid_only_block; [exact Ho | cbn; congruence | exact Hv].
  - intros (-> & Hv). rewrite He. split; [reflexivity |].
    eapply valid_only_block; [exact Ho | cbn; congruence | exact Hv].
  - intros (-> & Hl & Ht & bs & Hld & H).
    assert (forall i, out_move f' (Ptr rbuf 0) i = out_move f (Ptr rbuf 0) i) as Hmv.
    { intros i. unfold out_move, bpos, nbytes, capacity. now rewrite Hm, He, Hd, Hout. }
    rewrite He. split; [reflexivity | split; [lia | split]].
    + erewrite list_fmap_ext by (intros; apply Hmv). exact Ht.
    + exists bs. erewrite load_only_block by (exact Ho || (cbn; congruence)).
      split; [exact Hld |]. intros i Hi. rewrite Hmv, Hc.
      destruct (H i Hi) as [Hin|E]; [now left | right]. rewrite E.
      rewrite lookup_app_l; [reflexivity |]. rewrite contents_length by assumption.
      pose proof (wf_esize _ _ Hwf). nia.
  - rewrite Hout. intros [Hi H]. split; [exact Hi | lia].
Qed.
(** *** Steps of the writer *)

Lemma insert_only_block b m bs : only_block b m (Mem (<[b := bs]> (blocks m)) (dyn m)).
Proof. split; [reflexivity |]. intros b' Hb. cbn. now rewrite lookup_insert_ne by congruence. Qed.

Lemma only_block_refl b m : only_block b m m.
Proof. now split. Qed.

Lemma contents_only_block m m' f b :
  only_block b m m' -> b <> blk (k_data f) -> contents m' f = contents m f.
Proof. intros Ho Hb. unfold contents. now erewrite window_only_block by eassumption. Qed.

(** A pending transfer of the writer goes through, and stores its byte. *)
Lemma writer_move m f todo buf len mv :
  wf m f -> wbuf <> blk (k_data f) -> writer_inv m f (WCopy todo buf len) -> mv ∈ todo ->
  exists j b bs, mv = in_move f buf j /\ 0 <= j < len * k_esize f /\
    load m buf (len * k_esize f) = Ok bs /\ bs !! Z.to_nat j = Some b /\
    move_byte m mv = Ok (put_bytes m mv.1 [b]).
Proof.
  intros Hwf Hne (-> & Hl & Ht & bs & Hld & H) Hin.
  apply Ht, elem_of_moves in Hin as (j & -> & Hj).
  destruct (load_byte _ _ _ _ j Hld Hj) as (b & Hb & Hlb).
  exists j, b, bs. do 4 (split; [trivial |]). cbn [fst].
  apply memcpy_put; [exact Hlb | cbn; congruence |].
  pose proof (bpos_range _ _ Hwf (used f * k_esize f + j)) as Hp. unfold nbytes in Hp.
  destruct (valid_split _ _ _ (bpos f (used f * k_esize f + j)) (data_valid _ _ Hwf)) as [_ Hv]; [lia |].
  destruct (valid_split _ _ _ 1 Hv) as [Hv1 _]; [lia | exact Hv1].
Qed.

(** All transfers of [n] elements are pending. *)
Lemma writer_start m f val n :
  wf m f -> val = Ptr wbuf 0 -> 0 <= n <= capacity f - used f -> valid_at m val (n * k_esize f) ->
  writer_inv m f (WCopy (in_move f val <$> seqZ 0 (n * k_esize f)) val n).
Proof.
  intros Hwf -> Hn Hv. cbn [writer_inv]. split; [reflexivity | split; [exact Hn | split; [easy |]]].
  destruct (load_valid _ _ _ Hv) as [bs Hld]. exists bs. split; [exact Hld |].
  intros i Hi. left. apply elem_of_moves. eauto.
Qed.

Lemma writer_size_inv m f buf len :
  wf m f -> writer_inv m f (WSize buf len) ->
  let l := kfifo_unused f in
  let n := if l <? len then l else len in
  writer_inv m f (WCopy (copy_in_moves f buf n (k_in f)) buf n).
Proof.
  intros Hwf (-> & Hlen & Hv) l n. pose proof (wf_used _ _ Hwf). pose proof (wf_esize _ _ Hwf).
  pose proof (used_nonneg f) as Hu0.
  assert (0 <= n <= capacity f - used f /\ n <= len) as [Hn Hnl].
  { subst n l. rewrite (unused_eq m) by assumption. ztest; lia. }
  rewrite (copy_in_moves_eq m) by (assumption || lia).
  destruct (valid_split _ _ _ (n * k_esize f) Hv) as [Hv' _]; [nia |]. now apply writer_start.
Qed.

Lemma writer_put_inv m f val :
  wf m f -> kfifo_is_full f = false -> writer_inv m f (WPut val) -> writer_inv m f (WCopy (put_moves f val) val 1).
Proof.
  intros Hwf Hf (Hv & Hval). pose proof (wf_used _ _ Hwf). rewrite (full_iff m f Hwf) in Hf. apply Z.eqb_neq in Hf.
  rewrite (put_moves_eq m) by assumption. apply writer_start; [assumption.. | lia | now rewrite Z.mul_1_l].
Qed.

(** The transfer just done is done, the others are as they were. *)
Lemma writer_byte_inv m f t1 mv t2 buf len b :
  wf m f -> wbuf <> blk (k_data f) -> writer_inv m f (WCopy (t1 ++ mv :: t2) buf len) ->
  move_byte m mv = Ok (put_bytes m mv.1 [b]) ->
  wf (put_bytes m mv.1 [b]) f /\ contents (put_bytes m mv.1 [b]) f = contents m f /\
  writer_inv (put_bytes m mv.1 [b]) f (WCopy (t1 ++ t2) buf len).
Proof.
  intros Hwf Hne Hw Hmv. pose proof (wf_esize _ _ Hwf) as He.
  destruct (writer_move m f _ buf len mv Hwf Hne Hw) as (j & b' & bs' & -> & Hj & Hld' & Hb & Hok);
    [set_solver |].
  destruct Hw as (-> & Hl & Ht & bs & Hld & H).
  rewrite Hld in Hld'. injection Hld' as <-.
  assert (put_bytes m (in_move f (Ptr wbuf 0) j).1 [b] = put_bytes m (in_move f (Ptr wbuf 0) j).1 [b']) as ->
    by congruence.
  cbn [in_move fst] in *.
  destruct (free_byte m f j b') as (Hwf' & HW & Hc); [assumption | lia | unfold nbytes; nia |].
  split; [exact Hwf' | split; [exact Hc |]].
  split; [reflexivity | split; [exact Hl | split; [set_solver |]]].
  exists bs. rewrite load_put_other by (cbn; congruence). split; [exact Hld |].
  intros i Hi. rewrite HW. destruct (Z.eq_dec i j) as [->|Hij].
  - right. rewrite list_lookup_insert_eq; [now rewrite Hb |].
    rewrite (window_length _ _ Hwf). pose proof (bpos_range _ _ Hwf (used f * k_esize f + j)).
    unfold nbytes in *. lia.
  - destruct (H i Hi) as [Hin|E].
    + left. assert (in_move f (Ptr wbuf 0) i <> in_move f (Ptr wbuf 0) j) as Hd
        by (unfold in_move, padd; cbn; intros [= _ E]; lia).
      clear - Hin Hd. unfold in_move in *. set_solver.
    + right. rewrite list_lookup_insert_ne; [exact E |]. intros E'.
      apply Z2Nat.inj in E'; [|apply (bpos_range _ _ Hwf)..].
      apply bpos_inj in E'; pose proof (used_bytes _ _ Hwf); unfold nbytes in *; nia.
Qed.

(** With no transfer left, advancing [in] appends the buffer. *)
Lemma writer_publish_inv m f buf len :
  wf m f -> writer_inv m f (WCopy [] buf len) ->
  let f' := set_in f (k_in f ⊞ len) in
  wf m f' /\ used f' = used f + len /\
  contents m f' = contents m f ++ bytes_at m buf (len * k_esize f).
Proof.
  intros Hwf (-> & Hl & _ & bs & Hld & H) f'. pose proof (wf_esize _ _ Hwf) as He.
  pose proof (used_nonneg f) as Hu0. pose proof (wf_cap _ _ Hwf) as Hcap.
  pose proof (used_bytes _ _ Hwf) as Hub. pose proof (load_length _ _ _ _ Hld) as Hlen.
  assert (used f' = used f + len) as Hu by (apply used_add; lia).
  assert (wf m f') as Hwf'.
  { eapply wf_move; [exact Hwf | now repeat split | apply u32_range | apply (wf_out _ _ Hwf) | lia]. }
  split; [exact Hwf' | split; [exact Hu |]]. unfold bytes_at. rewrite Hld.
  apply list_eq. intros k. rewrite lookup_app_dec, contents_length by assumption.
  destruct (Nat.lt_ge_cases k (Z.to_nat ((used f + len) * k_esize f))) as [Hk|Hk].
  - replace k with (Z.to_nat (Z.of_nat k)) at 1 by lia.
    rewrite contents_lookup by (try assumption; rewrite Hu; cbn [k_esize set_in f']; lia).
    change (window m f') with (window m f). change (bpos f' (Z.of_nat k)) with (bpos f (Z.of_nat k)).
    case_decide.
    + rewrite <- contents_lookup by (assumption || lia). f_equal. lia.
    + destruct (H (Z.of_nat k - used f * k_esize f)) as [Hin|E]; [lia | now apply not_elem_of_nil in Hin |].
      replace (_ + (_ - _)) with (Z.of_nat k) in E by lia. rewrite E. f_equal. lia.
  - rewrite decide_False by nia.
    rewrite !lookup_ge_None_2; [reflexivity | rewrite Hlen; nia |].
    rewrite contents_length, Hu by assumption. cbn [k_esize set_in f']. lia.
Qed.

Lemma filled_valid b m bs n : 0 <= n <= zlen bs -> valid_at (Mem (<[b := bs]> (blocks m)) (dyn m)) (Ptr b 0) n.
Proof. intros Hn. exists bs. cbn. rewrite lookup_insert_eq. split; [reflexivity |]. apply in_bounds_iff. lia. Qed.

(** Filling the private buffer and starting a call. *)
Lemma writer_fills m f w w' r se lg bs :
  inv (Spsc m f w r se lg) -> writer_inv (Mem (<[wbuf := bs]> (blocks m)) (dyn m)) f w' ->
  inv (Spsc (Mem (<[wbuf := bs]> (blocks m)) (dyn m)) f w' r se lg).
Proof.
  intros [Hwf Hnd _ Hr Hs] Hw. pose proof (three_blocks _ Hnd) as (Hwr & Hwd & Hrd). cbn in *.
  pose proof (insert_only_block wbuf m bs) as Ho. pose proof (contents_only_block _ _ _ _ Ho Hwd) as Hc.
  split; cbn; [exact (wf_only_block _ _ _ _ Ho Hwd Hwf) | exact Hnd | exact Hw | | now rewrite Hc].
  eapply reader_grow; [exact Ho | exact Hwr | apply same_buffer_refl | reflexivity | lia
    | now rewrite Hc | exact Hwf | exact Hr].
Qed.

Lemma wstep_inv s s' : inv s -> wstep wbuf s s' -> inv s'.
Proof.
  intros [Hwf Hnd Hw Hr Hs] Hstep. pose proof (three_blocks _ Hnd) as (Hwr & Hwd & Hrd).
  destruct Hstep as [m f r se lg bs len Hlen Hbs | m f r se lg buf len l n | m f r se lg bs Hbs
                    | m f r se lg val Hf | m f r se lg val Hf
                    | m m' f r se lg t1 mv t2 buf len Hmv | m f r se lg buf len]; cbn in *.
  - pose proof (wf_esize _ _ Hwf). apply (writer_fills m f WIdle); [split; cbn; assumption |]. cbn.
    split; [reflexivity | split; [exact Hlen |]]. apply filled_valid; nia.
  - split; cbn; try assumption. exact (writer_size_inv m f buf len Hwf Hw).
  - pose proof (wf_esize _ _ Hwf). apply (writer_fills m f WIdle); [split; cbn; assumption |]. cbn.
    split; [reflexivity |]. apply filled_valid; lia.
  - split; cbn; trivial.
  - split; cbn; try assumption. exact (writer_put_inv m f val Hwf Hf Hw).
  - destruct (writer_move m f _ buf len mv Hwf Hwd Hw) as (j & b & bs & Ej & _ & _ & _ & E);
      [set_solver |].
    destruct (writer_byte_inv m f t1 mv t2 buf len b) as (Hwf' & Hc & Hw'); try assumption.
    rewrite E in Hmv. injection Hmv as <-.
    pose proof (put_bytes_only m mv.1 [b]) as Ho.
    replace (blk mv.1) with (blk (k_data f)) in Ho by now rewrite Ej.
    split; cbn; [exact Hwf' | exact Hnd | exact Hw' | | now rewrite Hc].
    eapply reader_grow; [exact Ho | congruence | apply same_buffer_refl | reflexivity | lia
      | now rewrite Hc | exact Hwf | exact Hr].
  - destruct (writer_publish_inv m f buf len Hwf Hw) as (Hwf' & Hu & Hc).
    destruct Hw as (_ & Hl & _).
    split; cbn; [exact Hwf' | exact Hnd | trivial | | rewrite Hc, app_assoc; now f_equal].
    eapply (reader_grow m m f); [apply (only_block_refl (blk (k_data f)) m) | congruence
      | now repeat split | reflexivity | lia | rewrite Hc; now eexists | exact Hwf | exact Hr].
Qed.

(** *** Steps of the reader *)

Lemma reader_move m f todo buf len mv :
  wf m f -> rbuf <> blk (k_data f) -> reader_inv m f (RCopy todo buf len) -> mv ∈ todo ->
  exists j b, mv = out_move f buf j /\ 0 <= j < len * k_esize f /\
    contents m f !! Z.to_nat j = Some b /\
    move_byte m mv = Ok (put_bytes m mv.1 [b]).
Proof.
  intros Hwf Hne (-> & Hl & Ht & bs & Hld & H) Hin. pose proof (wf_esize _ _ Hwf) as He.
  apply Ht, elem_of_moves in Hin as (j & -> & Hj).
  assert (0 <= j < used f * k_esize f) as Hj' by nia.
  destruct (load_byte _ _ _ _ (bpos f j) (load_data _ _ Hwf) (bpos_range _ _ Hwf j)) as (b & Hb & Hlb).
  exists j, b. do 2 (split; [trivial |]). rewrite contents_lookup by assumption.
  split; [exact Hb |]. cbn [fst].
  apply memcpy_put; [exact Hlb | cbn; congruence |].
  destruct (load_inv _ _ _ _ Hld) as (D & HD & HbD & _).
  destruct (valid_split m (Ptr rbuf 0) (len * k_esize f) j) as [_ Hv]; [now exists D | lia |].
  destruct (valid_split _ _ _ 1 Hv) as [Hv1 _]; [lia | exact Hv1].
Qed.

Lemma reader_start m f val n :
  wf m f -> val = Ptr rbuf 0 -> 0 <= n <= used f -> valid_at m val (n * k_esize f) ->
  reader_inv m f (RCopy (out_move f val <$> seqZ 0 (n * k_esize f)) val n).
Proof.
  intros Hwf -> Hn Hv. cbn [reader_inv]. split; [reflexivity | split; [exact Hn | split; [easy |]]].
  destruct (load_valid _ _ _ Hv) as [bs Hld]. exists bs. split; [exact Hld |].
  intros i Hi. left. apply elem_of_moves. eauto.
Qed.

Lemma reader_size_inv m f buf len :
  wf m f -> reader_inv m f (RSize buf len) ->
  let l := k_in f ⊟ k_out f in
  let n := if l <? len then l else len in
  reader_inv m f (RCopy (copy_out_moves f buf n (k_out f)) buf n).
Proof.
  intros Hwf (-> & Hlen & Hv) l n. pose proof (wf_used _ _ Hwf). pose proof (wf_esize _ _ Hwf).
  pose proof (used_nonneg f) as Hu0. change l with (used f) in n.
  assert (0 <= n <= used f /\ n <= len) as [Hn Hnl] by (subst n; ztest; lia).
  rewrite (copy_out_moves_eq m) by (assumption || lia).
  destruct (valid_split _ _ _ (n * k_esize f) Hv) as [Hv' _]; [nia |]. now apply reader_start.
Qed.

Lemma reader_get_inv m f val :
  wf m f -> kfifo_is_empty f = false -> reader_inv m f (RGet val) -> reader_inv m f (RCopy (get_moves f val) val 1).
Proof.
  intros Hwf Hf (Hv & Hval). pose proof (used_nonneg f). unfold kfifo_is_empty in Hf.
  rewrite (empty_iff m f Hwf) in Hf. apply Z.eqb_neq in Hf.
  rewrite (get_moves_eq m) by assumption. apply reader_start; [assumption.. | lia | now rewrite Z.mul_1_l].
Qed.

Lemma reader_byte_inv m f t1 mv t2 buf len b :
  wf m f -> rbuf <> blk (k_data f) -> reader_inv m f (RCopy (t1 ++ mv :: t2) buf len) ->
  move_byte m mv = Ok (put_bytes m mv.1 [b]) ->
  only_block rbuf m (put_bytes m mv.1 [b]) /\
  reader_inv (put_bytes m mv.1 [b]) f (RCopy (t1 ++ t2) buf len).
Proof.
  intros Hwf Hne Hr Hmv.
  destruct (reader_move m f _ buf len mv Hwf Hne Hr) as (j & b' & -> & Hj & Hb & Hok);
    [set_solver |].
  destruct Hr as (-> & Hl & Ht & bs & Hld & H).
  assert (put_bytes m (out_move f (Ptr rbuf 0) j).1 [b] = put_bytes m (out_move f (Ptr rbuf 0) j).1 [b']) as ->
    by congruence.
  pose proof (put_bytes_only m (out_move f (Ptr rbuf 0) j).1 [b']) as Ho.
  cbn [out_move fst blk padd] in *. split; [exact Ho |].
  split; [reflexivity | split; [exact Hl | split; [set_solver |]]].
  exists (<[Z.to_nat j := b']> bs). split; [now apply load_after_byte |].
  erewrite contents_only_block by (exact Ho || exact Hne).
  pose proof (load_length _ _ _ _ Hld) as Hlen. intros i Hi.
  destruct (Z.eq_dec i j) as [->|Hij].
  - right. rewrite list_lookup_insert_eq; [now rewrite Hb | lia].
  - rewrite list_lookup_insert_ne by lia. destruct (H i Hi) as [Hin|E]; [left | now right].
    assert (out_move f (Ptr rbuf 0) i <> out_move f (Ptr rbuf 0) j) as Hd
      by (unfold out_move, padd; cbn; intros [= E _]; lia).
    clear - Hin Hd. unfold out_move in *. set_solver.
Qed.

(** With no transfer left, the buffer holds the front of the queue. *)
Lemma reader_publish_bytes m f buf len :
  wf m f -> reader_inv m f (RCopy [] buf len) ->
  bytes_at m buf (len * k_esize f) = take (Z.to_nat (len * k_esize f)) (contents m f).
Proof.
  intros Hwf (-> & Hl & _ & bs & Hld & H). unfold bytes_at. rewrite Hld.
  pose proof (load_length _ _ _ _ Hld) as Hlen. apply list_eq. intros k.
  destruct (Nat.lt_ge_cases k (Z.to_nat (len * k_esize f))) as [Hk|Hk].
  - rewrite lookup_take_lt by lia. destruct (H (Z.of_nat k)) as [Hin|E]; [lia | now apply not_elem_of_nil in Hin |].
    now rewrite Nat2Z.id in E.
  - rewrite !lookup_ge_None_2; [reflexivity | rewrite length_take; lia | lia].
Qed.

(** Moving [out] forward over [n] elements, as publishing and resetting do. *)
Lemma pop_inv m f w se lg e n :
  inv (Spsc m f w RIdle se lg) ->
  0 <= n <= used f -> event_bytes e = take (Z.to_nat (n * k_esize f)) (contents m f) ->
  inv (Spsc m (set_out f (k_out f ⊞ n)) w RIdle se (lg ++ [e])).
Proof.
  intros [Hwf Hnd Hw _ Hs] Hn He. cbn [s_mem s_fifo s_writer s_reader s_log s_sent] in *.
  destruct (pop_contents m f n Hwf Hn) as [Hwf' Hc].
  split; cbn [s_mem s_fifo s_writer s_reader s_log s_sent]; [exact Hwf' | exact Hnd | now apply writer_out | exact I |].
  rewrite log_bytes_app, He, Hc, <- app_assoc, take_drop. exact Hs.
Qed.

Lemma reader_fills m f w r r' se lg D :
  inv (Spsc m f w r se lg) -> reader_inv (Mem (<[rbuf := D]> (blocks m)) (dyn m)) f r' ->
  inv (Spsc (Mem (<[rbuf := D]> (blocks m)) (dyn m)) f w r' se lg).
Proof.
  intros [Hwf Hnd Hw _ Hs] Hr. pose proof (three_blocks _ Hnd) as (Hwr & Hwd & Hrd). cbn in *.
  pose proof (insert_only_block rbuf m D) as Ho.
  split; cbn; [exact (wf_only_block _ _ _ _ Ho Hrd Hwf) | exact Hnd | | exact Hr |
    now rewrite (contents_only_block _ _ _ _ Ho Hrd)].
  eapply writer_only_block; [exact Ho | congruence | exact Hrd | exact Hw].
Qed.

Lemma rstep_inv s s' : inv s -> rstep rbuf s s' -> inv s'.
Proof.
  intros [Hwf Hnd Hw Hr Hs] Hstep. pose proof (three_blocks _ Hnd) as (Hwr & Hwd & Hrd).
  destruct Hstep as [m f w se lg D len Hlen HD | m f w se lg buf len l n | m f w se lg D HD
                    | m f w se lg val Hf | m f w se lg val Hf
                    | m m' f w se lg t1 mv t2 buf len Hmv | m f w se lg buf len
                    | m f w se lg | m f w se lg i]; cbn in *.
  - pose proof (wf_esize _ _ Hwf). apply (reader_fills m f w RIdle); [split; cbn; assumption |]. cbn.
    split; [reflexivity | split; [exact Hlen |]]. apply filled_valid; nia.
  - split; cbn; try assumption. exact (reader_size_inv m f buf len Hwf Hr).
  - pose proof (wf_esize _ _ Hwf). apply (reader_fills m f w RIdle); [split; cbn; assumption |]. cbn.
    split; [reflexivity |]. apply filled_valid; lia.
  - split; cbn; trivial.
  - split; cbn; try assumption. exact (reader_get_inv m f val Hwf Hf Hr).
  - destruct (reader_move m f _ buf len mv Hwf Hrd Hr) as (j & b & _ & _ & _ & E); [set_solver |].
    destruct (reader_byte_inv m f t1 mv t2 buf len b) as (Ho & Hr'); try assumption.
    rewrite E in Hmv. injection Hmv as <-.
    split; cbn; [exact (wf_only_block _ _ _ _ Ho Hrd Hwf) | exact Hnd | | exact Hr' |
      now rewrite (contents_only_block _ _ _ _ Ho Hrd)].
    eapply writer_only_block; [exact Ho | congruence | exact Hrd | exact Hw].
  - apply pop_inv; [split; cbn; trivial | apply Hr | exact (reader_publish_bytes m f buf len Hwf Hr)].
  - split; cbn; try assumption. split; [apply (wf_in _ _ Hwf) | unfold used; lia].
  - destruct Hr as [Hi Hu]. pose proof (u32_range (i - k_out f)).
    replace (set_out f i) with (set_out f (k_out f ⊞ (i ⊟ k_out f)))
      by (f_equal; rewrite u32_add_r; replace (k_out f + (i - k_out f)) with i by lia; now apply u32_small).
    apply pop_inv; [split; cbn; trivial | lia | reflexivity].
Qed.

Lemma initial_inv s : initial wbuf rbuf s -> inv s.
Proof.
  intros (Hwf & Hw & Hr & Hs & Hl & Hnd). split; try assumption.
  - now rewrite Hw.
  - now rewrite Hr.
  - now rewrite Hl, Hs.
Qed.

Lemma reachable_inv s : reachable wbuf rbuf s -> inv s.
Proof.
  intros (s0 & H0 & Hrun). apply initial_inv in H0.
  induction Hrun as [|s s1 s2 Hs _ IH]; [exact H0 |]. apply IH.
  destruct Hs; [eapply wstep_inv | eapply rstep_inv]; eassumption.
Qed.

End Invariant.

(** ** A call that nobody disturbs *)

Fixpoint run_moves (m : mem) (todo : list move) : res mem :=
  match todo with
  | [] => Ok m
  | mv :: todo => let! m := move_byte m mv in run_moves m todo
  end.

Lemma run_moves_app m t1 t2 :
  run_moves m (t1 ++ t2) = let! m := run_moves m t1 in run_moves m t2.
Proof.
  revert m. induction t1 as [|mv t1 IH]; intros m; cbn; [reflexivity |].
  destruct (move_byte m mv); cbn; [apply IH | reflexivity].
Qed.

Lemma memcpy_inv m d s n m' :
  memcpy m d s n = Ok m' ->
  exists bs, load m s n = Ok bs /\ valid_at m d n /\ m' = put_bytes m d bs.
Proof.
  unfold memcpy. intros H. res_inv. pose proof (load_nonneg _ _ _ _ E) as Hn.
  pose proof (load_length _ _ _ _ E) as Hl. eexists. split; [reflexivity |].
  unfold store in H. destruct (blocks m !! blk d) as [D|] eqn:HD; [|discriminate].
  res_inv. apply defined_if_ok in E1. unfold zlen in E1. rewrite Hl, Z2Nat.id in E1 by lia.
  split; [now exists D |]. unfold put_bytes. now rewrite HD.
Qed.

(** Byte after byte is [memcpy], between different blocks. *)
Lemma run_memcpy m d s n m' :
  blk d <> blk s -> memcpy m d s n = Ok m' -> run_moves m (memcpy_moves d s n) = Ok m'.
Proof.
  intros Hne (bs & Hld & Hv & ->)%memcpy_inv. pose proof (load_nonneg _ _ _ _ Hld) as Hn.
  revert bs Hld Hv. pattern n. apply natlike_ind; [| |exact Hn]; clear n Hn.
  - intros bs Hld Hv. pose proof (load_length _ _ _ _ Hld) as Hl. apply length_zero_iff_nil in Hl as ->.
    cbn. destruct Hv as (B & HB & _). unfold put_bytes. rewrite HB, write_at_nil, insert_id by assumption.
    now destruct m.
  - intros n Hn IH bs Hld Hv. pose proof (load_length _ _ _ _ Hld) as Hl.
    unfold memcpy_moves. replace (seqZ 0 (Z.succ n)) with (seqZ 0 n ++ [n])
      by (replace (Z.succ n) with (Z.of_nat (S (Z.to_nat n))) by lia; rewrite seqZ_S;
          f_equal; [f_equal; lia | f_equal; lia]).
    rewrite fmap_app, run_moves_app. fold (memcpy_moves d s n).
    destruct (load_split _ _ _ _ n Hld) as [H1 H2]; [lia |].
    destruct (valid_split _ _ _ n Hv) as [V1 V2]; [lia |].
    rewrite (IH _ H1 V1). cbn [rbind fmap list_fmap run_moves move_byte fst snd].
    replace (Z.succ n - n) with 1 in H2, V2 by lia. unfold move_byte. cbn [fst snd].
    assert (zlen (take (Z.to_nat n) bs) = n) as Hz by (unfold zlen; rewrite length_take; lia).
    erewrite memcpy_put; [|rewrite load_put_other by (cbn; congruence); exact H2 | cbn; congruence
      | apply valid_put; [now rewrite Hz | exact V2]].
    cbn [rbind run_moves]. f_equal. rewrite <- Hz at 2.
    rewrite put_bytes_app, take_drop; [reflexivity |].
    replace (_ + _) with (Z.succ n); [exact Hv |]. unfold zlen. rewrite length_take, length_drop. lia.
Qed.

Lemma run_copy_in m f src len off m' :
  blk src <> blk (k_data f) -> kfifo_copy_in m f src len off = Ok m' ->
  run_moves m (copy_in_moves f src len off) = Ok m'.
Proof.
  intros Hne. unfold kfifo_copy_in, copy_in_moves. destruct (kfifo_span f len off) as [[o n] l].
  intros H. res_inv. rewrite run_moves_app, (run_memcpy _ (padd (k_data f) o) _ _ _ (not_eq_sym Hne) E). cbn [rbind].
  apply run_memcpy; [now apply not_eq_sym | exact H].
Qed.

Lemma run_copy_out m f dst len off m' :
  blk dst <> blk (k_data f) -> kfifo_copy_out m f dst len off = Ok m' ->
  run_moves m (copy_out_moves f dst len off) = Ok m'.
Proof.
  intros Hne. unfold kfifo_copy_out, copy_out_moves. destruct (kfifo_span f len off) as [[o n] l].
  intros H. res_inv. rewrite run_moves_app, (run_memcpy _ _ (padd (k_data f) o) _ _ Hne E). cbn [rbind].
  apply run_memcpy; [exact Hne | exact H].
Qed.

Section Alone.
Variables wbuf rbuf : Z.

Lemma writer_runs m m' f todo buf len r se lg :
  run_moves m todo = Ok m' ->
  rtc (wstep wbuf) (Spsc m f (WCopy todo buf len) r se lg) (Spsc m' f (WCopy [] buf len) r se lg).
Proof.
  revert m. induction todo as [|mv todo IH]; intros m H; cbn in H.
  - injection H as ->. apply rtc_refl.
  - res_inv. eapply rtc_l; [|exact (IH _ H)]. exact (W_byte wbuf m _ f r se lg [] mv todo buf len E).
Qed.

Lemma reader_runs m m' f w todo buf len se lg :
  run_moves m todo = Ok m' ->
  rtc (rstep rbuf) (Spsc m f w (RCopy todo buf len) se lg) (Spsc m' f w (RCopy [] buf len) se lg).
Proof.
  revert m. induction todo as [|mv todo IH]; intros m H; cbn in H.
  - injection H as ->. apply rtc_refl.
  - res_inv. eapply rtc_l; [|exact (IH _ H)]. exact (R_byte rbuf m _ f w se lg [] mv todo buf len E).
Qed.

Lemma writer_alone m f buf len r se lg :
  wf m f -> wbuf <> blk (k_data f) -> writer_inv wbuf m f (WSize buf len) ->
  exists m' f' n bs, __kfifo_in m f buf len = Ok (m', f', n) /\
    rtc (wstep wbuf) (Spsc m f (WSize buf len) r se lg) (Spsc m' f' WIdle r (se ++ bs) lg).
Proof.
  intros Hwf Hne Hw. pose proof (wf_esize _ _ Hwf). pose proof (wf_used _ _ Hwf).
  pose proof Hw as (Hb & Hlen & Hv).
  destruct (valid_split _ _ _ (Z.min len (capacity f - used f) * k_esize f) Hv) as [Hv' _]; [nia |].
  destruct (load_valid _ _ _ Hv') as [bs Hld].
  destruct (in_ok m f buf len bs Hwf) as (m' & E & _); [lia | split; [now rewrite Hb | exact Hld] |].
  unfold __kfifo_in in E |- *. set (n := if _ <? _ then _ else _) in *.
  destruct (kfifo_copy_in m f buf n (k_in f)) as [m1|] eqn:Ec; [|discriminate].
  eexists m1, _, n, (bytes_at m1 buf (n * k_esize f)). split; [reflexivity |].
  eapply rtc_l; [apply W_size |]. fold n.
  etrans; [apply writer_runs, run_copy_in; [now rewrite Hb | exact Ec] |].
  apply rtc_once, W_publish.
Qed.

(** [kfifo_put] and [kfifo_get] on a fifo of elements. *)
Lemma put_alone (t : ftype) m f val r se lg :
  wf m f -> typed t f -> t_recsize t = 0 -> wbuf <> blk (k_data f) -> writer_inv wbuf m f (WPut val) ->
  exists m' f' n bs, kfifo_put t m f val = Ok (m', f', n) /\
    rtc (wstep wbuf) (Spsc m f (WPut val) r se lg) (Spsc m' f' WIdle r (se ++ bs) lg).
Proof.
  intros Hwf [Ht Hd] Hr Hne (-> & Hv). unfold kfifo_put. rewrite Hr, Hd, <- Ht. cbn [truthy Z.eqb negb].
  destruct (kfifo_is_full f) eqn:Ef; cbn [negb b2z truthy Z.eqb].
  { eexists _, _, _, []. split; [reflexivity |]. rewrite app_nil_r. now apply rtc_once, W_put_full. }
  destruct (load_valid _ _ _ Hv) as [bs Hld]. destruct (element_valid m f Hwf (k_in f)) as [Hve _].
  pose proof (memcpy_put m (padd (k_data f) ((k_in f .& k_mask f) * k_esize f)) (Ptr wbuf 0) (k_esize f) bs) as E.
  rewrite E; [|exact Hld | cbn; congruence | now rewrite (wf_and_mask _ _ Hwf)]. cbn [rbind].
  eexists _, _, _, _. split; [reflexivity |]. eapply rtc_l; [now apply W_put |].
  etrans; [apply writer_runs, run_memcpy; [cbn; congruence |] | apply rtc_once, W_publish].
  apply E; [exact Hld | cbn; congruence | now rewrite (wf_and_mask _ _ Hwf)].
Qed.

Lemma get_alone (t : ftype) m f w val se lg :
  wf m f -> typed t f -> t_recsize t = 0 -> rbuf <> blk (k_data f) -> reader_inv rbuf m f (RGet val) ->
  exists m' f' n ev, kfifo_get t m f val = Ok (m', f', n) /\
    rtc (rstep rbuf) (Spsc m f w (RGet val) se lg) (Spsc m' f' w RIdle se (lg ++ ev)).
Proof.
  intros Hwf [Ht Hd] Hr Hne (-> & Hv). unfold kfifo_get. rewrite Hr, Hd, <- Ht. cbn [truthy Z.eqb negb].
  destruct (kfifo_is_empty f) eqn:Ef; cbn [negb b2z truthy Z.eqb].
  { eexists _, _, _, []. split; [reflexivity |]. rewrite app_nil_r. now apply rtc_once, R_get_empty. }
  destruct (element_valid m f Hwf (k_out f)) as [Hve _]. destruct (load_valid _ _ _ Hve) as [bs Hld].
  rewrite <- (wf_and_mask _ _ Hwf) in Hld.
  pose proof (memcpy_put m (Ptr rbuf 0) (padd (k_data f) ((k_out f .& k_mask f) * k_esize f)) (k_esize f) bs) as E.
  rewrite E by (assumption || (cbn; congruence)). cbn [rbind].
  eexists _, _, _, _. split; [reflexivity |]. eapply rtc_l; [now apply R_get |].
  etrans; [apply reader_runs, run_memcpy; [cbn; congruence |] | apply rtc_once, R_publish].
  apply E; assumption || (cbn; congruence).
Qed.

Lemma reader_alone m f w buf len se lg :
  wf m f -> rbuf <> blk (k_data f) -> reader_inv rbuf m f (RSize buf len) ->
  exists m' f' n bs, __kfifo_out m f buf len = Ok (m', f', n) /\
    rtc (rstep rbuf) (Spsc m f w (RSize buf len) se lg) (Spsc m' f' w RIdle se (lg ++ [Took bs])).
Proof.
  intros Hwf Hne Hr. pose proof (wf_esize _ _ Hwf). pose proof (used_nonneg f).
  pose proof Hr as (Hb & Hlen & Hv).
  destruct (valid_split _ _ _ (Z.min len (used f) * k_esize f) Hv) as [Hv' _]; [nia |].
  destruct (out_ok m f buf len Hwf) as (m' & E & _); [lia | split; [now rewrite Hb | exact Hv'] |].
  unfold __kfifo_out, __kfifo_out_peek in E |- *. set (n := if _ <? _ then _ else _) in *.
  destruct (kfifo_copy_out m f buf n (k_out f)) as [m1|] eqn:Ec; [|discriminate].
  eexists m1, _, n, (bytes_at m1 buf (n * k_esize f)). split; [reflexivity |].
  eapply rtc_l; [apply R_size |]. fold n.
  etrans; [apply reader_runs, run_copy_out; [now rewrite Hb | exact Ec] |].
  apply rtc_once, R_publish.
Qed.
End Alone.

(** ** Theorems *)

Definition writer_todo (w : writer) : list move :=
  match w with WCopy todo _ _ => todo | _ => [] end.
Definition reader_todo (r : reader) : list move :=
  match r with RCopy todo _ _ => todo | _ => [] end.

(** No byte to be written is one to be read. *)
Lemma no_collision wbuf rbuf s :
  inv wbuf rbuf s ->
  forall mw mr, mw ∈ writer_todo (s_writer s) -> mr ∈ reader_todo (s_reader s) -> mw.1 <> mr.2.
Proof.
  intros [Hwf _ Hw Hr _]. destruct s as [m f w r se lg]. cbn in *. intros mw mr Hmw Hmr.
  destruct w as [| | |tw bw nw]; cbn in Hmw; [now apply not_elem_of_nil in Hmw.. |].
  destruct r as [| | |tr br nr|]; cbn in Hmr; try (now apply not_elem_of_nil in Hmr).
  destruct Hw as (_ & Hl & Ht & _), Hr as (_ & Hl' & Ht' & _).
  apply Ht, elem_of_moves in Hmw as (i & -> & Hi). apply Ht', elem_of_moves in Hmr as (j & -> & Hj).
  cbn. unfold padd. intros [= E]. pose proof (wf_esize _ _ Hwf). pose proof (used_nonneg f).
  assert (bpos f (used f * k_esize f + i) = bpos f j) as E' by lia.
  apply bpos_inj in E'; unfold nbytes; nia.
Qed.

(** C5: No lock is needed for one writer and one reader.  In every state that any
    interleaving of their byte transfers and index updates reaches, the fifo is
    well-formed; what the reader received and what it skipped, in order,
    followed by the queue, is exactly the stream the writer published; and no
    byte the writer still has to write is one the reader still has to read. *)
Theorem spsc_stream wbuf rbuf s :
  reachable wbuf rbuf s ->
  wf (s_mem s) (s_fifo s) /\
  concat (event_bytes <$> s_log s) ++ contents (s_mem s) (s_fifo s) = s_sent s /\
  forall mw mr, mw ∈ writer_todo (s_writer s) -> mr ∈ reader_todo (s_reader s) -> mw.1 <> mr.2.
Proof.
  intros H%reachable_inv. split; [exact (inv_wf _ _ _ H) | split; [exact (inv_stream _ _ _ H) |]].
  exact (no_collision _ _ _ H).
Qed.

(** Own steps a call still needs. *)
Definition writer_work (s : spsc) : nat :=
  match s_writer s with
  | WIdle => 0
  | WSize _ _ | WPut _ => Z.to_nat (nbytes (s_fifo s)) + 2
  | WCopy todo _ _ => length todo + 1
  end.
Definition reader_work (s : spsc) : nat :=
  match s_reader s with
  | RIdle => 0
  | RSize _ _ | RGet _ => Z.to_nat (nbytes (s_fifo s)) + 2
  | RCopy todo _ _ => length todo + 1
  | RReset _ => 1
  end.

Lemma writer_progress wbuf rbuf s :
  inv wbuf rbuf s -> s_writer s <> WIdle ->
  (exists s', wstep wbuf s s') /\ forall s', wstep wbuf s s' -> (writer_work s' < writer_work s)%nat.
Proof.
  intros [Hwf Hnd Hw _ _] Hi. pose proof (three_blocks _ _ _ Hnd) as (_ & Hwd & _).
  destruct s as [m f w r se lg]. cbn in *. split.
  - destruct w as [|buf len|val|[|mv todo] buf len];
      [done | eexists; apply W_size | | eexists; apply W_publish |].
    { destruct (kfifo_is_full f) eqn:E; eexists; [now apply W_put_full | now apply W_put]. }
    destruct (writer_move wbuf m f (mv :: todo) buf len mv Hwf Hwd Hw) as (j & b & bs & _ & _ & _ & _ & E);
      [set_solver |].
    eexists. exact (W_byte wbuf m _ f r se lg [] mv todo buf len E).
  - pose proof (used_nonneg f). pose proof (wf_esize _ _ Hwf). pose proof (wf_cap _ _ Hwf).
    intros s' Hs. inversion Hs; subst; cbn;
      [done | | done | lia | rewrite (put_moves_eq m), length_fmap, length_seqZ by assumption; unfold nbytes; nia
      | rewrite !length_app; cbn; lia | lia].
    pose proof (writer_size_inv wbuf m f buf len Hwf Hw) as (_ & Hn & _). cbn zeta in *.
    change (if _ <? _ then _ else _) with n in Hn. clearbody n.
    rewrite (copy_in_moves_eq m) by (assumption || lia). rewrite length_fmap, length_seqZ.
    unfold nbytes. nia.
Qed.

Lemma reader_progress wbuf rbuf s :
  inv wbuf rbuf s -> s_reader s <> RIdle ->
  (exists s', rstep rbuf s s') /\ forall s', rstep rbuf s s' -> (reader_work s' < reader_work s)%nat.
Proof.
  intros [Hwf Hnd _ Hr _] Hi. pose proof (three_blocks _ _ _ Hnd) as (_ & _ & Hrd).
  destruct s as [m f w r se lg]. cbn in *. split.
  - destruct r as [|buf len|val|[|mv todo] buf len|i];
      [done | eexists; apply R_size | | eexists; apply R_publish | | eexists; apply R_reset_write].
    { destruct (kfifo_is_empty f) eqn:E; eexists; [now apply R_get_empty | now apply R_get]. }
    destruct (reader_move rbuf m f (mv :: todo) buf len mv Hwf Hrd Hr) as (j & b & _ & _ & _ & E);
      [set_solver |].
    eexists. exact (R_byte rbuf m _ f w se lg [] mv todo buf len E).
  - pose proof (wf_used _ _ Hwf). pose proof (wf_esize _ _ Hwf). pose proof (wf_cap _ _ Hwf).
    intros s' Hs. inversion Hs; subst; cbn;
      [done | | done | lia | rewrite (get_moves_eq m), length_fmap, length_seqZ by assumption; unfold nbytes; nia
      | rewrite !length_app; cbn; lia | lia | done | lia].
    pose proof (reader_size_inv rbuf m f buf len Hwf Hr) as (_ & Hn & _). cbn zeta in *.
    change (if _ <? _ then _ else _) with n in Hn. clearbody n.
    rewrite (copy_out_moves_eq m) by (assumption || lia). rewrite length_fmap, length_seqZ.
    unfold nbytes. nia.
Qed.

(** C16: Neither side waits for the other.  In every reachable state a side that is
    inside a call has a next step that is defined, every step it can take
    leaves fewer to do, at most the bytes of the buffer and two in all, and a
    step of the other side changes neither where it stands nor what is left. *)
Theorem spsc_wait_free wbuf rbuf s :
  reachable wbuf rbuf s ->
  (s_writer s <> WIdle ->
     (exists s', wstep wbuf s s') /\
     (forall s', wstep wbuf s s' -> (writer_work s' < writer_work s)%nat) /\
     (forall s', rstep rbuf s s' -> s_writer s' = s_writer s /\ writer_work s' = writer_work s)) /\
  (s_reader s <> RIdle ->
     (exists s', rstep rbuf s s') /\
     (forall s', rstep rbuf s s' -> (reader_work s' < reader_work s)%nat) /\
     (forall s', wstep wbuf s s' -> s_reader s' = s_reader s /\ reader_work s' = reader_work s)).
Proof.
  intros H%reachable_inv. split; intros Hi.
  - destruct (writer_progress _ _ _ H Hi) as [He Hd]. split; [exact He | split; [exact Hd |]].
    intros s' Hs. now inversion Hs; subst.
  - destruct (reader_progress _ _ _ H Hi) as [He Hd]. split; [exact He | split; [exact Hd |]].
    intros s' Hs. now inversion Hs; subst.
Qed.

(** C17: The steps are those of the calls: in every reachable state, a writer (or a
    reader) about to run [__kfifo_in] or [kfifo_put] ([__kfifo_out] or
    [kfifo_get], on a fifo of elements) has a run of its own steps to the memory
    and the fifo the sequential function returns. *)
Theorem spsc_sequential wbuf rbuf s t buf len :
  reachable wbuf rbuf s -> typed t (s_fifo s) -> t_recsize t = 0 ->
  let writes r := exists m' f' n s', r = Ok (m', f', n) /\
       rtc (wstep wbuf) s s' /\ s_mem s' = m' /\ s_fifo s' = f' /\ s_writer s' = WIdle in
  let reads r := exists m' f' n s', r = Ok (m', f', n) /\
       rtc (rstep rbuf) s s' /\ s_mem s' = m' /\ s_fifo s' = f' /\ s_reader s' = RIdle in
  (s_writer s = WSize buf len -> writes (__kfifo_in (s_mem s) (s_fifo s) buf len)) /\
  (s_writer s = WPut buf -> writes (kfifo_put t (s_mem s) (s_fifo s) buf)) /\
  (s_reader s = RSize buf len -> reads (__kfifo_out (s_mem s) (s_fifo s) buf len)) /\
  (s_reader s = RGet buf -> reads (kfifo_get t (s_mem s) (s_fifo s) buf)).
Proof.
  intros [Hwf Hnd Hw Hr _]%reachable_inv Ht Hrec. pose proof (three_blocks _ _ _ Hnd) as (_ & Hwd & Hrd).
  destruct s as [m f w r se lg]. cbn in *. repeat split; intros ->.
  - destruct (writer_alone wbuf m f buf len r se lg) as (m' & f' & n & bs & E & Hrun); try assumption.
    eexists _, _, _, _. split; [exact E | split; [exact Hrun |]]. auto.
  - destruct (put_alone wbuf t m f buf r se lg) as (m' & f' & n & bs & E & Hrun); try assumption.
    eexists _, _, _, _. split; [exact E | split; [exact Hrun |]]. auto.
  - destruct (reader_alone rbuf m f w buf len se lg) as (m' & f' & n & bs & E & Hrun); try assumption.
    eexists _, _, _, _. split; [exact E | split; [exact Hrun |]]. auto.
  - destruct (get_alone rbuf t m f w buf se lg) as (m' & f' & n & bs & E & Hrun); try assumption.
    eexists _, _, _, _. split; [exact E | split; [exact Hrun |]]. auto.
Qed.

(** *** A run *)

(** Four bytes at block 3 whose indices are about to wrap, one byte queued. *)
Definition demo_fifo : kfifo := Kfifo 0 (W32 - 1) 3 1 (Ptr 3 0).
Definition demo_mem : mem := Mem {[1 := []; 2 := []; 3 := [0; 0; 0; 5]]} ∅.
Definition demo0 : spsc := Spsc demo_mem demo_fifo WIdle RIdle [5] [].

Lemma demo0_initial : initial 1 2 demo0.
Proof.
  split; [|split; [reflexivity | split; [reflexivity | split; [reflexivity | split; [reflexivity |]]]]].
  - split; [exists 2; split; [lia | reflexivity] | cbn; lia | cbn; lia | cbn; lia | reflexivity
           | vm_compute; discriminate | eexists; split; reflexivity].
  - repeat constructor; cbn; set_solver.
Qed.

(** Writer and reader both inside a call, each with one byte moved. *)
Definition demo1 : spsc :=
  Spsc (Mem {[1 := [7; 8]; 2 := [5]; 3 := [0; 8; 0; 5]]} ∅) demo_fifo
    (WCopy [(Ptr 3 0, Ptr 1 0)] (Ptr 1 0) 2) (RCopy [] (Ptr 2 0) 1) [5] [].

Lemma demo1_reachable : reachable 1 2 demo1.
Proof.
  exists demo0. split; [apply demo0_initial |].
  eapply rtc_l; [left; apply (W_call 1 _ _ _ _ _ [7; 8] 2); [lia | vm_compute; discriminate] |].
  eapply rtc_l; [left; apply W_size |].
  eapply rtc_l; [right; apply (R_call 2 _ _ _ _ _ [9] 1); [lia | vm_compute; discriminate] |].
  eapply rtc_l; [right; apply R_size |].
  eapply rtc_l; [left; eapply (W_byte 1 _ _ _ _ _ _ [_] _ []); vm_compute; reflexivity |].
  eapply rtc_l; [right; eapply (R_byte 2 _ _ _ _ _ _ [] _ []); vm_compute; reflexivity |].
  match goal with |- rtc _ ?s _ => replace s with demo1 by (vm_compute; reflexivity) end.
  apply rtc_refl.
Qed.

Lemma spsc_stream_witness :
  wf (s_mem demo1) (s_fifo demo1) /\
  concat (event_bytes <$> s_log demo1) ++ contents (s_mem demo1) (s_fifo demo1) = [5].
Proof.
  destruct (spsc_stream 1 2 demo1 demo1_reachable) as (H1 & H2 & _). split; assumption.
Defined.

Lemma spsc_wait_free_witness :
  (exists s', wstep 1 demo1 s') /\ (exists s', rstep 2 demo1 s').
Proof.
  destruct (spsc_wait_free 1 2 demo1 demo1_reachable) as [Hw Hr].
  split; [apply Hw | apply Hr]; discriminate.
Defined.

(** The writer called, the reader idle. *)
Definition demo2 : spsc :=
  Spsc (Mem {[1 := [7; 8]; 2 := []; 3 := [0; 0; 0; 5]]} ∅) demo_fifo
    (WSize (Ptr 1 0) 2) RIdle [5] [].

Lemma demo2_reachable : reachable 1 2 demo2.
Proof.
  exists demo0. split; [apply demo0_initial |].
  eapply rtc_l; [left; apply (W_call 1 _ _ _ _ _ [7; 8] 2); [lia | vm_compute; discriminate] |].
  match goal with |- rtc _ ?s _ => replace s with demo2 by (vm_compute; reflexivity) end.
  apply rtc_refl.
Qed.

Lemma spsc_sequential_witness :
  exists m' f' n s', __kfifo_in (s_mem demo2) demo_fifo (Ptr 1 0) 2 = Ok (m', f', n) /\
    rtc (wstep 1) demo2 s' /\ s_mem s' = m' /\ s_fifo s' = f' /\ s_writer s' = WIdle.
Proof.
  destruct (spsc_sequential 1 2 demo2 (FType 0 1 1 4 (Ptr 3 0)) (Ptr 1 0) 2 demo2_reachable) as [Hw _];
    [now split | reflexivity |]. exact (Hw eq_refl).
Defined.

End KfifoSpsc.
