(* ===== verification/Scatterlist.v ===== *)
(** * Scatter-gather tables and DMA on a kfifo

    src/libs/liblinux/src/scatterlist.c ([sg_next]), the entry accessors of
    linux/scatterlist.h and its loop [for_each_sg], and the DMA half of
    src/libs/liblinux/src/fifo.c ([setup_sgl_buf], [setup_sgl] and the
    [prepare] functions).

    Entries live at addresses, 20 bytes apart in an array; the two low bits of
    [page_link] carry the chain and end marks.  The kernel's page tables
    ([virt_to_page], [page_to_phys], [page_address]) are filled at run time outside the tree
    and enter as parameters. *)

From S2P Require Import Prelude Bytes Log2 Memory Kfifo KfifoUser KfifoRec.
Import Bytes Log2 Memory Kfifo KfifoUser KfifoRec.

(** struct scatterlist (with CONFIG_NEED_SG_DMA_LENGTH) *)
Record scatterlist := SG {
  page_link : Z;
  sg_offset : Z;
  sg_length : Z;
  dma_address : Z;
  dma_length : Z
}.

Module Scatterlist.

(** The entries, by address. *)
Abbreviation sgs := (gmap Z scatterlist).

Definition sizeof_sg : Z := 20.
Definition sg_at (sgl i : Z) : Z := sgl + i * sizeof_sg.

Definition get (h : sgs) (sg : Z) : res scatterlist :=
  match h !! sg with Some s => Ok s | None => Err UB end.

Definition sg_is_chain (s : scatterlist) : bool := truthy (page_link s .& 1).
Definition sg_is_last (s : scatterlist) : bool := truthy (page_link s .& 2).
Definition sg_chain_ptr (s : scatterlist) : Z := Z.ldiff (page_link s) 3.

(** [NULL] is 0. *)
Definition sg_next (h : sgs) (sg : Z) : res Z :=
  let! s := get h sg in
  if sg_is_last s then Ok 0
  else
    let sg := sg_at sg 1 in
    let! s := get h sg in
    if sg_is_chain s then Ok (sg_chain_ptr s) else Ok sg.

Definition set_link (s : scatterlist) (l : Z) : scatterlist :=
  SG l (sg_offset s) (sg_length s) (dma_address s) (dma_length s).

Definition sg_assign_page (h : sgs) (sg page : Z) : res sgs :=
  let! s := get h sg in
  let link := page_link s .& 3 in
  let! _ := cassert (negb (truthy (page .& 3))) in
  Ok (<[sg := set_link s (link .| page)]> h).

Definition sg_set_page (h : sgs) (sg page len offset : Z) : res sgs :=
  let! h := sg_assign_page h sg page in
  let! s := get h sg in
  Ok (<[sg := SG (page_link s) offset len (dma_address s) (dma_length s)]> h).

Definition sg_page (s : scatterlist) : Z := Z.ldiff (page_link s) 3.

Definition sg_chain (h : sgs) (prv prv_nents sgl : Z) : res sgs :=
  let sg := sg_at prv (prv_nents - 1) in
  let! s := get h sg in
  Ok (<[sg := SG (Z.ldiff (sgl .| 1) 2) 0 0 (dma_address s) (dma_length s)]> h).

Definition sg_mark_end (h : sgs) (sg : Z) : res sgs :=
  let! s := get h sg in
  Ok (<[sg := set_link s (Z.ldiff (page_link s .| 2) 1)]> h).

Definition sg_unmark_end (h : sgs) (sg : Z) : res sgs :=
  let! s := get h sg in
  Ok (<[sg := set_link s (Z.ldiff (page_link s) 2)]> h).

Definition PAGE_SIZE : Z := 4096.
Definition offset_in_page (p : Z) : Z := p .& (PAGE_SIZE - 1).

Definition PAGE_SHIFT : Z := 12.

(** The accessors for mapped entries. *)
Definition sg_dma_address (s : scatterlist) : Z := dma_address s.
Definition sg_dma_len (s : scatterlist) : Z := dma_length s.

(** struct sg_page_iter, the fields its accessors read *)
Record sg_page_iter := PITER { pi_sg : Z; sg_pgoffset : Z }.

Definition sg_page_iter_dma_address (h : sgs) (piter : sg_page_iter) : res Z :=
  let! s := get h (pi_sg piter) in
  Ok (sg_dma_address s ⊞ u32 (Z.shiftl (sg_pgoffset piter) PAGE_SHIFT)).

(** [for_each_sg(sglist, sg, nr, i)]: the body sees the table and may change
    it; [sg_next] is called after every round, the last one included. *)
Fixpoint for_each_sg {A} (body : A -> sgs -> Z -> res (A * sgs)) (a : A) (h : sgs) (sg : Z) (nr : nat)
    : res (A * sgs) :=
  match nr with
  | O => Ok (a, h)
  | S nr =>
      let! (a, h) := body a h sg in
      let! sg := sg_next h sg in
      for_each_sg body a h sg nr
  end.

(** The page tables are outside the tree: [virt_to_page], [page_to_phys],
    [page_address] and [nth_page]. *)
Section Pages.
Variable virt_to_page page_to_phys page_address : Z -> Z.
Variable nth_page : Z -> Z -> Z.

Definition sg_set_buf (h : sgs) (sg buf buflen : Z) : res sgs :=
  sg_set_page h sg (virt_to_page buf) buflen (offset_in_page buf).

Definition sg_phys (s : scatterlist) : Z := page_to_phys (sg_page s) ⊞ sg_offset s.

Definition sg_virt (s : scatterlist) : Z := page_address (sg_page s) ⊞ sg_offset s.

Definition sg_page_iter_page (h : sgs) (piter : sg_page_iter) : res Z :=
  let! s := get h (pi_sg piter) in
  Ok (nth_page (sg_page s) (sg_pgoffset piter)).

(** The loop of [setup_sgl_buf]; one unit of fuel per iteration. *)
Fixpoint setup_sgl_loop (fuel : nat) (h : sgs) (sgl buf nents len n l off page : Z) : res (sgs * Z) :=
  if (l ⊞ PAGE_SIZE ⊟ off) <=? len then
    match fuel with
    | O => Err OutOfFuel
    | S fuel =>
        let l := l ⊞ PAGE_SIZE in
        let buf := buf ⊞ PAGE_SIZE in
        let npage := virt_to_page buf in
        if negb (page_to_phys page =? (page_to_phys npage ⊟ l)) then
          let! h := sg_set_page h sgl page (l ⊟ off) off in
          let! sgl := sg_next h sgl in
          let n := n + 1 in
          if (n =? nents) || (sgl =? 0) then Ok (h, n)
          else
            let page := npage in
            let len := len ⊟ (l ⊟ off) in
            setup_sgl_loop fuel h sgl buf nents len n 0 0 page
        else setup_sgl_loop fuel h sgl buf nents len n l off page
    end
  else
    let! h := sg_set_page h sgl page len off in
    Ok (h, n + 1).

(** Every iteration moves [buf] one page on, so [len / PAGE_SIZE + 2] are
    enough. *)
Definition setup_sgl_buf (h : sgs) (sgl buf nents len : Z) : res (sgs * Z) :=
  if nents =? 0 then Ok (h, 0)
  else if len =? 0 then Ok (h, 0)
  else
    let page := virt_to_page buf in
    let off := offset_in_page buf in
    setup_sgl_loop (Z.to_nat (len / PAGE_SIZE + 2)) h sgl buf nents len 0 0 off page.

(** The buffer is named by its virtual address here. *)
Definition setup_sgl (h : sgs) (f : kfifo) (data sgl nents len off : Z) : res (sgs * Z) :=
  let '(off, len, l) := kfifo_span f len off in
  let! (h, n) := setup_sgl_buf h sgl (data ⊞ off) nents l in
  let! (h, k) := setup_sgl_buf h (sg_at sgl n) data (nents - n) (len ⊟ l) in
  Ok (h, n + k).

Definition __kfifo_dma_in_prepare (h : sgs) (f : kfifo) (data sgl nents len : Z) : res (sgs * Z) :=
  let l := kfifo_unused f in
  let len := if l <? len then l else len in
  setup_sgl h f data sgl nents len (k_in f).

Definition __kfifo_dma_out_prepare (h : sgs) (f : kfifo) (data sgl nents len : Z) : res (sgs * Z) :=
  let l := k_in f ⊟ k_out f in
  let len := if l <? len then l else len in
  setup_sgl h f data sgl nents len (k_out f).

Definition __kfifo_dma_in_prepare_r (h : sgs) (f : kfifo) (data sgl nents len recsize : Z)
    : res (sgs * Z) :=
  let! _ := cassert (negb (nents =? 0)) in
  let! len := __kfifo_max_r len recsize in
  if kfifo_unused f <? (len ⊞ recsize) then Ok (h, 0)
  else setup_sgl h f data sgl nents len (k_in f ⊞ recsize).

Definition __kfifo_dma_out_prepare_r (h : sgs) (f : kfifo) (data sgl nents len recsize : Z)
    : res (sgs * Z) :=
  let! _ := cassert (negb (nents =? 0)) in
  let! len := __kfifo_max_r len recsize in
  if (k_in f ⊟ k_out f) <? (len ⊞ recsize) then Ok (h, 0)
  else setup_sgl h f data sgl nents len (k_out f ⊞ recsize).

(** linux/kfifo.h; [recsize] is known from the type of the fifo. *)
Definition kfifo_dma_in_prepare (recsize : Z) (h : sgs) (f : kfifo) (data sgl nents len : Z) : res (sgs * Z) :=
  if truthy recsize then __kfifo_dma_in_prepare_r h f data sgl nents len recsize
  else __kfifo_dma_in_prepare h f data sgl nents len.

Definition kfifo_dma_out_prepare (recsize : Z) (h : sgs) (f : kfifo) (data sgl nents len : Z) : res (sgs * Z) :=
  if truthy recsize then __kfifo_dma_out_prepare_r h f data sgl nents len recsize
  else __kfifo_dma_out_prepare h f data sgl nents len.
End Pages.

(** ** Entries *)

Lemma ldiff_clear p : p .& 3 = 0 -> Z.ldiff p 3 = p.
Proof. intros H. rewrite <- (Z.lor_ldiff_and p 3) at 2. now rewrite H, Z.lor_0_r. Qed.

(** The page and the two marks share a word without disturbing each other. *)
Lemma link_split l p :
  p .& 3 = 0 -> Z.land (Z.lor (l .& 3) p) 3 = l .& 3 /\ Z.ldiff (Z.lor (l .& 3) p) 3 = p.
Proof.
  intros H. split.
  - rewrite Z.land_lor_distr_l, H, Z.lor_0_r, <- Z.land_assoc. reflexivity.
  - rewrite <- (ldiff_clear p H) at 2. apply Z.bits_inj'. intros i Hi.
    rewrite !Z.ldiff_spec, Z.lor_spec, Z.land_spec.
    destruct (Z.testbit l i), (Z.testbit p i), (Z.testbit 3 i); reflexivity.
Qed.

Lemma get_ok h a s : h !! a = Some s -> get h a = Ok s.
Proof. unfold get. now intros ->. Qed.

Definition filled (s : scatterlist) (page len off : Z) : scatterlist :=
  SG ((page_link s .& 3) .| page) off len (dma_address s) (dma_length s).

Lemma set_page_ok h sg s page len off :
  h !! sg = Some s -> page .& 3 = 0 ->
  sg_set_page h sg page len off = Ok (<[sg := filled s page len off]> h).
Proof.
  intros Hs Hp. unfold sg_set_page, sg_assign_page. rewrite (get_ok _ _ _ Hs). cbn [rbind].
  rewrite Hp. cbn. rewrite (get_ok _ _ (set_link s ((page_link s .& 3) .| page)))
    by apply lookup_insert_eq.
  cbn. now rewrite insert_insert_eq.
Qed.

(** The marks of an entry. *)
Definition marks (s : scatterlist) : Z := page_link s .& 3.

Lemma marks_chain s : sg_is_chain s = truthy (marks s .& 1).
Proof. unfold sg_is_chain, marks. now rewrite <- Z.land_assoc. Qed.

Lemma marks_last s : sg_is_last s = truthy (marks s .& 2).
Proof. unfold sg_is_last, marks. now rewrite <- Z.land_assoc. Qed.

Lemma filled_marks s page len off : page .& 3 = 0 -> marks (filled s page len off) = marks s.
Proof. intros H. apply (link_split (page_link s) page H). Qed.

Lemma filled_page s page len off : page .& 3 = 0 -> sg_page (filled s page len off) = page.
Proof. intros H. apply (link_split (page_link s) page H). Qed.

(** An array of [N] entries, the last one marked, none chained: what
    [sg_init_table] leaves. *)
Definition flat (h : sgs) (sgl N : Z) : Prop :=
  forall i, 0 <= i < N ->
    exists s, h !! sg_at sgl i = Some s /\ marks s = if i =? N - 1 then 2 else 0.

Lemma flat_tail h sgl N : flat h sgl N -> flat h (sg_at sgl 1) (N - 1).
Proof.
  intros H i Hi. destruct (H (i + 1)) as (s & Hs & Hm); [lia |]. exists s.
  replace (sg_at (sg_at sgl 1) i) with (sg_at sgl (i + 1)) by (unfold sg_at, sizeof_sg; lia).
  split; [exact Hs |]. rewrite Hm. ztest; lia.
Qed.

Lemma flat_head h sgl N :
  flat h sgl N -> 0 < N -> exists s, h !! sgl = Some s /\ marks s = if N =? 1 then 2 else 0.
Proof.
  intros H HN. destruct (H 0) as (s & Hs & Hm); [lia |]. exists s.
  replace (sg_at sgl 0) with sgl in Hs by (unfold sg_at; lia).
  split; [exact Hs |]. rewrite Hm. ztest; lia.
Qed.

Lemma flat_fill h sgl N a s page len off :
  flat h sgl N -> h !! a = Some s -> page .& 3 = 0 -> flat (<[a := filled s page len off]> h) sgl N.
Proof.
  intros H Ha Hp i Hi. destruct (H i Hi) as (s' & Hs' & Hm). rewrite lookup_insert.
  case_decide as E; [|eauto]. subst a. rewrite Hs' in Ha. injection Ha as ->.
  eexists. split; [reflexivity |]. now rewrite filled_marks.
Qed.

Lemma sg_next_flat h sgl N :
  flat h sgl N -> 0 < N -> sg_next h sgl = Ok (if N =? 1 then 0 else sg_at sgl 1).
Proof.
  intros H HN. destruct (flat_head _ _ _ H HN) as (s & Hs & Hm).
  unfold sg_next. rewrite (get_ok _ _ _ Hs). cbn [rbind]. rewrite marks_last, Hm.
  destruct (Z.eqb_spec N 1); [reflexivity |]. cbn.
  destruct (flat_head _ _ _ (flat_tail _ _ _ H)) as (s' & Hs' & Hm'); [lia |].
  rewrite (get_ok _ _ _ Hs'). cbn [rbind]. rewrite marks_chain, Hm'. now destruct (_ =? 1).
Qed.

(** ** Segments *)

Section Segments.
Context (virt_to_page page_to_phys : Z -> Z).

(** [struct page]s are word-aligned, one per page, and name page frames. *)
Record page_map : Prop := {
  page_aligned a : virt_to_page a .& 3 = 0;
  page_whole a : virt_to_page a = virt_to_page (a / PAGE_SIZE * PAGE_SIZE);
  page_word a : 0 <= page_to_phys (virt_to_page a) < W32
}.

(** The physical address of a byte, and of a run of bytes. *)
Definition phys (a : Z) : Z := page_to_phys (virt_to_page a) ⊞ a mod PAGE_SIZE.
Definition phys_range (a n : Z) : list Z := (fun i => phys (a + i)) <$> seqZ 0 n.

(** The bytes an entry, and the first [r] entries, hand to the device. *)
Definition seg (s : scatterlist) : list Z :=
  (fun i => u32 (page_to_phys (sg_page s) + sg_offset s + i)) <$> seqZ 0 (sg_length s).

Fixpoint segs (h : sgs) (sgl : Z) (r : nat) : list Z :=
  match r with
  | O => []
  | S r => match h !! sgl with Some s => seg s | None => [] end ++ segs h (sg_at sgl 1) r
  end.

Context (HP : page_map).

Definition frame (k : Z) : Z := page_to_phys (virt_to_page (k * PAGE_SIZE)).

Lemma phys_frame a : phys a = frame (a / PAGE_SIZE) ⊞ a mod PAGE_SIZE.
Proof. unfold phys, frame. now rewrite page_whole. Qed.

Lemma phys_range_app a n k : 0 <= n -> 0 <= k ->
  phys_range a n ++ phys_range (a + n) k = phys_range a (n + k).
Proof.
  intros Hn Hk. unfold phys_range. rewrite seqZ_app, fmap_app by lia. f_equal.
  replace (seqZ (0 + n) k) with (Z.add n <$> seqZ 0 k) by (rewrite fmap_add_seqZ; f_equal; lia).
  rewrite <- list_fmap_compose. apply list_fmap_ext.
  intros i x _. cbn. f_equal. lia.
Qed.

(** A segment over [q + 1] pages that follow each other physically. *)
Lemma seg_run k q off len s :
  0 <= off -> 0 <= len -> 0 <= q -> off + len <= PAGE_SIZE * (q + 1) ->
  (forall j, 0 <= j <= q -> frame (k + j) = u32 (frame k + PAGE_SIZE * j)) ->
  seg (filled s (virt_to_page (k * PAGE_SIZE)) len off) = phys_range (k * PAGE_SIZE + off) len.
Proof.
  intros Ho Hl Hq Hb Hrun. unfold seg, phys_range. rewrite filled_page by apply HP.
  cbn [sg_offset sg_length filled]. fold (frame k). apply list_fmap_ext.
  intros i x [Hx Hi]%lookup_seqZ. rewrite phys_frame. unfold PAGE_SIZE in *.
  assert ((k * 4096 + off + x) / 4096 = k + (off + x) / 4096) as -> by zmod.
  rewrite Hrun by zmod. rewrite u32_add_l. f_equal. zmod.
Qed.

Lemma sg_at_at sgl i j : sg_at (sg_at sgl i) j = sg_at sgl (i + j).
Proof. unfold sg_at, sizeof_sg. lia. Qed.

(** [h'] differs from [h] at most in the first [r] entries at [sgl]. *)
Definition only_entries (sgl r : Z) (h h' : sgs) : Prop :=
  forall a, (forall i, 0 <= i < r -> a <> sg_at sgl i) -> h' !! a = h !! a.

Lemma segs_agree h h' sgl r :
  (forall i, 0 <= i < Z.of_nat r -> h' !! sg_at sgl i = h !! sg_at sgl i) ->
  segs h' sgl r = segs h sgl r.
Proof.
  revert sgl. induction r as [|r IH]; intros sgl H; [reflexivity |]. cbn. f_equal.
  - specialize (H 0 ltac:(lia)). replace (sg_at sgl 0) with sgl in H by (unfold sg_at; lia).
    now rewrite H.
  - apply IH. intros i Hi. rewrite sg_at_at. apply H. lia.
Qed.

(** The bytes covered after the loop: [c] of [len], all of them unless the
    entries ran out. *)
Definition covers (h' : sgs) (sgl r N a c len : Z) : Prop :=
  0 <= c <= len /\ segs h' sgl (Z.to_nat r) = phys_range a c /\ (c = len \/ r = N).

Lemma segs_cons h h' sgl s r :
  0 <= r -> h !! sgl = Some s -> only_entries (sg_at sgl 1) r h h' ->
  segs h' sgl (Z.to_nat (1 + r)) = seg s ++ segs h' (sg_at sgl 1) (Z.to_nat r).
Proof.
  intros Hr Hs Ho. replace (Z.to_nat (1 + r)) with (S (Z.to_nat r)) by lia. cbn. f_equal.
  rewrite Ho, Hs; [reflexivity |]. intros i Hi. unfold sg_at, sizeof_sg. lia.
Qed.

Lemma only_entries_cons h h1 h' sgl s r :
  h1 = <[sgl := s]> h -> 0 <= r -> only_entries (sg_at sgl 1) r h1 h' ->
  only_entries sgl (1 + r) h h'.
Proof.
  intros -> Hr Ho a Ha. rewrite Ho.
  - rewrite lookup_insert_ne; [reflexivity |]. specialize (Ha 0 ltac:(lia)). unfold sg_at in Ha. lia.
  - intros i Hi. rewrite sg_at_at. apply Ha. lia.
Qed.

(** Filling one entry with a physically contiguous run. *)
Lemma entry_ok h sgl N len k q off :
  flat h sgl N -> 0 < N -> 0 <= off -> 0 <= len -> 0 <= q -> off + len <= PAGE_SIZE * (q + 1) ->
  (forall j, 0 <= j <= q -> frame (k + j) = u32 (frame k + PAGE_SIZE * j)) ->
  exists s', let h' := <[sgl := s']> h in
    sg_set_page h sgl (virt_to_page (k * PAGE_SIZE)) len off = Ok h' /\
    seg s' = phys_range (k * PAGE_SIZE + off) len /\ flat h' sgl N.
Proof.
  intros Hfl HN Ho Hl Hq Hb Hrun. destruct (flat_head _ _ _ Hfl HN) as (s & Hs & _).
  pose proof (page_aligned HP (k * PAGE_SIZE)) as Ha.
  eexists. split; [exact (set_page_ok h sgl s _ len off Hs Ha) |]. split; [apply (seg_run k q); assumption |].
  now apply flat_fill.
Qed.

(** Whether the next page follows physically is what the loop tests. *)
Lemma run_grows k q :
  0 <= q -> (forall j, 0 <= j <= q -> frame (k + j) = u32 (frame k + PAGE_SIZE * j)) ->
  (frame k =? (frame (k + q + 1) ⊟ u32 (PAGE_SIZE * (q + 1)))) = true ->
  forall j, 0 <= j <= q + 1 -> frame (k + j) = u32 (frame k + PAGE_SIZE * j).
Proof.
  intros Hq Hrun Ht j Hj. destruct (Z.eq_dec j (q + 1)) as [->|]; [|apply Hrun; lia].
  apply Z.eqb_eq in Ht. pose proof (page_word HP ((k + q + 1) * PAGE_SIZE)) as Hw.
  fold (frame (k + q + 1)) in Hw. rewrite Z.add_assoc. rewrite Ht.
  rewrite u32_sub_r, u32_add_l. rewrite <- (u32_small (frame (k + q + 1))) at 1 by lia.
  f_equal. lia.
Qed.

Lemma segs_one h sgl s : h !! sgl = Some s -> segs h sgl (Z.to_nat 1) = seg s.
Proof. intros H. change (Z.to_nat 1) with 1%nat. cbn [segs]. now rewrite H, app_nil_r. Qed.

(** The exit of the loop: the rest goes into one entry. *)
Lemma finish_ok h sgl N len n k q off :
  flat h sgl N -> 0 < N -> 0 <= off -> 0 <= len -> 0 <= q -> off + len <= PAGE_SIZE * (q + 1) ->
  (forall j, 0 <= j <= q -> frame (k + j) = u32 (frame k + PAGE_SIZE * j)) ->
  exists h' r c,
    (let! h := sg_set_page h sgl (virt_to_page (k * PAGE_SIZE)) len off in Ok (h, n + 1)) = Ok (h', n + r) /\
    1 <= r <= N /\ covers h' sgl r N (k * PAGE_SIZE + off) c len /\ flat h' sgl N /\
    only_entries sgl r h h'.
Proof.
  intros Hfl HN Ho Hl Hq Hb Hrun.
  destruct (entry_ok h sgl N len k q off) as (s' & -> & Hs' & Hfl'); try assumption.
  cbn [rbind]. eexists _, 1, len. split; [reflexivity |]. split; [lia |].
  split; [|split; [exact Hfl' |]].
  - split; [lia | split; [|now left]]. rewrite <- Hs'. apply segs_one, lookup_insert_eq.
  - apply (only_entries_cons _ (<[sgl := s']> h) _ _ s' 0); [reflexivity | lia | now intros a].
Qed.

(** A physical break: the entry is filled up to it and the loop goes on from
    the next page, or stops when the entries are used up. *)
Lemma break_ok h sgl N len k q off (next : sgs -> Z -> res (sgs * Z)) n :
  flat h sgl N -> 0 < N -> 0 < sgl -> 0 <= off -> 0 <= q ->
  PAGE_SIZE * (q + 1) <= off + len -> off < PAGE_SIZE ->
  (forall j, 0 <= j <= q -> frame (k + j) = u32 (frame k + PAGE_SIZE * j)) ->
  (forall h1, 1 < N -> flat h1 (sg_at sgl 1) (N - 1) -> exists h' r c,
     next h1 (sg_at sgl 1) = Ok (h', (n + 1) + r) /\ 1 <= r <= N - 1 /\
     covers h' (sg_at sgl 1) r (N - 1) ((k + q + 1) * PAGE_SIZE) c (off + len - PAGE_SIZE * (q + 1)) /\
     flat h' (sg_at sgl 1) (N - 1) /\ only_entries (sg_at sgl 1) r h1 h') ->
  exists h' r c,
    (let! h := sg_set_page h sgl (virt_to_page (k * PAGE_SIZE)) (PAGE_SIZE * (q + 1) - off) off in
     let! sgl := sg_next h sgl in
     if (n + 1 =? n + N) || (sgl =? 0) then Ok (h, n + 1) else next h sgl) = Ok (h', n + r) /\
    1 <= r <= N /\ covers h' sgl r N (k * PAGE_SIZE + off) c len /\ flat h' sgl N /\
    only_entries sgl r h h'.
Proof.
  intros Hfl HN Hsgl Ho Hq Hg Hop Hrun Hnext. unfold PAGE_SIZE in Hg, Hop.
  destruct (entry_ok h sgl N (PAGE_SIZE * (q + 1) - off) k q off) as (s' & -> & Hs' & Hfl');
    try assumption; [unfold PAGE_SIZE; lia | lia |]. cbn [rbind].
  rewrite (sg_next_flat _ _ N) by assumption. cbn [rbind].
  destruct (Z.eqb_spec (n + 1) (n + N)) as [E|E]; cbn [orb].
  { eexists _, 1, (PAGE_SIZE * (q + 1) - off). split; [reflexivity |]. split; [lia |].
    split; [|split; [exact Hfl' |]].
    - split; [unfold PAGE_SIZE; lia | split; [|right; lia]]. rewrite <- Hs'. apply segs_one, lookup_insert_eq.
    - apply (only_entries_cons _ (<[sgl := s']> h) _ _ s' 0); [reflexivity | lia | now intros a]. }
  destruct (Z.eqb_spec N 1); [lia |]. destruct (Z.eqb_spec (sg_at sgl 1) 0) as [E0|_].
  { unfold sg_at, sizeof_sg in E0. lia. }
  destruct (Hnext _ ltac:(lia) (flat_tail _ _ _ Hfl')) as (h' & r & c & E' & Hr & (Hc & Hsg & Hdone) & Hf2 & Ho2).
  exists h', (1 + r), (PAGE_SIZE * (q + 1) - off + c).
  split; [rewrite E'; do 2 f_equal; lia |]. split; [lia |].
  split; [|split; [|apply (only_entries_cons h (<[sgl := s']> h) h' sgl s'); [reflexivity | lia | assumption]]].
  - split; [unfold PAGE_SIZE in *; lia |]. split; [|destruct Hdone; [left | right]; lia].
    rewrite (segs_cons (<[sgl := s']> h) h' sgl s' r) by (lia || apply lookup_insert_eq || assumption).
    rewrite Hs', Hsg. replace ((k + q + 1) * PAGE_SIZE)
      with (k * PAGE_SIZE + off + (PAGE_SIZE * (q + 1) - off)) by lia.
    apply phys_range_app; unfold PAGE_SIZE; lia.
  - intros i Hi. destruct (Z.eq_dec i 0) as [->|Hi0].
    + destruct (Hfl' 0 Hi) as (x & Hx & Hm). exists x. rewrite Ho2; [auto |].
      intros j Hj. unfold sg_at, sizeof_sg. lia.
    + destruct (Hf2 (i - 1)) as (x & Hx & Hm); [lia |]. rewrite sg_at_at in Hx.
      replace (1 + (i - 1)) with i in Hx by lia. exists x. split; [exact Hx |]. rewrite Hm. ztest; lia.
Qed.

Lemma setup_loop_ok fuel h sgl buf N len n k q off :
  flat h sgl N -> 0 < N -> 0 < sgl ->
  0 <= k -> 0 <= q -> 0 <= buf -> buf / PAGE_SIZE = k + q -> 0 <= off < PAGE_SIZE -> 0 <= len ->
  PAGE_SIZE * q <= off + len -> k * PAGE_SIZE + off + len + 2 * PAGE_SIZE <= W32 ->
  (forall j, 0 <= j <= q -> frame (k + j) = u32 (frame k + PAGE_SIZE * j)) ->
  (off + len) / PAGE_SIZE - q <= Z.of_nat fuel ->
  exists h' r c,
    setup_sgl_loop virt_to_page page_to_phys fuel h sgl buf (n + N) len n (PAGE_SIZE * q) off
      (virt_to_page (k * PAGE_SIZE)) = Ok (h', n + r) /\
    1 <= r <= N /\ covers h' sgl r N (k * PAGE_SIZE + off) c len /\ flat h' sgl N /\
    only_entries sgl r h h'.
Proof.
  revert h sgl buf N len n k q off.
  induction fuel as [|fuel IH];
    intros h sgl buf N len n k q off Hfl HN Hsgl Hk Hq Hb0 Hbuf Ho Hl Hql HW Hrun Hfu;
    unfold PAGE_SIZE in Hfu, HW, Ho, Hbuf, Hql; cbn [setup_sgl_loop];
    rewrite u32_sub_l, u32_small by (unfold PAGE_SIZE; lia);
    (destruct (Z.leb_spec (PAGE_SIZE * q + PAGE_SIZE - off) len) as [Hg|Hg]; unfold PAGE_SIZE in Hg;
     [|apply (finish_ok h sgl N len n k q off); (assumption || (unfold PAGE_SIZE; lia))]); [zmod |].
  assert (PAGE_SIZE * q ⊞ PAGE_SIZE = PAGE_SIZE * (q + 1)) as Hl1
    by (rewrite u32_small; unfold PAGE_SIZE; lia).
  assert (buf ⊞ PAGE_SIZE = buf + PAGE_SIZE) as Hb1.
  { rewrite u32_small; [reflexivity |]. unfold PAGE_SIZE. zmod. }
  assert (virt_to_page (buf + PAGE_SIZE) = virt_to_page ((k + q + 1) * PAGE_SIZE)) as Hnp.
  { rewrite page_whole by assumption. f_equal. unfold PAGE_SIZE. zmod. }
  rewrite Hl1, Hb1, Hnp. fold (frame k) (frame (k + q + 1)).
  replace (PAGE_SIZE * q + PAGE_SIZE - off) with (PAGE_SIZE * (q + 1) - off) by lia.
  destruct (frame k =? _) eqn:Ht; cbn [negb].
  - apply IH; try assumption; try (unfold PAGE_SIZE; lia); try (unfold PAGE_SIZE; zmod).
    apply run_grows; [assumption.. |]. now rewrite (u32_small (PAGE_SIZE * (q + 1))) by (unfold PAGE_SIZE; lia).
  - apply (break_ok h sgl N len k q off
             (fun h sgl => setup_sgl_loop virt_to_page page_to_phys fuel h sgl (buf + PAGE_SIZE) (n + N)
                (u32 (len - (PAGE_SIZE * (q + 1) - off))) (n + 1) 0 0 (virt_to_page ((k + q + 1) * PAGE_SIZE))));
      try assumption; try (unfold PAGE_SIZE; lia).
    intros h1 HN1 Hf1. rewrite u32_small by (unfold PAGE_SIZE; lia).
    replace (n + N) with ((n + 1) + (N - 1)) by lia.
    replace (len - (PAGE_SIZE * (q + 1) - off)) with (off + len - PAGE_SIZE * (q + 1)) by lia.
    destruct (IH h1 (sg_at sgl 1) (buf + PAGE_SIZE) (N - 1) (off + len - PAGE_SIZE * (q + 1)) (n + 1) (k + q + 1) 0 0)
      as (h' & r & c & E & H); try assumption; try (unfold PAGE_SIZE, sg_at, sizeof_sg; lia);
      try (unfold PAGE_SIZE; zmod).
    + intros j Hj. replace j with 0 by lia. rewrite Z.mul_0_r, !Z.add_0_r.
      symmetry. apply u32_small, HP.
    + rewrite Z.add_0_r in H. exists h', r, c. split; [exact E | exact H].
Qed.

Lemma offset_in_page_mod p : offset_in_page p = p mod PAGE_SIZE.
Proof. unfold offset_in_page, PAGE_SIZE. change 4096 with (2 ^ 12). now apply land_mask. Qed.

Lemma setup_sgl_buf_ok h sgl buf N len :
  flat h sgl N -> 0 <= N -> 0 < sgl -> 0 <= buf -> 0 <= len -> buf + len + 2 * PAGE_SIZE <= W32 ->
  exists h' r c,
    setup_sgl_buf virt_to_page page_to_phys h sgl buf N len = Ok (h', r) /\
    0 <= r <= N /\ covers h' sgl r N buf c len /\ flat h' sgl N /\ only_entries sgl r h h'.
Proof.
  intros Hfl HN Hsgl Hb Hl HW. unfold setup_sgl_buf.
  destruct (Z.eqb_spec N 0) as [->|]; 
    [exists h, 0, 0; repeat split; try lia; first [reflexivity | assumption | now right | now intros a] |].
  destruct (Z.eqb_spec len 0) as [->|]; 
    [exists h, 0, 0; repeat split; try lia; first [reflexivity | assumption | now left | now intros a] |].
  rewrite offset_in_page_mod, (page_whole HP buf).
  destruct (setup_loop_ok (Z.to_nat (len / PAGE_SIZE + 2)) h sgl buf N len 0 (buf / PAGE_SIZE) 0
              (buf mod PAGE_SIZE)) as (h' & r & c & E & Hr & Hc & H);
    try assumption; try lia; unfold PAGE_SIZE in *; try zmod.
  - intros j Hj. replace j with 0 by lia. rewrite Z.mul_0_r, !Z.add_0_r.
    symmetry. apply u32_small, HP.
  - rewrite Z.mul_0_r in E. replace (buf / 4096 * 4096 + buf mod 4096) with buf in Hc by zmod.
    exists h', r, c. split; [exact E |]. split; [lia |]. split; [exact Hc | exact H].
Qed.

(** The physical addresses of [n] bytes of a ring of [S] bytes at [data], from
    position [a] on. *)
Definition ring_phys (data S a n : Z) : list Z :=
  (fun i => phys (data + (a + i) mod S)) <$> seqZ 0 n.

Lemma ring_phys_app data S a n :
  0 <= a < S -> 0 <= n <= S ->
  let l := Z.min n (S - a) in
  ring_phys data S a n = phys_range (data + a) l ++ phys_range data (n - l).
Proof.
  intros Ha Hn l. unfold ring_phys, phys_range.
  replace n with (l + (n - l)) at 1 by lia. rewrite seqZ_app, fmap_app by lia. f_equal.
  - apply list_fmap_ext. intros i x [-> Hi]%lookup_seqZ. rewrite Z.mod_small by lia. f_equal. lia.
  - replace (seqZ (0 + l) (n - l)) with (Z.add l <$> seqZ 0 (n - l))
      by (rewrite fmap_add_seqZ; f_equal; lia).
    rewrite <- list_fmap_compose. apply list_fmap_ext. intros i x [Hx Hi]%lookup_seqZ. cbn.
    replace (a + (l + x)) with (x + 1 * S) by lia.
    rewrite Z.mod_add, Z.mod_small by lia. reflexivity.
Qed.

Lemma take_seqZ_map (g : Z -> Z) n c :
  0 <= c <= n -> take (Z.to_nat c) (g <$> seqZ 0 n) = g <$> seqZ 0 c.
Proof.
  intros Hc. rewrite <- fmap_take. f_equal.
  replace n with (c + (n - c)) by lia. rewrite seqZ_app by lia.
  rewrite take_app_le by (rewrite length_seqZ; lia). apply take_ge. rewrite length_seqZ. lia.
Qed.

Lemma length_phys_range a n : 0 <= n -> length (phys_range a n) = Z.to_nat n.
Proof. intros Hn. unfold phys_range. rewrite length_fmap, length_seqZ. lia. Qed.

Lemma segs_app h sgl r k :
  0 <= r -> segs h sgl (Z.to_nat r + k) = segs h sgl (Z.to_nat r) ++ segs h (sg_at sgl r) k.
Proof.
  intros Hr. rewrite <- (Z2Nat.id r) at 3 by lia. generalize (Z.to_nat r) as n. intros n. revert sgl.
  induction n as [|n IH]; intros sgl; cbn [segs Nat.add].
  - now replace (sg_at sgl (Z.of_nat 0)) with sgl by (unfold sg_at; lia).
  - rewrite IH, sg_at_at, <- app_assoc. do 4 f_equal. lia.
Qed.

Lemma flat_from h sgl N r : flat h sgl N -> 0 <= r -> flat h (sg_at sgl r) (N - r).
Proof.
  intros H Hr i Hi. rewrite sg_at_at. destruct (H (r + i)) as (s & Hs & Hm); [lia |].
  exists s. split; [exact Hs |]. rewrite Hm. ztest; lia.
Qed.

(** [setup_sgl] describes the ring from [off] on, up to where the entries go. *)
Lemma setup_sgl_ok m f h data sgl N len off :
  wf m f -> flat h sgl N -> 0 <= N -> 0 < sgl -> 0 <= data ->
  data + capacity f * k_esize f + 2 * PAGE_SIZE <= W32 -> 0 <= len <= capacity f ->
  let S := capacity f * k_esize f in
  exists h' r c,
    setup_sgl virt_to_page page_to_phys h f data sgl N len off = Ok (h', r) /\ 0 <= r <= N /\
    0 <= c <= len * k_esize f /\
    segs h' sgl (Z.to_nat r) = ring_phys data S (off mod capacity f * k_esize f) c /\
    (c = len * k_esize f \/ r = N).
Proof.
  intros Hwf Hfl HN Hsgl Hd HW Hl S. destruct (span_bounds _ _ Hwf len off Hl) as (Ha & Hn & Hcut & Hend).
  unfold setup_sgl. rewrite (span_eq m) by assumption.
  set (a := off mod capacity f * k_esize f) in *. set (n := len * k_esize f) in *.
  replace ((capacity f - off mod capacity f) * k_esize f) with (S - a) in * by (subst S a; lia).
  set (l := Z.min n (S - a)) in *. fold S in Ha, Hn, Hend, HW.
  pose proof (ring_phys_app data S a n Ha Hn) as Hring. cbn zeta in Hring. fold l in Hring.
  unfold PAGE_SIZE in HW. rewrite (u32_small (data + a)), (u32_small (n - l)) by lia.
  destruct (setup_sgl_buf_ok h sgl (data + a) N l) as (h1 & r1 & c1 & -> & Hr1 & (Hc1 & Hs1 & Hd1) & Hf1 & Ho1);
    try assumption; try lia; [unfold PAGE_SIZE; lia |]. cbn [rbind].
  destruct (setup_sgl_buf_ok h1 (sg_at sgl r1) data (N - r1) (n - l))
    as (h2 & r2 & c2 & -> & Hr2 & (Hc2 & Hs2 & Hd2) & Hf2 & Ho2);
    [apply flat_from; [assumption | lia] | lia | unfold sg_at, sizeof_sg; lia | lia | lia | unfold PAGE_SIZE; lia |].
  cbn [rbind]. assert (segs h2 sgl (Z.to_nat r1) = phys_range (data + a) c1) as Hs1'.
  { rewrite <- Hs1. apply segs_agree. intros i Hi. apply Ho2. intros j Hj.
    unfold sg_at, sizeof_sg. lia. }
  destruct (Z.eq_dec c1 l) as [->|Hne].
  - exists h2, (r1 + r2), (l + c2). split; [reflexivity |]. do 2 (split; [lia |]). split; [|lia].
    rewrite Z2Nat.inj_add, segs_app, Hs1', Hs2 by lia.
    unfold ring_phys at 1. rewrite <- (take_seqZ_map _ n) by lia. fold (ring_phys data S a n).
    rewrite Hring, take_app_ge by (rewrite length_phys_range; lia). f_equal.
    rewrite length_phys_range by lia. unfold phys_range. rewrite <- (take_seqZ_map _ (n - l)) by lia.
    f_equal. lia.
  - assert (r2 = 0) as -> by lia. exists h2, (r1 + 0), c1. split; [reflexivity |].
    do 2 (split; [lia |]). split; [|lia]. rewrite Z.add_0_r, Hs1'.
    unfold ring_phys at 1. rewrite <- (take_seqZ_map _ n) by lia. fold (ring_phys data S a n).
    rewrite Hring, take_app_le by (rewrite length_phys_range; lia).
    unfold phys_range. now rewrite (take_seqZ_map _ l) by lia.
Qed.
End Segments.

(** C30: a DMA transfer prepared on a kfifo covers the right bytes in the right
    order: over a terminated table of [N] entries, [kfifo_dma_in_prepare]
    fills [r <= N] of them, and the physical bytes the entries name, one after
    the other, are those of the ring positions from [in] on (from [out] on for
    [kfifo_dma_out_prepare]), wrapped at the end of the buffer: all the
    elements asked for that are free (present), unless the table is used up. *)
Theorem kfifo_dma_prepare_spec vtp ptp (HP : page_map vtp ptp) m f h data sgl N len :
  wf m f -> flat h sgl N -> 0 <= N -> 0 < sgl -> 0 <= data ->
  data + capacity f * k_esize f + 2 * PAGE_SIZE <= W32 -> 0 <= len ->
  let S := capacity f * k_esize f in
  let ki := Z.min len (capacity f - used f) in
  let ko := Z.min len (used f) in
  (exists h' r c, kfifo_dma_in_prepare vtp ptp 0 h f data sgl N len = Ok (h', r) /\ 0 <= r <= N /\
     0 <= c <= ki * k_esize f /\
     segs ptp h' sgl (Z.to_nat r) = ring_phys vtp ptp data S (k_in f mod capacity f * k_esize f) c /\
     (c = ki * k_esize f \/ r = N)) /\
  (exists h' r c, kfifo_dma_out_prepare vtp ptp 0 h f data sgl N len = Ok (h', r) /\ 0 <= r <= N /\
     0 <= c <= ko * k_esize f /\
     segs ptp h' sgl (Z.to_nat r) = ring_phys vtp ptp data S (k_out f mod capacity f * k_esize f) c /\
     (c = ko * k_esize f \/ r = N)).
Proof.
  intros Hwf Hfl HN Hsgl Hd HW Hl S ki ko. pose proof (wf_used _ _ Hwf). pose proof (used_nonneg f).
  unfold kfifo_dma_in_prepare, kfifo_dma_out_prepare. cbn [truthy Z.eqb negb].
  unfold __kfifo_dma_in_prepare, __kfifo_dma_out_prepare. rewrite (unused_eq m) by assumption.
  fold (used f). split.
  - replace (if _ <? _ then _ else _) with ki by (subst ki; ztest; lia).
    apply (setup_sgl_ok vtp ptp HP m); (assumption || lia).
  - replace (if _ <? _ then _ else _) with ko by (subst ko; ztest; lia).
    apply (setup_sgl_ok vtp ptp HP m); (assumption || lia).
Qed.

(** Identity-mapped pages, [struct page]s 32 bytes apart. *)
Definition id_page (a : Z) : Z := a / PAGE_SIZE * 32.
Definition id_phys (p : Z) : Z := u32 (p / 32 * PAGE_SIZE).

Lemma id_page_map : page_map id_page id_phys.
Proof.
  unfold id_page, id_phys. split.
  - intros a. change 3 with (2 ^ 2 - 1). rewrite land_mask by lia. unfold PAGE_SIZE. change (2 ^ 2) with 4. zmod.
  - intros a. rewrite Z.div_mul by (unfold PAGE_SIZE; lia). reflexivity.
  - intros a. apply u32_range.
Qed.

Definition table2 : sgs := {[ 500 := SG 0 0 0 0 0; 520 := SG 2 0 0 0 0 ]}.

Lemma kfifo_dma_prepare_spec_witness :
  exists h' r c, kfifo_dma_out_prepare id_page id_phys 0 table2 sample_fifo 8190 500 2 2 = Ok (h', r) /\
    segs id_phys h' 500 (Z.to_nat r) = ring_phys id_page id_phys 8190 8 6 c.
Proof.
  destruct (kfifo_dma_prepare_spec id_page id_phys id_page_map sample_mem sample_fifo table2 8190 500 2 2)
    as [_ (h' & r & c & E & _ & _ & Hs & _)].
  - apply sample_wf.
  - intros i Hi. assert (i = 0 \/ i = 1) as [-> | ->] by lia; eexists; split; reflexivity.
  - lia.
  - lia.
  - lia.
  - vm_compute. discriminate.
  - lia.
  - exists h', r, c. split; [exact E | exact Hs].
Defined.

(** DMA of a record.  The payload is cut to what the header can count.  Without
    room for it and its header (or, going out, without that many bytes present)
    nothing is prepared and the result is 0; otherwise the entries name the ring
    positions behind the header, in order, for the whole payload unless the
    table is used up.  A table without entries is a bug check. *)
Theorem kfifo_dma_prepare_r_spec vtp ptp (HP : page_map vtp ptp) m f h data sgl N len recsize :
  wf m f -> k_esize f = 1 -> flat h sgl N -> 0 <= N -> 0 < sgl -> 0 <= data ->
  data + capacity f + 2 * PAGE_SIZE <= W32 -> 0 <= len -> recsize = 1 \/ recsize = 2 ->
  let n := Z.min len (max_rec recsize) in
  let prepared prep room pos :=
    if N =? 0 then prep = Err Panic
    else if room <? n + recsize then prep = Ok (h, 0)
    else exists h' r c, prep = Ok (h', r) /\ 0 <= r <= N /\ 0 <= c <= n /\
      segs ptp h' sgl (Z.to_nat r) = ring_phys vtp ptp data (capacity f) ((pos ⊞ recsize) mod capacity f) c /\
      (c = n \/ r = N) in
  prepared (kfifo_dma_in_prepare vtp ptp recsize h f data sgl N len) (capacity f - used f) (k_in f) /\
  prepared (kfifo_dma_out_prepare vtp ptp recsize h f data sgl N len) (used f) (k_out f).
Proof.
  intros Hwf He Hfl HN Hsgl Hd HW Hl Hr n prepared. pose proof (wf_used _ _ Hwf). pose proof (used_nonneg f).
  assert (0 <= max_rec recsize < 65536) as Hmax by (destruct Hr as [-> | ->]; now vm_compute).
  assert (0 <= n < 65536) as Hn by lia.
  assert (truthy recsize = true) as Ht by (destruct Hr as [-> | ->]; reflexivity).
  assert (n ⊞ recsize = n + recsize) as Hs by (apply u32_small; lia).
  assert (forall pos, n <= capacity f -> exists h' r c, setup_sgl vtp ptp h f data sgl N n pos = Ok (h', r) /\ 0 <= r <= N /\ 0 <= c <= n /\
      segs ptp h' sgl (Z.to_nat r) = ring_phys vtp ptp data (capacity f) (pos mod capacity f) c /\ (c = n \/ r = N)) as Hset.
  { intros pos Hc. destruct (setup_sgl_ok vtp ptp HP m f h data sgl N n pos) as (h' & r & c & E & H1 & H2 & H3 & H4);
      rewrite ?He, ?Z.mul_1_r; try (assumption || lia). rewrite He, !Z.mul_1_r in *. exists h', r, c. auto. }
  unfold kfifo_dma_in_prepare, kfifo_dma_out_prepare. rewrite Ht. unfold __kfifo_dma_in_prepare_r, __kfifo_dma_out_prepare_r.
  rewrite (unused_eq m) by assumption. fold (used f). rewrite (max_r_eq _ _ Hr). cbn [rbind]. fold n. rewrite Hs.
  unfold prepared. split; (destruct (N =? 0); cbn [negb cassert rbind]; [reflexivity |]).
  - destruct (Z.ltb_spec (capacity f - used f) (n + recsize)); [reflexivity | apply Hset; lia].
  - destruct (Z.ltb_spec (used f) (n + recsize)); [reflexivity | apply Hset; lia].
Qed.

Lemma kfifo_dma_prepare_r_spec_witness :
  kfifo_dma_in_prepare id_page id_phys 1 table2 (Kfifo 3 1 7 1 (Ptr 1 0)) 8190 500 2 9 = Ok (table2, 0) /\
  exists h' r c, kfifo_dma_in_prepare id_page id_phys 1 table2 (Kfifo 3 1 7 1 (Ptr 1 0)) 8190 500 2 4 = Ok (h', r) /\
    segs id_phys h' 500 (Z.to_nat r) = ring_phys id_page id_phys 8190 8 4 c.
Proof.
  assert (wf (Mem {[ 1 := replicate 8 0 ]} ∅) (Kfifo 3 1 7 1 (Ptr 1 0))) as Hwf.
  { split; try (now vm_compute); [now exists 3 | eexists; split; reflexivity]. }
  assert (flat table2 500 2) as Hfl
    by (intros i Hi; assert (i = 0 \/ i = 1) as [-> | ->] by lia; eexists; split; reflexivity).
  split.
  - refine (proj1 (kfifo_dma_prepare_r_spec id_page id_phys id_page_map _ _ table2 8190 500 2 9 1 Hwf eq_refl Hfl _ _ _ _ _ (or_introl eq_refl)));
      try lia. vm_compute. discriminate.
  - destruct (proj1 (kfifo_dma_prepare_r_spec id_page id_phys id_page_map _ _ table2 8190 500 2 4 1 Hwf eq_refl Hfl
                ltac:(lia) ltac:(lia) ltac:(lia) ltac:(vm_compute; discriminate) ltac:(lia) (or_introl eq_refl)))
      as (h' & r & c & E & _ & _ & H & _). exists h', r, c. split; [exact E | exact H].
Defined.

(** [setup_sgl_buf] on a buffer that ends exactly at the end of a page whose
    successor is not physically adjacent: the loop test [len >= l + PAGE_SIZE -
    off] also holds at equality, so after the entry that covers the buffer a
    second entry of length zero is filled in, naming the page after the buffer,
    and 2 is returned. *)
Theorem setup_sgl_buf_zero_entry vtp ptp (HP : page_map vtp ptp) h sgl N k off :
  flat h sgl N -> 2 <= N -> 0 < sgl -> 0 <= k -> 0 <= off < PAGE_SIZE ->
  (k + 3) * PAGE_SIZE <= W32 ->
  frame vtp ptp (k + 1) <> u32 (frame vtp ptp k + PAGE_SIZE) ->
  exists h' s,
    setup_sgl_buf vtp ptp h sgl (k * PAGE_SIZE + off) N (PAGE_SIZE - off) = Ok (h', 2) /\
    h' !! sg_at sgl 1 = Some s /\ sg_length s = 0 /\ sg_page s = vtp ((k + 1) * PAGE_SIZE).
Proof.
  intros Hfl HN Hsgl Hk Ho HW Hbreak. unfold setup_sgl_buf.
  destruct (Z.eqb_spec N 0); [lia |]. destruct (Z.eqb_spec (PAGE_SIZE - off) 0); [lia |].
  replace (Z.to_nat ((PAGE_SIZE - off) / PAGE_SIZE + 2))
    with (S (S (Z.to_nat ((PAGE_SIZE - off) / PAGE_SIZE)))) by (unfold PAGE_SIZE in *; zmod).
  rewrite offset_in_page_mod.
  assert ((k * PAGE_SIZE + off) mod PAGE_SIZE = off) as -> by (unfold PAGE_SIZE in *; zmod).
  assert (vtp (k * PAGE_SIZE + off) = vtp (k * PAGE_SIZE)) as ->.
  { rewrite (page_whole _ _ HP). f_equal. unfold PAGE_SIZE in *; zmod. }
  cbn [setup_sgl_loop]. rewrite !u32_sub_l, !Z.add_0_l, (u32_small (PAGE_SIZE - off)), Z.leb_refl
    by (unfold PAGE_SIZE in *; lia).
  assert (vtp (u32 (k * PAGE_SIZE + off + PAGE_SIZE)) = vtp ((k + 1) * PAGE_SIZE)) as ->.
  { rewrite u32_small by (unfold PAGE_SIZE in *; lia).
    rewrite (page_whole _ _ HP). f_equal. unfold PAGE_SIZE in *; zmod. }
  fold (frame vtp ptp k) (frame vtp ptp (k + 1)). rewrite (u32_small PAGE_SIZE) by (unfold PAGE_SIZE; lia).
  pose proof (page_word _ _ HP ((k + 1) * PAGE_SIZE)) as Hw. fold (frame vtp ptp (k + 1)) in Hw.
  destruct (Z.eqb_spec (frame vtp ptp k) (frame vtp ptp (k + 1) ⊟ PAGE_SIZE)) as [E|_].
  { exfalso. apply Hbreak. rewrite E, u32_add_l. rewrite <- (u32_small (frame vtp ptp (k + 1))) at 1 by lia.
    f_equal. lia. }
  cbn [negb]. destruct (flat_head _ _ _ Hfl) as (s & Hs & _); [lia |].
  pose proof (page_aligned _ _ HP) as Hal.
  rewrite (set_page_ok h sgl s) by auto. cbn [rbind].
  pose proof (flat_fill h sgl N sgl s (vtp (k * PAGE_SIZE)) (PAGE_SIZE - off) off Hfl Hs (Hal _)) as Hf1.
  rewrite (sg_next_flat _ _ N) by (assumption || lia). cbn [rbind].
  destruct (Z.eqb_spec N 1); [lia |]. destruct (Z.eqb_spec 1 N); [lia |].
  destruct (Z.eqb_spec (sg_at sgl 1) 0) as [E|_]; [unfold sg_at, sizeof_sg in E; lia |]. cbn [orb].
  rewrite ?Z.add_0_l, ?Z.sub_diag, ?Z.sub_0_r, ?u32_idemp. change (u32 0) with 0.
  rewrite ?(u32_small PAGE_SIZE) by (unfold PAGE_SIZE; lia). cbn [PAGE_SIZE Z.leb Z.compare].
  destruct (flat_head _ _ _ (flat_tail _ _ _ Hf1)) as (s1 & Hs1 & _); [lia |].
  rewrite (set_page_ok _ (sg_at sgl 1) s1) by auto. cbn [rbind].
  eexists _, _. split; [reflexivity |]. split; [apply lookup_insert_eq |].
  split; [reflexivity | now apply filled_page].
Qed.

(** Pages in descending physical order, where no page follows another. *)
Definition down_phys (p : Z) : Z := u32 (- (p / 32 * PAGE_SIZE)).

Lemma down_page_map : page_map id_page down_phys.
Proof.
  destruct id_page_map as [H1 H2 _]. split; [exact H1 | exact H2 |]. intros a. apply u32_range.
Qed.

Lemma setup_sgl_buf_zero_entry_witness :
  exists h' s, setup_sgl_buf id_page down_phys table2 500 8292 2 3996 = Ok (h', 2) /\
    h' !! 520 = Some s /\ sg_length s = 0.
Proof.
  destruct (setup_sgl_buf_zero_entry id_page down_phys down_page_map table2 500 2 2 100)
    as (h' & s & E & Hs & Hl & _).
  - intros i Hi. assert (i = 0 \/ i = 1) as [-> | ->] by lia; eexists; split; reflexivity.
  - lia.
  - lia.
  - lia.
  - unfold PAGE_SIZE. lia.
  - vm_compute. discriminate.
  - vm_compute. discriminate.
  - exists h', s. split; [exact E | split; [exact Hs | exact Hl]].
Defined.

(** ** Walking a table *)

(** The loop [for (sg = sgl; sg; sg = sg_next(sg))] and the entries it visits. *)
Fixpoint sg_walk (fuel : nat) (h : sgs) (sg : Z) : res (list Z) :=
  if sg =? 0 then Ok []
  else
    match fuel with
    | O => Err OutOfFuel
    | S fuel =>
        let! next := sg_next h sg in
        let! rest := sg_walk fuel h next in
        Ok (sg :: rest)
    end.

(** The addresses of [n] entries of an array. *)
Definition entries (sgl n : Z) : list Z := sg_at sgl <$> seqZ 0 n.

Lemma entries_cons sgl n : 0 < n -> entries sgl n = sgl :: entries (sg_at sgl 1) (n - 1).
Proof.
  intros Hn. unfold entries. rewrite seqZ_cons by lia. rewrite fmap_cons.
  replace (sg_at sgl 0) with sgl by (unfold sg_at; lia). f_equal.
  replace (seqZ (Z.succ 0) (Z.pred n)) with (Z.add 1 <$> seqZ 0 (n - 1))
    by (rewrite fmap_add_seqZ; f_equal; lia).
  rewrite <- list_fmap_compose. apply list_fmap_ext. intros i x _. cbn. now rewrite sg_at_at.
Qed.

Lemma walk_flat n : forall fuel h sgl,
  (n <= fuel)%nat -> flat h sgl (Z.of_nat n) -> 0 < sgl -> (0 < n)%nat ->
  sg_walk fuel h sgl = Ok (entries sgl (Z.of_nat n)).
Proof.
  induction n as [|n IH]; intros fuel h sgl Hf Hfl Hs Hn; [lia |].
  destruct fuel as [|fuel]; [lia |]. cbn [sg_walk].
  destruct (Z.eqb_spec sgl 0); [lia |]. rewrite (sg_next_flat _ _ (Z.of_nat (S n))) by (assumption || lia).
  cbn [rbind]. rewrite entries_cons by lia. replace (Z.of_nat (S n) - 1) with (Z.of_nat n) by lia.
  destruct (Z.eqb_spec (Z.of_nat (S n)) 1) as [E|E].
  - assert (n = 0)%nat as -> by lia. destruct fuel; reflexivity.
  - rewrite IH; [reflexivity | lia | | unfold sg_at, sizeof_sg; lia | lia].
    replace (Z.of_nat n) with (Z.of_nat (S n) - 1) by lia. now apply flat_tail.
Qed.

(** [n] unmarked entries at [prv], the last of which points to [sgl]. *)
Definition chained (h : sgs) (prv n sgl : Z) : Prop :=
  forall i, 0 <= i < n -> exists s, h !! sg_at prv i = Some s /\
    (if i =? n - 1 then marks s = 1 /\ sg_chain_ptr s = sgl else marks s = 0).

Lemma sg_next_from h sg s0 s1 :
  h !! sg = Some s0 -> h !! sg_at sg 1 = Some s1 -> marks s0 = 0 ->
  sg_next h sg = Ok (if truthy (marks s1 .& 1) then sg_chain_ptr s1 else sg_at sg 1).
Proof.
  intros H0 H1 Hm. unfold sg_next. rewrite (get_ok _ _ _ H0). cbn [rbind].
  rewrite marks_last, Hm. change (truthy (0 .& 2)) with false. cbn iota.
  rewrite (get_ok _ _ _ H1). cbn [rbind]. rewrite marks_chain. now destruct (truthy _).
Qed.

Lemma walk_chained n : forall fuel h prv sgl k,
  (n + k <= fuel)%nat -> chained h prv (Z.of_nat (S (S n))) sgl -> flat h sgl (Z.of_nat (S k)) ->
  0 < prv -> 0 < sgl ->
  sg_walk (S (S fuel)) h prv = Ok (entries prv (Z.of_nat (S n)) ++ entries sgl (Z.of_nat (S k))).
Proof.
  induction n as [|n IH]; intros fuel h prv sgl k Hf Hch Hfl Hp Hs; cbn [sg_walk];
    (destruct (Z.eqb_spec prv 0); [lia |]);
    (destruct (Hch 0) as (s0 & Hs0 & Hm0); [lia |]); (destruct (Hch 1) as (s1 & Hs1 & Hm1); [lia |]);
    replace (sg_at prv 0) with prv in Hs0 by (unfold sg_at; lia).
  - cbn in Hm0, Hm1. destruct Hm1 as [Hm1 Hptr].
    rewrite (sg_next_from _ _ _ _ Hs0 Hs1 Hm0), Hm1, Hptr. change (truthy (1 .& 1)) with true. cbn [rbind].
    pose proof (walk_flat (S k) (S fuel) h sgl) as Hw. cbn [sg_walk] in Hw.
    rewrite Hw by (assumption || lia). cbn [rbind].
    rewrite (entries_cons prv) by lia. reflexivity.
  - destruct (Z.eqb_spec 0 (Z.of_nat (S (S (S n))) - 1)); [lia |].
    destruct (Z.eqb_spec 1 (Z.of_nat (S (S (S n))) - 1)); [lia |].
    rewrite (sg_next_from _ _ _ _ Hs0 Hs1 Hm0), Hm1. change (truthy (0 .& 1)) with false. cbn [rbind].
    destruct fuel as [|fuel]; [lia |].
    pose proof (IH fuel h (sg_at prv 1) sgl k) as Hw. cbn [sg_walk] in Hw |- *.
    rewrite Hw; [| lia | | assumption | unfold sg_at, sizeof_sg; lia | assumption].
    + cbn [rbind]. rewrite (entries_cons prv) by lia.
      replace (Z.of_nat (S (S n)) - 1) with (Z.of_nat (S n)) by lia. reflexivity.
    + intros i Hi. rewrite sg_at_at. destruct (Hch (1 + i)) as (s & Hsi & Hmi); [lia |].
      exists s. split; [exact Hsi |].
      replace (i =? Z.of_nat (S (S n)) - 1) with (1 + i =? Z.of_nat (S (S (S n))) - 1) by (ztest; lia).
      exact Hmi.
Qed.

(** [sg_next] looks at nothing but the links. *)
Definition same_links (h h' : sgs) : Prop := forall a, page_link <$> h !! a = page_link <$> h' !! a.

Lemma sg_next_links h h' sg : same_links h h' -> sg_next h sg = sg_next h' sg.
Proof.
  intros H. assert (forall a, page_link <$> h !! a = page_link <$> h' !! a) as H' by exact H.
  unfold sg_next, get, sg_is_last, sg_is_chain, sg_chain_ptr.
  pose proof (H' sg) as E. destruct (h !! sg), (h' !! sg); try discriminate E; [|reflexivity].
  injection E as E. cbn [rbind]. rewrite E. destruct (truthy _); [reflexivity |].
  pose proof (H' (sg_at sg 1)) as F. destruct (h !! sg_at sg 1), (h' !! sg_at sg 1); try discriminate F; [|reflexivity].
  injection F as F. cbn [rbind]. now rewrite F.
Qed.

Lemma sg_walk_links fuel : forall h h' sg, same_links h h' -> sg_walk fuel h sg = sg_walk fuel h' sg.
Proof.
  induction fuel as [|fuel IH]; intros h h' sg H; cbn [sg_walk]; [reflexivity |].
  rewrite (sg_next_links h h') by exact H. destruct (sg =? 0); [reflexivity |].
  destruct (sg_next h' sg); [|reflexivity]. cbn [rbind]. now rewrite (IH h h').
Qed.

Section ForEach.
Context {A : Type} (body : A -> sgs -> Z -> res (A * sgs)).

(** The body on each entry of a list, in order. *)
Fixpoint visit (a : A) (h : sgs) (l : list Z) : res (A * sgs) :=
  match l with
  | [] => Ok (a, h)
  | sg :: l => let! (a, h) := body a h sg in visit a h l
  end.

Definition keeps_links : Prop :=
  forall a h sg a' h', body a h sg = Ok (a', h') -> same_links h h'.

(** Counting as many rounds as the walk has entries is visiting them. *)
Lemma for_each_sg_walk l : keeps_links -> forall fuel a h sg,
  sg_walk fuel h sg = Ok l -> for_each_sg body a h sg (length l) = visit a h l.
Proof.
  intros Hb. induction l as [|x l IH]; intros fuel a h sg Hw; [reflexivity |].
  destruct fuel as [|fuel]; cbn [sg_walk] in Hw; destruct (sg =? 0); try discriminate Hw.
  destruct (sg_next h sg) as [next|] eqn:En; [|discriminate Hw]. cbn [rbind] in Hw.
  destruct (sg_walk fuel h next) as [r|] eqn:Er; [|discriminate Hw]. cbn [rbind] in Hw.
  injection Hw as <- <-. cbn [length for_each_sg visit].
  destruct (body a h sg) as [[a' h']|] eqn:Eb; [|reflexivity]. cbn [rbind].
  pose proof (Hb _ _ _ _ _ Eb) as Hl. rewrite <- (sg_next_links h h' sg Hl), En. cbn [rbind].
  apply (IH fuel). now rewrite <- (sg_walk_links fuel h h').
Qed.
End ForEach.

(** C39: chaining two tables.  After [sg_chain] links the last of the [n + 2]
    unmarked entries at [prv] to a terminated table of [k + 1] entries at
    [sgl], following [sg_next] from [prv] visits the first [n + 1] entries of
    [prv] (the linking one is skipped), then all those of [sgl], and stops; and
    [for_each_sg] with their number runs its body on exactly these entries, in
    this order, for every body that leaves the links alone. *)
Theorem sg_chain_walk {A} (body : A -> sgs -> Z -> res (A * sgs)) h prv n sgl k fuel :
  keeps_links body ->
  (forall i, 0 <= i < Z.of_nat (n + 2) -> exists s, h !! sg_at prv i = Some s /\ marks s = 0) ->
  flat h sgl (Z.of_nat (k + 1)) -> sgl .& 3 = 0 -> 0 < prv -> 0 < sgl ->
  (forall i j, 0 <= i < Z.of_nat (n + 2) -> 0 <= j < Z.of_nat (k + 1) -> sg_at prv i <> sg_at sgl j) ->
  (n + k + 2 <= fuel)%nat ->
  exists h', sg_chain h prv (Z.of_nat (n + 2)) sgl = Ok h' /\
    let l := entries prv (Z.of_nat (n + 1)) ++ entries sgl (Z.of_nat (k + 1)) in
    sg_walk fuel h' prv = Ok l /\
    (forall a, for_each_sg body a h' prv (n + k + 2) = visit body a h' l).
Proof.
  intros Hb Hprv Hfl Hal Hp Hs Hdis Hfu.
  enough (exists h', sg_chain h prv (Z.of_nat (n + 2)) sgl = Ok h' /\
    sg_walk fuel h' prv = Ok (entries prv (Z.of_nat (n + 1)) ++ entries sgl (Z.of_nat (k + 1)))) as (h' & E & Hw).
  { exists h'. split; [exact E |]. split; [exact Hw |]. intros a.
    rewrite <- (for_each_sg_walk body _ Hb fuel a h' prv Hw). f_equal.
    rewrite length_app. unfold entries. rewrite !length_fmap, !length_seqZ. lia. }
  unfold sg_chain.
  destruct (Hprv (Z.of_nat (n + 2) - 1)) as (s & Hsl & Hm); [lia |].
  rewrite (get_ok _ _ _ Hsl). cbn [rbind]. eexists. split; [reflexivity |].
  set (lst := SG _ 0 0 (dma_address s) (dma_length s)).
  assert (marks lst = 1 /\ sg_chain_ptr lst = sgl) as Hlst.
  { unfold marks, sg_chain_ptr. cbn [page_link lst].
    assert (Z.ldiff (sgl .| 1) 2 = Z.lor (1 .& 3) sgl) as ->.
    { rewrite <- (ldiff_clear sgl Hal). apply Z.bits_inj'. intros i Hi.
      rewrite !Z.ldiff_spec, !Z.lor_spec, !Z.ldiff_spec, Z.land_spec.
      assert (i = 0 \/ i = 1 \/ 2 <= i) as [-> | [-> | Hi2]] by lia;
        [destruct (Z.testbit sgl 0); reflexivity | destruct (Z.testbit sgl 1); reflexivity |].
      assert (Z.testbit 3 i = false /\ Z.testbit 2 i = false /\ Z.testbit 1 i = false) as (-> & -> & ->).
      { repeat split; apply Z.bits_above_log2; cbn; lia. }
      destruct (Z.testbit sgl i); reflexivity. }
    apply (link_split 1 sgl Hal). }
  replace fuel with (S (S (fuel - 2))) by lia.
  replace (n + 1)%nat with (S n) by lia. replace (k + 1)%nat with (S k) in * by lia.
  apply walk_chained; [lia | | | assumption | assumption].
  - intros i Hi. replace (n + 2)%nat with (S (S n)) in * by lia. rewrite lookup_insert.
    case_decide as E.
    + assert (i = Z.of_nat (S (S n)) - 1) as -> by (unfold sg_at, sizeof_sg in E; lia).
      rewrite Z.eqb_refl. eauto.
    + destruct (Hprv i Hi) as (x & Hx & Hmx). exists x. split; [exact Hx |].
      destruct (Z.eqb_spec i (Z.of_nat (S (S n)) - 1)) as [->|]; [congruence | exact Hmx].
  - intros j Hj. rewrite lookup_insert_ne; [now apply Hfl |]. apply Hdis; lia.
Qed.

(** A body that sums the lengths and clears the offsets. *)
Definition sum_lengths (a : Z) (h : sgs) (sg : Z) : res (Z * sgs) :=
  let! s := get h sg in
  Ok (a ⊞ sg_length s, <[sg := SG (page_link s) 0 (sg_length s) (dma_address s) (dma_length s)]> h).

Lemma sum_lengths_keeps : keeps_links sum_lengths.
Proof.
  intros a h sg a' h' E b. unfold sum_lengths, get in E. destruct (h !! sg) as [s|] eqn:Es; [|discriminate E].
  cbn [rbind] in E. injection E as _ <-. rewrite lookup_insert. case_decide as D; [|reflexivity].
  subst b. now rewrite Es.
Qed.

Lemma sg_chain_walk_witness :
  let h := {[ 500 := SG 0 0 7 0 0; 520 := SG 0 0 0 0 0; 1000 := SG 2 0 5 0 0 ]} : sgs in
  exists h', sg_chain h 500 2 1000 = Ok h' /\ sg_walk 2 h' 500 = Ok [500; 1000] /\
    exists h'', for_each_sg sum_lengths 0 h' 500 2 = Ok (12, h'').
Proof.
  intros h. destruct (sg_chain_walk sum_lengths h 500 0 1000 0 2) as (h' & E & Hw & Hv).
  - apply sum_lengths_keeps.
  - intros i Hi. assert (i = 0 \/ i = 1) as [-> | ->] by lia; eexists; split; reflexivity.
  - intros i Hi. assert (i = 0) as -> by lia. eexists; split; reflexivity.
  - reflexivity.
  - lia.
  - lia.
  - intros i j Hi Hj. unfold sg_at, sizeof_sg. lia.
  - lia.
  - exists h'. split; [exact E |]. split; [exact Hw |].
    specialize (Hv 0). cbn [Nat.add] in Hv. rewrite Hv.
    vm_compute in E. injection E as <-. vm_compute. eauto.
Defined.

(** ** Entries that name a buffer *)

(** Pages below the top of low memory have a mapping that [page_address]
    gives back. *)
Definition lowmem (virt_to_page page_address : Z -> Z) : Prop :=
  forall a, page_address (virt_to_page a) = a / PAGE_SIZE * PAGE_SIZE.

(** An entry set to a buffer leads back to it: its virtual address is the
    buffer's, its physical one is where the buffer's first byte lies, its length
    is the one given and the marks of the entry stay; no other entry changes. *)
Theorem sg_set_buf_roundtrip vtp ptp pa (HP : page_map vtp ptp) h sg s buf len :
  lowmem vtp pa -> h !! sg = Some s -> 0 <= buf < W32 ->
  exists h' s', sg_set_buf vtp h sg buf len = Ok h' /\ h' !! sg = Some s' /\
    sg_virt pa s' = buf /\ sg_phys ptp s' = phys vtp ptp buf /\
    sg_length s' = len /\ marks s' = marks s /\ sg_dma_address s' = sg_dma_address s /\
    (forall a, a <> sg -> h' !! a = h !! a).
Proof.
  intros Hpa Hs Hb. pose proof (page_aligned _ _ HP buf) as Hal. unfold sg_set_buf.
  rewrite (set_page_ok _ _ _ _ _ _ Hs Hal). eexists _, _. split; [reflexivity |].
  rewrite lookup_insert_eq. split; [reflexivity |].
  unfold sg_virt, sg_phys. rewrite filled_page by exact Hal. cbn [filled sg_offset sg_length].
  rewrite offset_in_page_mod, Hpa. split.
  { rewrite u32_small; unfold PAGE_SIZE in *; [|zmod]. zmod. }
  split; [reflexivity |]. split; [reflexivity |]. split; [now apply filled_marks |].
  split; [reflexivity |]. intros a Ha. now rewrite lookup_insert_ne.
Qed.

Lemma sg_set_buf_roundtrip_witness :
  exists h' s', sg_set_buf id_page table2 520 8200 30 = Ok h' /\ h' !! 520 = Some s' /\
    sg_virt (fun p => p / 32 * PAGE_SIZE) s' = 8200 /\ marks s' = 2.
Proof.
  destruct (sg_set_buf_roundtrip id_page id_phys (fun p => p / 32 * PAGE_SIZE) id_page_map
    table2 520 (SG 2 0 0 0 0) 8200 30) as (h' & s' & E & Hs & Hv & _ & _ & Hm & _).
  - intros a. unfold id_page. rewrite Z.div_mul by lia. reflexivity.
  - reflexivity.
  - lia.
  - exists h', s'. auto.
Defined.

End Scatterlist.
