(* ===== verification/UartHw.v ===== *)
(** * The 16550 register layer

    src/apps/module-loader/src/uart16550_hw.h over the port accessors of
    src/libs/liblinux/src/ioport.c, and the checks of [uart16550_ioctl].

    The seL4 port system calls and the chip behind them are not in the tree:
    they enter through [PortIO], and [Uart16550] states what the data sheet
    promises of the eight registers at a base port. *)

From S2P Require Import Prelude Bytes Log2 Memory.
Import Bytes Log2 Memory.

(** [seL4_X86_IOPort_Out8] and [seL4_X86_IOPort_In8] on a machine state: the
    new state, the byte read and the error code. *)
Class PortIO (D : Type) := {
  Out8 : D -> Z -> Z -> D * Z;
  In8 : D -> Z -> D * Z * Z
}.

(** struct uart16550_line_info *)
Record line_info := LineInfo { baud : Z; li_len : Z; par : Z; stop : Z }.

Module UartHw.

Definition UART16550_BAUD_1200 : Z := 96.
Definition UART16550_BAUD_2400 : Z := 48.
Definition UART16550_BAUD_4800 : Z := 24.
Definition UART16550_BAUD_9600 : Z := 12.
Definition UART16550_BAUD_19200 : Z := 6.
Definition UART16550_BAUD_38400 : Z := 3.
Definition UART16550_BAUD_56000 : Z := 2.
Definition UART16550_BAUD_115200 : Z := 1.
Definition UART16550_LEN_5 : Z := 0x00.
Definition UART16550_LEN_6 : Z := 0x01.
Definition UART16550_LEN_7 : Z := 0x02.
Definition UART16550_LEN_8 : Z := 0x03.
Definition UART16550_STOP_1 : Z := 0x00.
Definition UART16550_STOP_2 : Z := 0x04.
Definition UART16550_PAR_NONE : Z := 0x00.
Definition UART16550_PAR_ODD : Z := 0x08.
Definition UART16550_PAR_EVEN : Z := 0x18.
Definition UART16550_PAR_STICK : Z := 0x20.

Definition THR : Z := 0x00.
Definition RBR : Z := 0x00.
Definition IER : Z := 0x01.
Definition DLL : Z := 0x00.
Definition DLM : Z := 0x01.
Definition ISR : Z := 0x02.
Definition FCR : Z := 0x02.
Definition LCR : Z := 0x03.
Definition MCR : Z := 0x04.
Definition LSR : Z := 0x05.
Definition MSR : Z := 0x06.

Definition UART16550_IOCTL_SET_LINE : Z := 1.

Section Hw.
Context {D : Type} {IO : PortIO D}.

(** ioport.c: a failing system call is fatal. *)
Definition outb (d : D) (v port : Z) : res D :=
  let '(d, err) := Out8 d port (u8 v) in
  let! _ := cassert (err =? 0) in
  Ok d.

Definition inb (d : D) (port : Z) : res (D * Z) :=
  let '(d, result, err) := In8 d port in
  let! _ := cassert (err =? 0) in
  Ok (d, result).

Definition WRITE_TO_REG (d : D) (port reg value : Z) : res D := outb d value (port ⊞ reg).
Definition READ_FROM_REG (d : D) (port reg : Z) : res (D * Z) := inb d (port ⊞ reg).

Definition uart16550_hw_disable_interrupts (d : D) (port : Z) : res D :=
  WRITE_TO_REG d port IER 0x00.

Definition uart16550_hw_enable_interrupts (d : D) (port : Z) : res D :=
  WRITE_TO_REG d port IER 0x03.

Definition uart16550_hw_force_interrupt_reemit (d : D) (port : Z) : res D :=
  let! d := uart16550_hw_disable_interrupts d port in
  uart16550_hw_enable_interrupts d port.

Definition uart16550_hw_set_line_parameters (d : D) (port : Z) (parameters : line_info) : res D :=
  let! d := WRITE_TO_REG d port IER 0x00 in
  let! (d, lcr) := READ_FROM_REG d port LCR in
  let! d := WRITE_TO_REG d port LCR (lcr .| 0x80) in
  let! d := WRITE_TO_REG d port DLL (baud parameters) in
  let! d := WRITE_TO_REG d port DLM 0x00 in
  let! d := WRITE_TO_REG d port LCR (li_len parameters .| stop parameters .| par parameters) in
  let! d := WRITE_TO_REG d port FCR 0xc7 in
  let! d := WRITE_TO_REG d port MCR 0x08 in
  WRITE_TO_REG d port IER 0x03.

(** The interrupt status is shifted and masked into a variable nobody reads;
    the read itself is a bus access. *)
Definition uart16550_hw_get_device_status (d : D) (port : Z) : res (D * Z) :=
  let! (d, isr_status) := READ_FROM_REG d port ISR in
  let! (d, line_status) := READ_FROM_REG d port LSR in
  Ok (d, line_status).

Definition uart16550_hw_device_can_send (device_status : Z) : Z := device_status .& 0x20.
Definition uart16550_hw_device_has_data (device_status : Z) : Z := device_status .& 0x01.

Definition uart16550_hw_write_to_device (d : D) (port byte : Z) : res D :=
  WRITE_TO_REG d port THR byte.

Definition uart16550_hw_read_from_device (d : D) (port : Z) : res (D * Z) :=
  READ_FROM_REG d port RBR.

(** The initialiser is positional: the third field is [par], the fourth
    [stop].  [region] says whether [request_region] gave a resource. *)
Definition default_param : line_info :=
  LineInfo UART16550_BAUD_115200 UART16550_LEN_8 UART16550_STOP_1 UART16550_PAR_NONE.

Definition uart16550_hw_setup_device (d : D) (region : bool) (port : Z) : res (D * Z) :=
  if negb region then Ok (d, - ENODEV)
  else
    let! (d, lsr) := READ_FROM_REG d port LSR in
    let! d := if truthy (lsr .& 0x01) then
                let! (d, _) := READ_FROM_REG d port RBR in Ok d
              else Ok d in
    let! (d, _) := READ_FROM_REG d port ISR in
    let! (d, _) := READ_FROM_REG d port MSR in
    let! d := uart16550_hw_disable_interrupts d port in
    let! d := uart16550_hw_set_line_parameters d port default_param in
    Ok (d, 0).

(** [release_region] only prints a message. *)
Definition uart16550_hw_cleanup_device (d : D) (port : Z) : res D :=
  let! d := WRITE_TO_REG d port FCR 0x00 in
  uart16550_hw_disable_interrupts d port.

(** The [switch]es of [uart16550_ioctl]. *)
Definition valid_baud (b : Z) : bool :=
  bool_decide (b ∈ [UART16550_BAUD_1200; UART16550_BAUD_2400; UART16550_BAUD_4800;
    UART16550_BAUD_9600; UART16550_BAUD_19200; UART16550_BAUD_38400;
    UART16550_BAUD_56000; UART16550_BAUD_115200]).
Definition valid_len (l : Z) : bool :=
  bool_decide (l ∈ [UART16550_LEN_5; UART16550_LEN_6; UART16550_LEN_7; UART16550_LEN_8]).
Definition valid_par (p : Z) : bool :=
  bool_decide (p ∈ [UART16550_PAR_NONE; UART16550_PAR_ODD; UART16550_PAR_EVEN; UART16550_PAR_STICK]).
Definition valid_stop (s : Z) : bool :=
  bool_decide (s ∈ [UART16550_STOP_1; UART16550_STOP_2]).

(** [user] is what [copy_from_user] into [line] gives: [None] when it faults. *)
Definition uart16550_ioctl (d : D) (port cmd : Z) (user : option line_info) : res (D * Z) :=
  if negb (cmd =? UART16550_IOCTL_SET_LINE) then Ok (d, - EINVAL)
  else
    match user with
    | None => Ok (d, - EFAULT)
    | Some line =>
        if negb (valid_baud (baud line)) then Ok (d, - EINVAL)
        else if negb (valid_len (li_len line)) then Ok (d, - EINVAL)
        else if negb (valid_par (par line)) then Ok (d, - EINVAL)
        else if negb (valid_stop (stop line)) then Ok (d, - EINVAL)
        else
          let! d := uart16550_hw_set_line_parameters d port line in
          Ok (d, 0)
    end.
End Hw.

(** ** The chip, as the data sheet has it *)

Record chip := Chip {
  c_ier : Z; c_lcr : Z; c_mcr : Z; c_fcr : Z; c_dll : Z; c_dlm : Z;
  c_rx : list Z;       (** received bytes not yet read *)
  c_sent : list Z;     (** bytes handed to the transmitter, oldest first *)
  c_room : nat         (** bytes it takes before bit 5 of LSR goes down *)
}.

(** The divisor latch access bit swaps registers 0 and 1. *)
Definition dlab (c : chip) : bool := Z.testbit (c_lcr c) 7.

(** Bits 1 and 2 of FCR clear the receiver and the transmitter; they count only
    with bit 0, which turns the chip's own queues on, and a change of bit 0
    clears both.  With the queues on, bit 5 of LSR says that the transmitter is
    empty: once cleared it takes one byte before the bit goes down. *)
Definition fcr_clears (fcr v k : Z) : bool :=
  xorb (Z.testbit fcr 0) (Z.testbit v 0) || (Z.testbit v 0 && Z.testbit v k).

#[global] Arguments fcr_clears : simpl never.

Lemma fcr_clears_both fcr : fcr_clears fcr 0xc7 1 = true /\ fcr_clears fcr 0xc7 2 = true.
Proof. split; apply orb_true_r. Qed.

Definition chip_write (c : chip) (reg v : Z) : chip :=
  let '(Chip ier lcr mcr fcr dll dlm rx sent room) := c in
  if reg =? 0 then
    if dlab c then Chip ier lcr mcr fcr v dlm rx sent room
    else Chip ier lcr mcr fcr dll dlm rx (sent ++ [v]) (Nat.pred room)
  else if reg =? 1 then
    if dlab c then Chip ier lcr mcr fcr dll v rx sent room
    else Chip v lcr mcr fcr dll dlm rx sent room
  else if reg =? 2 then
    Chip ier lcr mcr v dll dlm (if fcr_clears fcr v 1 then [] else rx) sent
      (if fcr_clears fcr v 2 then 1%nat else room)
  else if reg =? 3 then Chip ier v mcr fcr dll dlm rx sent room
  else if reg =? 4 then Chip ier lcr v fcr dll dlm rx sent room
  else c.

(** Reading register 0 takes a received byte; other reads change nothing the
    driver sees. *)
Definition chip_read (c : chip) (reg : Z) : chip :=
  let '(Chip ier lcr mcr fcr dll dlm rx sent room) := c in
  if (reg =? 0) && negb (dlab c) then Chip ier lcr mcr fcr dll dlm (tail rx) sent room else c.

(** What a read returns, where the driver relies on it. *)
Definition reads (c : chip) (reg v : Z) : Prop :=
  (reg = 0 -> dlab c = false -> forall b rx, c_rx c = b :: rx -> v = u8 b) /\
  (reg = 3 -> v = u8 (c_lcr c)) /\
  (reg = 5 -> Z.testbit v 0 = negb (bool_decide (c_rx c = [])) /\
              Z.testbit v 5 = negb (Nat.eqb (c_room c) 0)).

(** A chip at base port [p] of the machine: the calls succeed on its ports, and
    accesses elsewhere do not touch it. *)
Class Uart16550 {D} (IO : PortIO D) (p : Z) (view : D -> chip) : Prop := {
  uart_port : 0 <= p /\ p + 8 <= 65536;
  uart_out d reg v : 0 <= reg < 8 -> 0 <= v < 256 ->
    exists d', Out8 d (p + reg) v = (d', 0) /\ view d' = chip_write (view d) reg v;
  uart_in d reg : 0 <= reg < 8 ->
    exists d' r, In8 d (p + reg) = (d', r, 0) /\ 0 <= r < 256 /\
      view d' = chip_read (view d) reg /\ reads (view d) reg r;
  uart_out_other d q v : (q < p \/ p + 8 <= q) -> view (fst (Out8 d q v)) = view d;
  uart_in_other d q : (q < p \/ p + 8 <= q) -> view (fst (fst (In8 d q))) = view d
}.

Section Chip.
Context {D : Type} {IO : PortIO D} {p : Z} {view : D -> chip} {U : Uart16550 IO p view}.

Lemma write_reg_ok d reg v :
  0 <= reg < 8 ->
  exists d', WRITE_TO_REG d p reg v = Ok d' /\ view d' = chip_write (view d) reg (u8 v).
Proof.
  intros Hr. pose proof uart_port. unfold WRITE_TO_REG, outb. rewrite (u32_small (p + reg)) by lia.
  destruct (uart_out d reg (u8 v) Hr (u8_range v)) as (d' & -> & H'). exists d'. auto.
Qed.

Lemma read_reg_ok d reg :
  0 <= reg < 8 ->
  exists d' v, READ_FROM_REG d p reg = Ok (d', v) /\ 0 <= v < 256 /\
    view d' = chip_read (view d) reg /\ reads (view d) reg v.
Proof.
  intros Hr. pose proof uart_port. unfold READ_FROM_REG, inb. rewrite (u32_small (p + reg)) by lia.
  destruct (uart_in d reg Hr) as (d' & r & -> & H'). exists d', r. auto.
Qed.

(** A chip set up for [line]. *)
Definition configured (line : line_info) (c : chip) : Prop :=
  dlab c = false /\ c_dll c = baud line /\ c_dlm c = 0 /\
  c_lcr c = (li_len line .| stop line .| par line) /\
  c_fcr c = 0xc7 /\ c_mcr c = 0x08 /\ c_ier c = 0x03.

Definition valid_line (line : line_info) : bool :=
  valid_baud (baud line) && valid_len (li_len line) && valid_par (par line) && valid_stop (stop line).

(** The frame format of a valid line fits the low six bits of LCR. *)
Lemma valid_format line :
  valid_line line = true ->
  0 <= baud line < 256 /\
  0 <= (li_len line .| stop line .| par line) < 256 /\
  Z.testbit (li_len line .| stop line .| par line) 7 = false.
Proof.
  unfold valid_line, valid_baud, valid_len, valid_par, valid_stop.
  rewrite !andb_true_iff, !bool_decide_eq_true, !elem_of_cons, !elem_of_nil.
  intros [[[Hb Hl] Hp] Hs].
  split; [repeat destruct Hb as [-> | Hb]; vm_compute; intuition congruence |].
  repeat destruct Hl as [-> | Hl]; try contradiction;
    repeat destruct Hp as [-> | Hp]; try contradiction;
    repeat destruct Hs as [-> | Hs]; try contradiction; vm_compute; intuition congruence.
Qed.

(** Compute a register write, with [B] giving the latch access bit. *)
Ltac chip_step H B :=
  cbn -[Z.testbit] in H; unfold dlab in H; cbn [c_lcr] in H; rewrite B in H; cbn -[Z.testbit] in H.

Lemma u8_set_bit7 r : Z.testbit (u8 (r .| 0x80)) 7 = true.
Proof.
  unfold u8. change 256 with (2 ^ 8). rewrite Z.mod_pow2_bits_low, Z.lor_spec by lia.
  apply orb_true_r.
Qed.

(** Whatever state the chip was in, DLAB set or not. *)
Lemma set_line_ok d line :
  valid_line line = true ->
  exists d', uart16550_hw_set_line_parameters d p line = Ok d' /\
    configured line (view d') /\ c_rx (view d') = [] /\
    c_sent (view d') = c_sent (view d) /\ c_room (view d') = 1%nat.
Proof.
  intros Hv. destruct (valid_format line Hv) as (Hb & Hf & H7).
  unfold uart16550_hw_set_line_parameters.
  destruct (write_reg_ok d IER 0x00 ltac:(now unfold IER)) as (d1 & -> & V1). cbn [rbind].
  destruct (read_reg_ok d1 LCR ltac:(now unfold LCR)) as (d2 & lcr & -> & _ & V2 & _). cbn [rbind].
  destruct (write_reg_ok d2 LCR (lcr .| 0x80) ltac:(now unfold LCR)) as (d3 & -> & V3). cbn [rbind].
  destruct (write_reg_ok d3 DLL (baud line) ltac:(now unfold DLL)) as (d4 & -> & V4). cbn [rbind].
  destruct (write_reg_ok d4 DLM 0x00 ltac:(now unfold DLM)) as (d5 & -> & V5). cbn [rbind].
  destruct (write_reg_ok d5 LCR (li_len line .| stop line .| par line) ltac:(now unfold LCR))
    as (d6 & -> & V6). cbn [rbind].
  destruct (write_reg_ok d6 FCR 0xc7 ltac:(now unfold FCR)) as (d7 & -> & V7). cbn [rbind].
  destruct (write_reg_ok d7 MCR 0x08 ltac:(now unfold MCR)) as (d8 & -> & V8). cbn [rbind].
  destruct (write_reg_ok d8 IER 0x03 ltac:(now unfold IER)) as (d9 & -> & V9).
  exists d9. split; [reflexivity |]. rewrite (u8_small (baud line)) in V4 by lia.
  rewrite (u8_small (_ .| par line)) in V6 by lia.
  pose proof (u8_set_bit7 lcr) as H8. set (fmt := li_len line .| stop line .| par line) in *.
  assert (c_sent (view d2) = c_sent (view d)) as Hs.
  { rewrite V2, V1. destruct (view d). unfold chip_write. cbn. now repeat case_match. }
  rewrite <- Hs. clear V1 V2 Hs. destruct (view d2) as [ier l0 mcr fcr dll dlm rx sent room].
  generalize dependent (u8 (lcr .| 0x80)). intros l3 V3 H8.
  cbn -[Z.testbit] in V3. rewrite V3 in V4. chip_step V4 H8. rewrite V4 in V5. chip_step V5 H8.
  rewrite V5 in V6. cbn -[Z.testbit] in V6. rewrite V6 in V7. cbn -[Z.testbit] in V7.
  rewrite V7 in V8. cbn -[Z.testbit] in V8. rewrite V8 in V9. chip_step V9 H7.
  rewrite V9. unfold configured, dlab. cbn -[Z.testbit]. destruct (fcr_clears_both fcr) as [E1 E2]. change (u8 0xc7) with 0xc7. rewrite ?E1, ?E2. auto 10.
Qed.

(** *** What the interrupt handler uses *)

Lemma land_bit v k : 0 <= k -> truthy (v .& 2 ^ k) = Z.testbit v k.
Proof.
  intros Hk. unfold truthy. destruct (Z.testbit v k) eqn:E.
  - destruct (Z.eqb_spec (Z.land v (2 ^ k)) 0) as [H|]; [|reflexivity].
    apply (f_equal (fun x => Z.testbit x k)) in H. rewrite Z.land_spec, E, Z.pow2_bits_true in H by lia.
    now rewrite Z.bits_0 in H.
  - replace (Z.land v (2 ^ k)) with 0; [reflexivity |]. apply Z.bits_inj'. intros i Hi.
    rewrite Z.land_spec, Z.bits_0, Z.pow2_bits_eqb by lia.
    destruct (Z.eqb_spec k i) as [->|]; [now rewrite E | now rewrite andb_false_r].
Qed.

Lemma status_ok d :
  exists d' s, uart16550_hw_get_device_status d p = Ok (d', s) /\ view d' = view d /\
    truthy (uart16550_hw_device_can_send s) = negb (Nat.eqb (c_room (view d)) 0) /\
    truthy (uart16550_hw_device_has_data s) = negb (bool_decide (c_rx (view d) = [])).
Proof.
  unfold uart16550_hw_get_device_status.
  destruct (read_reg_ok d ISR ltac:(now unfold ISR)) as (d1 & v1 & -> & _ & V1 & _). cbn [rbind].
  destruct (read_reg_ok d1 LSR ltac:(now unfold LSR)) as (d2 & s & -> & _ & V2 & _ & _ & Hs). cbn [rbind].
  assert (view d1 = view d) as E1 by (rewrite V1; now destruct (view d)).
  assert (view d2 = view d) as E2 by (rewrite V2, E1; now destruct (view d)).
  destruct (Hs eq_refl) as [H0 H5]. rewrite E1 in H0, H5.
  exists d2, s. split; [reflexivity | split; [exact E2 |]].
  unfold uart16550_hw_device_can_send, uart16550_hw_device_has_data.
  change 0x20 with (2 ^ 5). change 0x01 with (2 ^ 0). now rewrite !land_bit, H0, H5 by lia.
Qed.

Lemma send_ok d b :
  dlab (view d) = false -> 0 <= b < 256 ->
  exists d', uart16550_hw_write_to_device d p b = Ok d' /\ view d' = chip_write (view d) THR b.
Proof.
  intros _ Hb. destruct (write_reg_ok d THR b ltac:(now unfold THR)) as (d' & E & V).
  rewrite u8_small in V by assumption. eauto.
Qed.

Lemma receive_ok d b rx :
  dlab (view d) = false -> c_rx (view d) = b :: rx ->
  exists d', uart16550_hw_read_from_device d p = Ok (d', u8 b) /\ view d' = chip_read (view d) RBR.
Proof.
  intros Hd Hr. destruct (read_reg_ok d RBR ltac:(now unfold RBR)) as (d' & v & E & _ & V & Hv & _).
  exists d'. now rewrite <- (Hv eq_refl Hd b rx Hr).
Qed.

(** *** Setting up and shutting down *)

Lemma setup_ok d :
  exists d', uart16550_hw_setup_device d true p = Ok (d', 0) /\
    configured default_param (view d') /\ c_rx (view d') = [].
Proof.
  unfold uart16550_hw_setup_device. cbn [negb].
  destruct (read_reg_ok d LSR ltac:(now unfold LSR)) as (d1 & lsr & -> & _). cbn [rbind].
  assert (exists d2, (if truthy (lsr .& 0x01) then let! (d, _) := READ_FROM_REG d1 p RBR in Ok d
                      else Ok d1) = Ok d2) as (d2 & ->).
  { destruct (truthy _); [|eauto].
    destruct (read_reg_ok d1 RBR ltac:(now unfold RBR)) as (d2 & v & -> & _). eauto. }
  cbn [rbind].
  destruct (read_reg_ok d2 ISR ltac:(now unfold ISR)) as (d3 & v3 & -> & _). cbn [rbind].
  destruct (read_reg_ok d3 MSR ltac:(now unfold MSR)) as (d4 & v4 & -> & _). cbn [rbind].
  unfold uart16550_hw_disable_interrupts.
  destruct (write_reg_ok d4 IER 0x00 ltac:(now unfold IER)) as (d5 & -> & _). cbn [rbind].
  destruct (set_line_ok d5 default_param eq_refl) as (d6 & -> & Hc & Hr & _). cbn [rbind]. eauto.
Qed.

Lemma cleanup_ok d :
  dlab (view d) = false ->
  exists d', uart16550_hw_cleanup_device d p = Ok d' /\
    c_ier (view d') = 0 /\ c_fcr (view d') = 0 /\ c_lcr (view d') = c_lcr (view d).
Proof.
  intros Hd. unfold uart16550_hw_cleanup_device, uart16550_hw_disable_interrupts.
  destruct (write_reg_ok d FCR 0x00 ltac:(now unfold FCR)) as (d1 & -> & V1). cbn [rbind].
  destruct (write_reg_ok d1 IER 0x00 ltac:(now unfold IER)) as (d2 & -> & V2).
  exists d2. split; [reflexivity |]. rewrite V2, V1. destruct (view d). unfold dlab in *.
  cbn -[Z.testbit] in *. unfold dlab. cbn [c_lcr]. now rewrite Hd.
Qed.
End Chip.

(** C38: [uart16550_ioctl] checks before it touches the hardware.  An unknown
    command, a faulting argument or a line description outside the tables
    gives -EINVAL, -EFAULT or -EINVAL and leaves the machine as it was; a valid
    description gives 0 and, whatever state the chip was in, leaves it with the
    divisor latch at [baud], DLAB clear, the frame format in LCR, the FIFOs on
    and emptied and both interrupts enabled. *)
Theorem uart16550_ioctl_spec {D} (IO : PortIO D) p view (U : Uart16550 IO p view) d cmd user :
  (cmd <> UART16550_IOCTL_SET_LINE -> uart16550_ioctl d p cmd user = Ok (d, - EINVAL)) /\
  (cmd = UART16550_IOCTL_SET_LINE ->
    match user with
    | None => uart16550_ioctl d p cmd user = Ok (d, - EFAULT)
    | Some line =>
        if valid_line line
        then exists d', uart16550_ioctl d p cmd user = Ok (d', 0) /\
               configured line (view d') /\ c_rx (view d') = [] /\ c_sent (view d') = c_sent (view d)
        else uart16550_ioctl d p cmd user = Ok (d, - EINVAL)
    end).
Proof.
  unfold uart16550_ioctl. split; [intros Hc | intros ->].
  { now rewrite (proj2 (Z.eqb_neq _ _) Hc). }
  cbn [Z.eqb negb UART16550_IOCTL_SET_LINE].
  destruct user as [line|]; [|reflexivity].
  destruct (valid_line line) eqn:Hv; unfold valid_line in Hv.
  - destruct (set_line_ok (p := p) d line Hv) as (d' & E & H1 & H2 & H3 & _).
    apply andb_true_iff in Hv as [[[Hb Hl]%andb_true_iff Hp]%andb_true_iff Hs].
    rewrite Hb, Hl, Hp, Hs. cbn [negb]. rewrite E. cbn [rbind]. eauto.
  - now destruct (valid_baud _), (valid_len _), (valid_par _), (valid_stop _).
Qed.

(** Loading and unloading the hardware side.  [uart16550_hw_setup_device]
    without its port region returns -ENODEV untouched; with it, it returns 0
    with the chip configured for 115200 baud, 8 bits, no parity, one stop bit
    and no stale input; [uart16550_hw_cleanup_device] then turns both
    interrupts and the FIFOs off. *)
Theorem uart16550_setup_cleanup {D} (IO : PortIO D) p view (U : Uart16550 IO p view) d :
  uart16550_hw_setup_device d false p = Ok (d, - ENODEV) /\
  exists d1 d2, uart16550_hw_setup_device d true p = Ok (d1, 0) /\
    configured default_param (view d1) /\ c_rx (view d1) = [] /\
    uart16550_hw_cleanup_device d1 p = Ok d2 /\ c_ier (view d2) = 0 /\ c_fcr (view d2) = 0.
Proof.
  split; [reflexivity |]. destruct (setup_ok (p := p) (view := view) d) as (d1 & E & Hc & Hr).
  destruct (cleanup_ok (p := p) (view := view) d1) as (d2 & E2 & H1 & H2 & _); [apply Hc |].
  exists d1, d2. auto 10.
Qed.

(** ** A machine with two chips, to run the driver on *)

Definition com_port (q : Z) : option bool :=
  if (0x3f8 <=? q) && (q <? 0x400) then Some true
  else if (0x2f8 <=? q) && (q <? 0x300) then Some false else None.

Definition chip_value (c : chip) (reg : Z) : Z :=
  if reg =? 0 then if dlab c then u8 (c_dll c) else match c_rx c with b :: _ => u8 b | [] => 0 end
  else if reg =? 3 then u8 (c_lcr c)
  else if reg =? 5 then b2z (negb (bool_decide (c_rx c = []))) + 32 * b2z (negb (Nat.eqb (c_room c) 0))
  else 0.

#[export] Instance two_chips : PortIO (chip * chip) := {|
  Out8 d q v :=
    match com_port q with
    | Some true => ((chip_write (fst d) (q - 0x3f8) v, snd d), 0)
    | Some false => ((fst d, chip_write (snd d) (q - 0x2f8) v), 0)
    | None => (d, 6)
    end;
  In8 d q :=
    match com_port q with
    | Some true => ((chip_read (fst d) (q - 0x3f8), snd d), chip_value (fst d) (q - 0x3f8), 0)
    | Some false => ((fst d, chip_read (snd d) (q - 0x2f8)), chip_value (snd d) (q - 0x2f8), 0)
    | None => (d, 0, 6)
    end
|}.

Lemma chip_value_byte c reg : 0 <= chip_value c reg < 256.
Proof.
  unfold chip_value. repeat case_match; try apply u8_range; try lia;
    destruct (bool_decide _), (Nat.eqb _ _); cbn; lia.
Qed.

Lemma chip_value_reads c reg : reads c reg (chip_value c reg).
Proof.
  unfold reads, chip_value. split; [|split].
  - intros -> Hd b rx Hr. cbn -[dlab]. now rewrite Hd, Hr.
  - intros ->. reflexivity.
  - intros ->. cbn. destruct (bool_decide _), (Nat.eqb _ _); split; reflexivity.
Qed.

Lemma com_port_spec q :
  com_port q = if decide (0x3f8 <= q < 0x400) then Some true
               else if decide (0x2f8 <= q < 0x300) then Some false else None.
Proof.
  unfold com_port. ztest; cbn [andb]; repeat case_decide; (reflexivity || lia).
Qed.

#[export] Instance com1_uart : Uart16550 two_chips 0x3f8 fst.
Proof.
  split; cbn [Out8 In8 two_chips].
  - lia.
  - intros d reg v Hr Hv. rewrite com_port_spec. case_decide; [|lia].
    replace (0x3f8 + reg - 0x3f8) with reg by lia. eauto.
  - intros d reg Hr. rewrite com_port_spec. case_decide; [|lia].
    replace (0x3f8 + reg - 0x3f8) with reg by lia.
    eexists _, _. eauto using chip_value_byte, chip_value_reads.
  - intros d q v Hq. rewrite com_port_spec. case_decide; [lia |]. now case_decide.
  - intros d q Hq. rewrite com_port_spec. case_decide; [lia |]. now case_decide.
Qed.

#[export] Instance com2_uart : Uart16550 two_chips 0x2f8 snd.
Proof.
  split; cbn [Out8 In8 two_chips].
  - lia.
  - intros d reg v Hr Hv. rewrite com_port_spec. case_decide; [lia |]. case_decide; [|lia].
    replace (0x2f8 + reg - 0x2f8) with reg by lia. eauto.
  - intros d reg Hr. rewrite com_port_spec. case_decide; [lia |]. case_decide; [|lia].
    replace (0x2f8 + reg - 0x2f8) with reg by lia.
    eexists _, _. eauto using chip_value_byte, chip_value_reads.
  - intros d q v Hq. rewrite com_port_spec. case_decide; [reflexivity |]. case_decide; [lia | reflexivity].
  - intros d q Hq. rewrite com_port_spec. case_decide; [reflexivity |]. case_decide; [lia | reflexivity].
Qed.

(** Power-up: no input, an empty transmitter. *)
Definition cold : chip := Chip 0 0x80 0 0 0 0 [0x7f] [] 16.

Lemma uart16550_ioctl_spec_witness :
  (exists d', uart16550_ioctl (cold, cold) 0x3f8 UART16550_IOCTL_SET_LINE
                (Some (LineInfo UART16550_BAUD_9600 UART16550_LEN_7 UART16550_PAR_EVEN UART16550_STOP_1)) =
      Ok (d', 0) /\ c_dll (fst d') = 12 /\ c_lcr (fst d') = 0x1a) /\
  uart16550_ioctl (cold, cold) 0x3f8 UART16550_IOCTL_SET_LINE (Some (LineInfo 7 3 0 0)) =
    Ok ((cold, cold), - EINVAL).
Proof.
  split.
  - destruct (uart16550_ioctl_spec two_chips 0x3f8 fst com1_uart (cold, cold) 1
      (Some (LineInfo UART16550_BAUD_9600 UART16550_LEN_7 UART16550_PAR_EVEN UART16550_STOP_1)))
      as [_ H]. destruct (H eq_refl) as (d' & E & (_ & H1 & _ & H2 & _) & _).
    exists d'. split; [exact E | split; [exact H1 | exact H2]].
  - destruct (uart16550_ioctl_spec two_chips 0x3f8 fst com1_uart (cold, cold) 1
      (Some (LineInfo 7 3 0 0))) as [_ H]. exact (H eq_refl).
Defined.

Lemma uart16550_setup_cleanup_witness :
  exists d1 d2, uart16550_hw_setup_device (cold, cold) true 0x2f8 = Ok (d1, 0) /\
    uart16550_hw_cleanup_device d1 0x2f8 = Ok d2 /\ c_ier (snd d2) = 0.
Proof.
  destruct (uart16550_setup_cleanup two_chips 0x2f8 snd com2_uart (cold, cold))
    as [_ (d1 & d2 & E1 & _ & _ & E2 & H & _)].
  exists d1, d2. split; [exact E1 | split; [exact E2 | exact H]].
Defined.

End UartHw.
