(* ===== verification/Locking.v ===== *)
(** * Spin locks and wait queues

    src/libs/liblinux/src/lock.c and src/libs/liblinux/src/wait.c, with the
    inline halves they complete (asm-generic/qspinlock.h, x86/asm/qspinlock.h,
    linux/spinlock.h and the busy-waiting [wait_event_interruptible] of
    linux/wait.h).

    A lock is one 32-bit word.  Each atomic instruction is one step, so the
    interleavings of several threads are sequences of steps; the same bodies,
    run alone, are functions on the word. *)

From S2P Require Import Prelude.

Module Spinlock.

Definition _Q_LOCKED_VAL : Z := 1.

(** [atomic_cmpxchg]: the new word and the old value. *)
Definition cmpxchg (word old new : Z) : Z * Z :=
  (if word =? old then new else word, word).

Definition spin_lock_init : Z := 0.

Definition queued_spin_is_locked (word : Z) : bool := truthy word.

(** lock.c; [queued_spin_trylock] has the same body. *)
Definition _raw_spin_trylock (word : Z) : Z * Z :=
  if truthy word then (word, 0)
  else
    let '(word, r) := cmpxchg word 0 _Q_LOCKED_VAL in
    if r =? 0 then (word, 1) else (word, 0).

(** lock.c, run without other threads: one unit of fuel per iteration. *)
Fixpoint queued_spin_lock_slowpath (fuel : nat) (word val : Z) : res Z :=
  match fuel with
  | O => Err OutOfFuel
  | S fuel =>
      let '(word, r) := cmpxchg word val _Q_LOCKED_VAL in
      if negb (r =? val) then queued_spin_lock_slowpath fuel word val else Ok word
  end.

Definition queued_spin_lock (fuel : nat) (word : Z) : res Z :=
  let '(word, val) := cmpxchg word 0 _Q_LOCKED_VAL in
  if val =? 0 then Ok word else queued_spin_lock_slowpath fuel word val.

(** [_raw_spin_lock] is [__raw_spin_lock], which without lock debugging is
    [queued_spin_lock]. *)
Definition _raw_spin_lock (fuel : nat) (word : Z) : res Z := queued_spin_lock fuel word.

(** A byte store of 0 over the low byte. *)
Definition native_queued_spin_unlock (word : Z) : Z := word - word mod 256.

(** ** Threads *)

(** Where a thread is: outside, before the read or the exchange of a trylock,
    before the first exchange of a lock, in the slow path with the value it
    saw, or past the lock. *)
Inductive pc :=
| Idle
| TryRead
| TryCas
| LockCas
| Slow (val : Z)
| Critical.

#[global] Instance pc_eq_dec : EqDecision pc.
Proof. solve_decision. Defined.

Inductive call := CTry | CLock.

(** One atomic step of a thread; [c] is the call an idle thread makes. *)
Definition thread_step (c : call) (p : pc) (word : Z) : Z * pc :=
  match p with
  | Idle => (word, match c with CTry => TryRead | CLock => LockCas end)
  | TryRead => (word, if truthy word then Idle else TryCas)
  | TryCas =>
      let '(word, r) := cmpxchg word 0 _Q_LOCKED_VAL in
      (word, if r =? 0 then Critical else Idle)
  | LockCas =>
      let '(word, val) := cmpxchg word 0 _Q_LOCKED_VAL in
      (word, if val =? 0 then Critical else Slow val)
  | Slow val =>
      let '(word, r) := cmpxchg word val _Q_LOCKED_VAL in
      (word, if negb (r =? val) then Slow val else Critical)
  | Critical => (native_queued_spin_unlock word, Idle)
  end.

Definition state : Type := Z * list pc.

(** Any thread may move; [allowed] restricts the calls. *)
Inductive step (allowed : call -> Prop) : state -> state -> Prop :=
| step_thread word ts i p c word' p' :
    ts !! i = Some p -> allowed c -> thread_step c p word = (word', p') ->
    step allowed (word, ts) (word', <[i := p']> ts).

Definition reachable (allowed : call -> Prop) (n : nat) : state -> Prop :=
  rtc (step allowed) (spin_lock_init, replicate n Idle).

Definition in_critical (p : pc) : Z := if decide (p = Critical) then 1 else 0.

Fixpoint holders (ts : list pc) : Z :=
  match ts with [] => 0 | p :: ts => in_critical p + holders ts end.

(** ** Lemmas *)

Lemma holders_insert ts i p p' :
  ts !! i = Some p -> holders (<[i := p']> ts) = holders ts - in_critical p + in_critical p'.
Proof.
  revert i. induction ts as [|q ts IH]; intros [|i] H; try discriminate.
  - injection H as ->. cbn. lia.
  - change (in_critical q + holders (<[i := p']> ts) =
            in_critical q + holders ts - in_critical p + in_critical p').
    rewrite (IH i) by exact H. lia.
Qed.

Lemma holders_nonneg ts : 0 <= holders ts.
Proof.
  induction ts as [|p ts IH]; cbn; [lia |]. unfold in_critical. case_decide; lia.
Qed.

Lemma holders_replicate n : holders (replicate n Idle) = 0.
Proof. induction n; cbn; [reflexivity | exact IHn]. Qed.

(** Threads that only try never wait for the lock. *)
Definition trying (p : pc) : Prop :=
  match p with LockCas | Slow _ => False | _ => True end.

Definition try_inv (s : state) : Prop :=
  Forall trying (snd s) /\ fst s = holders (snd s) /\ 0 <= fst s <= 1.

Lemma try_step s s' : step (eq CTry) s s' -> try_inv s -> try_inv s'.
Proof.
  intros Hst. destruct Hst as [word ts i p c word' p' Hi <- Hs]. intros (Ht & Hw & Hb). cbn in *.
  pose proof (holders_insert ts i p p' Hi) as Hh. pose proof (proj1 (Forall_lookup _ _) Ht i p Hi) as Hp.
  assert (word' = word - in_critical p + in_critical p' /\ trying p' /\ 0 <= word' <= 1) as (H1 & H2 & H3).
  { unfold in_critical, native_queued_spin_unlock, truthy, cmpxchg, _Q_LOCKED_VAL in *.
    assert (word = 0 \/ word = 1) as [-> | ->] by lia;
      destruct p; cbn in Hs; injection Hs as <- <-; cbn; try (now destruct Hp); repeat split; try lia.
    all: exfalso; clear - Hw Hi; revert i Hi Hw; induction ts as [|q ts IH]; intros [|i] Hi Hw; try discriminate.
    all: cbn in *; pose proof (holders_nonneg ts); unfold in_critical in *.
    all: try (injection Hi as ->; case_decide; [lia | congruence]).
    all: apply (IH i Hi); case_decide; lia. }
  split; [now apply Forall_insert | split; [|exact H3]]. cbn. rewrite Hh. lia.
Qed.

(** The accesses of a [spin_trylock] that nobody disturbs. *)
Definition try_alone (word : Z) : Z * pc :=
  let '(word, p) := thread_step CTry TryRead word in
  if decide (p = TryCas) then thread_step CTry p word else (word, p).

(** C18: [spin_trylock]/[spin_unlock], the discipline the serial driver uses,
    excludes: among any number of threads that take the lock only with
    [spin_trylock] and release it with [spin_unlock], in every reachable state
    at most one is past the lock, and the lock word counts it exactly.  A thread
    that runs its two accesses undisturbed does what [_raw_spin_trylock] does:
    it is past the lock when the result is 1 and outside when it is 0. *)
Theorem trylock_mutual_exclusion n word ts :
  reachable (eq CTry) n (word, ts) ->
  word = holders ts /\ holders ts <= 1 /\
  forall word, let '(word', r) := _raw_spin_trylock word in try_alone word = (word', if r =? 0 then Idle else Critical).
Proof.
  intros Hr. cut (word = holders ts /\ holders ts <= 1).
  { intros []. do 2 (split; [assumption |]). intros x. unfold _raw_spin_trylock, try_alone. cbn [thread_step].
    destruct (truthy x) eqn:E; [reflexivity |]. unfold truthy in E. apply negb_false_iff, Z.eqb_eq in E as ->. reflexivity. } assert (try_inv (word, ts)) as (_ & H1 & H2).
  { unfold reachable in Hr.
    refine (rtc_ind_r (fun s => try_inv s) (spin_lock_init, replicate n Idle) _ _ (word, ts) Hr).
    - split; [|split]; cbn; [now apply Forall_replicate | now rewrite holders_replicate | unfold spin_lock_init; lia].
    - intros s s' _ Hst IH. exact (try_step s s' Hst IH). }
  cbn in *. lia.
Qed.

(** A run of two threads: the first one's calls and then the second's. *)
Lemma trylock_mutual_exclusion_witness :
  1 = holders [Idle; Critical] /\ holders [Idle; Critical] <= 1.
Proof.
  cut (reachable (eq CTry) 2 (1, [Idle; Critical])).
  { intros Hr. destruct (trylock_mutual_exclusion 2 _ _ Hr) as (H1 & H2 & _). now split. }
  unfold reachable.
  apply rtc_l with (spin_lock_init, [Idle; TryRead]).
  { apply (step_thread _ _ [Idle; Idle] 1 Idle CTry); reflexivity. }
  apply rtc_l with (spin_lock_init, [Idle; TryCas]).
  { apply (step_thread _ _ [Idle; TryRead] 1 TryRead CTry); reflexivity. }
  apply rtc_l with (1, [Idle; Critical]).
  { apply (step_thread _ _ [Idle; TryCas] 1 TryCas CTry); reflexivity. }
  apply rtc_refl.
Defined.

(** Run alone, [spin_lock] always comes back, also on a lock that is held. *)
Lemma spin_lock_alone fuel word :
  (0 < fuel)%nat -> _raw_spin_lock fuel word = Ok _Q_LOCKED_VAL.
Proof.
  intros Hf. unfold _raw_spin_lock, queued_spin_lock, cmpxchg.
  destruct (Z.eqb_spec word 0) as [->|Hw]; [reflexivity |].
  destruct fuel; [lia |]. cbn. unfold cmpxchg. now rewrite Z.eqb_refl.
Qed.

(** C19: [spin_lock] does not exclude.  [queued_spin_lock_slowpath] exchanges the
    value it was told for the locked value, and that value is the locked one:
    two threads that call [spin_lock] can both be past the lock; while a thread
    that waits with the locked value never enters when it finds the word free,
    it stays in its loop.  Run alone, [spin_lock] comes back whatever the word
    is, also on a lock that is held. *)
Theorem spin_lock_excludes_nobody :
  reachable (eq CLock) 2 (_Q_LOCKED_VAL, [Critical; Critical]) /\
  (forall c, thread_step c (Slow _Q_LOCKED_VAL) 0 = (0, Slow _Q_LOCKED_VAL)) /\
  (forall fuel word, _raw_spin_lock (S fuel) word = Ok _Q_LOCKED_VAL).
Proof.
  split; [|split; [reflexivity | intros; apply spin_lock_alone; lia]]. unfold reachable.
  apply rtc_l with (0, [LockCas; Idle]).
  { apply (step_thread _ _ [Idle; Idle] 0 Idle CLock); reflexivity. }
  apply rtc_l with (1, [Critical; Idle]).
  { apply (step_thread _ _ [LockCas; Idle] 0 LockCas CLock); reflexivity. }
  apply rtc_l with (1, [Critical; LockCas]).
  { apply (step_thread _ _ [Critical; Idle] 1 Idle CLock); reflexivity. }
  apply rtc_l with (1, [Critical; Slow 1]).
  { apply (step_thread _ _ [Critical; LockCas] 1 LockCas CLock); reflexivity. }
  apply rtc_l with (1, [Critical; Critical]).
  { apply (step_thread _ _ [Critical; Slow 1] 1 (Slow 1) CLock); reflexivity. }
  apply rtc_refl.
Qed.
End Spinlock.

Module Wait.
Import Spinlock.

(** struct __wait_queue_head, without its task list, which nothing here uses. *)
Record wait_queue_head := WQ { wq_lock : Z; wq_locked : bool }.

(** ** wait.c *)

Definition __wake_up (q : wait_queue_head) : wait_queue_head := WQ (wq_lock q) false.

(** The [locked] flag is not written. *)
Definition __init_waitqueue_head (fuel : nat) (q : wait_queue_head) : res wait_queue_head :=
  let lock := spin_lock_init in
  let! lock := _raw_spin_lock fuel lock in
  Ok (WQ lock (wq_locked q)).

Definition prepare_to_wait_event (fuel : nat) (q : wait_queue_head) : res (wait_queue_head * Z) :=
  let! lock := _raw_spin_lock fuel (wq_lock q) in
  Ok (WQ lock (wq_locked q), 0).

Definition finish_wait (q : wait_queue_head) : wait_queue_head :=
  WQ (native_queued_spin_unlock (wq_lock q)) (wq_locked q).

(** These do nothing. *)
Definition remove_wake_func (q : wait_queue_head) : wait_queue_head * Z := (q, 0).
Definition init_wait_entry (q : wait_queue_head) : wait_queue_head := q.
Definition schedule (q : wait_queue_head) : wait_queue_head := q.
Definition _cond_resched (q : wait_queue_head) : wait_queue_head * Z := (q, 0).

(** ** wait_event_interruptible *)

(** The macro, one memory access at a time: test the condition, raise the flag,
    spin on it. *)
Inductive waiter := WTest | WRaise | WSpin | WDone.

(** The condition is a fact about the world that interrupts change. *)
Record wstate := W { w_cond : bool; w_locked : bool; w_pc : waiter }.

Definition wait_step (s : wstate) : wstate :=
  match w_pc s with
  | WTest => W (w_cond s) (w_locked s) (if w_cond s then WDone else WRaise)
  | WRaise => W (w_cond s) true WSpin
  | WSpin => W (w_cond s) (w_locked s) (if w_locked s then WSpin else WDone)
  | WDone => s
  end.

(** An interrupt sets the condition as it finds the device and calls
    [__wake_up]. *)
Definition wake (cond : bool) (s : wstate) : wstate :=
  W cond (wq_locked (__wake_up (WQ 0 (w_locked s)))) (w_pc s).

Inductive event := EWaiter | EIrq (cond : bool).

Definition wexec (s : wstate) (e : event) : wstate :=
  match e with EWaiter => wait_step s | EIrq c => wake c s end.

Definition wrun (s : wstate) (es : list event) : wstate := fold_left wexec es s.

(** Only the waiter moves. *)
Definition alone (n : nat) : list event := replicate n EWaiter.

Lemma wrun_app s es1 es2 : wrun s (es1 ++ es2) = wrun (wrun s es1) es2.
Proof. apply fold_left_app. Qed.

Lemma spin_forever n s : w_pc s = WSpin -> w_locked s = true -> wrun s (alone n) = s.
Proof.
  intros Hp Hl. induction n as [|n IH]; [reflexivity |]. cbn.
  replace (wait_step s) with s; [exact IH |]. destruct s. cbn in *. now subst.
Qed.

Lemma done_forever n s : w_pc s = WDone -> wrun s (alone n) = s.
Proof.
  intros Hp. induction n as [|n IH]; [reflexivity |]. cbn.
  replace (wait_step s) with s; [exact IH |]. destruct s. cbn in *. now subst.
Qed.

(** The busy wait of [wait_event_interruptible].  It returns at once when
    the condition already holds; once the waiter has raised its flag, the next
    [__wake_up] lets it go within one step, whether or not the condition holds
    by then; and a wake-up that falls between the test and the raised flag is
    lost: the condition holds, yet the waiter never finishes on its own. *)
Theorem wait_event_behaviour :
  (forall l n, wrun (W true l WTest) (alone (S n)) = W true l WDone) /\
  (forall n c k, wrun (W false false WTest) (alone (S (S n)) ++ [EIrq c] ++ alone (S k)) =
     W c false WDone) /\
  (forall n, let s := wrun (W false false WTest) ([EWaiter; EIrq true] ++ alone (S n)) in
     w_cond s = true /\ w_pc s = WSpin).
Proof.
  split; [|split].
  - intros l n. cbn. now apply done_forever.
  - intros n c k. rewrite !wrun_app. cbn [alone replicate].
    change (wrun (W false false WTest) (EWaiter :: EWaiter :: replicate n EWaiter))
      with (wrun (W false true WSpin) (alone n)).
    rewrite spin_forever by reflexivity. cbn. now apply done_forever.
  - intros n. rewrite wrun_app. cbn [alone replicate]. cbn.
    change (fold_left wexec (replicate n EWaiter) (W true true WSpin))
      with (wrun (W true true WSpin) (alone n)).
    now rewrite spin_forever.
Qed.

(** [__init_waitqueue_head] returns with the queue's lock held: it takes the
    lock it has just initialised and nothing of wait.c releases it before a
    [finish_wait].  A [prepare_to_wait_event] on the fresh queue still
    comes back, past a lock that was never released. *)
Theorem init_waitqueue_head_locked fuel q :
  (0 < fuel)%nat ->
  exists q', __init_waitqueue_head fuel q = Ok q' /\
    queued_spin_is_locked (wq_lock q') = true /\ wq_locked q' = wq_locked q /\
    prepare_to_wait_event fuel q' = Ok (q', 0) /\
    queued_spin_is_locked (wq_lock (finish_wait q')) = false.
Proof.
  intros Hf. unfold __init_waitqueue_head. rewrite spin_lock_alone by assumption. cbn [rbind].
  eexists. split; [reflexivity |]. split; [reflexivity | split; [reflexivity |]].
  unfold prepare_to_wait_event. now rewrite spin_lock_alone.
Qed.

Lemma init_waitqueue_head_locked_witness :
  exists q', __init_waitqueue_head 1 (WQ 7 true) = Ok q' /\ wq_lock q' = 1 /\ wq_locked q' = true.
Proof.
  destruct (init_waitqueue_head_locked 1 (WQ 7 true)) as (q' & E & _ & Hl & _); [lia |].
  exists q'. split; [exact E | split; [|exact Hl]]. vm_compute in E. injection E as <-. reflexivity.
Defined.

End Wait.
