(* ===== verification/Kdev.v ===== *)
(** * Device numbers and error pointers

    linux/kdev_t.h and linux/err.h: how a major and a minor number share a
    word, the three external encodings of a device number, and how an error
    number travels in a pointer. *)

From S2P Require Import Prelude.

Module Kdev.

Definition MINORBITS : Z := 20.
Definition MINORMASK : Z := 2 ^ 20 - 1.

Definition MAJOR (dev : Z) : Z := Z.shiftr dev MINORBITS.
Definition MINOR (dev : Z) : Z := dev .& MINORMASK.
Definition MKDEV (ma mi : Z) : Z := u32 (Z.shiftl ma MINORBITS) .| mi.

Definition old_valid_dev (dev : Z) : bool := (MAJOR dev <? 256) && (MINOR dev <? 256).
Definition old_encode_dev (dev : Z) : Z := u16 (u32 (Z.shiftl (MAJOR dev) 8) .| MINOR dev).
Definition old_decode_dev (val : Z) : Z := MKDEV (Z.shiftr val 8 .& 255) (val .& 255).

Definition new_encode_dev (dev : Z) : Z :=
  let major := MAJOR dev in
  let minor := MINOR dev in
  (minor .& 0xff) .| u32 (Z.shiftl major 8) .| u32 (Z.shiftl (Z.ldiff minor 0xff) 12).

Definition new_decode_dev (dev : Z) : Z :=
  let major := Z.shiftr (dev .& 0xfff00) 8 in
  let minor := (dev .& 0xff) .| (Z.shiftr dev 12 .& 0xfff00) in
  MKDEV major minor.

Definition huge_encode_dev (dev : Z) : Z := new_encode_dev dev.
Definition huge_decode_dev (dev : Z) : Z := new_decode_dev (u32 dev).

Definition sysv_valid_dev (dev : Z) : bool := (MAJOR dev <? Z.shiftl 1 14) && (MINOR dev <? Z.shiftl 1 18).
Definition sysv_encode_dev (dev : Z) : Z := MINOR dev .| u32 (Z.shiftl (MAJOR dev) 18).
Definition sysv_major (dev : Z) : Z := Z.shiftr dev 18 .& 0x3fff.
Definition sysv_minor (dev : Z) : Z := dev .& 0x3ffff.

(** ** linux/err.h; a pointer is its 32-bit value *)

Definition MAX_ERRNO : Z := 4095.
Definition IS_ERR_VALUE (x : Z) : bool := u32 (- MAX_ERRNO) <=? u32 x.
Definition ERR_PTR (error : Z) : Z := u32 error.
Definition PTR_ERR (ptr : Z) : Z := s32 ptr.
Definition IS_ERR (ptr : Z) : bool := IS_ERR_VALUE ptr.
Definition IS_ERR_OR_NULL (ptr : Z) : bool := (ptr =? 0) || IS_ERR_VALUE ptr.
Definition ERR_CAST (ptr : Z) : Z := ptr.
Definition PTR_ERR_OR_ZERO (ptr : Z) : Z := if IS_ERR ptr then PTR_ERR ptr else 0.

(** ** Device numbers *)

(** Masks and shifts in terms of quotients and remainders. *)
Lemma MAJOR_div dev : MAJOR dev = dev / 2 ^ 20.
Proof. apply Z.shiftr_div_pow2. unfold MINORBITS. lia. Qed.

Lemma MINOR_mod dev : MINOR dev = dev mod 2 ^ 20.
Proof. apply land_mask. lia. Qed.

Lemma shiftl_word a k : 0 <= k -> u32 (Z.shiftl a k) = u32 (a * 2 ^ k).
Proof. intros Hk. now rewrite Z.shiftl_mul_pow2. Qed.

(** [a | b << k], cut to a word, when [a] fits below. *)
Lemma lor_word a b k :
  0 <= k <= 32 -> 0 <= a < 2 ^ k ->
  Z.lor (u32 (Z.shiftl b k)) a = b mod 2 ^ (32 - k) * 2 ^ k + a.
Proof.
  intros Hk Ha. rewrite shiftl_word by lia.
  assert (u32 (b * 2 ^ k) = b mod 2 ^ (32 - k) * 2 ^ k) as ->.
  { unfold u32. replace W32 with (2 ^ (32 - k) * 2 ^ k) by (rewrite <- Z.pow_add_r by lia; now replace (32 - k + k) with 32 by lia).
    rewrite Z.mul_mod_distr_r; [reflexivity | |]; apply Z.pow_nonzero; lia. }
  rewrite Z.lor_comm, <- Z.shiftl_mul_pow2 by lia. rewrite lor_shiftl by lia.
  rewrite Z.shiftl_mul_pow2 by lia. apply Z.add_comm.
Qed.

Lemma MKDEV_eq ma mi : 0 <= mi < 2 ^ 20 -> MKDEV ma mi = ma mod 4096 * 2 ^ 20 + mi.
Proof. intros H. unfold MKDEV, MINORBITS. now rewrite lor_word by lia. Qed.

(** Device numbers: a major below 4096 and a minor below 2^20 survive
    [MKDEV], and a device number is rebuilt from its parts; a larger major is
    reduced modulo 4096, so two majors that differ by 4096 name the same
    device. *)
Theorem mkdev_roundtrip ma mi dev :
  0 <= ma -> 0 <= mi < 2 ^ 20 -> 0 <= dev < W32 ->
  MAJOR (MKDEV ma mi) = ma mod 4096 /\ MINOR (MKDEV ma mi) = mi /\
  MKDEV (MAJOR dev) (MINOR dev) = dev /\ MKDEV (ma + 4096) mi = MKDEV ma mi.
Proof.
  intros Hma Hmi Hdev. rewrite !MAJOR_div, !MINOR_mod.
  pose proof (Z.mod_pos_bound dev (2 ^ 20) ltac:(lia)).
  rewrite !MKDEV_eq by assumption. change (2 ^ 20) with 1048576 in *. repeat split; zmod.
Qed.

Lemma mkdev_roundtrip_witness :
  MAJOR (MKDEV 42 1) = 42 /\ MINOR (MKDEV 42 1) = 1 /\ MKDEV 4138 1 = MKDEV 42 1.
Proof.
  destruct (mkdev_roundtrip 42 1 0) as (H1 & H2 & _ & H3); [lia | lia | lia |].
  split; [exact H1 | split; [exact H2 | exact H3]].
Defined.

(** A mask that starts at bit [n]. *)
Lemma land_shiftl a b n : 0 <= n -> Z.land a (Z.shiftl b n) = Z.shiftl (Z.land (Z.shiftr a n) b) n.
Proof.
  intros Hn. apply Z.bits_inj'. intros i Hi. rewrite Z.land_spec, !Z.shiftl_spec by lia.
  destruct (Z.lt_ge_cases i n).
  - rewrite !(Z.testbit_neg_r _ (i - n)) by lia. apply andb_false_r.
  - rewrite Z.land_spec, Z.shiftr_spec by lia. now replace (i - n + n) with i by lia.
Qed.

Lemma new_encode_eq dev :
  0 <= dev < W32 ->
  new_encode_dev dev = MINOR dev mod 256 + MAJOR dev * 256 + MINOR dev / 256 * 2 ^ 20.
Proof.
  intros Hd. unfold new_encode_dev. pose proof (MAJOR_div dev) as Ha. pose proof (MINOR_mod dev) as Hi.
  assert (0 <= MAJOR dev < 4096) by (rewrite Ha; change (2 ^ 20) with 1048576; zmod).
  assert (0 <= MINOR dev < 2 ^ 20) by (rewrite Hi; apply Z.mod_pos_bound; lia).
  generalize dependent (MAJOR dev). generalize dependent (MINOR dev). intros mi _ Hmi ma _ Hma.
  change 0xff with (Z.ones 8) at 2. rewrite Z.ldiff_ones_r, Z.shiftl_shiftl, Z.shiftr_div_pow2 by lia.
  change (8 + 12) with 20. change 0xff with (2 ^ 8 - 1). rewrite land_mask by lia.
  change (2 ^ 8) with 256. rewrite !shiftl_word by lia.
  rewrite (u32_small (ma * 2 ^ 8)) by (change (2 ^ 8) with 256; lia).
  rewrite (u32_small (_ * 2 ^ 20)) by (change (2 ^ 20) with 1048576 in *; change (2 ^ 8) with 256; zmod).
  rewrite <- !Z.shiftl_mul_pow2 by lia. rewrite (lor_shiftl (mi mod 256) ma 8) by (try lia; change (2 ^ 8) with 256; zmod).
  rewrite lor_shiftl; [change (2 ^ 8) with 256; rewrite Z.shiftl_mul_pow2 by lia; reflexivity | lia |].
  change (2 ^ 8) with 256. change (2 ^ 20) with 1048576. zmod.
Qed.

Lemma new_decode_eq e :
  0 <= e -> new_decode_dev e =
    (e / 256) mod 4096 * 2 ^ 20 + (e mod 256 + (e / 2 ^ 20) mod 4096 * 256).
Proof.
  intros He. unfold new_decode_dev. change 0xfff00 with (Z.shiftl (2 ^ 12 - 1) 8).
  rewrite !land_shiftl, !land_mask by lia. change 0xff with (2 ^ 8 - 1).
  rewrite land_mask, Z.shiftr_shiftl_l, Z.shiftr_shiftr by lia. change (8 - 8) with 0.
  change (12 + 8) with 20. rewrite Z.shiftl_0_r, !Z.shiftr_div_pow2 by lia.
  change (2 ^ 8) with 256. change (2 ^ 12) with 4096.
  rewrite lor_shiftl by (try lia; change (2 ^ 8) with 256; zmod). change (2 ^ 8) with 256.
  rewrite MKDEV_eq by (change (2 ^ 20) with 1048576; zmod). change (2 ^ 20) with 1048576. zmod.
Qed.

(** C40: the external encodings of a device number lose nothing where they claim
    to apply: the new (and huge) encoding for every device number, the 16-bit
    old one when [old_valid_dev] holds, the System V one when [sysv_valid_dev]
    does. *)
Theorem dev_encodings_roundtrip dev :
  0 <= dev < W32 ->
  new_decode_dev (new_encode_dev dev) = dev /\
  huge_decode_dev (huge_encode_dev dev) = dev /\
  (old_valid_dev dev = true -> old_decode_dev (old_encode_dev dev) = dev) /\
  (sysv_valid_dev dev = true ->
     MKDEV (sysv_major (sysv_encode_dev dev)) (sysv_minor (sysv_encode_dev dev)) = dev).
Proof.
  intros Hd. assert (new_decode_dev (new_encode_dev dev) = dev /\ 0 <= new_encode_dev dev < W32) as [Hnew Hw].
  { rewrite (new_encode_eq dev Hd). rewrite new_decode_eq; rewrite !MAJOR_div, !MINOR_mod;
      change (2 ^ 20) with 1048576; zmod. }
  split; [exact Hnew | split].
  { unfold huge_decode_dev, huge_encode_dev. now rewrite u32_small. }
  pose proof (MAJOR_div dev) as Ha. pose proof (MINOR_mod dev) as Hi. change (2 ^ 20) with 1048576 in *.
  split; intros Hv; apply andb_true_iff in Hv as [H1%Z.ltb_lt H2%Z.ltb_lt].
  - unfold old_decode_dev, old_encode_dev. rewrite lor_word by (change (2 ^ 8) with 256; zmod).
    change (2 ^ (32 - 8)) with 16777216. change (2 ^ 8) with 256.
    change 255 with (2 ^ 8 - 1). rewrite !land_mask, Z.shiftr_div_pow2 by lia. change (2 ^ 8) with 256.
    rewrite MKDEV_eq by (change (2 ^ 20) with 1048576; zmod). change (2 ^ 20) with 1048576. zmod.
  - unfold sysv_major, sysv_minor, sysv_encode_dev. change (Z.shiftl 1 14) with 16384 in H1.
    change (Z.shiftl 1 18) with 262144 in H2. rewrite Z.lor_comm.
    rewrite lor_word by (change (2 ^ 18) with 262144; zmod). change (2 ^ (32 - 18)) with 16384.
    change 0x3fff with (2 ^ 14 - 1). change 0x3ffff with (2 ^ 18 - 1).
    rewrite !land_mask, Z.shiftr_div_pow2 by lia. change (2 ^ 18) with 262144. change (2 ^ 14) with 16384.
    rewrite MKDEV_eq by (change (2 ^ 20) with 1048576; zmod). change (2 ^ 20) with 1048576. zmod.
Qed.

Lemma dev_encodings_roundtrip_witness :
  new_decode_dev (new_encode_dev (MKDEV 42 0x12345)) = MKDEV 42 0x12345.
Proof.
  destruct (dev_encodings_roundtrip (MKDEV 42 0x12345)) as [H _];
    [vm_compute; split; [discriminate | reflexivity] | exact H].
Defined.

(** Error pointers: an error number between 1 and [MAX_ERRNO] survives
    [ERR_PTR]/[PTR_ERR] and is recognised by [IS_ERR]; NULL and every pointer
    below the last page are not, so a function that reports failure with NULL
    is not caught by [IS_ERR]. *)
Theorem err_ptr_roundtrip e p :
  1 <= e <= MAX_ERRNO -> 0 <= p < W32 - MAX_ERRNO ->
  IS_ERR (ERR_PTR (- e)) = true /\ PTR_ERR (ERR_PTR (- e)) = - e /\
  PTR_ERR_OR_ZERO (ERR_PTR (- e)) = - e /\
  IS_ERR p = false /\ PTR_ERR_OR_ZERO p = 0 /\ IS_ERR 0 = false /\ IS_ERR_OR_NULL 0 = true.
Proof.
  unfold MAX_ERRNO. intros He Hp.
  assert (IS_ERR (ERR_PTR (- e)) = true) as H1.
  { unfold IS_ERR, IS_ERR_VALUE, ERR_PTR, MAX_ERRNO. apply Z.leb_le. zmod. }
  assert (PTR_ERR (ERR_PTR (- e)) = - e) as H2.
  { unfold PTR_ERR, ERR_PTR, s32. rewrite u32_idemp.
    replace (u32 (- e)) with (W32 - e) by zmod. ztest; lia. }
  assert (IS_ERR p = false) as H3.
  { unfold IS_ERR, IS_ERR_VALUE, MAX_ERRNO. apply Z.leb_gt. rewrite (u32_small p) by lia.
    change (u32 (- (4095))) with (W32 - 4095). lia. }
  unfold PTR_ERR_OR_ZERO. rewrite H1, H3. repeat split; try assumption.
Qed.

Lemma err_ptr_roundtrip_witness : IS_ERR (ERR_PTR (- 22)) = true /\ IS_ERR 4096 = false.
Proof.
  destruct (err_ptr_roundtrip 22 4096) as (H1 & _ & _ & H2 & _); [unfold MAX_ERRNO; lia | unfold MAX_ERRNO; lia |].
  split; [exact H1 | exact H2].
Defined.

End Kdev.
