(* ===== verification/ListHead.v ===== *)
(** * Circular doubly linked lists

    linux/list.h: the intrusive lists the device registry and the table of open
    files are kept in.  A heap gives every list node its two fields; a list is
    a head node [head] and the entries [l] after it.  Each operation is
    translated store by store and shown to act on [l] as the list function it
    stands for; the proofs never look past the nodes an operation touches. *)

From S2P Require Import Prelude.

(** The [next] and [prev] fields of the nodes, by address. *)
Record heap := Heap { nx : gmap Z Z; pv : gmap Z Z }.

Module ListHead.

(** ** Field access; a store to a node that does not exist is undefined *)

Definition next (h : heap) (a : Z) : res Z :=
  match nx h !! a with Some b => Ok b | None => Err UB end.
Definition prev (h : heap) (a : Z) : res Z :=
  match pv h !! a with Some b => Ok b | None => Err UB end.
Definition set_next (h : heap) (a v : Z) : res heap :=
  match nx h !! a with Some _ => Ok (Heap (<[a := v]> (nx h)) (pv h)) | None => Err UB end.
Definition set_prev (h : heap) (a v : Z) : res heap :=
  match pv h !! a with Some _ => Ok (Heap (nx h) (<[a := v]> (pv h))) | None => Err UB end.

(** ** Operations *)

Definition LIST_POISON1 : Z := 0x100.
Definition LIST_POISON2 : Z := 0x200.

Definition INIT_LIST_HEAD (h : heap) (list : Z) : res heap :=
  let! h := set_next h list list in
  set_prev h list list.

Definition __list_add (h : heap) (new prev next : Z) : res heap :=
  let! h := set_prev h next new in
  let! h := set_next h new next in
  let! h := set_prev h new prev in
  set_next h prev new.

Definition list_add (h : heap) (new head : Z) : res heap :=
  let! n := next h head in
  __list_add h new head n.

Definition list_add_tail (h : heap) (new head : Z) : res heap :=
  let! p := prev h head in
  __list_add h new p head.

Definition __list_del (h : heap) (prev next : Z) : res heap :=
  let! h := set_prev h next prev in
  set_next h prev next.

Definition __list_del_entry (h : heap) (entry : Z) : res heap :=
  let! p := prev h entry in
  let! n := next h entry in
  __list_del h p n.

Definition list_del (h : heap) (entry : Z) : res heap :=
  let! p := prev h entry in
  let! n := next h entry in
  let! h := __list_del h p n in
  let! h := set_next h entry LIST_POISON1 in
  set_prev h entry LIST_POISON2.

Definition list_replace (h : heap) (old new : Z) : res heap :=
  let! n := next h old in
  let! h := set_next h new n in
  let! n := next h new in
  let! h := set_prev h n new in
  let! p := prev h old in
  let! h := set_prev h new p in
  let! p := prev h new in
  set_next h p new.

Definition list_replace_init (h : heap) (old new : Z) : res heap :=
  let! h := list_replace h old new in
  INIT_LIST_HEAD h old.

Definition list_del_init (h : heap) (entry : Z) : res heap :=
  let! h := __list_del_entry h entry in
  INIT_LIST_HEAD h entry.

Definition list_move (h : heap) (list head : Z) : res heap :=
  let! h := __list_del_entry h list in
  list_add h list head.

Definition list_move_tail (h : heap) (list head : Z) : res heap :=
  let! h := __list_del_entry h list in
  list_add_tail h list head.

Definition list_is_last (h : heap) (list head : Z) : res bool :=
  let! n := next h list in
  Ok (n =? head).

Definition list_empty (h : heap) (head : Z) : res bool :=
  let! n := next h head in
  Ok (n =? head).

Definition list_empty_careful (h : heap) (head : Z) : res bool :=
  let! n := next h head in
  if n =? head then
    let! p := prev h head in
    Ok (n =? p)
  else Ok false.

Definition list_rotate_left (h : heap) (head : Z) : res heap :=
  let! e := list_empty h head in
  if negb e then
    let! first := next h head in
    list_move_tail h first head
  else Ok h.

Definition list_is_singular (h : heap) (head : Z) : res bool :=
  let! e := list_empty h head in
  if negb e then
    let! n := next h head in
    let! p := prev h head in
    Ok (n =? p)
  else Ok false.

Definition __list_cut_position (h : heap) (list head entry : Z) : res heap :=
  let! new_first := next h entry in
  let! n := next h head in
  let! h := set_next h list n in
  let! n := next h list in
  let! h := set_prev h n list in
  let! h := set_prev h list entry in
  let! h := set_next h entry list in
  let! h := set_next h head new_first in
  set_prev h new_first head.

Definition list_cut_position (h : heap) (list head entry : Z) : res heap :=
  let! e := list_empty h head in
  if e then Ok h
  else
    let! s := list_is_singular h head in
    let! n := next h head in
    if s && (negb (n =? entry) && negb (head =? entry)) then Ok h
    else if entry =? head then INIT_LIST_HEAD h list
    else __list_cut_position h list head entry.

Definition __list_splice (h : heap) (list prev_ next_ : Z) : res heap :=
  let! first := next h list in
  let! last := prev h list in
  let! h := set_prev h first prev_ in
  let! h := set_next h prev_ first in
  let! h := set_next h last next_ in
  set_prev h next_ last.

Definition list_splice (h : heap) (list head : Z) : res heap :=
  let! e := list_empty h list in
  if negb e then
    let! n := next h head in
    __list_splice h list head n
  else Ok h.

Definition list_splice_tail (h : heap) (list head : Z) : res heap :=
  let! e := list_empty h list in
  if negb e then
    let! p := prev h head in
    __list_splice h list p head
  else Ok h.

Definition list_splice_init (h : heap) (list head : Z) : res heap :=
  let! e := list_empty h list in
  if negb e then
    let! n := next h head in
    let! h := __list_splice h list head n in
    INIT_LIST_HEAD h list
  else Ok h.

Definition list_splice_tail_init (h : heap) (list head : Z) : res heap :=
  let! e := list_empty h list in
  if negb e then
    let! p := prev h head in
    let! h := __list_splice h list p head in
    INIT_LIST_HEAD h list
  else Ok h.

(** [for (pos = head->next; pos != head; pos = pos->next)]: the nodes visited,
    one unit of fuel per iteration. *)
Fixpoint visit (fuel : nat) (h : heap) (head pos : Z) : res (list Z) :=
  if pos =? head then Ok []
  else
    match fuel with
    | O => Err OutOfFuel
    | S fuel =>
        let! n := next h pos in
        let! rest := visit fuel h head n in
        Ok (pos :: rest)
    end.

Definition list_for_each (fuel : nat) (h : heap) (head : Z) : res (list Z) :=
  let! n := next h head in
  visit fuel h head n.

(** [list_for_each_prev] follows the other field. *)
Fixpoint visit_prev (fuel : nat) (h : heap) (head pos : Z) : res (list Z) :=
  if pos =? head then Ok []
  else
    match fuel with
    | O => Err OutOfFuel
    | S fuel =>
        let! n := prev h pos in
        let! rest := visit_prev fuel h head n in
        Ok (pos :: rest)
    end.

Definition list_for_each_prev (fuel : nat) (h : heap) (head : Z) : res (list Z) :=
  let! n := prev h head in
  visit_prev fuel h head n.

(** [list_for_each_entry] around a loop body that changes a state, or leaves the
    loop with a result ([break] and [return]); the body does not move the
    entries it goes past. *)
Section ForEach.
Context {S R : Type}.
Variable body : S -> Z -> res (S + R).

Fixpoint entries (fuel : nat) (h : heap) (head pos : Z) (s : S) : res (S + R) :=
  if pos =? head then Ok (inl s)
  else
    match fuel with
    | O => Err OutOfFuel
    | Datatypes.S fuel =>
        let! x := body s pos in
        match x with
        | inr r => Ok (inr r)
        | inl s =>
            let! n := next h pos in
            entries fuel h head n s
        end
    end.

Definition list_for_each_entry (fuel : nat) (h : heap) (head : Z) (s : S) : res (S + R) :=
  let! n := next h head in
  entries fuel h head n s.

(** The same loop over a plain list. *)
Fixpoint over (s : S) (l : list Z) : res (S + R) :=
  match l with
  | [] => Ok (inl s)
  | a :: l =>
      let! x := body s a in
      match x with inr r => Ok (inr r) | inl s => over s l end
  end.
End ForEach.

(** ** Representation *)

(** Each node of [S] points to the node of [T] at the same place, and back. *)
Definition links (h : heap) (S T : list Z) : Prop :=
  Forall2 (fun a b => nx h !! a = Some b /\ pv h !! b = Some a) S T.

(** The circular list with head [head] and entries [l]. *)
Record is_list (h : heap) (head : Z) (l : list Z) : Prop := {
  il_links : links h (head :: l) (l ++ [head]);
  il_nodup : NoDup (head :: l)
}.

(** A node that exists and may be linked in. *)
Definition node (h : heap) (a : Z) : Prop := is_Some (nx h !! a) /\ is_Some (pv h !! a).

(** [h'] differs from [h] at most in the nodes of [X]. *)
Definition same_outside (X : list Z) (h h' : heap) : Prop :=
  forall a, a ∉ X -> nx h' !! a = nx h !! a /\ pv h' !! a = pv h !! a.

(** ** Links *)

Lemma links_frame h h' S T :
  links h S T -> (forall a, a ∈ S -> nx h' !! a = nx h !! a) ->
  (forall b, b ∈ T -> pv h' !! b = pv h !! b) -> links h' S T.
Proof.
  intros H HS HT. unfold links in *. induction H as [|a b S T [H1 H2] H IH]; [constructor |].
  constructor.
  - rewrite HS, HT by set_solver. auto.
  - apply IH; intros x Hx; [apply HS | apply HT]; set_solver.
Qed.

Lemma is_list_frame h h' X hd k :
  is_list h hd k -> same_outside X h h' -> (forall a, a ∈ hd :: k -> a ∉ X) -> is_list h' hd k.
Proof.
  intros [Hl Hn] Hs Hd. split; [|exact Hn]. apply (links_frame h); [exact Hl | |].
  - intros a Ha. apply Hs, Hd, Ha.
  - intros b Hb. apply Hs, Hd. set_solver.
Qed.

(** The two sides of a place in a list. *)
Lemma place (head : Z) (l1 l2 : list Z) :
  exists A p n B, head :: l1 = A ++ [p] /\ l2 ++ [head] = n :: B /\ length A = length l1.
Proof.
  destruct (exists_last (l := head :: l1)) as (A & p & E); [discriminate |].
  destruct l2 as [|n l2]; eexists A, p, _, _; (split; [exact E | split; [reflexivity |]]);
    apply (f_equal length) in E; rewrite length_app in E; cbn in E; lia.
Qed.

Lemma links_app h A B A' B' :
  length A = length A' -> links h (A ++ B) (A' ++ B') <-> links h A A' /\ links h B B'.
Proof.
  intros HL. unfold links. split.
  - intros H. now apply Forall2_app_inv in H.
  - intros [H1 H2]. now apply Forall2_app.
Qed.

Lemma links_cons h a S b T :
  links h (a :: S) (b :: T) <-> nx h !! a = Some b /\ pv h !! b = Some a /\ links h S T.
Proof.
  unfold links. split; [intros H; inversion H; tauto | intros (H1 & H2 & H3); now constructor].
Qed.

Lemma targets_nodup (head : Z) l : NoDup (head :: l) -> NoDup (l ++ [head]).
Proof. intros H. rewrite <- Permutation_cons_append. exact H. Qed.

(** ** Stores *)

Lemma set_next_ok h a v :
  is_Some (nx h !! a) -> set_next h a v = Ok (Heap (<[a := v]> (nx h)) (pv h)).
Proof. intros [x Hx]. unfold set_next. now rewrite Hx. Qed.

Lemma set_prev_ok h a v :
  is_Some (pv h !! a) -> set_prev h a v = Ok (Heap (nx h) (<[a := v]> (pv h))).
Proof. intros [x Hx]. unfold set_prev. now rewrite Hx. Qed.

Lemma next_ok h a b : nx h !! a = Some b -> next h a = Ok b.
Proof. unfold next. now intros ->. Qed.

Lemma prev_ok h a b : pv h !! a = Some b -> prev h a = Ok b.
Proof. unfold prev. now intros ->. Qed.

Lemma insert_some (m : gmap Z Z) a v b : is_Some (m !! b) -> is_Some (<[a := v]> m !! b).
Proof. intros H. rewrite lookup_insert. case_decide; eauto. Qed.

#[local] Hint Resolve insert_some : core.

(** The node a store goes to exists, also after other stores. *)
Ltac exists_node := cbn [nx pv]; eauto.

(** *** Linking in and out *)

Lemma __list_add_ok h new p n :
  node h new -> nx h !! p = Some n -> pv h !! n = Some p ->
  __list_add h new p n =
    Ok (Heap (<[p := new]> (<[new := n]> (nx h))) (<[new := p]> (<[n := new]> (pv h)))).
Proof.
  intros [H1 H2] Hn Hp. pose proof (mk_is_Some _ _ Hn). pose proof (mk_is_Some _ _ Hp).
  unfold __list_add. rewrite set_prev_ok by exists_node. cbn [rbind]. rewrite set_next_ok by exists_node. cbn [rbind nx pv].
  rewrite set_prev_ok by exists_node. cbn [rbind nx pv]. rewrite set_next_ok by exists_node. reflexivity.
Qed.

Lemma insert_links h new A p B A' n B' :
  length A = length A' ->
  links h (A ++ p :: B) (A' ++ n :: B') -> NoDup (A ++ p :: B) -> NoDup (A' ++ n :: B') ->
  new ∉ A ++ p :: B -> new ∉ A' ++ n :: B' ->
  let h' := Heap (<[p := new]> (<[new := n]> (nx h))) (<[new := p]> (<[n := new]> (pv h))) in
  links h' (A ++ p :: new :: B) (A' ++ new :: n :: B').
Proof.
  intros HL Hl HS HT NS NT h'. apply links_app in Hl as [HA HB]; [|exact HL].
  apply links_cons in HB as (Hn & Hp & HB).
  apply list.NoDup_app in HS as (_ & HSd & HS). apply list.NoDup_cons in HS as [HpB _].
  apply list.NoDup_app in HT as (_ & HTd & HT). apply list.NoDup_cons in HT as [HnB _].
  assert (forall a, a ∈ A \/ a ∈ B -> nx h' !! a = nx h !! a) as F1.
  { intros a Ha. cbn. rewrite !lookup_insert_ne; [reflexivity | set_solver | ].
    intros ->. destruct Ha as [Ha|Ha]; [apply (HSd a Ha); set_solver | set_solver]. }
  assert (forall b, b ∈ A' \/ b ∈ B' -> pv h' !! b = pv h !! b) as F2.
  { intros b Hb. cbn. rewrite !lookup_insert_ne; [reflexivity | | set_solver].
    intros ->. destruct Hb as [Hb|Hb]; [apply (HTd b Hb); set_solver | set_solver]. }
  apply links_app; [exact HL |]. split; [apply (links_frame h); auto |].
  apply links_cons. cbn [nx pv h']. rewrite !lookup_insert_eq. do 2 (split; [reflexivity |]).
  apply links_cons. cbn [nx pv h'].
  rewrite (lookup_insert_ne (<[new := n]> (nx h))), lookup_insert_eq by set_solver.
  rewrite (lookup_insert_ne (<[n := new]> (pv h))), lookup_insert_eq by set_solver.
  do 2 (split; [reflexivity |]). apply (links_frame h); auto.
Qed.

(** Inserting a node between [l1] and [l2]. *)
Lemma insert_ok h head l1 l2 new :
  is_list h head (l1 ++ l2) -> node h new -> new ∉ head :: l1 ++ l2 ->
  exists A p n B h', head :: l1 = A ++ [p] /\ l2 ++ [head] = n :: B /\
    nx h !! p = Some n /\ pv h !! n = Some p /\
    __list_add h new p n = Ok h' /\ is_list h' head (l1 ++ new :: l2) /\
    same_outside (new :: head :: l1 ++ l2) h h'.
Proof.
  intros [Hl Hnd] Hnode Hnew. destruct (place head l1 l2) as (A & p & n & B & E1 & E2 & HL).
  pose proof (targets_nodup _ _ Hnd) as HT.
  change (head :: l1 ++ l2) with ((head :: l1) ++ l2) in Hl, Hnd, Hnew.
  rewrite E1, <- app_assoc in Hl, Hnd. cbn [app] in Hl, Hnd.
  rewrite <- app_assoc, E2 in Hl, HT.
  pose proof Hl as Hl'. apply links_app in Hl' as [_ (Hn & Hp & _)%links_cons]; [|exact HL].
  exists A, p, n, B. eexists. do 4 (split; [assumption |]).
  split; [now apply __list_add_ok |]. split.
  - split.
    + change (head :: l1 ++ new :: l2) with ((head :: l1) ++ new :: l2).
      rewrite E1, <- !app_assoc. cbn [app]. rewrite E2.
      apply insert_links; try assumption.
      * change (p :: l2) with ([p] ++ l2). now rewrite app_assoc, <- E1.
      * rewrite <- E2. set_solver.
    + change (NoDup ((head :: l1) ++ new :: l2)). rewrite <- Permutation_middle.
      apply list.NoDup_cons. split; [exact Hnew |]. now rewrite E1, <- app_assoc.
  - assert (p ∈ head :: l1) as Hpin by (rewrite E1; set_solver).
    assert (n ∈ l2 ++ [head]) as Hnin by (rewrite E2; set_solver).
    intros a Ha. cbn. rewrite !lookup_insert_ne by set_solver. auto.
Qed.

(** Taking the node [e] out of [l1 ++ e :: l2]. *)
Lemma __list_del_ok h p n :
  is_Some (nx h !! p) -> is_Some (pv h !! n) ->
  __list_del h p n = Ok (Heap (<[p := n]> (nx h)) (<[n := p]> (pv h))).
Proof.
  intros H1 H2. unfold __list_del. rewrite set_prev_ok by exists_node. cbn [rbind nx pv].
  rewrite set_next_ok by exists_node. reflexivity.
Qed.

Lemma remove_links h A p e B A' n B' :
  length A = length A' ->
  links h (A ++ p :: e :: B) (A' ++ e :: n :: B') ->
  NoDup (A ++ p :: e :: B) -> NoDup (A' ++ e :: n :: B') ->
  links (Heap (<[p := n]> (nx h)) (<[n := p]> (pv h))) (A ++ p :: B) (A' ++ n :: B').
Proof.
  intros HL Hl HS HT. apply links_app in Hl as [HA HB]; [|exact HL].
  apply links_cons in HB as (_ & _ & HB). apply links_cons in HB as (_ & _ & HB).
  apply list.NoDup_app in HS as (_ & HSd & HS). apply list.NoDup_cons in HS as [HpB _].
  apply list.NoDup_app in HT as (_ & HTd & HT). apply list.NoDup_cons in HT as [_ HT].
  apply list.NoDup_cons in HT as [HnB _].
  apply links_app; [exact HL |]. split; [|apply links_cons; cbn; rewrite !lookup_insert_eq].
  - apply (links_frame h); [exact HA | |]; intros a Ha; cbn; rewrite lookup_insert_ne; try reflexivity;
      intros ->; [apply (HSd a Ha) | apply (HTd a Ha)]; set_solver.
  - do 2 (split; [reflexivity |]). apply (links_frame h); [exact HB | |]; intros a Ha; cbn;
      rewrite lookup_insert_ne; try reflexivity; set_solver.
Qed.

Lemma remove_ok h head l1 e l2 :
  is_list h head (l1 ++ e :: l2) ->
  exists p n h', pv h !! e = Some p /\ nx h !! e = Some n /\ p ∈ head :: l1 /\ n ∈ l2 ++ [head] /\
    __list_del h p n = Ok h' /\ is_list h' head (l1 ++ l2) /\
    same_outside (head :: l1 ++ l2) h h' /\ node h' e.
Proof.
  intros [Hl Hnd]. destruct (place head l1 l2) as (A & p & n & B & E1 & E2 & HL).
  pose proof (targets_nodup _ _ Hnd) as HT.
  change (head :: l1 ++ e :: l2) with ((head :: l1) ++ e :: l2) in Hl, Hnd.
  assert (e ∉ head :: l1 /\ e ∉ l2) as [He1 He2].
  { apply list.NoDup_app in Hnd as (_ & Hd & Hn2). apply list.NoDup_cons in Hn2. set_solver. }
  rewrite E1, <- app_assoc in Hl, Hnd. cbn [app] in Hl, Hnd.
  rewrite <- app_assoc in Hl, HT. cbn [app] in Hl, HT. rewrite E2 in Hl, HT.
  pose proof Hl as Hl'. apply links_app in Hl' as [_ (Hn1 & Hp1 & Hl')%links_cons]; [|exact HL].
  apply links_cons in Hl' as (Hn2 & Hp2 & _).
  assert (p ∈ head :: l1) as Hpin by (rewrite E1; set_solver).
  assert (n ∈ l2 ++ [head]) as Hnin by (rewrite E2; set_solver).
  exists p, n. eexists. do 4 (split; [assumption |]).
  split; [apply __list_del_ok; eauto |]. split; [split |split].
  - change (head :: l1 ++ l2) with ((head :: l1) ++ l2). rewrite E1, <- !app_assoc. cbn [app].
    rewrite E2. now apply (remove_links h A p e l2 l1 n B).
  - change (NoDup ((head :: l1) ++ l2)). rewrite E1, <- app_assoc. cbn [app].
    apply list.NoDup_app in Hnd as (H1 & Hd & H2). apply list.NoDup_cons in H2 as [H3 H4].
    apply list.NoDup_cons in H4 as [H5 H6].
    apply list.NoDup_app. split; [exact H1 | split; [set_solver |]].
    apply list.NoDup_cons. split; [set_solver | exact H6].
  - intros a Ha. cbn. rewrite !lookup_insert_ne by set_solver. auto.
  - split; cbn; rewrite lookup_insert_ne by set_solver; eauto.
Qed.

(** ** The operations on lists *)

Lemma list_add_ok h head l new :
  is_list h head l -> node h new -> new ∉ head :: l ->
  exists h', list_add h new head = Ok h' /\ is_list h' head (new :: l) /\
    same_outside (new :: head :: l) h h'.
Proof.
  intros Hl Hn Hnew. destruct (insert_ok h head [] l new Hl Hn Hnew)
    as (A & p & n & B & h' & E1 & _ & Hpn & _ & Ha & Hl' & Ho).
  destruct A as [|x A]; [|destruct A; discriminate]. injection E1 as <-.
  exists h'. unfold list_add. now rewrite (next_ok _ _ _ Hpn).
Qed.

Lemma list_add_tail_ok h head l new :
  is_list h head l -> node h new -> new ∉ head :: l ->
  exists h', list_add_tail h new head = Ok h' /\ is_list h' head (l ++ [new]) /\
    same_outside (new :: head :: l) h h'.
Proof.
  intros Hl Hn Hnew. rewrite <- (app_nil_r l) in Hl, Hnew.
  destruct (insert_ok h head l [] new Hl Hn Hnew)
    as (A & p & n & B & h' & _ & E2 & _ & Hnp & Ha & Hl' & Ho).
  injection E2 as <- _. rewrite app_nil_r in Ho.
  exists h'. unfold list_add_tail. now rewrite (prev_ok _ _ _ Hnp).
Qed.

Lemma del_entry_ok h head l1 e l2 :
  is_list h head (l1 ++ e :: l2) ->
  exists h', __list_del_entry h e = Ok h' /\ is_list h' head (l1 ++ l2) /\
    same_outside (head :: l1 ++ l2) h h' /\ node h' e /\ e ∉ head :: l1 ++ l2.
Proof.
  intros Hl. destruct (remove_ok _ _ _ _ _ Hl) as (p & n & h' & Hp & Hn & _ & _ & E & Hl' & Ho & Hnode).
  exists h'. unfold __list_del_entry. rewrite (prev_ok _ _ _ Hp), (next_ok _ _ _ Hn). cbn [rbind].
  do 4 (split; [assumption |]). destruct Hl as [_ Hnd].
  change (NoDup ((head :: l1) ++ e :: l2)) in Hnd. rewrite <- Permutation_middle in Hnd.
  now apply list.NoDup_cons in Hnd as [H _].
Qed.

(** Overwriting the fields of a node outside a list. *)
Lemma overwrite_node h head l e a b :
  is_list h head l -> e ∉ head :: l ->
  is_list (Heap (<[e := a]> (nx h)) (<[e := b]> (pv h))) head l.
Proof.
  intros Hl He. apply (is_list_frame h _ [e]); [exact Hl | | set_solver].
  intros x Hx. cbn. rewrite !lookup_insert_ne by set_solver. auto.
Qed.

Lemma init_ok h a :
  node h a ->
  INIT_LIST_HEAD h a = Ok (Heap (<[a := a]> (nx h)) (<[a := a]> (pv h))) /\
  is_list (Heap (<[a := a]> (nx h)) (<[a := a]> (pv h))) a [].
Proof.
  intros [H1 H2]. unfold INIT_LIST_HEAD. rewrite set_next_ok by exists_node. cbn [rbind].
  rewrite set_prev_ok by exists_node. split; [reflexivity |]. split; [|apply NoDup_singleton].
  apply links_cons. cbn. rewrite !lookup_insert_eq. do 2 (split; [reflexivity |]). constructor.
Qed.

Lemma list_del_ok h head l1 e l2 :
  is_list h head (l1 ++ e :: l2) ->
  exists h', list_del h e = Ok h' /\ is_list h' head (l1 ++ l2) /\
    nx h' !! e = Some LIST_POISON1 /\ pv h' !! e = Some LIST_POISON2 /\
    same_outside (head :: l1 ++ e :: l2) h h'.
Proof.
  intros Hl. destruct (del_entry_ok _ _ _ _ _ Hl) as (h3 & E3 & H3 & O3 & N3 & He).
  exists (Heap (<[e := LIST_POISON1]> (nx h3)) (<[e := LIST_POISON2]> (pv h3))).
  split; [|cbn; rewrite !lookup_insert_eq; split; [now apply overwrite_node | do 2 (split; [reflexivity |])]].
  - unfold list_del. unfold __list_del_entry in E3.
    destruct (prev h e) as [p|]; [|discriminate]. cbn [rbind] in *.
    destruct (next h e) as [n|]; [|discriminate]. cbn [rbind] in *. rewrite E3. cbn [rbind].
    destruct N3. rewrite set_next_ok by exists_node. cbn [rbind]. now rewrite set_prev_ok by exists_node.
  - intros a Ha. cbn. rewrite !lookup_insert_ne by set_solver. apply O3. set_solver.
Qed.

(** Every list apart from the nodes [X] stays as it is. *)
Definition keeps (X : list Z) (h h' : heap) : Prop :=
  forall hd k, is_list h hd k -> (forall a, a ∈ hd :: k -> a ∉ X) -> is_list h' hd k.

Lemma keeps_outside X h h' : same_outside X h h' -> keeps X h h'.
Proof. intros Ho hd k Hk Hd. exact (is_list_frame _ _ _ _ _ Hk Ho Hd). Qed.

(** C32: the basic operations of linux/list.h keep the list circular and doubly
    linked and act on its entries as expected.  On every list, the empty one
    included, [list_add] puts a node that is not in it first and
    [list_add_tail] puts it last; for every entry [list_del] removes exactly
    that entry and poisons its fields, and [list_del_init] removes it and leaves
    it an empty list of its own; every list of other nodes stays as it is. *)
Theorem list_edit_spec h head l :
  is_list h head l ->
  (forall new, node h new -> new ∉ head :: l ->
     (exists h', list_add h new head = Ok h' /\ is_list h' head (new :: l) /\ keeps (new :: head :: l) h h') /\
     (exists h', list_add_tail h new head = Ok h' /\ is_list h' head (l ++ [new]) /\ keeps (new :: head :: l) h h')) /\
  (forall l1 e l2, l = l1 ++ e :: l2 ->
     (exists h', list_del h e = Ok h' /\ is_list h' head (l1 ++ l2) /\ keeps (head :: l) h h' /\
        nx h' !! e = Some LIST_POISON1 /\ pv h' !! e = Some LIST_POISON2) /\
     (exists h', list_del_init h e = Ok h' /\ is_list h' head (l1 ++ l2) /\ is_list h' e [] /\ keeps (head :: l) h h')).
Proof.
  intros Hl. split.
  - intros new Hn Hnew.
    destruct (list_add_ok _ _ _ _ Hl Hn Hnew) as (h1 & E1 & H1 & O1).
    destruct (list_add_tail_ok _ _ _ _ Hl Hn Hnew) as (h2 & E2 & H2 & O2).
    split; eauto using keeps_outside.
  - intros l1 e l2 ->. destruct (del_entry_ok _ _ _ _ _ Hl) as (h3 & E3 & H3 & O3 & N3 & He). split.
    + destruct (list_del_ok _ _ _ _ _ Hl) as (h4 & E4 & H4 & P1 & P2 & O4). eauto 7 using keeps_outside.
    + unfold list_del_init. rewrite E3. cbn [rbind]. destruct (init_ok h3 e N3) as [-> Hi].
      eexists. split; [reflexivity |]. split; [now apply overwrite_node |]. split; [exact Hi |]. apply keeps_outside.
      intros a Ha. cbn. rewrite !lookup_insert_ne by set_solver. apply O3. set_solver.
Qed.

(** A heap with the list 10: 20, 30, 40 and a free node 50. *)
Definition sample : heap :=
  Heap {[ 10 := 20; 20 := 30; 30 := 40; 40 := 10; 50 := 0; 60 := 60 ]}
       {[ 20 := 10; 30 := 20; 40 := 30; 10 := 40; 50 := 0; 60 := 60 ]}.

Lemma sample_list : is_list sample 10 [20; 30; 40].
Proof.
  split; [repeat constructor |]. apply (bool_decide_unpack _). exact I.
Qed.

(** Deleting from the list, and adding to the empty list at 60. *)
Lemma list_edit_spec_witness :
  (exists h', list_del sample 30 = Ok h' /\ is_list h' 10 [20; 40]) /\
  (exists h', list_add sample 50 60 = Ok h' /\ is_list h' 60 [50] /\ is_list h' 10 [20; 30; 40]).
Proof.
  split.
  - destruct (list_edit_spec sample 10 [20; 30; 40] sample_list) as [_ H].
    destruct (H [20] 30 [40] eq_refl) as [(h' & E & Hl & _) _]. exists h'. split; [exact E | exact Hl].
  - destruct (list_edit_spec sample 60 []) as [H _].
    + split; [repeat constructor |]; apply (bool_decide_unpack _); exact I.
    + destruct (H 50) as [(h' & E & Hl & Hk) _].
      * split; eexists; reflexivity.
      * set_solver.
      * exists h'. split; [exact E | split; [exact Hl | apply Hk; [apply sample_list | set_solver]]].
Defined.

(** *** Iteration *)

Lemma visit_ok head l : forall fuel h,
  (length l <= fuel)%nat -> head ∉ l -> links h l (tail (l ++ [head])) ->
  visit fuel h head (default head (hd_error (l ++ [head]))) = Ok l.
Proof.
  induction l as [|x l IH]; intros fuel h Hf Hd Hl; cbn.
  { destruct fuel; cbn; now rewrite Z.eqb_refl. }
  destruct fuel as [|fuel]; [cbn in Hf; lia |]. cbn [visit].
  destruct (Z.eqb_spec x head) as [->|_]; [set_solver |]. cbn [tail app] in Hl.
  assert (nx h !! x = Some (default head (hd_error (l ++ [head]))) /\ links h l (tail (l ++ [head]))) as [Hx Hl'].
  { destruct l as [|y l]; cbn in *; apply links_cons in Hl as (H1 & _ & H2); auto. }
  rewrite (next_ok _ _ _ Hx). cbn [rbind]. rewrite IH; [reflexivity | cbn in Hf; lia | set_solver | exact Hl'].
Qed.

Lemma visit_prev_ok head l : forall fuel h y,
  (length l <= fuel)%nat -> head ∉ l -> links h (head :: l) (l ++ [y]) ->
  visit_prev fuel h head (default head (list.last (head :: l))) = Ok (rev l).
Proof.
  induction l as [|x l IH] using rev_ind; intros fuel h y Hf Hd Hl.
  { destruct fuel; cbn; now rewrite Z.eqb_refl. }
  rewrite length_app in Hf. cbn in Hf. destruct fuel as [|fuel]; [lia |].
  change (head :: l ++ [x]) with ((head :: l) ++ [x]) in *. rewrite last_snoc. cbn [default visit_prev]. unfold id.
  destruct (Z.eqb_spec x head) as [->|_]; [set_solver |].
  apply links_app in Hl as [Hl _]; [|rewrite length_app; cbn; lia].
  assert (pv h !! x = Some (default head (list.last (head :: l)))) as Hx.
  { destruct (exists_last (l := head :: l)) as (A & p & E); [discriminate |]. rewrite E in Hl |- *.
    rewrite last_snoc. cbn. apply links_app in Hl as [_ (_ & H & _)%links_cons]; [exact H |].
    apply (f_equal length) in E. rewrite length_app in E. cbn in E. lia. }
  rewrite (prev_ok _ _ _ Hx). cbn [rbind]. rewrite (IH fuel h x); [|lia | set_solver | exact Hl].
  cbn [rbind]. now rewrite rev_app_distr.
Qed.

Lemma first_ok h head l :
  is_list h head l -> nx h !! head = Some (default head (hd_error (l ++ [head]))) /\
    links h l (tail (l ++ [head])).
Proof.
  intros [Hl _]. destruct l as [|x l]; cbn in *; apply links_cons in Hl as (H1 & _ & H2); auto.
Qed.

Lemma last_ok h head l :
  is_list h head l -> pv h !! head = Some (default head (list.last (head :: l))).
Proof.
  intros [Hl _]. destruct (exists_last (l := head :: l)) as (A & p & E); [discriminate |].
  rewrite E in Hl |- *. rewrite last_snoc. cbn.
  apply links_app in Hl as [_ (_ & H & _)%links_cons]; [exact H |].
  apply (f_equal length) in E. rewrite length_app in E. cbn in E. lia.
Qed.

Lemma empty_ok h head l : is_list h head l -> list_empty h head = Ok (bool_decide (l = [])).
Proof.
  intros Hl. destruct (first_ok _ _ _ Hl) as [Hn _]. destruct Hl as [_ Hnd]. unfold list_empty.
  rewrite (next_ok _ _ _ Hn). cbn [rbind]. f_equal. destruct l as [|x l]; cbn.
  - now rewrite Z.eqb_refl.
  - apply list.NoDup_cons in Hnd as [Hd _]. apply Z.eqb_neq. set_solver.
Qed.

Lemma entries_ok {S R} (body : S -> Z -> res (S + R)) head l : forall fuel h s,
  (length l <= fuel)%nat -> head ∉ l -> links h l (tail (l ++ [head])) ->
  entries body fuel h head (default head (hd_error (l ++ [head]))) s = over body s l.
Proof.
  induction l as [|x l IH]; intros fuel h s Hf Hd Hl; cbn.
  { destruct fuel; cbn; now rewrite Z.eqb_refl. }
  destruct fuel as [|fuel]; [cbn in Hf; lia |]. cbn [entries].
  destruct (Z.eqb_spec x head) as [->|_]; [set_solver |]. cbn [tail app] in Hl.
  destruct (body s x) as [[s'|r]|e]; cbn [rbind]; try reflexivity.
  destruct l as [|y l]; cbn in Hl |- *; apply links_cons in Hl as (Hn & _ & Hl); rewrite (next_ok _ _ _ Hn); cbn [rbind].
  - destruct fuel; cbn; now rewrite Z.eqb_refl.
  - apply (IH fuel h s'); [cbn in *; lia | set_solver | exact Hl].
Qed.

Lemma for_each_entry_ok {S R} (body : S -> Z -> res (S + R)) fuel h head l s :
  is_list h head l -> (length l <= fuel)%nat -> list_for_each_entry body fuel h head s = over body s l.
Proof.
  intros Hl Hf. destruct (first_ok _ _ _ Hl) as [Hn Hk]. unfold list_for_each_entry.
  rewrite (next_ok _ _ _ Hn). cbn [rbind]. destruct Hl as [_ Hnd]. apply list.NoDup_cons in Hnd as [Hd _].
  now apply entries_ok.
Qed.

Lemma singular_ok h head l :
  is_list h head l -> list_is_singular h head = Ok (bool_decide (length l = 1%nat)).
Proof.
  intros Hl. destruct (first_ok _ _ _ Hl) as [Hn _]. pose proof (last_ok _ _ _ Hl) as Hp.
  unfold list_is_singular. rewrite (empty_ok _ _ _ Hl), (next_ok _ _ _ Hn), (prev_ok _ _ _ Hp). cbn [rbind].
  destruct Hl as [_ Hnl]. apply list.NoDup_cons in Hnl as [_ Hnl].
  destruct l as [|x l]; [reflexivity |]. rewrite bool_decide_eq_false_2 by discriminate.
  cbn [negb rbind]. f_equal. change (list.last (head :: x :: l)) with (list.last (x :: l)). cbn [hd_error app default].
  destruct l as [|y l]; [apply Z.eqb_refl |]. rewrite bool_decide_eq_false_2 by (cbn; lia).
  apply Z.eqb_neq. destruct (exists_last (l := y :: l)) as (A & p & E); [discriminate |].
  rewrite E, app_comm_cons, last_snoc. cbn. apply list.NoDup_cons in Hnl as [Hx _]. rewrite E in Hx. set_solver.
Qed.

(** The iterators and tests.  With fuel for the length of the list,
    [list_for_each] visits exactly the entries in order and stops,
    [list_for_each_prev] visits them backwards; [list_empty] (and its careful
    variant), [list_is_singular] and [list_is_last] answer what their names
    say. *)
Theorem list_iterate_spec h head l fuel :
  is_list h head l -> (length l <= fuel)%nat ->
  list_for_each fuel h head = Ok l /\ list_for_each_prev fuel h head = Ok (rev l) /\
  list_empty h head = Ok (bool_decide (l = [])) /\
  list_empty_careful h head = Ok (bool_decide (l = [])) /\
  list_is_singular h head = Ok (bool_decide (length l = 1%nat)) /\
  (forall l1 e l2, l = l1 ++ e :: l2 -> list_is_last h e head = Ok (bool_decide (l2 = []))).
Proof.
  intros Hl Hf. destruct (first_ok _ _ _ Hl) as [Hn Hlk]. pose proof (last_ok _ _ _ Hl) as Hp.
  pose proof (empty_ok _ _ _ Hl) as He. pose proof Hl as [Hl' Hnd].
  pose proof Hnd as Hnd'. apply list.NoDup_cons in Hnd' as [Hd Hnl].
  split; [|split; [|split; [exact He | split; [|split]]]].
  - unfold list_for_each. rewrite (next_ok _ _ _ Hn). cbn [rbind]. now apply visit_ok.
  - unfold list_for_each_prev. rewrite (prev_ok _ _ _ Hp). cbn [rbind]. now apply visit_prev_ok with head.
  - unfold list_empty_careful. rewrite (next_ok _ _ _ Hn), (prev_ok _ _ _ Hp). cbn [rbind].
    destruct l as [|x l]; cbn; [now rewrite !Z.eqb_refl |].
    destruct (Z.eqb_spec x head); [set_solver | reflexivity].
  - now apply singular_ok.
  - intros l1 e l2 ->. change (head :: l1 ++ e :: l2) with ((head :: l1) ++ e :: l2) in Hl'.
    replace ((l1 ++ e :: l2) ++ [head]) with ((l1 ++ [e]) ++ (l2 ++ [head])) in Hl'
      by (rewrite <- !app_assoc; reflexivity).
    apply links_app in Hl' as [_ Hl']; [|rewrite length_app; cbn; lia].
    unfold list_is_last. destruct l2 as [|y l2]; cbn in Hl'; apply links_cons in Hl' as (H1 & _).
    + rewrite (next_ok _ _ _ H1). cbn [rbind]. now rewrite Z.eqb_refl.
    + rewrite (next_ok _ _ _ H1). cbn [rbind]. f_equal. apply Z.eqb_neq. set_solver.
Qed.

Lemma list_iterate_spec_witness :
  list_for_each 3 sample 10 = Ok [20; 30; 40] /\ list_for_each_prev 3 sample 10 = Ok [40; 30; 20].
Proof.
  destruct (list_iterate_spec sample 10 [20; 30; 40] 3) as (H1 & H2 & _); [apply sample_list | cbn; lia |].
  split; [exact H1 | exact H2].
Defined.

(** *** Moving *)

(** [list_move] and [list_move_tail] take an entry out of its list and put
    it first or last: in the same list, or in another one, which then gains the
    entry while the old list loses it; [list_rotate_left] moves the first entry
    to the end and leaves an empty list alone. *)
Theorem list_move_spec h head l1 e l2 hd k :
  is_list h head (l1 ++ e :: l2) -> is_list h hd k ->
  (forall a, a ∈ hd :: k -> a ∉ head :: l1 ++ e :: l2) ->
  (exists h', list_move h e head = Ok h' /\ is_list h' head (e :: l1 ++ l2)) /\
  (exists h', list_move_tail h e head = Ok h' /\ is_list h' head (l1 ++ l2 ++ [e])) /\
  (exists h', list_move h e hd = Ok h' /\ is_list h' head (l1 ++ l2) /\ is_list h' hd (e :: k)) /\
  (exists h', list_move_tail h e hd = Ok h' /\ is_list h' head (l1 ++ l2) /\ is_list h' hd (k ++ [e])) /\
  (exists h', list_rotate_left h hd = Ok h' /\
     is_list h' hd (match k with [] => [] | x :: k' => k' ++ [x] end)).
Proof.
  intros Hl Hk Hd. destruct (del_entry_ok _ _ _ _ _ Hl) as (h1 & E1 & H1 & O1 & N1 & He).
  assert (is_list h1 hd k) as Hk1 by (apply (is_list_frame h _ _ _ _ Hk O1); set_solver).
  assert (e ∉ hd :: k) as Hek by set_solver.
  destruct (list_add_ok h1 head _ e H1 N1 He) as (h2 & E2 & H2 & _).
  destruct (list_add_tail_ok h1 head _ e H1 N1 He) as (h3 & E3 & H3 & _).
  destruct (list_add_ok h1 hd k e Hk1 N1 Hek) as (h4 & E4 & H4 & O4).
  destruct (list_add_tail_ok h1 hd k e Hk1 N1 Hek) as (h5 & E5 & H5 & O5).
  unfold list_move, list_move_tail. rewrite E1. cbn [rbind]. rewrite <- app_assoc in H3.
  split; [eauto |]. split; [eauto |]. split; [|split].
  - exists h4. split; [exact E4 | split; [|exact H4]].
    apply (is_list_frame h1 _ _ _ _ H1 O4). set_solver.
  - exists h5. split; [exact E5 | split; [|exact H5]].
    apply (is_list_frame h1 _ _ _ _ H1 O5). set_solver.
  - unfold list_rotate_left. rewrite (empty_ok _ _ _ Hk). cbn [rbind]. destruct k as [|x k].
    { exists h. split; [reflexivity | exact Hk]. }
    rewrite bool_decide_eq_false_2 by discriminate. cbn [negb].
    destruct (first_ok _ _ _ Hk) as [Hn _]. cbn in Hn. rewrite (next_ok _ _ _ Hn). cbn [rbind].
    destruct (del_entry_ok h hd [] x k Hk) as (h6 & E6 & H6 & _ & N6 & Hx).
    destruct (list_add_tail_ok h6 hd k x H6 N6 Hx) as (h7 & E7 & H7 & _).
    unfold list_move_tail. rewrite E6. cbn [rbind]. eauto.
Qed.

Lemma sample_other : is_list sample 60 [].
Proof. split; [repeat constructor | apply NoDup_singleton]. Qed.

Lemma list_move_spec_witness :
  exists h', list_move sample 30 60 = Ok h' /\ is_list h' 10 [20; 40] /\ is_list h' 60 [30].
Proof.
  destruct (list_move_spec sample 10 [20] 30 [40] 60 []) as (_ & _ & (h' & E & H1 & H2) & _).
  - apply sample_list.
  - apply sample_other.
  - set_solver.
  - exists h'. split; [exact E | split; [exact H1 | exact H2]].
Defined.

(** *** Splicing *)

Lemma __list_splice_ok h list first last p n :
  nx h !! list = Some first -> pv h !! list = Some last ->
  is_Some (pv h !! first) -> is_Some (nx h !! p) -> is_Some (nx h !! last) -> is_Some (pv h !! n) ->
  __list_splice h list p n =
    Ok (Heap (<[last := n]> (<[p := first]> (nx h))) (<[n := last]> (<[first := p]> (pv h)))).
Proof.
  intros Hf Hl H1 H2 H3 H4. unfold __list_splice.
  rewrite (next_ok _ _ _ Hf), (prev_ok _ _ _ Hl). cbn [rbind].
  rewrite set_prev_ok by exists_node. cbn [rbind]. rewrite set_next_ok by exists_node. cbn [rbind].
  rewrite set_next_ok by exists_node. cbn [rbind]. rewrite set_prev_ok by exists_node. reflexivity.
Qed.

(** Two lookups past the four stores. *)
Lemma lookup_two (m : gmap Z Z) a b v w x : x <> a -> x <> b -> <[a := v]> (<[b := w]> m) !! x = m !! x.
Proof. intros H1 H2. now rewrite !lookup_insert_ne by congruence. Qed.

Lemma splice_links h A p B A' n B' K last f F :
  length A = length A' -> length K = length F ->
  links h (A ++ p :: B) (A' ++ n :: B') -> links h K F ->
  NoDup (A ++ p :: B) -> NoDup (A' ++ n :: B') -> NoDup (K ++ [last]) -> NoDup (f :: F) ->
  (forall a, a ∈ K ++ [last] -> a ∉ A ++ p :: B) -> (forall b, b ∈ f :: F -> b ∉ A' ++ n :: B') ->
  let h' := Heap (<[last := n]> (<[p := f]> (nx h))) (<[n := last]> (<[f := p]> (pv h))) in
  links h' (A ++ p :: K ++ last :: B) (A' ++ f :: F ++ n :: B').
Proof.
  intros HL HLK Hl HKF HS HT HK HF DK DF h'.
  apply links_app in Hl as [HA HB]; [|exact HL]. apply links_cons in HB as (_ & _ & HB).
  apply list.NoDup_app in HS as (_ & HSd & HS). apply list.NoDup_cons in HS as [HpB _].
  apply list.NoDup_app in HT as (_ & HTd & HT). apply list.NoDup_cons in HT as [HnB _].
  apply list.NoDup_app in HK as (_ & HKl & _). apply list.NoDup_cons in HF as [HfF _].
  assert (p <> last) as Hpl by (intros <-; apply (DK p); set_solver).
  assert (f <> n) as Hfn by (intros <-; apply (DF f); set_solver).
  apply links_app; [exact HL |]. split; [apply (links_frame h _ _ _ HA); intros x Hx; apply lookup_two|].
  - intros ->. apply (DK last); set_solver.
  - intros ->. apply (HSd p Hx). set_solver.
  - intros ->. apply (HTd n Hx). set_solver.
  - intros ->. apply (DF f); set_solver.
  - apply links_cons. cbn [nx pv h'].
    rewrite (lookup_insert_ne (<[p := f]> (nx h))), lookup_insert_eq by congruence.
    rewrite (lookup_insert_ne (<[f := p]> (pv h))), lookup_insert_eq by congruence.
    do 2 (split; [reflexivity |]). fold h'. apply links_app; [exact HLK |].
    split; [|apply links_cons; cbn [nx pv h']; rewrite !lookup_insert_eq;
             do 2 (split; [reflexivity |]); fold h'].
    + apply (links_frame h _ _ _ HKF); intros x Hx; apply lookup_two.
      * intros ->. apply (HKl last Hx). set_solver.
      * intros ->. apply (DK p); set_solver.
      * intros ->. apply (DF n); set_solver.
      * set_solver.
    + apply (links_frame h _ _ _ HB); intros x Hx; apply lookup_two.
      * intros ->. apply (DK last); set_solver.
      * set_solver.
      * set_solver.
      * intros ->. apply (DF f); set_solver.
Qed.

(** Splicing the entries [k] of [list] in between [l1] and [l2]. *)
Lemma splice_ok h head l1 l2 list k :
  is_list h head (l1 ++ l2) -> is_list h list k -> k <> [] ->
  (forall a, a ∈ list :: k -> a ∉ head :: l1 ++ l2) ->
  exists A p n B h', head :: l1 = A ++ [p] /\ l2 ++ [head] = n :: B /\
    nx h !! p = Some n /\ pv h !! n = Some p /\
    __list_splice h list p n = Ok h' /\ is_list h' head (l1 ++ k ++ l2) /\ node h' list.
Proof.
  intros [Hl Hnd] [Hk Hkd] Hne Hdis. destruct (place head l1 l2) as (A & p & n & B & E1 & E2 & HL).
  pose proof (targets_nodup _ _ Hnd) as HT. pose proof Hnd as Hnd0.
  change (head :: l1 ++ l2) with ((head :: l1) ++ l2) in Hl, Hnd.
  rewrite E1, <- app_assoc in Hl, Hnd. cbn [app] in Hl, Hnd. rewrite <- app_assoc, E2 in Hl, HT.
  pose proof Hl as Hl'. apply links_app in Hl' as [_ (Hn & Hp & _)%links_cons]; [|exact HL].
  destruct k as [|f F]; [congruence |].
  destruct (exists_last (l := f :: F)) as (K & last & EK); [discriminate |].
  assert (length K = length F) as HLK by (apply (f_equal length) in EK; rewrite length_app in EK; cbn in EK; lia).
  cbn [app] in Hk. rewrite EK in Hk. apply links_cons in Hk as (Hf & Hpf & Hk).
  apply links_app in Hk as [HKF Hk]; [|exact HLK]. apply links_cons in Hk as (Hlast & Hpl & _).
  apply list.NoDup_cons in Hkd as [Hlist Hkd].
  exists A, p, n, B. eexists. do 4 (split; [assumption |]).
  split; [apply __list_splice_ok; eauto |]. split; [split |].
  - change (head :: l1 ++ (f :: F) ++ l2) with ((head :: l1) ++ (f :: F) ++ l2).
    rewrite E1. replace ((A ++ [p]) ++ (f :: F) ++ l2) with (A ++ p :: K ++ last :: l2)
      by (rewrite EK, <- !app_assoc; reflexivity).
    replace ((l1 ++ (f :: F) ++ l2) ++ [head]) with (l1 ++ f :: F ++ n :: B)
      by (rewrite <- !app_assoc, E2; reflexivity).
    apply splice_links; try assumption; [now rewrite <- EK | |].
    + intros a Ha Hin. apply (Hdis a); [rewrite EK; set_solver |].
      change (a ∈ (head :: l1) ++ l2). now rewrite E1, <- app_assoc.
    + intros b Hb Hin. apply (Hdis b); [set_solver |]. rewrite <- E2 in Hin. set_solver.
  - change (NoDup ((head :: l1) ++ (f :: F) ++ l2)).
    rewrite (Permutation_app_comm (f :: F) l2), app_assoc. apply list.NoDup_app.
    split; [exact Hnd0 | split; [set_solver | exact Hkd]].
  - split; cbn; apply insert_some, insert_some; eauto.
Qed.

(** Splicing.  Joining a list into another with [list_splice] puts its
    entries, in order, before those already there, with [list_splice_tail]
    after them; the [_init] variants also leave the source an empty list, and
    an empty source changes nothing. *)
Theorem list_splice_spec h head l list k :
  is_list h head l -> is_list h list k -> (forall a, a ∈ list :: k -> a ∉ head :: l) ->
  (exists h', list_splice h list head = Ok h' /\ is_list h' head (k ++ l)) /\
  (exists h', list_splice_tail h list head = Ok h' /\ is_list h' head (l ++ k)) /\
  (exists h', list_splice_init h list head = Ok h' /\ is_list h' head (k ++ l) /\ is_list h' list []) /\
  (exists h', list_splice_tail_init h list head = Ok h' /\ is_list h' head (l ++ k) /\ is_list h' list []).
Proof.
  intros Hl Hk Hd. unfold list_splice, list_splice_tail, list_splice_init, list_splice_tail_init.
  rewrite (empty_ok _ _ _ Hk). cbn [rbind]. destruct (decide (k = [])) as [->|Hne].
  { rewrite app_nil_r. cbn. repeat split; exists h; auto. }
  rewrite bool_decide_eq_false_2 by assumption. cbn [negb].
  destruct (splice_ok h head [] l list k Hl Hk Hne Hd)
    as (A & p & n & B & h1 & E1 & _ & Hpn & _ & Ea & Ha & Na).
  destruct A as [|x A]; [|destruct A; discriminate]. injection E1 as <-.
  rewrite (next_ok _ _ _ Hpn). cbn [rbind]. rewrite <- (app_nil_r l) in Hl, Hd.
  destruct (splice_ok h head l [] list k Hl Hk Hne Hd)
    as (A & q & m & B' & h2 & _ & E2 & _ & Hnp & Eb & Hb & Nb).
  injection E2 as <- _. rewrite (prev_ok _ _ _ Hnp). cbn [rbind]. rewrite Ea, Eb. cbn [rbind].
  rewrite app_nil_r in Hb, Hd. split; [eauto | split; [eauto |]].
  assert (forall h', node h' list -> forall k', is_list h' head k' -> (forall a, a ∈ k' -> a ∈ k \/ a ∈ l) ->
    exists h'', INIT_LIST_HEAD h' list = Ok h'' /\ is_list h'' head k' /\ is_list h'' list []) as Hinit.
  { intros h' Hn k' Hk' Hin. destruct (init_ok h' list Hn) as [-> Hi]. eexists. split; [reflexivity |].
    split; [|exact Hi]. apply overwrite_node; [exact Hk' |]. destruct Hk as [_ Hkn].
    apply list.NoDup_cons in Hkn as [Hkn _]. set_solver. }
  split; apply Hinit; try assumption; set_solver.
Qed.

Lemma list_splice_spec_witness :
  exists h', list_splice_init sample 10 60 = Ok h' /\ is_list h' 60 [20; 30; 40] /\ is_list h' 10 [].
Proof.
  destruct (list_splice_spec sample 60 [] 10 [20; 30; 40]) as (_ & _ & (h' & E & H1 & H2) & _).
  - apply sample_other.
  - apply sample_list.
  - set_solver.
  - exists h'. split; [exact E | split; [exact H1 | exact H2]].
Defined.

(** *** Cutting *)

Lemma __list_cut_position_ok h list head entry f n :
  node h list -> nx h !! head = Some f -> nx h !! entry = Some n -> head <> list ->
  is_Some (pv h !! f) -> is_Some (pv h !! n) ->
  __list_cut_position h list head entry =
    Ok (Heap (<[head := n]> (<[entry := list]> (<[list := f]> (nx h))))
             (<[n := head]> (<[list := entry]> (<[f := list]> (pv h))))).
Proof.
  intros [H1 H2] Hf Hn Hne H3 H4. pose proof (mk_is_Some _ _ Hf). pose proof (mk_is_Some _ _ Hn).
  unfold __list_cut_position. rewrite (next_ok _ _ _ Hn), (next_ok _ _ _ Hf). cbn [rbind].
  rewrite set_next_ok by exists_node. cbn [rbind].
  rewrite (next_ok _ list f) by (cbn; apply lookup_insert_eq). cbn [rbind].
  rewrite set_prev_ok by exists_node. cbn [rbind]. rewrite set_prev_ok by exists_node. cbn [rbind].
  rewrite set_next_ok by exists_node. cbn [rbind]. rewrite set_next_ok by exists_node. cbn [rbind].
  rewrite set_prev_ok by exists_node. reflexivity.
Qed.

(** The two lists a cut leaves, link by link: [list] takes over the first link
    of [head], [entry] closes the new list, [head] keeps what follows. *)
Lemma cut_links h list head l1 entry l2 f F n B :
  l1 ++ [entry] = f :: F -> l2 ++ [head] = n :: B ->
  is_list h head (l1 ++ entry :: l2) -> list ∉ head :: l1 ++ entry :: l2 ->
  let h' := Heap (<[head := n]> (<[entry := list]> (<[list := f]> (nx h))))
                 (<[n := head]> (<[list := entry]> (<[f := list]> (pv h)))) in
  links h' (list :: l1 ++ [entry]) ((l1 ++ [entry]) ++ [list]) /\ links h' (head :: l2) (l2 ++ [head]).
Proof.
  intros E1 E2 [Hl Hnd] Hli h'. pose proof (targets_nodup _ _ Hnd) as HT.
  replace ((l1 ++ entry :: l2) ++ [head]) with (f :: F ++ n :: B) in Hl, HT
    by (change (f :: F ++ n :: B) with ((f :: F) ++ n :: B); rewrite <- E1, <- E2, <- !app_assoc; reflexivity).
  assert (length l1 = length F) as HL.
  { apply (f_equal length) in E1. rewrite length_app in E1. cbn in E1. lia. }
  assert (forall x, x ∈ f :: F ++ n :: B -> x <> list) as HlT.
  { intros x Hx ->. apply Hli. change (f :: F ++ n :: B) with ((f :: F) ++ n :: B) in Hx.
    rewrite <- E1, <- E2 in Hx. set_solver. }
  apply links_cons in Hl as (_ & _ & Hl). apply links_app in Hl as [HA HB]; [|exact HL].
  apply links_cons in HB as (_ & _ & HB). rewrite E2.
  replace ((l1 ++ [entry]) ++ [list]) with (f :: F ++ [list]) by (rewrite E1; reflexivity).
  apply list.NoDup_cons in Hnd as [Hhd Hnd]. apply list.NoDup_app in Hnd as (_ & HS & Hnd).
  apply list.NoDup_cons in Hnd as [He _].
  apply list.NoDup_cons in HT as [Hf HT]. apply list.NoDup_app in HT as (_ & HFB & HT).
  apply list.NoDup_cons in HT as [Hn _].
  assert (forall x, x ∈ l1 \/ x ∈ l2 -> nx h' !! x = nx h !! x) as G1.
  { intros x Hx. cbn. rewrite !lookup_insert_ne; [reflexivity | set_solver | | set_solver].
    intros ->. destruct Hx as [Hx|Hx]; [apply (HS x Hx); set_solver | set_solver]. }
  assert (forall x, x ∈ F \/ x ∈ B -> pv h' !! x = pv h !! x) as G2.
  { intros x Hx. cbn. rewrite !lookup_insert_ne; [reflexivity | set_solver | | ].
    - intros <-. apply (HlT list); [set_solver | reflexivity].
    - intros ->. destruct Hx as [Hx|Hx]; [apply (HFB x Hx); set_solver | set_solver]. }
  assert (list <> n) as Hln by (intros <-; apply (HlT list); [set_solver | reflexivity]).
  assert (f <> list) as Hfl by (apply HlT; set_solver).
  assert (f <> n) as Hfn by set_solver.
  assert (head <> list) as Hhl by set_solver. assert (entry <> list) as Hel by set_solver.
  assert (head <> entry) as Hhe by set_solver.
  split.
  - apply links_cons. split; [|split].
    + cbn. rewrite !lookup_insert_ne, lookup_insert_eq by congruence. reflexivity.
    + cbn. rewrite !lookup_insert_ne, lookup_insert_eq by congruence. reflexivity.
    + apply links_app; [exact HL |]. split; [apply (links_frame h _ _ _ HA); auto |].
      apply links_cons. split; [|split; [|constructor]].
      * cbn. rewrite lookup_insert_ne, lookup_insert_eq by congruence. reflexivity.
      * cbn. rewrite lookup_insert_ne, lookup_insert_eq by congruence. reflexivity.
  - apply links_cons. split; [|split].
    + cbn. apply lookup_insert_eq.
    + cbn. apply lookup_insert_eq.
    + apply (links_frame h _ _ _ HB); auto.
Qed.

(** Cutting.  [list_cut_position] moves everything up to and including
    [entry] to the new head and leaves the rest, nothing lost and the order
    kept; cutting at the head itself makes the new list empty and changes
    nothing else, and an empty list is left alone. *)
Theorem list_cut_spec h list head l1 entry l2 :
  is_list h head (l1 ++ entry :: l2) -> node h list -> list ∉ head :: l1 ++ entry :: l2 ->
  (exists h', list_cut_position h list head entry = Ok h' /\
     is_list h' list (l1 ++ [entry]) /\ is_list h' head l2) /\
  (exists h', list_cut_position h list head head = Ok h' /\
     is_list h' list [] /\ is_list h' head (l1 ++ entry :: l2)) /\
  (forall hd e, is_list h hd [] -> list_cut_position h list hd e = Ok h).
Proof.
  intros Hl Hno Hli. split; [|split].
  - pose proof Hl as [Hlk Hnd]. pose proof Hlk as Hlk0.
    destruct (l1 ++ [entry]) as [|f F] eqn:E1; [destruct l1; discriminate |].
    destruct (l2 ++ [head]) as [|n B] eqn:E2; [destruct l2; discriminate |].
    pose proof (cut_links _ _ _ _ _ _ _ _ _ _ E1 E2 Hl Hli) as [C1 C2].
    replace ((l1 ++ entry :: l2) ++ [head]) with (f :: F ++ n :: B) in Hlk
      by (change (f :: F ++ n :: B) with ((f :: F) ++ n :: B); rewrite <- E1, <- E2, <- !app_assoc; reflexivity).
    apply links_cons in Hlk as (Hf & Hpf & Hlk).
    apply links_app in Hlk as [_ (Hn & Hpn & _)%links_cons];
      [|apply (f_equal length) in E1; rewrite length_app in E1; cbn in E1; lia].
    unfold list_cut_position. rewrite (empty_ok _ _ _ Hl), (singular_ok _ _ _ Hl), (next_ok _ _ _ Hf). cbn [rbind].
    rewrite bool_decide_eq_false_2 by (destruct l1; discriminate).
    assert (entry <> head) as Hne by (intros ->; apply list.NoDup_cons in Hnd as [Hh _]; apply Hh; set_solver).
    replace (_ && _) with false.
    2:{ destruct (bool_decide_reflect (length (l1 ++ entry :: l2) = 1%nat)) as [E|]; [|reflexivity].
        destruct l1 as [|x l1]; [|rewrite length_app in E; cbn in E; lia]. injection E1 as -> _.
        now rewrite Z.eqb_refl. }
    rewrite (proj2 (Z.eqb_neq entry head) Hne).
    rewrite (__list_cut_position_ok _ _ _ _ f n Hno Hf Hn) by (try (eapply mk_is_Some; eassumption); set_solver).
    eexists. split; [reflexivity |]. rewrite <- E1 in *. split; (split; [assumption |]).
    + apply list.NoDup_cons. split; [set_solver |]. apply list.NoDup_cons in Hnd as [_ Hnd].
      replace (l1 ++ entry :: l2) with ((l1 ++ [entry]) ++ l2) in Hnd by (rewrite <- app_assoc; reflexivity).
      now apply list.NoDup_app in Hnd as (Hnd & _).
    + apply list.NoDup_cons in Hnd as [Hh Hnd]. apply list.NoDup_cons. split; [set_solver |].
      apply list.NoDup_app in Hnd as (_ & _ & Hnd). now apply list.NoDup_cons in Hnd as [_ Hnd].
  - destruct (init_ok h list Hno) as [E Hi]. eexists.
    unfold list_cut_position. rewrite (empty_ok _ _ _ Hl), (singular_ok _ _ _ Hl). cbn [rbind].
    rewrite bool_decide_eq_false_2 by (destruct l1; discriminate).
    destruct (first_ok _ _ _ Hl) as [Hf _]. rewrite (next_ok _ _ _ Hf). cbn [rbind].
    rewrite Z.eqb_refl. cbn [negb]. rewrite !andb_false_r.
    split; [exact E | split; [exact Hi |]]. now apply overwrite_node.
  - intros hd e Hhd. unfold list_cut_position. rewrite (empty_ok _ _ _ Hhd). reflexivity.
Qed.

Lemma list_cut_spec_witness :
  exists h', list_cut_position sample 60 10 30 = Ok h' /\ is_list h' 60 [20; 30] /\ is_list h' 10 [40].
Proof.
  destruct (list_cut_spec sample 60 10 [20] 30 [40]) as ((h' & E & H1 & H2) & _).
  - apply sample_list.
  - split; eexists; reflexivity.
  - set_solver.
  - exists h'. split; [exact E | split; [exact H1 | exact H2]].
Defined.

End ListHead.
