(* ===== verification/ListIter.v ===== *)
(** * Iterating over lists

    The other iterators of linux/list.h: backwards, from or behind an entry,
    and the safe ones, which fetch the next entry before the loop body runs and
    so allow it to unlink the entry it is given.  An entry is named by its node,
    since [list_entry] only shifts by a constant.  Both directions are instances
    of one walk. *)

From S2P Require Import Prelude ListHead.
Import ListHead.

Module ListIter.

(** ** Entries *)

Definition list_first_entry (h : heap) (head : Z) : res Z := next h head.
Definition list_last_entry (h : heap) (head : Z) : res Z := prev h head.
Definition list_first_entry_or_null (h : heap) (head : Z) : res Z :=
  let! pos := next h head in
  Ok (if negb (pos =? head) then pos else 0).
Definition list_next_entry (h : heap) (pos : Z) : res Z := next h pos.
Definition list_prev_entry (h : heap) (pos : Z) : res Z := prev h pos.
Definition list_prepare_entry (pos head : Z) : Z := if truthy pos then pos else head.
Definition list_safe_reset_next (h : heap) (pos : Z) : res Z := list_next_entry h pos.

(** ** Loops *)

Section Loops.
Context {S R : Type}.
(** The body may change the heap, and may leave the loop with a result. *)
Variable body : heap -> S -> Z -> res (heap * S + R).

(** [for (; pos != head; pos = follow(pos))] *)
Fixpoint loop (follow : heap -> Z -> res Z) (fuel : nat) (h : heap) (head pos : Z) (s : S) : res (heap * S + R) :=
  if pos =? head then Ok (inl (h, s))
  else
    match fuel with
    | O => Err OutOfFuel
    | Datatypes.S fuel =>
        let! x := body h s pos in
        match x with
        | inr r => Ok (inr r)
        | inl hs =>
            let! n := follow hs.1 pos in
            loop follow fuel hs.1 head n hs.2
        end
    end.

(** [for (; pos != head; pos = n, n = follow(n))] *)
Fixpoint safe_loop (follow : heap -> Z -> res Z) (fuel : nat) (h : heap) (head pos n : Z) (s : S) : res (heap * S + R) :=
  if pos =? head then Ok (inl (h, s))
  else
    match fuel with
    | O => Err OutOfFuel
    | Datatypes.S fuel =>
        let! x := body h s pos in
        match x with
        | inr r => Ok (inr r)
        | inl hs =>
            let! n' := follow hs.1 n in
            safe_loop follow fuel hs.1 head n n' hs.2
        end
    end.

Definition list_for_each_entry_reverse (fuel : nat) (h : heap) (head : Z) (s : S) : res (heap * S + R) :=
  let! pos := list_last_entry h head in
  loop list_prev_entry fuel h head pos s.

Definition list_for_each_entry_continue (fuel : nat) (h : heap) (head pos : Z) (s : S) : res (heap * S + R) :=
  let! pos := list_next_entry h pos in
  loop list_next_entry fuel h head pos s.

Definition list_for_each_entry_continue_reverse (fuel : nat) (h : heap) (head pos : Z) (s : S) : res (heap * S + R) :=
  let! pos := list_prev_entry h pos in
  loop list_prev_entry fuel h head pos s.

Definition list_for_each_entry_from (fuel : nat) (h : heap) (head pos : Z) (s : S) : res (heap * S + R) :=
  loop list_next_entry fuel h head pos s.

Definition list_for_each_safe (fuel : nat) (h : heap) (head : Z) (s : S) : res (heap * S + R) :=
  let! pos := next h head in
  let! n := next h pos in
  safe_loop next fuel h head pos n s.

Definition list_for_each_prev_safe (fuel : nat) (h : heap) (head : Z) (s : S) : res (heap * S + R) :=
  let! pos := prev h head in
  let! n := prev h pos in
  safe_loop prev fuel h head pos n s.

Definition list_for_each_entry_safe (fuel : nat) (h : heap) (head : Z) (s : S) : res (heap * S + R) :=
  let! pos := list_first_entry h head in
  let! n := list_next_entry h pos in
  safe_loop list_next_entry fuel h head pos n s.

Definition list_for_each_entry_safe_continue (fuel : nat) (h : heap) (head pos : Z) (s : S) : res (heap * S + R) :=
  let! pos := list_next_entry h pos in
  let! n := list_next_entry h pos in
  safe_loop list_next_entry fuel h head pos n s.

Definition list_for_each_entry_safe_from (fuel : nat) (h : heap) (head pos : Z) (s : S) : res (heap * S + R) :=
  let! n := list_next_entry h pos in
  safe_loop list_next_entry fuel h head pos n s.

Definition list_for_each_entry_safe_reverse (fuel : nat) (h : heap) (head : Z) (s : S) : res (heap * S + R) :=
  let! pos := list_last_entry h head in
  let! n := list_prev_entry h pos in
  safe_loop list_prev_entry fuel h head pos n s.
End Loops.

(** ** A walk *)

Definition after (head : Z) (l : list Z) : Z := default head (hd_error l).

(** [follow] walks through the list that [V] sees. *)
Class Walk (head : Z) (follow : heap -> Z -> res Z) (V : heap -> list Z -> Prop) : Prop := {
  walk_head : forall h l, V h l -> head ∉ l /\ follow h head = Ok (after head l);
  walk_next : forall h l1 x l2, V h (l1 ++ x :: l2) -> follow h x = Ok (after head l2);
  walk_del : forall h l1 x l2, V h (l1 ++ x :: l2) -> exists h', list_del h x = Ok h' /\ V h' (l1 ++ l2)
}.

Lemma next_in h head l1 x l2 : is_list h head (l1 ++ x :: l2) -> nx h !! x = Some (after head l2).
Proof.
  intros [Hl _]. change (head :: l1 ++ x :: l2) with ((head :: l1) ++ x :: l2) in Hl.
  replace ((l1 ++ x :: l2) ++ [head]) with ((l1 ++ [x]) ++ (l2 ++ [head])) in Hl by (rewrite <- !app_assoc; reflexivity).
  apply links_app in Hl as [_ Hl]; [|rewrite length_app; cbn; lia].
  destruct l2; cbn in Hl |- *; now apply links_cons in Hl as (H & _).
Qed.

Lemma prev_in h head l1 x l2 : is_list h head (l1 ++ x :: l2) -> pv h !! x = Some (after head (rev l1)).
Proof.
  intros [Hl _]. change (head :: l1 ++ x :: l2) with ((head :: l1) ++ x :: l2) in Hl. rewrite <- app_assoc in Hl.
  destruct (exists_last (l := head :: l1)) as (A & p & E); [discriminate |]. rewrite E, <- app_assoc in Hl.
  apply links_app in Hl as [_ Hl]; [|apply (f_equal length) in E; rewrite length_app in E; cbn in E; lia].
  cbn in Hl. apply links_cons in Hl as (_ & H & _). rewrite H. f_equal.
  destruct l1 as [|y l1] using rev_ind; [destruct A as [|? A]; [now injection E |]; destruct A; discriminate |].
  rewrite app_comm_cons in E. apply app_inj_tail in E as [_ ->]. now rewrite rev_app_distr.
Qed.

#[export] Instance forward head : Walk head next (fun h l => is_list h head l).
Proof.
  split.
  - intros h l Hl. destruct (first_ok _ _ _ Hl) as [H _]. split; [destruct Hl as [_ Hn]; now apply list.NoDup_cons in Hn as [? _] |].
    rewrite (next_ok _ _ _ H). now destruct l.
  - intros h l1 x l2 Hl. apply next_ok, (next_in _ _ _ _ _ Hl).
  - intros h l1 x l2 Hl. destruct (list_del_ok _ _ _ _ _ Hl) as (h' & E & H & _). eauto.
Qed.

#[export] Instance backward head : Walk head prev (fun h l => is_list h head (rev l)).
Proof.
  split.
  - intros h l Hl. pose proof (last_ok _ _ _ Hl) as H.
    split; [destruct Hl as [_ Hn]; apply list.NoDup_cons in Hn as [Hn _]; now rewrite list_elem_of_In, in_rev, <- list_elem_of_In |].
    rewrite (prev_ok _ _ _ H). f_equal. destruct l as [|x l]; [reflexivity |]. cbn [rev]. now rewrite app_comm_cons, last_snoc.
  - intros h l1 x l2 Hl. rewrite rev_app_distr in Hl. cbn [rev] in Hl. rewrite <- app_assoc in Hl.
    rewrite (prev_ok _ _ _ (prev_in _ _ _ _ _ Hl)). now rewrite rev_involutive.
  - intros h l1 x l2 Hl. rewrite rev_app_distr in Hl. cbn [rev] in Hl. rewrite <- app_assoc in Hl.
    destruct (list_del_ok _ _ _ _ _ Hl) as (h' & E & H & _). rewrite rev_app_distr. eauto.
Qed.

(** ** Bodies *)

(** A body that leaves the heap alone. *)
Definition reading {S R} (b : S -> Z -> res (S + R)) (h : heap) (s : S) (x : Z) : res (heap * S + R) :=
  let! y := b s x in
  Ok (match y with inl s => inl (h, s) | inr r => inr r end).

(** A body that unlinks some of the entries it sees. *)
Definition del_unless (keep : Z -> bool) (h : heap) (seen : list Z) (x : Z) : res (heap * list Z + unit) :=
  if keep x then Ok (inl (h, seen ++ [x]))
  else
    let! h := list_del h x in
    Ok (inl (h, seen ++ [x])).

(** The loop over a plain list, with the heap it leaves. *)
Definition reads {S R} (b : S -> Z -> res (S + R)) (h : heap) (s : S) (l : list Z) : res (heap * S + R) :=
  let! y := over b s l in
  Ok (match y with inl s => inl (h, s) | inr r => inr r end).

Section Walking.
Context {head : Z} {follow : heap -> Z -> res Z} {V : heap -> list Z -> Prop} {HW : Walk head follow V}.

Lemma loop_ok {S R} (b : S -> Z -> res (S + R)) h l : forall l1 fuel s,
  V h (l1 ++ l) -> (length l <= fuel)%nat -> loop (reading b) follow fuel h head (after head l) s = reads b h s l.
Proof.
  induction l as [|x l IH]; intros l1 fuel s Hl Hf; cbn [after default hd_error].
  { destruct fuel; cbn; unfold id; now rewrite Z.eqb_refl. }
  destruct (walk_head h _ Hl) as [Hd _]. cbn in Hf. destruct fuel as [|fuel]; [lia |]. cbn [loop]. unfold id.
  destruct (Z.eqb_spec x head) as [->|_]; [set_solver |]. unfold reading at 1, reads. cbn [over].
  destruct (b s x) as [[s'|r]|e]; cbn [rbind]; try reflexivity.
  rewrite (walk_next h _ _ _ Hl). cbn [rbind fst snd].
  replace (l1 ++ x :: l) with ((l1 ++ [x]) ++ l) in Hl by now rewrite <- app_assoc. apply (IH _ fuel s' Hl). lia.
Qed.

(** The entry behind the one the walk is at. *)
Lemma walk_at h l1 l : V h (l1 ++ l) -> exists n, follow h (after head l) = Ok n /\ (forall x r, l = x :: r -> n = after head r).
Proof.
  intros Hl. destruct l as [|x l].
  - destruct (walk_head h _ Hl) as [_ E]. eexists. split; [exact E | discriminate].
  - exists (after head l). split; [exact (walk_next h _ _ _ Hl) | intros y r [=]; now subst].
Qed.

Lemma safe_loop_ok keep r : forall fuel h done seen n,
  V h (done ++ r) -> (length r <= fuel)%nat -> follow h (after head r) = Ok n ->
  exists h', safe_loop (del_unless keep) follow fuel h head (after head r) n seen = Ok (inl (h', seen ++ r)) /\
    V h' (done ++ filter keep r).
Proof.
  induction r as [|x r IH]; intros fuel h done seen n Hl Hf Hn.
  { exists h. rewrite app_nil_r. split; [|exact Hl]. destruct fuel; cbn; unfold id; now rewrite Z.eqb_refl. }
  destruct (walk_head h _ Hl) as [Hd _]. cbn in Hf. destruct fuel as [|fuel]; [lia |].
  change (after head (x :: r)) with x in *. rewrite (walk_next h _ _ _ Hl) in Hn. injection Hn as <-.
  cbn [safe_loop]. destruct (Z.eqb_spec x head) as [->|_]; [set_solver |]. unfold del_unless at 1. rewrite filter_cons.
  replace (seen ++ x :: r) with ((seen ++ [x]) ++ r) by now rewrite <- app_assoc.
  destruct (keep x) eqn:Ek; cbn [rbind fst snd].
  - replace (done ++ x :: r) with ((done ++ [x]) ++ r) in Hl by now rewrite <- app_assoc.
    destruct (walk_at _ _ _ Hl) as (n & En & _). rewrite En. cbn [rbind].
    destruct (IH fuel h (done ++ [x]) (seen ++ [x]) n Hl) as (h' & E & H); [lia | exact En |].
    exists h'. split; [exact E |]. rewrite <- app_assoc in H. case_decide as Hk; [exact H | exfalso; apply Hk; now apply Is_true_eq_left].
  - destruct (walk_del h _ _ _ Hl) as (h1 & -> & Hl1). cbn [rbind fst snd].
    destruct (walk_at _ _ _ Hl1) as (n & En & _). rewrite En. cbn [rbind].
    destruct (IH fuel h1 done (seen ++ [x]) n Hl1) as (h' & E & H); [lia | exact En |].
    exists h'. split; [exact E |]. case_decide as Hk; [apply Is_true_eq_true in Hk; congruence | exact H].
Qed.

(** Set up at the entry behind [l1]. *)
Lemma safe_from_ok keep r fuel h done seen :
  V h (done ++ r) -> (length r <= fuel)%nat ->
  exists h', (let! n := follow h (after head r) in safe_loop (del_unless keep) follow fuel h head (after head r) n seen) =
    Ok (inl (h', seen ++ r)) /\ V h' (done ++ filter keep r).
Proof.
  intros Hl Hf. destruct (walk_at _ _ _ Hl) as (n & En & _). rewrite En. cbn [rbind]. now apply safe_loop_ok.
Qed.
End Walking.

(** *** Both directions *)

Section Directions.
Context (h : heap) (head : Z) (l1 : list Z) (x : Z) (l2 : list Z) (fuel : nat).
Context (Hl : is_list h head (l1 ++ x :: l2)) (Hf : (length (l1 ++ x :: l2) <= fuel)%nat).

Lemma split_views : is_list h head ((l1 ++ [x]) ++ l2) /\ is_list h head (rev ((rev l2 ++ [x]) ++ rev l1)) /\
  is_list h head (rev (rev (l1 ++ x :: l2))) /\ (length l1 <= fuel /\ length (x :: l2) <= fuel /\ length l2 <= fuel)%nat.
Proof.
  split; [now rewrite <- app_assoc |]. split; [|split; [now rewrite rev_involutive |]].
  - rewrite !rev_app_distr, !rev_involutive. exact Hl.
  - rewrite length_app in Hf. cbn in *. lia.
Qed.

Lemma plain_loops {S R} (b : S -> Z -> res (S + R)) s :
  list_for_each_entry_reverse (reading b) fuel h head s = reads b h s (rev (l1 ++ x :: l2)) /\
  list_for_each_entry_continue (reading b) fuel h head x s = reads b h s l2 /\
  list_for_each_entry_continue_reverse (reading b) fuel h head x s = reads b h s (rev l1) /\
  list_for_each_entry_from (reading b) fuel h head x s = reads b h s (x :: l2).
Proof.
  destruct split_views as (V1 & V2 & V3 & F1 & F2 & F3). split; [|split; [|split]].
  - unfold list_for_each_entry_reverse, list_last_entry. destruct (walk_head (Walk := backward head) _ _ V3) as [_ ->]. cbn [rbind].
    apply (loop_ok (HW := backward head) b h _ [] fuel s V3). now rewrite length_rev.
  - unfold list_for_each_entry_continue, list_next_entry at 1. rewrite (walk_next (Walk := forward head) _ _ _ _ Hl). cbn [rbind].
    now apply (loop_ok (HW := forward head) b h l2 (l1 ++ [x]) fuel s V1).
  - unfold list_for_each_entry_continue_reverse, list_prev_entry at 1.
    rewrite <- app_assoc in V2. rewrite (walk_next (Walk := backward head) _ _ _ _ V2). cbn [rbind].
    apply (loop_ok (HW := backward head) b h (rev l1) (rev l2 ++ [x]) fuel s); [now rewrite <- app_assoc | now rewrite length_rev].
  - now apply (loop_ok (HW := forward head) b h (x :: l2) l1 fuel s Hl).
Qed.

Lemma safe_loops keep :
  (exists h', list_for_each_safe (del_unless keep) fuel h head [] = Ok (inl (h', l1 ++ x :: l2)) /\
     is_list h' head (filter keep (l1 ++ x :: l2))) /\
  (exists h', list_for_each_prev_safe (del_unless keep) fuel h head [] = Ok (inl (h', rev (l1 ++ x :: l2))) /\
     is_list h' head (rev (filter keep (rev (l1 ++ x :: l2))))) /\
  (exists h', list_for_each_entry_safe_continue (del_unless keep) fuel h head x [] = Ok (inl (h', l2)) /\
     is_list h' head ((l1 ++ [x]) ++ filter keep l2)) /\
  (exists h', list_for_each_entry_safe_from (del_unless keep) fuel h head x [] = Ok (inl (h', x :: l2)) /\
     is_list h' head (l1 ++ filter keep (x :: l2))).
Proof.
  destruct split_views as (V1 & V2 & V3 & F1 & F2 & F3). split; [|split; [|split]].
  - unfold list_for_each_safe. destruct (walk_head (Walk := forward head) _ _ Hl) as [_ ->]. cbn [rbind].
    now apply (safe_from_ok (HW := forward head) keep _ fuel h [] []).
  - unfold list_for_each_prev_safe. destruct (walk_head (Walk := backward head) _ _ V3) as [_ ->]. cbn [rbind].
    apply (safe_from_ok (HW := backward head) keep (rev (l1 ++ x :: l2)) fuel h [] [] V3). now rewrite length_rev.
  - unfold list_for_each_entry_safe_continue, list_next_entry at 1. rewrite (walk_next (Walk := forward head) _ _ _ _ Hl). cbn [rbind].
    now apply (safe_from_ok (HW := forward head) keep l2 fuel h (l1 ++ [x]) []).
  - now apply (safe_from_ok (HW := forward head) keep (x :: l2) fuel h l1 []).
Qed.
End Directions.

Lemma rev_filter (keep : Z -> bool) (l : list Z) : rev (filter keep (rev l)) = filter keep l.
Proof.
  induction l as [|x l IH]; [reflexivity |]. cbn [rev]. rewrite list.filter_app, rev_app_distr, IH, !filter_cons, filter_nil.
  now case_decide.
Qed.

(** Deleting in a loop that is not safe follows the poison. *)
Lemma unsafe_delete h head l1 x l2 fuel :
  is_list h head (l1 ++ x :: l2) -> (1 < fuel)%nat -> nx h !! LIST_POISON1 = None -> pv h !! LIST_POISON1 = None ->
  list_for_each_entry_from (del_unless (fun _ => false)) fuel h head x [] = Err UB.
Proof.
  intros Hl Hf Hn Hp. destruct fuel as [|[|fuel]]; [lia | lia |]. unfold list_for_each_entry_from. cbn [loop].
  destruct (first_ok _ _ _ Hl) as [Hh _]. pose proof (next_in _ _ _ _ _ Hl) as Hx.
  destruct (list_del_ok _ _ _ _ _ Hl) as (h' & E & _ & Px & _ & Ho). pose proof (il_nodup _ _ _ Hl) as Hnd. apply list.NoDup_cons in Hnd as [Hd _].
  destruct (Z.eqb_spec x head) as [->|_]; [set_solver |]. unfold del_unless at 1. rewrite E. cbn [rbind fst snd].
  unfold list_next_entry. rewrite (next_ok _ _ _ Px). cbn [rbind]. destruct (Z.eqb_spec LIST_POISON1 head) as [<-|_]; [congruence |].
  unfold del_unless, list_del, prev.
  assert (LIST_POISON1 ∉ head :: l1 ++ x :: l2) as Hni.
  { intros Hin. apply elem_of_cons in Hin as [E0|Hin]; [congruence |]. apply list_elem_of_split in Hin as (k1 & k2 & Ek).
    rewrite Ek in Hl. pose proof (next_in _ _ _ _ _ Hl). congruence. }
  destruct (Ho _ Hni) as [_ ->]. now rewrite Hp.
Qed.

(** The plain iterators, for a body that leaves the list alone: backwards over
    all entries, or behind, before or from an entry on; the loop is the loop
    over these entries in this order, with its early exits, and comes to an end.
    The entry accessors give the ends and neighbours, and [list_prepare_entry]
    turns NULL into the head, from which [list_for_each_entry_continue] goes
    over everything. *)
Theorem list_walk_spec {S R} (b : S -> Z -> res (S + R)) h head l1 x l2 fuel s :
  let l := l1 ++ x :: l2 in
  is_list h head l -> (length l <= fuel)%nat ->
  list_for_each_entry_reverse (reading b) fuel h head s = reads b h s (rev l) /\
  list_for_each_entry_continue (reading b) fuel h head x s = reads b h s l2 /\
  list_for_each_entry_continue_reverse (reading b) fuel h head x s = reads b h s (rev l1) /\
  list_for_each_entry_from (reading b) fuel h head x s = reads b h s (x :: l2) /\
  list_for_each_entry_continue (reading b) fuel h head (list_prepare_entry 0 head) s = reads b h s l /\
  list_first_entry h head = Ok (after head l) /\ list_first_entry_or_null h head = Ok (after head l) /\
  list_last_entry h head = Ok (after head (rev l)) /\
  list_next_entry h x = Ok (after head l2) /\ list_prev_entry h x = Ok (after head (rev l1)).
Proof.
  intros l Hl Hf. destruct (plain_loops h head l1 x l2 fuel Hl Hf b s) as (H1 & H2 & H3 & H4). do 4 (split; [assumption |]).
  destruct (walk_head (Walk := forward head) h l Hl) as [Hd Hh].
  assert (is_list h head (rev (rev l))) as Hr by now rewrite rev_involutive.
  destruct (walk_head (Walk := backward head) h (rev l) Hr) as [_ Hp].
  split; [|split; [exact Hh | split; [|split; [exact Hp | split]]]].
  - unfold list_for_each_entry_continue, list_prepare_entry, list_next_entry at 1. cbn [truthy Z.eqb negb]. rewrite Hh. cbn [rbind].
    exact (loop_ok (HW := forward head) b h l [] fuel s Hl Hf).
  - unfold list_first_entry_or_null. rewrite Hh. cbn [rbind]. destruct (Z.eqb_spec (after head l) head) as [E|_]; [|reflexivity].
    exfalso. apply Hd. rewrite <- E. unfold l. destruct l1; cbn; set_solver.
  - exact (walk_next (Walk := forward head) _ _ _ _ Hl).
  - exact (prev_ok _ _ _ (prev_in _ _ _ _ _ Hl)).
Qed.

Lemma list_walk_spec_witness :
  list_for_each_entry_reverse (reading (fun seen x => Ok (inl (seen ++ [x]) : list Z + unit))) 3 sample 10 [] =
    Ok (inl (sample, [40; 30; 20])) /\ list_prev_entry sample 30 = Ok 20.
Proof.
  destruct (list_walk_spec (fun seen x => Ok (inl (seen ++ [x]) : list Z + unit)) sample 10 [20] 30 [40] 3 [])
    as (H & _ & _ & _ & _ & _ & _ & _ & _ & Hp); [apply sample_list | cbn; lia |].
  split; [exact H | exact Hp].
Defined.

(** C33: The safe iterators allow the body to delete the entry it is given.
    Whatever entries it deletes, [list_for_each_safe] and
    [list_for_each_entry_safe] visit every entry once in order and stop, the
    reverse ones visit them backwards, the others those behind or from an entry
    on; the list is left well formed with exactly the entries not deleted.  The
    plain loop does not allow this: it goes on from the poisoned fields of the
    deleted entry. *)
Theorem list_safe_spec h head l1 x l2 fuel keep :
  let l := l1 ++ x :: l2 in
  is_list h head l -> (length l < fuel)%nat ->
  (exists h', list_for_each_safe (del_unless keep) fuel h head [] = Ok (inl (h', l)) /\
     list_for_each_entry_safe (del_unless keep) fuel h head [] = Ok (inl (h', l)) /\ is_list h' head (filter keep l)) /\
  (exists h', list_for_each_prev_safe (del_unless keep) fuel h head [] = Ok (inl (h', rev l)) /\
     list_for_each_entry_safe_reverse (del_unless keep) fuel h head [] = Ok (inl (h', rev l)) /\ is_list h' head (filter keep l)) /\
  (exists h', list_for_each_entry_safe_continue (del_unless keep) fuel h head x [] = Ok (inl (h', l2)) /\
     is_list h' head (l1 ++ x :: filter keep l2)) /\
  (exists h', list_for_each_entry_safe_from (del_unless keep) fuel h head x [] = Ok (inl (h', x :: l2)) /\
     is_list h' head (l1 ++ filter keep (x :: l2))) /\
  (nx h !! LIST_POISON1 = None -> pv h !! LIST_POISON1 = None ->
   list_for_each_entry_from (del_unless (fun _ => false)) fuel h head x [] = Err UB).
Proof.
  intros l Hl Hf. destruct (safe_loops h head l1 x l2 fuel Hl ltac:(fold l; lia) keep) as ((h1 & E1 & H1) & (h2 & E2 & H2) & (h3 & E3 & H3) & H4).
  split; [exists h1; now split |]. split; [exists h2; rewrite rev_filter in H2; now split |].
  split; [exists h3; rewrite <- app_assoc in H3; now split |]. split; [exact H4 |].
  intros Hn Hp. apply (unsafe_delete h head l1 x l2); try assumption. unfold l in Hf. rewrite length_app in Hf. cbn in Hf. lia.
Qed.

Lemma list_safe_spec_witness :
  exists h', list_for_each_entry_safe (del_unless (fun x => x =? 30)) 4 sample 10 [] = Ok (inl (h', [20; 30; 40])) /\ is_list h' 10 [30].
Proof.
  destruct (list_safe_spec sample 10 [20] 30 [40] 4 (fun x => x =? 30)) as ((h' & _ & E & H) & _); [apply sample_list | cbn; lia |].
  exists h'. split; [exact E | exact H].
Defined.
End ListIter.
