(* ===== verification/Hlist.v ===== *)
(** * Lists with a one-word head

    The [hlist] half of linux/list.h.  A node holds the address of the next node
    and, in [pprev], the address of the cell that points to it: the [next] field
    of its predecessor or the [first] field of the head.  Both are the first
    field of their structure, so a cell has the address of the structure it
    begins. *)

From S2P Require Import Prelude ListHead.

(** The cells ([first] and [next]) and the [pprev] fields, by address. *)
Record hheap := HHeap { cell : gmap Z Z; pp : gmap Z Z }.

Module Hlist.
Import ListHead(LIST_POISON1, LIST_POISON2).

(** ** Field access *)

Definition get_cell (h : hheap) (a : Z) : res Z :=
  match cell h !! a with Some b => Ok b | None => Err UB end.
Definition set_cell (h : hheap) (a v : Z) : res hheap :=
  match cell h !! a with Some _ => Ok (HHeap (<[a := v]> (cell h)) (pp h)) | None => Err UB end.
Definition get_pprev (h : hheap) (a : Z) : res Z :=
  match pp h !! a with Some b => Ok b | None => Err UB end.
Definition set_pprev (h : hheap) (a v : Z) : res hheap :=
  match pp h !! a with Some _ => Ok (HHeap (cell h) (<[a := v]> (pp h))) | None => Err UB end.

(** ** Operations *)

Definition INIT_HLIST_HEAD (h : hheap) (p : Z) : res hheap := set_cell h p 0.

Definition INIT_HLIST_NODE (h : hheap) (n : Z) : res hheap :=
  let! h := set_cell h n 0 in
  set_pprev h n 0.

Definition hlist_unhashed (h : hheap) (n : Z) : res bool :=
  let! p := get_pprev h n in
  Ok (negb (truthy p)).

Definition hlist_empty (h : hheap) (p : Z) : res bool :=
  let! f := get_cell h p in
  Ok (negb (truthy f)).

Definition __hlist_del (h : hheap) (n : Z) : res hheap :=
  let! next := get_cell h n in
  let! pprev := get_pprev h n in
  let! h := set_cell h pprev next in
  if truthy next then set_pprev h next pprev else Ok h.

Definition hlist_del (h : hheap) (n : Z) : res hheap :=
  let! h := __hlist_del h n in
  let! h := set_cell h n LIST_POISON1 in
  set_pprev h n LIST_POISON2.

Definition hlist_del_init (h : hheap) (n : Z) : res hheap :=
  let! u := hlist_unhashed h n in
  if negb u then
    let! h := __hlist_del h n in
    INIT_HLIST_NODE h n
  else Ok h.

Definition hlist_add_head (h : hheap) (n p : Z) : res hheap :=
  let! first := get_cell h p in
  let! h := set_cell h n first in
  let! h := (if truthy first then set_pprev h first n else Ok h) in
  let! h := set_cell h p n in
  set_pprev h n p.

Definition hlist_add_before (h : hheap) (n next : Z) : res hheap :=
  let! q := get_pprev h next in
  let! h := set_pprev h n q in
  let! h := set_cell h n next in
  let! h := set_pprev h next n in
  let! q := get_pprev h n in
  set_cell h q n.

Definition hlist_add_behind (h : hheap) (n prev : Z) : res hheap :=
  let! x := get_cell h prev in
  let! h := set_cell h n x in
  let! h := set_cell h prev n in
  let! h := set_pprev h n prev in
  let! x := get_cell h n in
  if truthy x then set_pprev h x n else Ok h.

Definition hlist_add_fake (h : hheap) (n : Z) : res hheap := set_pprev h n n.

Definition hlist_fake (h : hheap) (n : Z) : res bool :=
  let! q := get_pprev h n in
  Ok (q =? n).

Definition hlist_is_singular_node (h : hheap) (n p : Z) : res bool :=
  let! x := get_cell h n in
  if negb (truthy x) then
    let! q := get_pprev h n in
    Ok (q =? p)
  else Ok false.

Definition hlist_move_list (h : hheap) (old new : Z) : res hheap :=
  let! f := get_cell h old in
  let! h := set_cell h new f in
  let! f := get_cell h new in
  let! h := (if truthy f then set_pprev h f new else Ok h) in
  set_cell h old 0.

(** *** Iteration: a node stands for the structure it is embedded in *)

(** [for (; pos; pos = pos->next)] *)
Fixpoint hlist_for_each_entry_from (fuel : nat) (h : hheap) (pos : Z) : res (list Z) :=
  if truthy pos then
    match fuel with
    | O => Err OutOfFuel
    | S fuel =>
        let! n := get_cell h pos in
        let! rest := hlist_for_each_entry_from fuel h n in
        Ok (pos :: rest)
    end
  else Ok [].

Definition hlist_for_each (fuel : nat) (h : hheap) (p : Z) : res (list Z) :=
  let! f := get_cell h p in
  hlist_for_each_entry_from fuel h f.

Definition hlist_for_each_entry_continue (fuel : nat) (h : hheap) (pos : Z) : res (list Z) :=
  let! n := get_cell h pos in
  hlist_for_each_entry_from fuel h n.

(** The safe loop reads [pos->next] before the body, which may unlink [pos]. *)
Section Safe.
Context {T : Type}.
Variable body : hheap -> T -> Z -> res (hheap * T).

Fixpoint hlist_safe_loop (fuel : nat) (h : hheap) (s : T) (pos : Z) : res (hheap * T) :=
  if truthy pos then
    match fuel with
    | O => Err OutOfFuel
    | S fuel =>
        let! n := get_cell h pos in
        let! (h, s) := body h s pos in
        hlist_safe_loop fuel h s n
    end
  else Ok (h, s).

Definition hlist_for_each_safe (fuel : nat) (h : hheap) (s : T) (p : Z) : res (hheap * T) :=
  let! f := get_cell h p in
  hlist_safe_loop fuel h s f.
End Safe.

(** ** Representation *)

(** From the cell [p] on, the nodes [l], the last of which holds [e]. *)
Fixpoint seg (h : hheap) (p : Z) (l : list Z) (e : Z) : Prop :=
  match l with
  | [] => cell h !! p = Some e
  | x :: l => cell h !! p = Some x /\ pp h !! x = Some p /\ x <> 0 /\ seg h x l e
  end.

(** The list with head [p] and nodes [l]. *)
Record is_hlist (h : hheap) (p : Z) (l : list Z) : Prop := {
  hl_seg : seg h p l 0;
  hl_nodup : NoDup (p :: l)
}.

(** A node that exists and may be linked in. *)
Definition hnode (h : hheap) (n : Z) : Prop := n <> 0 /\ is_Some (cell h !! n) /\ is_Some (pp h !! n).

Definition hsame_outside (X : list Z) (h h' : hheap) : Prop :=
  forall a, a ∉ X -> cell h' !! a = cell h !! a /\ pp h' !! a = pp h !! a.

Definition first (l : list Z) : Z := match l with [] => 0 | x :: _ => x end.
Definition last_cell (p : Z) (l : list Z) : Z := default p (list.last l).

(** The nodes [l], the first of which is pointed to by the cell [q]. *)
Definition hung (h : hheap) (q : Z) (l : list Z) : Prop :=
  match l with [] => True | x :: l => pp h !! x = Some q /\ x <> 0 /\ seg h x l 0 end.

(** ** Segments *)

Lemma seg_frame h h' l : forall p e,
  seg h p l e -> (forall a, a ∈ p :: l -> cell h' !! a = cell h !! a) ->
  (forall a, a ∈ l -> pp h' !! a = pp h !! a) -> seg h' p l e.
Proof.
  induction l as [|x l IH]; intros p e Hs Hc Hp; cbn in *; [rewrite Hc by constructor; exact Hs |].
  destruct Hs as (H1 & H2 & H3 & H4). rewrite (Hc p), (Hp x) by constructor. do 3 (split; [assumption |]).
  apply IH; [exact H4 | |]; intros a Ha; [apply Hc | apply Hp]; set_solver.
Qed.

Lemma last_cell_cons p x l : last_cell p (x :: l) = last_cell x l.
Proof. unfold last_cell. rewrite last_cons. now destruct (list.last l). Qed.

Lemma last_cell_in p l : last_cell p l ∈ p :: l.
Proof.
  revert p. induction l as [|x l IH]; intros p; [cbn; set_solver |]. rewrite last_cell_cons. specialize (IH x). set_solver.
Qed.

Lemma seg_last h l : forall p e, seg h p l e -> cell h !! last_cell p l = Some e.
Proof.
  induction l as [|x l IH]; intros p e Hs; [exact Hs |]. rewrite last_cell_cons. apply IH, Hs.
Qed.

(** A segment is its last cell changed. *)
Lemma seg_retarget h h' l : forall p e v,
  seg h p l e -> NoDup (p :: l) -> cell h' !! last_cell p l = Some v ->
  (forall a, a ∈ p :: l -> a <> last_cell p l -> cell h' !! a = cell h !! a) ->
  (forall a, a ∈ l -> pp h' !! a = pp h !! a) -> seg h' p l v.
Proof.
  induction l as [|x l IH]; intros p e v Hs Hn Hv Hc Hp; [exact Hv |]. cbn in *. rewrite last_cell_cons in *.
  destruct Hs as (H1 & H2 & H3 & H4). apply list.NoDup_cons in Hn as [Hn1 Hn2].
  pose proof (last_cell_in x l). rewrite (Hc p), (Hp x) by (set_solver || constructor). do 3 (split; [assumption |]).
  apply (IH x e v H4 Hn2 Hv); intros a Ha; [|apply Hp; set_solver]. intros Hne. apply Hc; set_solver.
Qed.

Lemma seg_hung h p l : seg h p l 0 <-> cell h !! p = Some (first l) /\ hung h p l.
Proof. destruct l; cbn; tauto. Qed.

Lemma seg_split h l1 l2 : forall p, seg h p (l1 ++ l2) 0 <-> seg h p l1 (first l2) /\ hung h (last_cell p l1) l2.
Proof.
  induction l1 as [|x l1 IH]; intros p; [apply seg_hung |]. cbn [app seg]. rewrite IH, last_cell_cons. tauto.
Qed.

Lemma hung_frame h h' q q' l :
  hung h q l -> (forall a, a ∈ l -> cell h' !! a = cell h !! a) -> (forall a, a ∈ tail l -> pp h' !! a = pp h !! a) ->
  (l <> [] -> pp h' !! first l = Some q') -> hung h' q' l.
Proof.
  destruct l as [|x l]; [trivial |]. cbn. intros (_ & H2 & H3) Hc Hp Hf. split; [now apply Hf |]. split; [exact H2 |].
  now apply (seg_frame h).
Qed.

Lemma hlist_frame h h' X p l :
  is_hlist h p l -> hsame_outside X h h' -> (forall a, a ∈ p :: l -> a ∉ X) -> is_hlist h' p l.
Proof.
  intros [Hs Hn] Ho Hd. split; [|exact Hn]. apply (seg_frame h); [exact Hs | |]; intros a Ha; apply Ho, Hd; set_solver.
Qed.

(** ** Linking in and out, by what the stores leave *)

(** [n] hangs below the cell [q] and above [l]. *)
Record linked (h h' : hheap) (q n : Z) (l : list Z) : Prop := {
  li_above : cell h' !! q = Some n;
  li_node : cell h' !! n = Some (first l) /\ pp h' !! n = Some q;
  li_below : l <> [] -> pp h' !! first l = Some n;
  li_cells : forall a, a <> q -> a <> n -> cell h' !! a = cell h !! a;
  li_pprevs : forall a, a <> n -> (l <> [] -> a <> first l) -> pp h' !! a = pp h !! a
}.

Lemma linked_ok h h' p l1 l2 n :
  is_hlist h p (l1 ++ l2) -> n <> 0 -> n ∉ p :: l1 ++ l2 -> linked h h' (last_cell p l1) n l2 ->
  is_hlist h' p (l1 ++ n :: l2) /\ hsame_outside (n :: p :: l1 ++ l2) h h'.
Proof.
  intros [Hs Hn] Hn0 Hnew [H1 [H2 H3] H4 H5 H6]. apply seg_split in Hs as [Hs1 Hs2]. pose proof (last_cell_in p l1) as Hq.
  change (p :: l1 ++ l2) with ((p :: l1) ++ l2) in Hn. apply list.NoDup_app in Hn as (N1 & N2 & N3).
  assert (forall a, a ∈ l2 -> a <> last_cell p l1) as Hd by (intros a Ha ->; exact (N2 _ Hq Ha)).
  assert (l2 <> [] -> first l2 ∈ l2) as Hfi by (destruct l2; [congruence | cbn; set_solver]).
  split; [split |].
  - apply seg_split. cbn [first hung]. split; [apply (seg_retarget h _ l1 p (first l2) n); auto |].
    + intros a Ha Hne. apply H5; [exact Hne | set_solver].
    + intros a Ha. apply H6; [set_solver |]. intros Hl ->. apply (N2 (first l2)); [set_solver | auto].
    + do 2 (split; [assumption |]). apply seg_hung. split; [exact H2 |]. apply (hung_frame h h' (last_cell p l1) n l2 Hs2); auto.
      * intros a Ha. apply H5; [auto | set_solver].
      * intros a Ha. apply H6; [intros ->; apply Hnew; destruct l2; cbn in *; set_solver |]. intros _ ->. destruct l2 as [|x l2]; [set_solver |].
        cbn in *. now apply list.NoDup_cons in N3 as [? _].
  - change (NoDup ((p :: l1) ++ n :: l2)). rewrite <- Permutation_middle. apply list.NoDup_cons. split; [exact Hnew |].
    apply list.NoDup_app. auto.
  - intros a Ha. split; [apply H5 | apply H6]; try (intros ->; set_solver). intros Hl ->. specialize (Hfi Hl). set_solver.
Qed.

(** The cell [q] points to [l]. *)
Record unlinked (h h' : hheap) (q e : Z) (l : list Z) : Prop := {
  ul_above : cell h' !! q = Some (first l);
  ul_below : l <> [] -> pp h' !! first l = Some q;
  ul_cells : forall a, a <> q -> a <> e -> cell h' !! a = cell h !! a;
  ul_pprevs : forall a, a <> e -> (l <> [] -> a <> first l) -> pp h' !! a = pp h !! a
}.

Lemma unlinked_ok h h' p l1 e l2 :
  is_hlist h p (l1 ++ e :: l2) -> unlinked h h' (last_cell p l1) e l2 ->
  is_hlist h' p (l1 ++ l2) /\ hsame_outside (p :: l1 ++ e :: l2) h h' /\ e ∉ p :: l1 ++ l2.
Proof.
  intros [Hs Hn] [H1 H2 H3 H4]. apply seg_split in Hs as [Hs1 (_ & _ & Hs2)]. apply seg_hung in Hs2 as [_ Hs2].
  pose proof (last_cell_in p l1) as Hq.
  change (p :: l1 ++ e :: l2) with ((p :: l1) ++ e :: l2) in Hn. rewrite <- Permutation_middle in Hn.
  apply list.NoDup_cons in Hn as [He Hn]. pose proof Hn as Hn'. apply list.NoDup_app in Hn as (N1 & N2 & N3).
  assert (forall a, a ∈ l2 -> a <> last_cell p l1) as Hd by (intros a Ha ->; exact (N2 _ Hq Ha)).
  assert (l2 <> [] -> first l2 ∈ l2) as Hfi by (destruct l2; [congruence | cbn; set_solver]).
  split; [split; [|exact Hn'] | split; [|exact He]].
  - apply seg_split. split; [apply (seg_retarget h _ l1 p e (first l2)); auto |].
    + intros a Ha Hne. apply H3; [exact Hne | intros ->; set_solver].
    + intros a Ha. apply H4; [intros ->; set_solver |]. intros Hl ->. apply (N2 (first l2)); [set_solver | auto].
    + apply (hung_frame h h' e (last_cell p l1) l2 Hs2); auto.
      * intros a Ha. apply H3; [auto | intros ->; set_solver].
      * intros a Ha. apply H4; [intros ->; apply He; destruct l2; cbn in *; set_solver |]. intros _ ->. destruct l2 as [|x l2]; [set_solver |].
        cbn in *. now apply list.NoDup_cons in N3 as [? _].
  - intros a Ha. split; [apply H3 | apply H4]; try (intros ->; set_solver). intros Hl ->. specialize (Hfi Hl). set_solver.
Qed.
(** ** Stores *)

Lemma get_cell_ok h a b : cell h !! a = Some b -> get_cell h a = Ok b.
Proof. unfold get_cell. now intros ->. Qed.

Lemma get_pprev_ok h a b : pp h !! a = Some b -> get_pprev h a = Ok b.
Proof. unfold get_pprev. now intros ->. Qed.

Lemma set_cell_ok h a v : is_Some (cell h !! a) -> set_cell h a v = Ok (HHeap (<[a := v]> (cell h)) (pp h)).
Proof. intros [x Hx]. unfold set_cell. now rewrite Hx. Qed.

Lemma set_pprev_ok h a v : is_Some (pp h !! a) -> set_pprev h a v = Ok (HHeap (cell h) (<[a := v]> (pp h))).
Proof. intros [x Hx]. unfold set_pprev. now rewrite Hx. Qed.

Lemma truthy_eq x : truthy x = negb (bool_decide (x = 0)).
Proof. unfold truthy. now destruct (Z.eqb_spec x 0), (bool_decide_reflect (x = 0)). Qed.

Lemma truthy_first l : 0 ∉ l -> truthy (first l) = negb (bool_decide (l = [])).
Proof.
  intros H. rewrite truthy_eq. destruct l as [|x l]; [reflexivity |]. cbn [first].
  rewrite !bool_decide_eq_false_2 by (discriminate || set_solver). reflexivity.
Qed.

Create HintDb hstore.
#[local] Hint Resolve ListHead.insert_some mk_is_Some : hstore.

(** Run the stores of an operation; look a field up behind them. *)
Ltac hstores :=
  repeat first
    [ rewrite set_cell_ok by (cbn [cell pp]; eauto with hstore)
    | rewrite set_pprev_ok by (cbn [cell pp]; eauto with hstore)
    | progress cbn [rbind cell pp] ].
Ltac hlook :=
  cbn [cell pp first]; intros;
  repeat first [rewrite lookup_insert_eq | rewrite lookup_insert_ne by (congruence || auto)]; auto; try congruence.

(** A place in a list: the cell above, and that nothing coincides. *)
Lemma hplace h p l1 l2 :
  is_hlist h p (l1 ++ l2) ->
  cell h !! last_cell p l1 = Some (first l2) /\ 0 ∉ l2 /\ last_cell p l1 ∉ l2 /\
  (l2 <> [] -> pp h !! first l2 = Some (last_cell p l1)) /\ last_cell p l1 ∈ p :: l1 /\
  (forall a, a ∈ l2 -> is_Some (cell h !! a) /\ is_Some (pp h !! a)).
Proof.
  intros [Hs Hn]. apply seg_split in Hs as [Hs1 Hs2]. pose proof (last_cell_in p l1) as Hq.
  change (p :: l1 ++ l2) with ((p :: l1) ++ l2) in Hn. apply list.NoDup_app in Hn as (_ & N2 & _).
  assert (forall l q, hung h q l -> 0 ∉ l /\ forall a, a ∈ l -> is_Some (cell h !! a) /\ is_Some (pp h !! a)) as Hh.
  { clear. intros l. induction l as [|x l IH]; intros q Hh; [split; set_solver |]. destruct Hh as (H1 & H2 & H3).
    apply seg_hung in H3 as [H3 H4]. destruct (IH _ H4) as [I1 I2]. split; [set_solver |].
    intros a Ha. apply elem_of_cons in Ha as [->|Ha]; eauto. }
  destruct (Hh _ _ Hs2) as [H0 Hex]. split; [exact (seg_last _ _ _ _ Hs1) |]. split; [exact H0 |].
  split; [intros Hin; exact (N2 _ Hq Hin) |]. split; [|split; assumption].
  destruct l2 as [|x l2]; [congruence |]. intros _. apply Hs2.
Qed.

Lemma hlist_add_head_ok h p l n :
  is_hlist h p l -> hnode h n -> n ∉ p :: l -> exists h', hlist_add_head h n p = Ok h' /\ linked h h' p n l.
Proof.
  intros Hl (Hn0 & Hc & Hp) Hn. destruct (hplace h p [] l Hl) as (H1 & H2 & H3 & H4 & _ & H6). cbn [last_cell list.last default] in *. unfold id in *.
  assert (n <> p) by set_solver. unfold hlist_add_head. rewrite (get_cell_ok _ _ _ H1). cbn [rbind]. rewrite truthy_first by exact H2.
  hstores. destruct l as [|x l]; cbn [bool_decide] in *.
  - rewrite bool_decide_eq_true_2 by reflexivity. cbn [negb]. hstores. eexists. split; [reflexivity |].
    split; [hlook | split; hlook | congruence | hlook | hlook].
  - rewrite bool_decide_eq_false_2 by discriminate. cbn [negb first] in *. destruct (H6 x ltac:(set_solver)) as [Hx1 Hx2].
    assert (x <> n /\ x <> p) as [? ?] by set_solver. hstores. eexists. split; [reflexivity |].
    split; [hlook | split; hlook | hlook | hlook |]. intros a Ha Hax. specialize (Hax ltac:(discriminate)). hlook.
Qed.

Lemma hlist_add_before_ok h p l1 x l2 n :
  is_hlist h p (l1 ++ x :: l2) -> hnode h n -> n ∉ p :: l1 ++ x :: l2 ->
  exists h', hlist_add_before h n x = Ok h' /\ linked h h' (last_cell p l1) n (x :: l2).
Proof.
  intros Hl (Hn0 & Hc & Hp) Hn. destruct (hplace _ _ _ _ Hl) as (H1 & H2 & H3 & H4 & H5 & H6). set (q := last_cell p l1) in *.
  assert (n <> q /\ x <> n /\ x <> q) as (? & ? & ?) by set_solver. destruct (H6 x ltac:(set_solver)) as [Hx1 Hx2].
  cbn [first] in H4. specialize (H4 ltac:(discriminate)). unfold hlist_add_before. rewrite (get_pprev_ok _ _ _ H4). hstores.
  rewrite (get_pprev_ok _ _ q) by hlook. hstores. eexists. split; [reflexivity |].
  split; [hlook | split; hlook | hlook | hlook |]. intros a Ha Hax. specialize (Hax ltac:(discriminate)). hlook.
Qed.

Lemma hlist_add_behind_ok h p l1 e l2 n :
  is_hlist h p (l1 ++ e :: l2) -> hnode h n -> n ∉ p :: l1 ++ e :: l2 ->
  exists h', hlist_add_behind h n e = Ok h' /\ linked h h' e n l2.
Proof.
  intros Hl (Hn0 & Hc & Hp) Hn. replace (l1 ++ e :: l2) with ((l1 ++ [e]) ++ l2) in Hl by now rewrite <- app_assoc.
  destruct (hplace _ _ _ _ Hl) as (H1 & H2 & H3 & H4 & _ & H6).
  replace (last_cell p (l1 ++ [e])) with e in * by (unfold last_cell; now rewrite last_snoc).
  assert (n <> e) by set_solver. unfold hlist_add_behind. rewrite (get_cell_ok _ _ _ H1). hstores.
  rewrite (get_cell_ok _ n (first l2)) by hlook. cbn [rbind]. rewrite truthy_first by exact H2.
  destruct l2 as [|x l2].
  - rewrite bool_decide_eq_true_2 by reflexivity. cbn [negb]. eexists. split; [reflexivity |].
    split; [hlook | split; hlook | congruence | hlook | hlook].
  - rewrite bool_decide_eq_false_2 by discriminate. cbn [negb first] in *. destruct (H6 x ltac:(set_solver)) as [Hx1 Hx2].
    assert (x <> n /\ x <> e) as [? ?] by set_solver. hstores. eexists. split; [reflexivity |].
    split; [hlook | split; hlook | hlook | hlook |]. intros a Ha Hax. specialize (Hax ltac:(discriminate)). hlook.
Qed.

Lemma __hlist_del_ok h p l1 e l2 :
  is_hlist h p (l1 ++ e :: l2) ->
  exists h', __hlist_del h e = Ok h' /\ unlinked h h' (last_cell p l1) e l2 /\
    is_Some (cell h' !! e) /\ is_Some (pp h' !! e) /\ pp h !! e = Some (last_cell p l1) /\ last_cell p l1 ∈ p :: l1.
Proof.
  intros Hl. destruct (hplace _ _ _ _ Hl) as (H1 & H2 & H3 & H4 & H5 & H6). set (q := last_cell p l1) in *. cbn [first] in *.
  specialize (H4 ltac:(discriminate)). destruct (H6 e ltac:(set_solver)) as [He1 He2].
  replace (l1 ++ e :: l2) with ((l1 ++ [e]) ++ l2) in Hl by now rewrite <- app_assoc.
  destruct (hplace _ _ _ _ Hl) as (K1 & K2 & K3 & K4 & _ & K6).
  replace (last_cell p (l1 ++ [e])) with e in * by (unfold last_cell; now rewrite last_snoc).
  assert (e <> q) by set_solver. unfold __hlist_del. rewrite (get_cell_ok _ _ _ K1), (get_pprev_ok _ _ _ H4). hstores.
  rewrite truthy_first by exact K2. destruct l2 as [|x l2].
  - rewrite bool_decide_eq_true_2 by reflexivity. cbn [negb]. eexists. split; [reflexivity |].
    split; [split; [hlook | congruence | hlook | hlook] | cbn [cell pp]; eauto with hstore].
  - rewrite bool_decide_eq_false_2 by discriminate. cbn [negb first] in *. destruct (K6 x ltac:(set_solver)) as [Hx1 Hx2].
    assert (x <> e /\ x <> q) as [? ?] by set_solver. hstores. eexists. split; [reflexivity |].
    split; [|cbn [cell pp]; eauto 7 with hstore]. split; [hlook | hlook | hlook |].
    intros a Ha Hax. specialize (Hax ltac:(discriminate)). hlook.
Qed.

(** ** The operations on lists *)

(** Every list apart from the nodes [X] stays as it is. *)
Definition hkeeps (X : list Z) (h h' : hheap) : Prop :=
  forall p l, is_hlist h p l -> (forall a, a ∈ p :: l -> a ∉ X) -> is_hlist h' p l.

Lemma hkeeps_outside X h h' : hsame_outside X h h' -> hkeeps X h h'.
Proof. intros Ho p l Hl Hd. exact (hlist_frame _ _ _ _ _ Hl Ho Hd). Qed.

(** Overwriting the fields of a node that was taken out. *)
Lemma hoverwrite h h' X p l e a b :
  is_hlist h' p l -> e ∉ p :: l -> hsame_outside X h h' -> e ∈ X -> is_Some (cell h' !! e) -> is_Some (pp h' !! e) ->
  exists h'', (let! h := set_cell h' e a in set_pprev h e b) = Ok h'' /\ is_hlist h'' p l /\ hkeeps X h h'' /\
    cell h'' !! e = Some a /\ pp h'' !! e = Some b.
Proof.
  intros Hl He Ho HX Hc Hp. hstores. eexists. split; [reflexivity |]. split; [|split; [|split; hlook]].
  - apply (hlist_frame h' _ [e] _ _ Hl); [|set_solver]. intros x Hx. assert (x <> e) by set_solver. split; hlook.
  - apply hkeeps_outside. intros x Hx. assert (x <> e) by set_solver. destruct (Ho x Hx). split; hlook.
Qed.

Lemma hlist_del_ok h p l1 e l2 :
  is_hlist h p (l1 ++ e :: l2) ->
  exists h', hlist_del h e = Ok h' /\ is_hlist h' p (l1 ++ l2) /\ hkeeps (p :: l1 ++ e :: l2) h h' /\
    cell h' !! e = Some LIST_POISON1 /\ pp h' !! e = Some LIST_POISON2.
Proof.
  intros Hl. destruct (__hlist_del_ok _ _ _ _ _ Hl) as (h1 & E & Hu & Hc & Hp & _).
  destruct (unlinked_ok _ _ _ _ _ _ Hl Hu) as (Hl1 & Ho & He). unfold hlist_del. rewrite E. cbn [rbind].
  apply (hoverwrite h h1 (p :: l1 ++ e :: l2)); try assumption. set_solver.
Qed.

Lemma hlist_del_init_ok h p l1 e l2 :
  is_hlist h p (l1 ++ e :: l2) -> p <> 0 ->
  exists h', hlist_del_init h e = Ok h' /\ is_hlist h' p (l1 ++ l2) /\ hkeeps (p :: l1 ++ e :: l2) h h' /\
    hlist_unhashed h' e = Ok true /\ hlist_del_init h' e = Ok h'.
Proof.
  intros Hl Hp0. destruct (__hlist_del_ok _ _ _ _ _ Hl) as (h1 & E & Hu & Hc & Hp & Hpe & Hq).
  destruct (unlinked_ok _ _ _ _ _ _ Hl Hu) as (Hl1 & Ho & He).
  assert (last_cell p l1 <> 0) as Hq0.
  { apply elem_of_cons in Hq as [->|Hq]; [exact Hp0 |]. intros E0. rewrite E0 in Hq.
    destruct (hplace h p [] (l1 ++ e :: l2) Hl) as (_ & H0 & _). set_solver. }
  unfold hlist_del_init at 1, hlist_unhashed at 1. rewrite (get_pprev_ok _ _ _ Hpe). cbn [rbind].
  rewrite truthy_eq, bool_decide_eq_false_2 by exact Hq0. cbn [negb]. rewrite E. cbn [rbind].
  destruct (hoverwrite h h1 (p :: l1 ++ e :: l2) p (l1 ++ l2) e 0 0) as (h2 & E2 & H2 & K2 & _ & P2); try assumption; [set_solver |].
  exists h2. split; [exact E2 |]. do 2 (split; [assumption |]).
  assert (hlist_unhashed h2 e = Ok true) as Hun by (unfold hlist_unhashed; now rewrite (get_pprev_ok _ _ _ P2)).
  split; [exact Hun |]. unfold hlist_del_init. now rewrite Hun.
Qed.

(** The operations of [hlist] keep every node pointed back to from where it is
    reached: [hlist_add_head], [hlist_add_before] and [hlist_add_behind] put a
    new node first, before or behind the named one; [hlist_del] takes exactly
    the named node out and poisons it, [hlist_del_init] leaves it unhashed, after
    which it does nothing more; lists of other nodes are not changed. *)
Theorem hlist_edit_spec h p l1 x l2 n :
  is_hlist h p (l1 ++ x :: l2) -> p <> 0 -> hnode h n -> n ∉ p :: l1 ++ x :: l2 ->
  let l := l1 ++ x :: l2 in
  (exists h', hlist_add_head h n p = Ok h' /\ is_hlist h' p (n :: l) /\ hkeeps (n :: p :: l) h h') /\
  (exists h', hlist_add_before h n x = Ok h' /\ is_hlist h' p (l1 ++ n :: x :: l2) /\ hkeeps (n :: p :: l) h h') /\
  (exists h', hlist_add_behind h n x = Ok h' /\ is_hlist h' p (l1 ++ x :: n :: l2) /\ hkeeps (n :: p :: l) h h') /\
  (exists h', hlist_del h x = Ok h' /\ is_hlist h' p (l1 ++ l2) /\ hkeeps (p :: l) h h' /\
     cell h' !! x = Some LIST_POISON1 /\ pp h' !! x = Some LIST_POISON2) /\
  (exists h', hlist_del_init h x = Ok h' /\ is_hlist h' p (l1 ++ l2) /\ hkeeps (p :: l) h h' /\
     hlist_unhashed h' x = Ok true /\ hlist_del_init h' x = Ok h').
Proof.
  intros Hl Hp Hn Hnew l. pose proof Hn as (Hn0 & _).
  split; [|split; [|split; [|split; [now apply hlist_del_ok | now apply hlist_del_init_ok]]]].
  - destruct (hlist_add_head_ok _ _ _ _ Hl Hn Hnew) as (h' & E & Hk).
    destruct (linked_ok h h' p [] l n Hl Hn0 Hnew Hk) as [H1 H2]. exists h'. auto using hkeeps_outside.
  - destruct (hlist_add_before_ok _ _ _ _ _ _ Hl Hn Hnew) as (h' & E & Hk).
    destruct (linked_ok h h' p l1 (x :: l2) n Hl Hn0 Hnew Hk) as [H1 H2]. exists h'. auto using hkeeps_outside.
  - destruct (hlist_add_behind_ok _ _ _ _ _ _ Hl Hn Hnew) as (h' & E & Hk). exists h'.
    assert (l1 ++ x :: l2 = (l1 ++ [x]) ++ l2) as El by now rewrite <- app_assoc. unfold l. rewrite El in *.
    destruct (linked_ok h h' p (l1 ++ [x]) l2 n Hl Hn0 Hnew) as [H1 H2].
    { replace (last_cell p (l1 ++ [x])) with x by (unfold last_cell; now rewrite last_snoc). exact Hk. }
    rewrite <- (app_assoc l1 [x] (n :: l2)) in H1. auto using hkeeps_outside.
Qed.

(** Head 8 with the nodes 16 and 32, and a free node 48. *)
Definition hsample : hheap := HHeap {[ 8 := 16; 16 := 32; 32 := 0; 48 := 0; 80 := 0 ]} {[ 16 := 8; 32 := 16; 48 := 0 ]}.

Lemma hsample_ok : is_hlist hsample 8 [16; 32].
Proof. split; [repeat split; discriminate |]. apply (bool_decide_unpack _). exact I. Qed.

Lemma hlist_edit_spec_witness :
  exists h', hlist_add_behind hsample 48 16 = Ok h' /\ is_hlist h' 8 [16; 48; 32].
Proof.
  destruct (hlist_edit_spec hsample 8 [] 16 [32] 48) as (_ & _ & (h' & E & H & _) & _).
  - apply hsample_ok.
  - discriminate.
  - split; [discriminate |]. split; eexists; reflexivity.
  - set_solver.
  - exists h'. split; [exact E | exact H].
Defined.

(** *** Walking and moving *)

Lemma hwalk_ok h p l : forall l1 fuel,
  is_hlist h p (l1 ++ l) -> (length l <= fuel)%nat -> hlist_for_each_entry_from fuel h (first l) = Ok l.
Proof.
  induction l as [|x l IH]; intros l1 fuel Hl Hf; [now destruct fuel |]. cbn in Hf. destruct fuel as [|fuel]; [lia |].
  cbn [first hlist_for_each_entry_from]. destruct (hplace _ _ _ _ Hl) as (_ & H0 & _).
  rewrite truthy_eq, bool_decide_eq_false_2 by set_solver. cbn [negb].
  replace (l1 ++ x :: l) with ((l1 ++ [x]) ++ l) in Hl by now rewrite <- app_assoc.
  destruct (hplace _ _ _ _ Hl) as (H1 & _). replace (last_cell p (l1 ++ [x])) with x in H1 by (unfold last_cell; now rewrite last_snoc).
  rewrite (get_cell_ok _ _ _ H1). cbn [rbind]. rewrite (IH (l1 ++ [x]) fuel Hl) by lia. reflexivity.
Qed.

(** The loop body that unlinks some of the nodes it sees. *)
Definition unlink_unless (keep : Z -> bool) (h : hheap) (seen : list Z) (x : Z) : res (hheap * list Z) :=
  if keep x then Ok (h, seen ++ [x])
  else
    let! h := hlist_del h x in
    Ok (h, seen ++ [x]).

Lemma hsafe_ok keep p r : forall fuel h done seen,
  is_hlist h p (done ++ r) -> (length r <= fuel)%nat ->
  exists h', hlist_safe_loop (unlink_unless keep) fuel h seen (first r) = Ok (h', seen ++ r) /\
    is_hlist h' p (done ++ filter keep r).
Proof.
  induction r as [|x r IH]; intros fuel h done seen Hl Hf.
  { exists h. rewrite app_nil_r. split; [now destruct fuel | exact Hl]. }
  cbn in Hf. destruct fuel as [|fuel]; [lia |]. cbn [first hlist_safe_loop]. destruct (hplace _ _ _ _ Hl) as (_ & H0 & _).
  rewrite truthy_eq, bool_decide_eq_false_2 by set_solver. cbn [negb].
  pose proof Hl as Hl'. replace (done ++ x :: r) with ((done ++ [x]) ++ r) in Hl' by now rewrite <- app_assoc.
  destruct (hplace _ _ _ _ Hl') as (H1 & _). replace (last_cell p (done ++ [x])) with x in H1 by (unfold last_cell; now rewrite last_snoc).
  rewrite (get_cell_ok _ _ _ H1). cbn [rbind]. unfold unlink_unless at 1. rewrite filter_cons.
  replace (seen ++ x :: r) with ((seen ++ [x]) ++ r) by now rewrite <- app_assoc.
  destruct (keep x) eqn:Ek; cbn [rbind].
  - destruct (IH fuel h (done ++ [x]) (seen ++ [x]) Hl') as (h' & E & H); [lia |].
    exists h'. split; [exact E |]. rewrite <- app_assoc in H. case_decide as Hd; [exact H | exfalso; apply Hd; now apply Is_true_eq_left].
  - destruct (hlist_del_ok _ _ _ _ _ Hl) as (h1 & E1 & Hl1 & _). rewrite E1. cbn [rbind].
    destruct (IH fuel h1 done (seen ++ [x]) Hl1) as (h' & E & H); [lia |].
    exists h'. split; [exact E |]. case_decide as Hd; [apply Is_true_eq_true in Hd; congruence | exact H].
Qed.

Lemma hlist_move_list_ok h old new l :
  is_hlist h old l -> is_hlist h new [] -> new ∉ old :: l ->
  exists h', hlist_move_list h old new = Ok h' /\ is_hlist h' new l /\ is_hlist h' old [] /\
    hkeeps (new :: old :: l) h h'.
Proof.
  intros Hl Hnw Hn. destruct (hplace h old [] l Hl) as (H1 & H2 & H3 & H4 & _ & H6).
  cbn [last_cell list.last default] in *. unfold id in *. assert (new <> old) by set_solver.
  pose proof (hl_seg _ _ _ Hnw) as Hnc. cbn in Hnc. destruct Hl as [Hs Hnd]. apply seg_hung in Hs as [_ Hh].
  unfold hlist_move_list. rewrite (get_cell_ok _ _ _ H1). cbn [rbind]. hstores.
  rewrite (get_cell_ok _ new (first l)) by hlook. cbn [rbind]. rewrite truthy_first by exact H2.
  assert (exists pps, (forall a, (l <> [] -> a <> first l) -> pps !! a = pp h !! a) /\ (l <> [] -> pps !! first l = Some new) /\
    (if negb (bool_decide (l = [])) then set_pprev (HHeap (<[new := first l]> (cell h)) (pp h)) (first l) new
     else Ok (HHeap (<[new := first l]> (cell h)) (pp h))) = Ok (HHeap (<[new := first l]> (cell h)) pps)) as (pps & P1 & P2 & ->).
  { destruct l as [|x l].
    - exists (pp h). now rewrite bool_decide_eq_true_2.
    - rewrite bool_decide_eq_false_2 by discriminate. cbn [negb first]. destruct (H6 x ltac:(set_solver)) as [_ Hx].
      hstores. eexists. split; [|split; [|reflexivity]]; [|intros _; hlook]. intros a Ha. specialize (Ha ltac:(discriminate)). hlook. }
  hstores. eexists. split; [reflexivity |]. split; [|split].
  - split; [|apply list.NoDup_cons; split; [set_solver | now apply list.NoDup_cons in Hnd as [_ ?]]].
    apply seg_hung. split; [hlook |]. apply (hung_frame h _ old new l Hh); cbn [cell pp]; [| |exact P2].
    + intros a Ha. assert (a <> old /\ a <> new) as [? ?] by set_solver. hlook.
    + intros a Ha. apply P1. intros _ ->. destruct l as [|x l]; [set_solver |]. cbn in *.
      apply list.NoDup_cons in Hnd as [_ Hnd]. now apply list.NoDup_cons in Hnd as [? _].
  - split; [cbn; hlook | apply NoDup_singleton].
  - apply hkeeps_outside. intros a Ha. assert (a <> old /\ a <> new) as [? ?] by set_solver. split; [hlook |].
    cbn [pp]. apply P1. intros Hl ->. apply Ha. destruct l; [congruence | cbn; set_solver].
Qed.

(** Walking an [hlist].  [hlist_for_each] visits the nodes in order and stops,
    also from or behind a node; the safe loop may unlink the nodes it sees:
    it still visits every one once, and the list is left with the others, in
    order.  [hlist_empty] and [hlist_is_singular_node] answer what their names
    say, and [hlist_move_list] hands all nodes to another head. *)
Theorem hlist_walk_spec h p l1 x l2 new keep fuel :
  let l := l1 ++ x :: l2 in
  is_hlist h p l -> is_hlist h new [] -> new ∉ p :: l -> (length l <= fuel)%nat ->
  hlist_for_each fuel h p = Ok l /\
  hlist_for_each_entry_from fuel h x = Ok (x :: l2) /\ hlist_for_each_entry_continue fuel h x = Ok l2 /\
  (exists h', hlist_for_each_safe (unlink_unless keep) fuel h [] p = Ok (h', l) /\ is_hlist h' p (filter keep l)) /\
  hlist_empty h p = Ok false /\ hlist_empty h new = Ok true /\
  hlist_is_singular_node h x p = Ok (bool_decide (l = [x])) /\
  (exists h', hlist_move_list h p new = Ok h' /\ is_hlist h' new l /\ is_hlist h' p []).
Proof.
  intros l Hl Hnw Hn Hf. pose proof (hplace h p [] l Hl) as (H1 & H2 & _). cbn [last_cell list.last default] in H1. unfold id in H1.
  pose proof (hplace _ _ _ _ Hl) as (H3 & _ & _ & H4 & Hq & _).
  assert (is_hlist h p ((l1 ++ [x]) ++ l2)) as Hl' by now rewrite <- app_assoc.
  destruct (hplace _ _ _ _ Hl') as (H5 & H6 & _). replace (last_cell p (l1 ++ [x])) with x in H5 by (unfold last_cell; now rewrite last_snoc).
  assert (length (x :: l2) <= fuel /\ length l2 <= fuel)%nat as [Hf1 Hf2] by (unfold l in Hf; rewrite length_app in Hf; cbn in *; lia).
  split; [unfold hlist_for_each; rewrite (get_cell_ok _ _ _ H1); now apply (hwalk_ok h p l [] fuel) |].
  split; [exact (hwalk_ok h p (x :: l2) l1 fuel Hl Hf1) |].
  split; [unfold hlist_for_each_entry_continue; rewrite (get_cell_ok _ _ _ H5); exact (hwalk_ok h p l2 (l1 ++ [x]) fuel Hl' Hf2) |].
  split; [unfold hlist_for_each_safe; rewrite (get_cell_ok _ _ _ H1); exact (hsafe_ok keep p l fuel h [] [] Hl Hf) |].
  assert (l <> []) as Hne by (unfold l; now destruct l1).
  split; [unfold hlist_empty; rewrite (get_cell_ok _ _ _ H1); cbn [rbind]; rewrite truthy_first, bool_decide_eq_false_2 by assumption; reflexivity |].
  split; [unfold hlist_empty; now rewrite (get_cell_ok _ _ _ (hl_seg _ _ _ Hnw)) |].
  split.
  - unfold hlist_is_singular_node. rewrite (get_cell_ok _ _ _ H5). cbn [rbind]. rewrite truthy_first, negb_involutive by exact H6.
    specialize (H4 ltac:(discriminate)). cbn [first] in H4. rewrite (get_pprev_ok _ _ _ H4). cbn [rbind].
    pose proof (hl_nodup _ _ _ Hl) as Hnd. clear - Hnd Hq. destruct l2 as [|y l2].
    + rewrite bool_decide_eq_true_2 by reflexivity. f_equal. unfold l. destruct l1 as [|z l1].
      * rewrite bool_decide_eq_true_2 by reflexivity. cbn. apply Z.eqb_refl.
      * rewrite bool_decide_eq_false_2 by (intros [=]; now destruct l1). apply Z.eqb_neq. intros E. rewrite last_cell_cons in E.
        pose proof (last_cell_in z l1) as Hin. rewrite E in Hin. unfold l in Hnd. apply list.NoDup_cons in Hnd as [Hnd _]. set_solver.
    + rewrite bool_decide_eq_false_2 by discriminate. f_equal. symmetry. apply bool_decide_eq_false_2. unfold l.
      intros E. apply (f_equal length) in E. rewrite length_app in E. cbn in E. lia.
  - destruct (hlist_move_list_ok h p new l Hl Hnw Hn) as (h' & E & M1 & M2 & _). eauto.
Qed.

Lemma hlist_walk_spec_witness :
  hlist_for_each 2 hsample 8 = Ok [16; 32] /\
  exists h', hlist_for_each_safe (unlink_unless (fun x => x =? 32)) 2 hsample [] 8 = Ok (h', [16; 32]) /\ is_hlist h' 8 [32].
Proof.
  destruct (hlist_walk_spec hsample 8 [] 16 [32] 80 (fun x => x =? 32) 2) as (H1 & _ & _ & (h' & H2 & H3) & _).
  - apply hsample_ok.
  - split; [reflexivity | apply NoDup_singleton].
  - set_solver.
  - cbn. lia.
  - split; [exact H1 |]. exists h'. split; [exact H2 | exact H3].
Defined.

(** A node that was marked with [hlist_add_fake] is recognised, counts as
    hashed, and can be deleted although it is in no list. *)
Theorem hlist_fake_spec h n :
  hnode h n -> cell h !! n = Some 0 ->
  exists h1 h2, hlist_add_fake h n = Ok h1 /\ hlist_fake h1 n = Ok true /\ hlist_unhashed h1 n = Ok false /\
    hlist_del_init h1 n = Ok h2 /\ hlist_unhashed h2 n = Ok true /\ hkeeps [n] h h2.
Proof.
  intros (Hn0 & Hc & Hp) H0. set (h1 := HHeap (cell h) (<[n := n]> (pp h))). set (h2 := HHeap (<[n := 0]> (<[n := 0]> (cell h))) (<[n := 0]> (pp h1))).
  assert (get_pprev h1 n = Ok n) as P1 by (apply get_pprev_ok, lookup_insert_eq).
  assert (hlist_unhashed h1 n = Ok false) as U1.
  { unfold hlist_unhashed. rewrite P1. cbn [rbind]. now rewrite truthy_eq, bool_decide_eq_false_2. }
  assert (is_Some (pp h1 !! n)) as Hp1 by (unfold h1; cbn [pp]; eauto with hstore).
  exists h1, h2. split; [unfold hlist_add_fake; now rewrite set_pprev_ok |].
  split; [unfold hlist_fake; rewrite P1; cbn; now rewrite Z.eqb_refl |]. split; [exact U1 |]. split; [|split].
  - unfold hlist_del_init. rewrite U1. cbn [rbind negb]. unfold __hlist_del. rewrite (get_cell_ok h1 n 0 H0), P1. cbn [rbind].
    rewrite set_cell_ok by exact Hc. cbn [rbind truthy Z.eqb negb]. unfold INIT_HLIST_NODE. hstores. reflexivity.
  - unfold hlist_unhashed. rewrite (get_pprev_ok h2 n 0) by apply lookup_insert_eq. reflexivity.
  - apply hkeeps_outside. intros a Ha. assert (a <> n) by set_solver. unfold h2, h1. split; hlook.
Qed.

Lemma hlist_fake_spec_witness :
  exists h1 h2, hlist_add_fake hsample 48 = Ok h1 /\ hlist_del_init h1 48 = Ok h2 /\ hlist_unhashed h2 48 = Ok true.
Proof.
  destruct (hlist_fake_spec hsample 48) as (h1 & h2 & E1 & _ & _ & E2 & E3 & _).
  - split; [discriminate |]. split; eexists; reflexivity.
  - reflexivity.
  - exists h1, h2. split; [exact E1 |]. split; [exact E2 | exact E3].
Defined.
End Hlist.
