(* ===== verification/Uart.v ===== *)
(** * The serial driver: data paths

    src/apps/module-loader/src/uart16550.c: [struct com_dev], the interrupt
    handler, [uart16550_open], [uart16550_read] and [uart16550_write], on top of
    the fifos ([KfifoApi]), the locks and wait queues ([Locking]) and the
    register layer ([UartHw]).  Loading and unloading are in Driver.v.

    The two in-place buffers of a [com_dev] are memory blocks of their own, and
    so are the locals whose address the code takes ([byte_value], and the copy
    [__val] inside [kfifo_put]).  A call that waits runs next to the interrupt
    server: [env i] is what the rest of the system does between two accesses of
    the waiting thread, at its [i]-th opportunity. *)

From S2P Require Import Prelude Bytes Log2 Memory Kfifo KfifoApi Locking UartHw.
Import Bytes Log2 Memory Kfifo KfifoApi UartHw.
Import Spinlock Wait.

(** struct com_dev; [in_buf] and [out_buf] are the addresses of the fifos'
    arrays. *)
Record com_dev := ComDev {
  in_buf : ptr;
  out_buf : ptr;
  inbuffer : kfifo;
  outbuffer : kfifo;
  input_lock : Z;
  output_lock : Z;
  read_wait_queue : wait_queue_head;
  write_wait_queue : wait_queue_head;
  base_port : Z;
  minor : Z;
  irq_no : Z
}.

(** Which of the two static devices a [struct com_dev *] points to. *)
Inductive com := COM1 | COM2.

#[global] Instance com_eq_dec : EqDecision com.
Proof. solve_decision. Defined.

(** Memory, the machine behind the ports, and the two devices. *)
Record world (D : Type) := World {
  w_mem : mem;
  w_hw : D;
  com1_dev : com_dev;
  com2_dev : com_dev
}.
Arguments World {D}.
Arguments w_mem {D}.
Arguments w_hw {D}.
Arguments com1_dev {D}.
Arguments com2_dev {D}.

Module Uart.

Definition FIFO_SIZE : Z := 4096.
Definition COM1_IRQ : Z := 4.
Definition COM2_IRQ : Z := 3.
Definition COM1_BASEPORT : Z := 0x3f8.
Definition COM2_BASEPORT : Z := 0x2f8.
Definition IRQ_HANDLED : Z := 1.

(** [DECLARE_KFIFO(inbuffer, uint8_t, FIFO_SIZE)] and its twin. *)
Definition in_type (dev : com_dev) : ftype := FType 0 1 1 FIFO_SIZE (in_buf dev).
Definition out_type (dev : com_dev) : ftype := FType 0 1 1 FIFO_SIZE (out_buf dev).

Definition set_inbuffer (dev : com_dev) (f : kfifo) : com_dev :=
  let '(ComDev ib ob _ o il ol rq wq p mi q) := dev in ComDev ib ob f o il ol rq wq p mi q.
Definition set_outbuffer (dev : com_dev) (f : kfifo) : com_dev :=
  let '(ComDev ib ob i _ il ol rq wq p mi q) := dev in ComDev ib ob i f il ol rq wq p mi q.
Definition set_input_lock (dev : com_dev) (l : Z) : com_dev :=
  let '(ComDev ib ob i o _ ol rq wq p mi q) := dev in ComDev ib ob i o l ol rq wq p mi q.
Definition set_output_lock (dev : com_dev) (l : Z) : com_dev :=
  let '(ComDev ib ob i o il _ rq wq p mi q) := dev in ComDev ib ob i o il l rq wq p mi q.
Definition set_read_wq (dev : com_dev) (w : wait_queue_head) : com_dev :=
  let '(ComDev ib ob i o il ol _ wq p mi q) := dev in ComDev ib ob i o il ol w wq p mi q.
Definition set_write_wq (dev : com_dev) (w : wait_queue_head) : com_dev :=
  let '(ComDev ib ob i o il ol rq _ p mi q) := dev in ComDev ib ob i o il ol rq w p mi q.

Definition the_dev {D} (w : world D) (c : com) : com_dev :=
  match c with COM1 => com1_dev w | COM2 => com2_dev w end.
Definition put_dev {D} (w : world D) (c : com) (dev : com_dev) : world D :=
  match c with
  | COM1 => World (w_mem w) (w_hw w) dev (com2_dev w)
  | COM2 => World (w_mem w) (w_hw w) (com1_dev w) dev
  end.
Definition put_mem {D} (w : world D) (m : mem) : world D :=
  World m (w_hw w) (com1_dev w) (com2_dev w).
Definition put_hw {D} (w : world D) (d : D) : world D :=
  World (w_mem w) d (com1_dev w) (com2_dev w).

(** ** The interrupt handler *)

Section Handler.
Context {D : Type} {IO : PortIO D}.
Variables byte_value __val : ptr.

(** [while (uart16550_hw_device_can_send(device_status))], one unit of fuel per
    iteration; the status is live after the loop. *)
Fixpoint send_loop (fuel : nat) (t : ftype) (port : Z) (m : mem) (d : D) (f : kfifo) (device_status : Z)
    : res (mem * D * kfifo * Z) :=
  if truthy (uart16550_hw_device_can_send device_status) then
    match fuel with
    | O => Err OutOfFuel
    | S fuel =>
        let! m := store m byte_value [0] in
        let! (m, f, r) := kfifo_get t m f byte_value in
        if r =? 0 then Ok (m, d, f, device_status)
        else
          let! b := load m byte_value 1 in
          let! d := uart16550_hw_write_to_device d port (default 0 (head b)) in
          let! (d, device_status) := uart16550_hw_get_device_status d port in
          send_loop fuel t port m d f device_status
    end
  else Ok (m, d, f, device_status).

(** [while (uart16550_hw_device_has_data(device_status))] *)
Fixpoint receive_loop (fuel : nat) (t : ftype) (port : Z) (m : mem) (d : D) (f : kfifo) (device_status : Z)
    : res (mem * D * kfifo) :=
  if truthy (uart16550_hw_device_has_data device_status) then
    match fuel with
    | O => Err OutOfFuel
    | S fuel =>
        let! m := store m byte_value [0] in
        let! (d, b) := uart16550_hw_read_from_device d port in
        let! m := store m byte_value [u8 b] in
        let! m := memcpy m __val byte_value 1 in
        let! (m, f, r) := kfifo_put t m f __val in
        if r =? 0 then Ok (m, d, f)
        else
          let! (d, device_status) := uart16550_hw_get_device_status d port in
          receive_loop fuel t port m d f device_status
    end
  else Ok (m, d, f).

(** The argument [irq] picks the device; the token [data] is not used. *)
Definition interrupt_handler (fuel : nat) (w : world D) (irq : Z) : res (world D * Z) :=
  let c := if irq =? COM1_IRQ then COM1 else COM2 in
  let dev := the_dev w c in
  let! (d, device_status) := uart16550_hw_get_device_status (w_hw w) (base_port dev) in
  let! (m, d, out, device_status) :=
    send_loop fuel (out_type dev) (base_port dev) (w_mem w) d (outbuffer dev) device_status in
  let! (m, d, inb) :=
    receive_loop fuel (in_type dev) (base_port dev) m d (inbuffer dev) device_status in
  let dev := set_inbuffer (set_outbuffer dev out) inb in
  let dev := set_read_wq dev (__wake_up (read_wait_queue dev)) in
  let dev := set_write_wq dev (__wake_up (write_wait_queue dev)) in
  Ok (put_hw (put_mem (put_dev w c dev) m) d, IRQ_HANDLED).
End Handler.

(** ** The file operations *)

(** [filep->private_data] after [uart16550_open], by the minor number of the
    inode; the call itself returns 0. *)
Definition uart16550_open (iminor : Z) : com * Z := (if iminor =? 0 then COM1 else COM2, 0).

Definition uart16550_release : Z := 0.

Section Calls.
Context {D : Type} {IO : PortIO D} {A : Allocator}.
Variable kmalloc_large : mem -> Z -> Z -> res (mem * ptr).
Variable env : nat -> world D -> res (world D).

(** [while (wq.locked);] *)
Fixpoint spin (fuel : nat) (locked : world D -> bool) (now : nat) (w : world D)
    : res (nat * world D) :=
  match fuel with
  | O => Err OutOfFuel
  | S fuel =>
      let! w := env now w in
      if locked w then spin fuel locked (S now) w else Ok (S now, w)
  end.

(** [wait_event_interruptible(wq, condition)] of linux/wait.h. *)
Definition wait_event (fuel : nat) (cond locked : world D -> bool) (raise : world D -> world D)
    (now : nat) (w : world D) : res (nat * world D) :=
  let! w := env now w in
  if cond w then Ok (S now, w)
  else
    let! w := env (S now) w in
    spin fuel locked (S (S now)) (raise w).

(** [do wait_event_interruptible(...) while (!spin_trylock(...));] *)
Fixpoint wait_and_lock (fuel : nat) (cond locked : world D -> bool) (raise : world D -> world D)
    (trylock : world D -> world D * Z) (now : nat) (w : world D) : res (nat * world D) :=
  match fuel with
  | O => Err OutOfFuel
  | S fuel' =>
      let! (now, w) := wait_event fuel cond locked raise now w in
      let! w := env now w in
      let '(w, r) := trylock w in
      if r =? 0 then wait_and_lock fuel' cond locked raise trylock (S now) w else Ok (S now, w)
  end.

Definition lock_input (c : com) (w : world D) : world D * Z :=
  let '(l, r) := _raw_spin_trylock (input_lock (the_dev w c)) in
  (put_dev w c (set_input_lock (the_dev w c) l), r).
Definition lock_output (c : com) (w : world D) : world D * Z :=
  let '(l, r) := _raw_spin_trylock (output_lock (the_dev w c)) in
  (put_dev w c (set_output_lock (the_dev w c) l), r).

Definition raise_read (c : com) (w : world D) : world D :=
  let dev := the_dev w c in
  put_dev w c (set_read_wq dev (WQ (wq_lock (read_wait_queue dev)) true)).
Definition raise_write (c : com) (w : world D) : world D :=
  let dev := the_dev w c in
  put_dev w c (set_write_wq dev (WQ (wq_lock (write_wait_queue dev)) true)).

(** [uart16550_read] past its loop. *)
Definition finish_read (c : com) (user_buffer buffer : ptr) (size : Z) (w : world D)
    : res (world D * Z) :=
  let dev := the_dev w c in
  let! (m, f, size) := kfifo_out (in_type dev) (w_mem w) (inbuffer dev) buffer size in
  let dev := set_input_lock (set_inbuffer dev f) (native_queued_spin_unlock (input_lock dev)) in
  let w := put_dev w c dev in
  let! (m, unwritten_bytes) := copy_to_user m user_buffer buffer size in
  let size := if truthy unwritten_bytes then size ⊟ unwritten_bytes else size in
  let! m := kfree m buffer in
  Ok (put_mem w m, s32 size).

Definition uart16550_read (fuel : nat) (c : com) (user_buffer : ptr) (size : Z) (w : world D)
    : res (world D * Z) :=
  let! (m, buffer) := kmalloc kmalloc_large false (w_mem w) size GFP_KERNEL in
  let w := put_mem w m in
  if is_null buffer then Ok (w, - ENOMEM)
  else
    let! (_, w) := wait_and_lock fuel
      (fun w => negb (kfifo_is_empty (inbuffer (the_dev w c))))
      (fun w => wq_locked (read_wait_queue (the_dev w c)))
      (raise_read c) (lock_input c) 0 w in
    finish_read c user_buffer buffer size w.

(** [uart16550_write] past its loop. *)
Definition finish_write (c : com) (buffer : ptr) (size : Z) (w : world D) : res (world D * Z) :=
  let device_port := match c with COM1 => COM1_BASEPORT | COM2 => COM2_BASEPORT end in
  let dev := the_dev w c in
  let! (m, f, n) := kfifo_in (out_type dev) (w_mem w) (outbuffer dev) buffer size in
  let bytes_copied := s32 n in
  let dev := set_output_lock (set_outbuffer dev f) (native_queued_spin_unlock (output_lock dev)) in
  let w := put_dev w c dev in
  let! m := kfree m buffer in
  let! d := uart16550_hw_force_interrupt_reemit (w_hw w) device_port in
  Ok (put_hw (put_mem w m) d, bytes_copied).

Definition uart16550_write (fuel : nat) (c : com) (user_buffer : ptr) (size : Z) (w : world D)
    : res (world D * Z) :=
  let! (m, buffer) := kmalloc kmalloc_large false (w_mem w) size GFP_KERNEL in
  if is_null buffer then Ok (put_mem w m, - ENOMEM)
  else
    let! (m, r) := copy_from_user (-1) m buffer user_buffer size in
    if negb (r =? 0) then
      let! m := kfree m buffer in
      Ok (put_mem w m, - EFAULT)
    else
      let! (_, w) := wait_and_lock fuel
        (fun w => negb (kfifo_is_full (outbuffer (the_dev w c))))
        (fun w => wq_locked (write_wait_queue (the_dev w c)))
        (raise_write c) (lock_output c) 0 (put_mem w m) in
      finish_write c buffer size w.
End Calls.

(** ** Byte fifos *)

Lemma same_buffer_trans f1 f2 f3 : same_buffer f1 f2 -> same_buffer f2 f3 -> same_buffer f1 f3.
Proof. unfold same_buffer. intuition congruence. Qed.

(** [f] is a byte fifo of type [t] holding [q]. *)
Record fifo_ok (t : ftype) (m : mem) (f : kfifo) (q : list Z) : Prop := {
  fo_wf : wf m f;
  fo_typed : typed t f;
  fo_queue : contents m f = q;
  fo_byte : k_esize f = 1;
  fo_elem : t_recsize t = 0
}.

Lemma fifo_len t m f q : fifo_ok t m f q -> used f = zlen q /\ zlen q <= capacity f.
Proof.
  intros [Hwf _ <- He _]. unfold zlen. rewrite contents_length, He by assumption.
  pose proof (wf_used _ _ Hwf). pose proof (used_nonneg f). lia.
Qed.

Lemma fifo_frame t m m' f q b :
  fifo_ok t m f q -> only_block b m m' -> b <> blk (k_data f) -> fifo_ok t m' f q.
Proof.
  intros [Hwf Ht Hq He Hr] Ho Hb. split; try assumption; [eapply wf_only_block; eassumption |].
  rewrite <- Hq. unfold contents. now rewrite (window_only_block _ _ _ _ Ho Hb).
Qed.

Lemma get_byte t m f q val :
  fifo_ok t m f q -> blk val <> blk (k_data f) -> valid_at m val 1 ->
  match q with
  | [] => kfifo_get t m f val = Ok (m, f, 0)
  | b :: q' => exists f', kfifo_get t m f val = Ok (put_bytes m val [b], f', 1) /\
      fifo_ok t (put_bytes m val [b]) f' q' /\ same_buffer f f'
  end.
Proof.
  intros Hf Hne Hv. destruct (fifo_len _ _ _ _ Hf) as [Hu _]. destruct Hf as [Hwf Ht Hq He Hr].
  assert (writable m f val (k_esize f)) as Hw by (rewrite He; now split).
  destruct q as [|b q].
  - unfold kfifo_get, kfifo_is_empty. rewrite Hr, (empty_iff m f Hwf), Hu. reflexivity.
  - rewrite (get_is_out t m f Hwf Ht Hr val Hw). assert (used f >= 1) by (unfold zlen in Hu; cbn in Hu; lia).
    destruct (out_ok m f val 1 Hwf ltac:(lia)) as (m' & E & -> & _ & Hw' & Hc' & _).
    { rewrite Z.min_l, Z.mul_1_l by lia. exact Hw. }
    rewrite Z.min_l, He, Hq in * by lia. cbn in E, Hw', Hc'.
    eexists. split; [exact E | split; [|now repeat split]]. split; try assumption.
    now apply (typed_same_buffer t f).
Qed.

Lemma put_byte t m f q val b :
  fifo_ok t m f q -> readable m f val 1 [b] ->
  if zlen q <? capacity f then
    exists m' f', kfifo_put t m f val = Ok (m', f', 1) /\ fifo_ok t m' f' (q ++ [b]) /\
      only_block (blk (k_data f)) m m' /\ same_buffer f f'
  else kfifo_put t m f val = Ok (m, f, 0).
Proof.
  intros Hf Hrd. destruct (fifo_len _ _ _ _ Hf) as [Hu Hcap]. destruct Hf as [Hwf Ht Hq He Hr].
  destruct (Z.ltb_spec (zlen q) (capacity f)) as [Hl|Hl].
  - rewrite <- He in Hrd. rewrite (put_is_in t m f Hwf Ht Hr val [b] Hrd).
    destruct (in_ok m f val 1 [b] Hwf ltac:(lia)) as (m' & E & Hw' & Hc' & Ho').
    { rewrite Z.min_l, Z.mul_1_l by lia. exact Hrd. }
    rewrite Z.min_l in * by lia. eexists _, _. split; [exact E |].
    split; [|split; [exact Ho' | now repeat split]].
    split; try assumption; [now apply (typed_same_buffer t f) | now rewrite Hc', Hq].
  - unfold kfifo_put. rewrite Hr, (full_iff m f Hwf), Hu. cbn [truthy Z.eqb negb].
    destruct (Z.eqb_spec (capacity f - zlen q) 0); [reflexivity | lia].
Qed.

(** ** The interrupt loops *)

(** The chip after [bs] went out, and after [n] received bytes were taken. *)
Definition chip_sent (c : chip) (bs : list Z) : chip :=
  let '(Chip ier lcr mcr fcr dll dlm rx sent room) := c in
  Chip ier lcr mcr fcr dll dlm rx (sent ++ bs) (room - length bs)%nat.
Definition chip_taken (c : chip) (n : nat) : chip :=
  let '(Chip ier lcr mcr fcr dll dlm rx sent room) := c in
  Chip ier lcr mcr fcr dll dlm (drop n rx) sent room.

Lemma chip_sent_nil c : chip_sent c [] = c.
Proof. destruct c. cbn. now rewrite app_nil_r, Nat.sub_0_r. Qed.
Lemma chip_taken_0 c : chip_taken c 0 = c.
Proof. now destruct c. Qed.
Lemma chip_sent_cons c b bs : chip_sent (chip_sent c [b]) bs = chip_sent c (b :: bs).
Proof. destruct c. cbn. rewrite <- app_assoc. cbn. f_equal. lia. Qed.
Lemma chip_taken_S c n : chip_taken (chip_taken c 1) n = chip_taken c (S n).
Proof. destruct c. cbn. now rewrite drop_drop. Qed.

Section HandlerFacts.
Context {D : Type} {IO : PortIO D} {p : Z} {view : D -> chip} {U : Uart16550 IO p view}.
Variables byte_value __val : ptr.

(** The status word tells the truth about the chip. *)
Definition good_status (c : chip) (s : Z) : Prop :=
  truthy (uart16550_hw_device_can_send s) = negb (Nat.eqb (c_room c) 0) /\
  truthy (uart16550_hw_device_has_data s) = negb (bool_decide (c_rx c = [])).

Lemma send_byte d b :
  dlab (view d) = false ->
  exists d', uart16550_hw_write_to_device d p b = Ok d' /\ view d' = chip_sent (view d) [u8 b].
Proof.
  intros Hd. destruct (write_reg_ok (p := p) (view := view) d THR b ltac:(now unfold THR)) as (d' & E & V).
  exists d'. split; [exact E |]. rewrite V. unfold dlab in Hd.
  destruct (view d) as [ier lcr mcr fcr dll dlm rx sent room]. cbn -[Z.testbit] in *. unfold dlab. cbn [c_lcr].
  rewrite Hd. f_equal. lia.
Qed.

Lemma receive_byte d b rx :
  dlab (view d) = false -> c_rx (view d) = b :: rx ->
  exists d', uart16550_hw_read_from_device d p = Ok (d', u8 b) /\ view d' = chip_taken (view d) 1.
Proof.
  intros Hd Hr. destruct (receive_ok (p := p) (view := view) d b rx Hd Hr) as (d' & E & V).
  exists d'. split; [exact E |]. rewrite V. unfold dlab in Hd.
  destruct (view d) as [ier lcr mcr fcr dll dlm rx' sent room]. cbn -[Z.testbit] in *. unfold dlab. cbn [c_lcr].
  rewrite Hd. subst rx'. reflexivity.
Qed.

(** One byte goes through [byte_value]. *)
Lemma load_put_byte m q b : valid_at m q 1 -> load (put_bytes m q [b]) q 1 = Ok [b].
Proof. intros H. now apply (load_put_bytes m q 1). Qed.

Lemma send_loop_ok fuel t m d f q s :
  fifo_ok t m f q -> (length q < fuel)%nat -> dlab (view d) = false -> good_status (view d) s ->
  valid_at m byte_value 1 -> blk byte_value <> blk (k_data f) ->
  exists m' d' f' s', send_loop byte_value fuel t p m d f s = Ok (m', d', f', s') /\
    fifo_ok t m' f' (drop (c_room (view d)) q) /\ same_buffer f f' /\ only_block (blk byte_value) m m' /\
    view d' = chip_sent (view d) (u8 <$> take (c_room (view d)) q) /\ good_status (view d') s' /\
    valid_at m' byte_value 1.
Proof.
  revert m d f q s. induction fuel as [|fuel IH]; intros m d f q s Hf Hfu Hd Hs Hv Hne; [lia |].
  cbn [send_loop]. rewrite (proj1 Hs).
  destruct (Nat.eqb_spec (c_room (view d)) 0) as [E|E]; cbn [negb].
  { exists m, d, f, s. rewrite E, !drop_0, take_0. cbn [fmap list_fmap]. rewrite chip_sent_nil.
    split; [reflexivity | split; [exact Hf | split; [apply same_buffer_refl | split; [now split | auto]]]]. }
  rewrite store_put by exact Hv. cbn [rbind].
  assert (fifo_ok t (put_bytes m byte_value [0]) f q) as Hf0
    by (eapply fifo_frame; [eassumption | apply put_bytes_only | exact Hne]).
  assert (valid_at (put_bytes m byte_value [0]) byte_value 1) as Hv0 by now apply valid_put.
  pose proof (get_byte _ _ _ _ _ Hf0 Hne Hv0) as Hg. destruct q as [|b q].
  { rewrite Hg. cbn [rbind Z.eqb]. exists (put_bytes m byte_value [0]), d, f, s.
    rewrite drop_nil, take_nil. cbn [fmap list_fmap]. rewrite chip_sent_nil.
    split; [reflexivity | split; [exact Hf0 | split; [apply same_buffer_refl | split; [apply put_bytes_only | auto]]]]. }
  destruct Hg as (f1 & -> & Hf1 & Hsb). cbn [rbind Z.eqb].
  rewrite load_put_byte by exact Hv0. cbn [rbind]. change (default 0 (head [b])) with b.
  destruct (send_byte d b Hd) as (d1 & -> & V1). cbn [rbind].
  destruct (status_ok (p := p) (view := view) d1) as (d2 & s2 & -> & V2 & Hs2'). cbn [rbind].
  set (m1 := put_bytes (put_bytes m byte_value [0]) byte_value [b]) in *.
  rewrite V1 in V2. assert (k_data f1 = k_data f) as Ek by apply Hsb.
  destruct (IH m1 d2 f1 q s2) as (m' & d' & f' & s' & -> & Hf' & Hsb' & Ho' & V' & Hg' & Hv2).
  - exact Hf1.
  - cbn in Hfu. lia.
  - rewrite V2. now destruct (view d).
  - rewrite V2, <- V1. exact Hs2'.
  - now apply valid_put.
  - now rewrite Ek.
  - exists m', d', f', s'. split; [reflexivity |].
    assert (c_room (view d2) = Nat.pred (c_room (view d))) as Er.
    { rewrite V2. destruct (view d). cbn. lia. }
    rewrite Er in Hf', V'. destruct (c_room (view d)) as [|room] eqn:Eroom; [congruence |]. cbn [Nat.pred] in *.
    split; [exact Hf' |]. split; [|split; [|split; [|split; [exact Hg' | exact Hv2]]]].
    + exact (same_buffer_trans _ _ _ Hsb Hsb').
    + refine (only_block_trans _ _ _ _ _ Ho'). refine (only_block_trans _ _ _ _ (put_bytes_only _ _ _) (put_bytes_only _ _ _)).
    + rewrite V', V2. apply chip_sent_cons.
Qed.

(** [m'] differs from [m] at most inside the blocks [X]. *)
Definition only_blocks (X : list Z) (m m' : mem) : Prop :=
  dyn m' = dyn m /\ forall b, b ∉ X -> blocks m' !! b = blocks m !! b.

Lemma only_blocks_refl X m : only_blocks X m m.
Proof. now split. Qed.

Lemma only_blocks_step X b m1 m2 m3 :
  only_block b m1 m2 -> b ∈ X -> only_blocks X m2 m3 -> only_blocks X m1 m3.
Proof.
  intros [D1 B1] Hb [D2 B2]. split; [congruence |]. intros b' Hb'. rewrite B2, B1; [reflexivity | | exact Hb'].
  intros ->. contradiction.
Qed.

Lemma only_blocks_mono X Y m m' : only_blocks X m m' -> X ⊆ Y -> only_blocks Y m m'.
Proof. intros [H1 H2] Hs. split; [exact H1 |]. intros b Hb. apply H2. set_solver. Qed.

(** One byte from the chip into [__val]: what the stores leave. *)
Record fetched (m : mem) (b : Z) (m' : mem) : Prop := {
  fe_val : load m' __val 1 = Ok [b];
  fe_valid : valid_at m' byte_value 1 /\ valid_at m' __val 1;
  fe_fifo : forall t f q, fifo_ok t m f q -> blk byte_value <> blk (k_data f) -> blk __val <> blk (k_data f) -> fifo_ok t m' f q;
  fe_step : forall X m'', blk byte_value ∈ X -> blk __val ∈ X -> only_blocks X m' m'' -> only_blocks X m m''
}.

Lemma fetch_ok m d b rx :
  dlab (view d) = false -> c_rx (view d) = b :: rx -> valid_at m byte_value 1 -> valid_at m __val 1 -> blk byte_value <> blk __val ->
  exists m' d', view d' = chip_taken (view d) 1 /\ fetched m (u8 b) m' /\
    forall T (k : mem -> D -> res T),
    (let! m := store m byte_value [0] in
     let! (d, b) := uart16550_hw_read_from_device d p in
     let! m := store m byte_value [u8 b] in
     let! m := memcpy m __val byte_value 1 in
     k m d) = k m' d'.
Proof.
  intros Hd Erx Hv Hv' Hne. destruct (receive_byte d b rx Hd Erx) as (d1 & E & V1). set (m1 := put_bytes m byte_value [0]).
  assert (valid_at m1 byte_value 1 /\ valid_at m1 __val 1) as [Ha1 Hb1] by (split; now apply valid_put).
  set (m2 := put_bytes m1 byte_value [u8 b]).
  assert (valid_at m2 byte_value 1 /\ valid_at m2 __val 1) as [Ha2 Hb2] by (split; now apply valid_put).
  exists (put_bytes m2 __val [u8 b]), d1. split; [exact V1 |]. split; cycle 1.
  { intros T k. rewrite store_put by exact Hv. cbn [rbind]. rewrite E. cbn [rbind]. rewrite store_put by exact Ha1. cbn [rbind].
    replace (u8 (u8 b)) with (u8 b) by zmod. fold m1 m2.
    rewrite (memcpy_put m2 __val byte_value 1 [u8 b]); [reflexivity | now apply load_put_byte | congruence | exact Hb2]. }
  split.
  - now apply load_put_byte.
  - split; now apply valid_put.
  - intros t f q Hf Hn1 Hn2. eapply fifo_frame; [eapply fifo_frame; [eapply fifo_frame; [exact Hf | |] | |] | |];
      try apply put_bytes_only; assumption.
  - intros X m'' HX1 HX2 Ho. apply (only_blocks_step _ (blk byte_value) m m1); [apply put_bytes_only | exact HX1 |].
    apply (only_blocks_step _ (blk byte_value) m1 m2); [apply put_bytes_only | exact HX1 |].
    refine (only_blocks_step _ (blk __val) m2 _ _ _ HX2 Ho). apply put_bytes_only.
Qed.

Lemma receive_loop_ok fuel t m d f q s :
  fifo_ok t m f q -> (Z.to_nat (capacity f - zlen q) < fuel)%nat -> dlab (view d) = false ->
  good_status (view d) s ->
  valid_at m byte_value 1 -> valid_at m __val 1 -> blk byte_value <> blk __val ->
  blk byte_value <> blk (k_data f) -> blk __val <> blk (k_data f) ->
  let free := Z.to_nat (capacity f - zlen q) in
  exists m' d' f', receive_loop byte_value __val fuel t p m d f s = Ok (m', d', f') /\
    fifo_ok t m' f' (q ++ (u8 <$> take free (c_rx (view d)))) /\ same_buffer f f' /\
    only_blocks [blk byte_value; blk __val; blk (k_data f)] m m' /\
    view d' = chip_taken (view d) (S free) /\ valid_at m' byte_value 1 /\ valid_at m' __val 1.
Proof.
  revert m d f q s. induction fuel as [|fuel IH]; intros m d f q s Hf Hfu Hd Hs Hv Hv' Hne Hn1 Hn2 free; [lia |].
  cbn [receive_loop]. rewrite (proj2 Hs). pose proof (fifo_len _ _ _ _ Hf) as [_ Hlen].
  destruct (c_rx (view d)) as [|b rx] eqn:Erx.
  { rewrite bool_decide_eq_true_2 by reflexivity. cbn [negb]. exists m, d, f.
    rewrite take_nil. cbn [fmap list_fmap]. rewrite app_nil_r. split; [reflexivity |]. split; [exact Hf |].
    split; [apply same_buffer_refl |]. split; [apply only_blocks_refl |].
    split; [destruct (view d); cbn in Erx |- *; now rewrite Erx | auto]. }
  rewrite bool_decide_eq_false_2 by discriminate. cbn [negb]. subst free.
  destruct (fetch_ok m d b rx) as (m3 & d1 & V1 & [Hld [Ha3 Hb3] Hfr Hstep] & Hk); try assumption. rewrite Hk. clear Hk.
  specialize (Hstep [blk byte_value; blk __val; blk (k_data f)]). pose proof (Hfr t f q Hf Hn1 Hn2) as Hf3.
  pose proof (put_byte t m3 f q __val (u8 b) Hf3 (conj Hn2 Hld)) as Hp.
  destruct (Z.ltb_spec (zlen q) (capacity f)) as [Hlt|Hlt].
  2: { rewrite Hp. cbn [rbind Z.eqb]. replace (Z.to_nat (capacity f - zlen q)) with 0%nat by lia.
       exists m3, d1, f. rewrite take_0. cbn [fmap list_fmap]. rewrite app_nil_r. split; [reflexivity |].
       split; [exact Hf3 |]. split; [apply same_buffer_refl |]. split; [|auto].
       apply Hstep; [set_solver | set_solver | apply only_blocks_refl]. }
  destruct Hp as (m4 & f4 & -> & Hf4 & Ho4 & Hsb). cbn [rbind Z.eqb].
  destruct (status_ok (p := p) (view := view) d1) as (d2 & s2 & -> & V2 & Hs2). cbn [rbind].
  assert (k_data f4 = k_data f /\ capacity f4 = capacity f) as [Ek Ec] by (unfold capacity; destruct Hsb as (-> & _ & ->); auto).
  assert (capacity f4 - zlen (q ++ [u8 b]) = capacity f - zlen q - 1) as Efree
    by (rewrite Ec, zlen_app; change (zlen [u8 b]) with 1; lia).
  destruct (IH m4 d2 f4 (q ++ [u8 b]) s2) as (m' & d' & f' & -> & Hf' & Hsb' & Ho' & V' & Hv2); rewrite ?Ek; try assumption; try lia;
    try (apply (valid_only_block _ _ _ _ _ Ho4); assumption).
  - rewrite V2, V1. now destruct (view d).
  - rewrite V2. exact Hs2.
  - exists m', d', f'. split; [reflexivity |]. rewrite Efree in Hf', V'. rewrite Ek in Ho'.
    replace (Z.to_nat (capacity f - zlen q)) with (S (Z.to_nat (capacity f - zlen q - 1))) by lia.
    split; [|split; [exact (same_buffer_trans _ _ _ Hsb Hsb') | split; [|split; [|exact Hv2]]]].
    + rewrite V2, V1 in Hf'. rewrite <- app_assoc in Hf'. cbn [take fmap list_fmap].
      destruct (view d). cbn in Erx, Hf'. rewrite Erx in Hf'. exact Hf'.
    + apply Hstep; [set_solver | set_solver |]. apply (only_blocks_step _ _ _ _ _ Ho4); [set_solver | exact Ho'].
    + rewrite V', V2, V1. apply chip_taken_S.
Qed.
End HandlerFacts.

(** ** The interrupt handler *)

(** A device in service at port [p]: its fifos hold [qin] and [qout]. *)
Record dev_ok (m : mem) (dev : com_dev) (p : Z) (qin qout : list Z) : Prop := {
  dv_in : fifo_ok (in_type dev) m (inbuffer dev) qin;
  dv_out : fifo_ok (out_type dev) m (outbuffer dev) qout;
  dv_in_size : capacity (inbuffer dev) = FIFO_SIZE;
  dv_out_size : capacity (outbuffer dev) = FIFO_SIZE;
  dv_apart : blk (k_data (inbuffer dev)) <> blk (k_data (outbuffer dev));
  dv_port : base_port dev = p
}.

(** Two one-byte locals, apart from each other and from the fifos. *)
Record slots_ok (m : mem) (dev : com_dev) (byte_value __val : ptr) : Prop := {
  sl_byte : valid_at m byte_value 1;
  sl_val : valid_at m __val 1;
  sl_apart : blk byte_value <> blk __val;
  sl_in : blk byte_value <> blk (k_data (inbuffer dev)) /\ blk __val <> blk (k_data (inbuffer dev));
  sl_out : blk byte_value <> blk (k_data (outbuffer dev)) /\ blk __val <> blk (k_data (outbuffer dev))
}.

(** What the handler leaves alone: identity, buffers and locks. *)
Definition same_device (dev dev' : com_dev) : Prop :=
  in_buf dev' = in_buf dev /\ out_buf dev' = out_buf dev /\
  same_buffer (inbuffer dev) (inbuffer dev') /\ same_buffer (outbuffer dev) (outbuffer dev') /\
  input_lock dev' = input_lock dev /\ output_lock dev' = output_lock dev /\
  base_port dev' = base_port dev /\ minor dev' = minor dev /\ irq_no dev' = irq_no dev.

Lemma fifo_frame_blocks t m m' f q X :
  fifo_ok t m f q -> only_blocks X m m' -> blk (k_data f) ∉ X -> fifo_ok t m' f q.
Proof.
  intros [Hwf Ht Hq He Hr] [Ho Hb] Hn. split; try assumption.
  - destruct Hwf. split; try assumption. now rewrite Hb.
  - rewrite <- Hq. unfold contents, window. now rewrite Hb.
Qed.

Lemma fifo_types t m f q t' :
  t_size t' = t_size t -> t_recsize t' = t_recsize t -> t_nbuf t' = t_nbuf t -> t_buf t' = t_buf t ->
  fifo_ok t m f q -> fifo_ok t' m f q.
Proof.
  intros E1 E2 E3 E4 [Hwf [Ht1 Ht2] Hq He Hr]. split; try assumption; [|congruence].
  split; [congruence |]. unfold elements, __is_kfifo_ptr in *. now rewrite E1, E3, E4.
Qed.

Section HandlerSpec.
Context {D : Type} {IO : PortIO D} {p : Z} {view : D -> chip} {U : Uart16550 IO p view}.

Definition irq_com (irq : Z) : com := if irq =? COM1_IRQ then COM1 else COM2.

(** The effect of an interrupt on a device and its chip: [room] bytes of the
    output queue go to the transmitter, and received bytes fill the input queue;
    one byte more is taken off the chip than fits. *)
Record handled (w : world D) (c : com) (qin qout : list Z) (w' : world D) (X : list Z) : Prop := {
  hd_dev : dev_ok (w_mem w') (the_dev w' c) p
             (qin ++ (u8 <$> take (Z.to_nat (FIFO_SIZE - zlen qin)) (c_rx (view (w_hw w)))))
             (drop (c_room (view (w_hw w))) qout);
  hd_chip : view (w_hw w') =
    chip_taken (chip_sent (view (w_hw w)) (u8 <$> take (c_room (view (w_hw w))) qout))
      (S (Z.to_nat (FIFO_SIZE - zlen qin)));
  hd_same : same_device (the_dev w c) (the_dev w' c);
  hd_woken : wq_locked (read_wait_queue (the_dev w' c)) = false /\
             wq_locked (write_wait_queue (the_dev w' c)) = false;
  hd_other : forall c', c' <> c -> the_dev w' c' = the_dev w c';
  hd_mem : only_blocks X (w_mem w) (w_mem w')
}.

Lemma chip_sent_frame c bs : c_rx (chip_sent c bs) = c_rx c /\ dlab (chip_sent c bs) = dlab c.
Proof. now destruct c. Qed.

Lemma handler_ok byte_value __val fuel w irq qin qout :
  let c := irq_com irq in let dev := the_dev w c in
  (Z.to_nat FIFO_SIZE < fuel)%nat -> dev_ok (w_mem w) dev p qin qout ->
  slots_ok (w_mem w) dev byte_value __val -> dlab (view (w_hw w)) = false ->
  exists w', interrupt_handler byte_value __val fuel w irq = Ok (w', IRQ_HANDLED) /\
    handled w c qin qout w' [blk byte_value; blk __val; blk (k_data (inbuffer dev))] /\
    slots_ok (w_mem w') (the_dev w' c) byte_value __val.
Proof.
  intros c dev Hfu [Hin Hout Hci Hco Hap Hp] [Hv Hv' Hne [Hn1 Hn2] [Hn3 Hn4]] Hd.
  unfold interrupt_handler. fold (irq_com irq). fold c. fold dev. rewrite Hp.
  destruct (status_ok (p := p) (view := view) (w_hw w)) as (d0 & s0 & -> & V0 & Hs0). cbn [rbind].
  pose proof (fifo_len _ _ _ _ Hin) as [_ Hli]. pose proof (fifo_len _ _ _ _ Hout) as [_ Hlo].
  unfold zlen in Hli, Hlo. rewrite Hco in Hlo.
  destruct (send_loop_ok byte_value fuel _ _ d0 _ _ s0 Hout)
    as (m1 & d1 & f1 & s1 & -> & Hf1 & Hsb1 & Ho1 & V1 & Hs1 & Hv1); [lia | congruence | now rewrite V0 in * | assumption.. |].
  cbn [rbind]. rewrite V0 in Hf1, V1.
  assert (fifo_ok (in_type dev) m1 (inbuffer dev) qin) as Hin1 by (eapply fifo_frame; eassumption).
  destruct (chip_sent_frame (view (w_hw w)) (u8 <$> take (c_room (view (w_hw w))) qout)) as [Erx Edl].
  rewrite <- V1 in Erx, Edl.
  destruct (receive_loop_ok byte_value __val fuel _ _ d1 _ _ s1 Hin1)
    as (m2 & d2 & f2 & -> & Hf2 & Hsb2 & Ho2 & V2 & Hv2 & Hv3); try assumption; [rewrite Hci; unfold zlen; lia | congruence | |].
  { eapply valid_only_block; eauto. }
  cbn [rbind]. rewrite Erx, Hci in Hf2. rewrite V1, Hci in V2.
  eexists. split; [reflexivity |].
  assert (fifo_ok (out_type dev) m2 f1 (drop (c_room (view (w_hw w))) qout)) as Hf1'.
  { eapply fifo_frame_blocks; [eassumption | eassumption |]. destruct Hsb1 as (_ & _ & ->). set_solver. }
  set (w' := put_hw _ _).
  assert (the_dev w' c = set_write_wq (set_read_wq (set_inbuffer (set_outbuffer dev f1) f2)
            (__wake_up (read_wait_queue dev))) (__wake_up (write_wait_queue dev))) as Edev.
  { subst w'. clear. subst dev. destruct c; cbn; [destruct (com1_dev w) | destruct (com2_dev w)]; reflexivity. }
  assert (w_mem w' = m2 /\ w_hw w' = d2) as [Em Eh] by (split; [now destruct c | reflexivity]).
  assert (the_dev w c = dev) as Edv by reflexivity. clearbody dev. split; [split |]; rewrite ?Edev, ?Em, ?Eh, ?Edv.
  - destruct dev, Hsb1 as (Ha1 & _ & Ha3), Hsb2 as (Hb1 & _ & Hb3). unfold capacity in *. cbn in *.
    split; cbn; unfold capacity; try congruence; assumption.
  - exact V2.
  - destruct dev. repeat split; cbn; try reflexivity; try apply Hsb1; apply Hsb2.
  - now destruct dev.
  - intros c' Hc'. now destruct c, c'.
  - refine (only_blocks_step _ _ _ _ _ Ho1 _ Ho2). set_solver.
  - destruct dev, Hsb1 as (_ & _ & Ha3), Hsb2 as (_ & _ & Hb3). cbn in *. split; cbn; try assumption; split; congruence.
Qed.
End HandlerSpec.

(** C9: the interrupt handler, the only producer of input and consumer of
    output.  For either interrupt line, on a device in service, with fuel for
    one pass over a full buffer it returns [IRQ_HANDLED]: as many queued bytes
    as the transmitter has room for went out in order and left the queue, the
    received bytes were appended to the input queue in order, both wait queues
    are released, the locks and the other device are as before, and only the
    handler's locals and the input buffer were written.  When the input fits,
    none of it is lost and the chip is drained; when it does not, exactly one
    byte, the first that does not fit, is read from the chip and dropped. *)
Theorem interrupt_handler_spec {D} (IO : PortIO D) p view (U : Uart16550 IO p view)
    byte_value __val fuel w irq qin qout :
  let c := irq_com irq in let dev := the_dev w c in
  let rx := c_rx (view (w_hw w)) in let free := Z.to_nat (FIFO_SIZE - zlen qin) in
  (Z.to_nat FIFO_SIZE < fuel)%nat -> dev_ok (w_mem w) dev p qin qout ->
  slots_ok (w_mem w) dev byte_value __val -> dlab (view (w_hw w)) = false ->
  exists w', interrupt_handler byte_value __val fuel w irq = Ok (w', IRQ_HANDLED) /\
    handled (p := p) (view := view) w c qin qout w'
      [blk byte_value; blk __val; blk (k_data (inbuffer dev))] /\
    ((length rx <= free)%nat -> u8 <$> take free rx = u8 <$> rx /\ c_rx (view (w_hw w')) = []) /\
    ((free < length rx)%nat ->
       exists lost, rx = take free rx ++ lost :: c_rx (view (w_hw w'))).
Proof.
  intros c dev rx free Hfu Hdev Hsl Hd.
  destruct (handler_ok (p := p) (view := view) byte_value __val fuel w irq qin qout Hfu Hdev Hsl Hd)
    as (w' & E & Hh & _). exists w'. split; [exact E |]. split; [exact Hh |].
  assert (c_rx (view (w_hw w')) = drop (S free) rx) as Er.
  { rewrite (hd_chip _ _ _ _ _ _ Hh). unfold rx. now destruct (view (w_hw w)). }
  rewrite Er. split; intros Hl.
  - rewrite take_ge, drop_ge by lia. auto.
  - destruct (lookup_lt_is_Some_2 rx free Hl) as [x Hx]. exists x. symmetry. now apply take_drop_middle.
Qed.

(** A byte fifo over an array of its own. *)
Lemma byte_fifo_ok buf m B i o :
  blocks m !! blk buf = Some B -> ofs buf = 0 -> zlen B = FIFO_SIZE ->
  0 <= i < W32 -> 0 <= o < W32 -> i ⊟ o <= FIFO_SIZE ->
  let f := Kfifo i o 4095 1 buf in
  fifo_ok (FType 0 1 1 FIFO_SIZE buf) m f (contents m f).
Proof.
  intros HB Ho Hz Hi Hoo Hu f. split; try reflexivity; [|now split].
  split; try assumption; [exists 12; split; [lia | reflexivity] | vm_compute; congruence | reflexivity |].
  exists B. split; [exact HB |]. apply in_bounds_iff. cbn. rewrite Ho, Hz. vm_compute. intuition congruence.
Qed.

(** A fifo fresh from [INIT_KFIFO]. *)
Lemma init_fifo_ok buf m B :
  blocks m !! blk buf = Some B -> ofs buf = 0 -> zlen B = FIFO_SIZE ->
  let t := FType 0 1 1 FIFO_SIZE buf in
  fifo_ok t m (INIT_KFIFO t) [] /\ capacity (INIT_KFIFO t) = FIFO_SIZE /\ k_data (INIT_KFIFO t) = buf.
Proof.
  intros HB Ho Hz t. split; [|now split].
  exact (byte_fifo_ok buf m B 0 0 HB Ho Hz ltac:(lia) ltac:(lia) ltac:(now vm_compute)).
Qed.

(** Two devices after [uart16550_init_device], each with two empty fifos, two
    bytes waiting in the second chip; blocks 64 and 65 are the locals. *)
Definition sample_dev (port : Z) (mi irq : Z) (ib ob : ptr) : com_dev :=
  ComDev ib ob (INIT_KFIFO (FType 0 1 1 FIFO_SIZE ib)) (INIT_KFIFO (FType 0 1 1 FIFO_SIZE ob))
    0 0 (WQ 1 false) (WQ 1 false) port mi irq.
Definition ready (rx : list Z) : chip := Chip 3 3 8 0xc7 1 0 rx [] 16.
Definition sample_world (rx : list Z) : world (chip * chip) :=
  let z := replicate (Z.to_nat FIFO_SIZE) 0 in
  World (Mem {[ 1 := z; 2 := z; 3 := z; 4 := z; 64 := [0]; 65 := [0]; 66 := replicate 8 0 ]} ∅)
    (ready [], ready rx)
    (sample_dev COM1_BASEPORT 0 COM1_IRQ (Ptr 1 0) (Ptr 2 0))
    (sample_dev COM2_BASEPORT 1 COM2_IRQ (Ptr 3 0) (Ptr 4 0)).

Lemma sample_dev_ok rx : dev_ok (w_mem (sample_world rx)) (com2_dev (sample_world rx)) COM2_BASEPORT [] [].
Proof.
  assert (zlen (replicate (Z.to_nat FIFO_SIZE) 0) = FIFO_SIZE) as Hz
    by (unfold zlen; rewrite length_replicate; reflexivity).
  destruct (init_fifo_ok (Ptr 3 0) (w_mem (sample_world rx)) (replicate (Z.to_nat FIFO_SIZE) 0))
    as (H1 & H2 & H3); [reflexivity | reflexivity | exact Hz |].
  destruct (init_fifo_ok (Ptr 4 0) (w_mem (sample_world rx)) (replicate (Z.to_nat FIFO_SIZE) 0))
    as (H4 & H5 & H6); [reflexivity | reflexivity | exact Hz |].
  split; [exact H1 | exact H4 | exact H2 | exact H5 | discriminate | reflexivity].
Qed.

Lemma sample_slots rx :
  slots_ok (w_mem (sample_world rx)) (com2_dev (sample_world rx)) (Ptr 64 0) (Ptr 65 0).
Proof. split; try (split; discriminate); try discriminate; eexists; split; reflexivity. Qed.

Lemma interrupt_handler_spec_witness :
  exists w', interrupt_handler (Ptr 64 0) (Ptr 65 0) 4097 (sample_world [104; 105]) COM2_IRQ =
      Ok (w', IRQ_HANDLED) /\
    contents (w_mem w') (inbuffer (com2_dev w')) = [104; 105] /\ c_rx (snd (w_hw w')) = [].
Proof.
  destruct (interrupt_handler_spec two_chips COM2_BASEPORT snd com2_uart (Ptr 64 0) (Ptr 65 0) 4097
              (sample_world [104; 105]) COM2_IRQ [] []) as (w' & E & [Hdv _ _ _ _ _] & Hl & _).
  - unfold FIFO_SIZE. lia.
  - apply sample_dev_ok.
  - apply sample_slots.
  - reflexivity.
  - exists w'. split; [exact E |]. split; [exact (fo_queue _ _ _ _ (dv_in _ _ _ _ _ Hdv)) |].
    apply Hl. change (2 <= Z.to_nat 4096)%nat. lia.
Defined.

(** ** Reading *)

(** A block of the caller's, on loan from the allocator. *)
Record loan (m : mem) (buffer : ptr) (size : Z) : Prop := {
  ln_ofs : ofs buffer = 0;
  ln_addr : blk buffer <> 0;
  ln_dyn : blk buffer ∈ dyn m;
  ln_size : valid_at m buffer size
}.

(** Giving a block back. *)
Definition released (a : Z) (m : mem) : mem := Mem (delete a (blocks m)) (dyn m ∖ {[a]}).

Lemma kfree_loan m buffer size : loan m buffer size -> kfree m buffer = Ok (released (blk buffer) m).
Proof.
  intros [Ho Ha Hd _]. unfold kfree, is_null, free.
  rewrite bool_decide_eq_false_2 by (intros ->; now apply Ha). cbn [negb].
  rewrite bool_decide_eq_true_2, Ho by assumption. reflexivity.
Qed.

Lemma loan_only_block b m m' buffer size :
  only_block b m m' -> blk buffer <> b -> loan m buffer size -> loan m' buffer size.
Proof.
  intros Ho Hne [H1 H2 H3 H4]. split; try assumption; [now rewrite (proj1 Ho) |].
  eapply valid_only_block; eassumption.
Qed.

Lemma fifo_released t m f q a : fifo_ok t m f q -> a <> blk (k_data f) -> fifo_ok t (released a m) f q.
Proof.
  intros [Hwf Ht Hq He Hr] Hn. split; try assumption.
  - destruct Hwf. split; try assumption. cbn. now rewrite lookup_delete_ne.
  - rewrite <- Hq. unfold contents, window. cbn. now rewrite lookup_delete_ne.
Qed.

Lemma load_released a m p n : blk p <> a -> load (released a m) p n = load m p n.
Proof. intros H. unfold load. cbn. now rewrite lookup_delete_ne by congruence. Qed.

Lemma copy_to_user_ok m user buffer n bs :
  load m buffer n = Ok bs -> blk user <> blk buffer -> valid_at m user n -> n < 2147483648 ->
  copy_to_user m user buffer n = Ok (put_bytes m user bs, 0).
Proof.
  intros Hl Hne Hv Hn. pose proof (load_nonneg _ _ _ _ Hl). unfold copy_to_user, _copy_to_user, s32.
  rewrite u32_small by lia. destruct (Z.ltb_spec n 2147483648); [|lia]. rewrite Z.leb_refl, orb_true_r.
  now rewrite (memcpy_put _ _ _ _ _ Hl).
Qed.

Lemma s32_small n : 0 <= n < 2147483648 -> s32 n = n.
Proof. intros H. unfold s32. rewrite u32_small by lia. destruct (Z.ltb_spec n 2147483648); lia. Qed.

Section Calling.
Context {D : Type} {IO : PortIO D} {A : Allocator} {L : AllocatorLaws A}.

Lemma dev_put (w : world D) (c : com) (dev : com_dev) (m : mem) : the_dev (put_mem (put_dev w c dev) m) c = dev.
Proof. now destruct c. Qed.

Lemma finish_read_ok (w : world D) c p q qout user buffer size :
  let dev := the_dev w c in
  dev_ok (w_mem w) dev p q qout -> input_lock dev = 1 -> 0 <= size ->
  loan (w_mem w) buffer size -> valid_at (w_mem w) user size -> blk user <> blk buffer ->
  (forall f : kfifo, f = inbuffer dev \/ f = outbuffer dev -> blk user <> blk (k_data f) /\ blk buffer <> blk (k_data f)) ->
  let n := Z.min size (zlen q) in
  exists w', finish_read c user buffer size w = Ok (w', n) /\
    dev_ok (w_mem w') (the_dev w' c) p (drop (Z.to_nat n) q) qout /\
    load (w_mem w') user n = Ok (take (Z.to_nat n) q) /\
    input_lock (the_dev w' c) = 0 /\ w_hw w' = w_hw w /\
    (forall c', c' <> c -> the_dev w' c' = the_dev w c') /\
    only_blocks [blk user] (released (blk buffer) (w_mem w)) (w_mem w') /\
    (forall n', valid_at (w_mem w) user n' -> valid_at (w_mem w') user n') /\
    blocks (w_mem w') !! blk user = blocks (put_bytes (w_mem w) user (take (Z.to_nat n) q)) !! blk user /\
    (exists f', the_dev w' c = set_input_lock (set_inbuffer dev f') 0 /\ same_buffer (inbuffer dev) f').
Proof.
  intros dev [Hin Hout Hci Hco Hap Hp] Hlk Hsz Hln Hus Hub Hdis n.
  pose proof (fifo_len _ _ _ _ Hin) as [Hu Hlen]. pose proof Hin as [Hwf Ht Hq He Hr].
  destruct (Hdis _ (or_introl eq_refl)) as [Hui Hbi]. destruct (Hdis _ (or_intror eq_refl)) as [Huo Hbo].
  assert (0 <= n <= size) as Hn by (pose proof (zlen_nonneg q); subst n; lia).
  assert (n <= 4096) as Hn' by (rewrite Hci in Hlen; unfold FIFO_SIZE in Hlen; subst n; lia).
  destruct (valid_split _ _ _ n (ln_size _ _ _ Hln) Hn) as [Hvb _].
  destruct (valid_split _ _ _ n Hus Hn) as [Hvu _].
  unfold finish_read, kfifo_out. fold dev. cbn [in_type t_recsize truthy Z.eqb negb].
  pose proof (out_ok (w_mem w) (inbuffer dev) buffer size Hwf Hsz) as Hok. cbv zeta in Hok.
  rewrite He, Hu, !Z.mul_1_r, Hq in Hok. fold n in Hok.
  destruct Hok as (m1 & -> & -> & Hld & Hw1 & Hc1 & _); [now split |]. cbn [rbind]. set (m1 := put_bytes (w_mem w) buffer (take (Z.to_nat n) q)) in *.
  set (f1 := set_out _ _) in *.
  assert (valid_at (w_mem w) buffer (zlen (take (Z.to_nat n) q))) as Hvb'.
  { replace (zlen _) with n; [exact Hvb |]. unfold zlen in *. rewrite length_take. subst n. unfold zlen. lia. }
  assert (valid_at m1 user n) as Hvu1 by now apply valid_put.
  rewrite (copy_to_user_ok _ _ _ _ _ Hld) by (assumption || lia). cbn [rbind truthy Z.eqb negb].
  assert (loan m1 buffer size) as Hl1.
  { destruct Hln as [Hl1 Hl2 Hl3 Hl4]. split; try assumption; [|now apply valid_put].
    unfold m1. now rewrite (proj1 (put_bytes_only _ _ _)). }
  rewrite (kfree_loan _ buffer size) by (eapply loan_only_block; [apply put_bytes_only | congruence | exact Hl1]).
  cbn [rbind]. rewrite s32_small by lia. eexists. split; [reflexivity |]. rewrite dev_put.
  set (m2 := put_bytes m1 user _).
  assert (same_buffer (inbuffer dev) f1) as Hsb by now repeat split.
  assert (fifo_ok (in_type dev) (released (blk buffer) m2) f1 (drop (Z.to_nat n) q)) as Hf1.
  { apply fifo_released; [|exact Hbi]. eapply fifo_frame; [|apply put_bytes_only | exact Hui].
    split; try assumption. now apply (typed_same_buffer _ (inbuffer dev)). }
  assert (fifo_ok (out_type dev) (released (blk buffer) m2) (outbuffer dev) qout) as Hf2.
  { apply fifo_released; [|exact Hbo]. do 2 (eapply fifo_frame; [|apply put_bytes_only | assumption]). exact Hout. }
  assert (zlen (take (Z.to_nat n) q) = n) as Hzn.
  { unfold zlen in *. rewrite length_take. subst n. unfold zlen. lia. }
  split; [|split; [|split; [|split; [|split; [|split; [|split; [|split]]]]]]].
  - destruct dev, Hsb as (Ha1 & _ & Ha3). split; try assumption; cbn in *; unfold capacity in *; congruence.
  - cbn. destruct c; cbn; rewrite load_released by assumption; apply load_put_bytes; auto; unfold zlen in Hzn; lia.
  - destruct dev. cbn in *. now rewrite Hlk.
  - now destruct c.
  - intros c' Hc'. now destruct c, c'.
  - replace (w_mem (put_mem _ _)) with (released (blk buffer) m2) by now destruct c. split; cbn.
    + unfold m2, m1. rewrite !(proj1 (put_bytes_only _ _ _)). reflexivity.
    + intros b Hb. destruct (decide (b = blk buffer)) as [->|]; [now rewrite !lookup_delete_eq |].
      rewrite !lookup_delete_ne by congruence. unfold m2, m1.
      rewrite (proj2 (put_bytes_only _ _ _)) by set_solver. now rewrite (proj2 (put_bytes_only _ _ _)) by congruence.
  - intros n' Hn1. replace (w_mem (put_mem _ _)) with (released (blk buffer) m2) by now destruct c.
    assert (valid_at m2 user n') as (V & HV & Hb).
    { apply valid_put; [now rewrite Hzn | now apply valid_put]. }
    exists V. cbn. now rewrite lookup_delete_ne by congruence.
  - replace (w_mem (put_mem _ _)) with (released (blk buffer) m2) by now destruct c. cbn.
    rewrite lookup_delete_ne by congruence. unfold m2. apply put_bytes_ext. unfold m1. now apply put_bytes_only.
  - exists f1. rewrite Hlk. split; [reflexivity | exact Hsb].
Qed.

(** *** Allocating *)

Lemma kmalloc_buffer large m size :
  0 <= size -> malloc m size <> None ->
  exists ma buffer, kmalloc large false m size GFP_KERNEL = Ok (ma, buffer) /\
    fresh_block m size GFP_KERNEL ma buffer /\ is_null buffer = false.
Proof.
  intros Hs Hm. destruct (__kmalloc_ok m size GFP_KERNEL Hs) as (ma & buffer & E & _ & H).
  exists ma, buffer. split; [exact E |]. split; [now apply H |].
  destruct (H Hm) as (_ & Hb & _). unfold is_null. apply bool_decide_eq_false_2. intros ->. now apply Hb.
Qed.

Lemma kmalloc_fails large m size :
  malloc m size = None -> kmalloc large false m size GFP_KERNEL = Ok (m, NULL).
Proof. intros H. unfold kmalloc, __kmalloc. cbn [andb]. now rewrite H. Qed.

Section Fresh.
Context (m ma : mem) (size fl : Z) (buffer : ptr).
Context (Hfr : fresh_block m size fl ma buffer) (Hdom : dyn m ⊆ dom (blocks m)).

Lemma fresh_other b : b <> blk buffer -> blocks ma !! b = blocks m !! b.
Proof. destruct Hfr as (_ & _ & _ & _ & bs & -> & _). intros H. now rewrite lookup_insert_ne by congruence. Qed.

Lemma fresh_apart q n : valid_at m q n -> blk q <> blk buffer /\ valid_at ma q n.
Proof.
  destruct Hfr as (_ & _ & Hn & _). intros (B & HB & Hb).
  assert (blk q <> blk buffer) as Hne by (intros E; rewrite E in HB; congruence).
  split; [exact Hne |]. exists B. now rewrite fresh_other.
Qed.

Lemma fresh_loan : loan ma buffer size.
Proof.
  clear Hdom.
  destruct Hfr as (Ho & Ha & Hn & Hd & bs & Hb & Hz & _). split; try assumption; [set_solver |].
  exists bs. rewrite Hb, lookup_insert_eq. split; [reflexivity |]. apply in_bounds_iff.
  rewrite Ho, Hz. pose proof (zlen_nonneg bs). lia.
Qed.

Lemma fresh_fifo t f q : fifo_ok t m f q -> fifo_ok t ma f q /\ blk buffer <> blk (k_data f).
Proof.
  intros Hf. pose proof Hf as [Hwf Ht Hq He Hr]. destruct (wf_data _ _ Hwf) as (B & HB & Hb).
  assert (blk buffer <> blk (k_data f)) as Hne.
  { intros E. destruct Hfr as (_ & _ & Hn & _). rewrite E in Hn. congruence. }
  split; [|exact Hne]. split; try assumption.
  - destruct Hwf. split; try assumption. now rewrite fresh_other by congruence.
  - rewrite <- Hq. unfold contents, window. now rewrite fresh_other by congruence.
Qed.

Lemma fresh_dev dev p qin qout :
  dev_ok m dev p qin qout ->
  dev_ok ma dev p qin qout /\ blk buffer <> blk (k_data (inbuffer dev)) /\
  blk buffer <> blk (k_data (outbuffer dev)).
Proof.
  intros [Hi Ho H1 H2 H3 H4]. destruct (fresh_fifo _ _ _ Hi) as [Hi' Hni]. destruct (fresh_fifo _ _ _ Ho) as [Ho' Hno].
  split; [now split | auto].
Qed.

Lemma fresh_slots dev bv val :
  slots_ok m dev bv val -> slots_ok ma dev bv val /\ blk bv <> blk buffer /\ blk val <> blk buffer.
Proof.
  intros [H1 H2 H3 H4 H5]. destruct (fresh_apart _ _ H1), (fresh_apart _ _ H2). split; [now split | auto].
Qed.

(** Giving the block back after other blocks [X] and [Y] were written. *)
Lemma fresh_released X Y m1 m2 :
  only_blocks (blk buffer :: X) ma m1 -> only_blocks Y (released (blk buffer) m1) m2 ->
  blk buffer ∉ Y -> only_blocks (Y ++ X) m m2.
Proof.
  destruct Hfr as (_ & _ & Hn & Hd & _). intros [D1 B1] [D2 B2] HY. cbn in *. split.
  - rewrite D2, D1, Hd. apply not_elem_of_dom in Hn. set_solver.
  - intros b Hb. destruct (decide (b = blk buffer)) as [->|Hne].
    + now rewrite B2, lookup_delete_eq by exact HY.
    + rewrite B2, lookup_delete_ne, B1 by set_solver. now apply fresh_other.
Qed.
End Fresh.

(** *** Waiting *)

Definition idle : nat -> world D -> res (world D) := fun _ w => Ok w.

(** The interrupt server runs the handler at one instant. *)
Definition irq_at (byte_value __val : ptr) (fuel : nat) (irq : Z) (t : nat) : nat -> world D -> res (world D) :=
  fun i w =>
    if Nat.eqb i t then
      let! (w, _) := interrupt_handler byte_value __val fuel w irq in Ok w
    else Ok w.

Lemma wait_and_lock_ok (env : nat -> world D -> res (world D)) fuel cond locked raise trylock now w now' w1 w2 w3 :
  wait_event env (S fuel) cond locked raise now w = Ok (now', w1) -> env now' w1 = Ok w2 ->
  trylock w2 = (w3, 1) ->
  wait_and_lock env (S fuel) cond locked raise trylock now w = Ok (S now', w3).
Proof. intros E1 E2 E3. cbn [wait_and_lock]. rewrite E1. cbn [rbind]. rewrite E2. cbn [rbind]. now rewrite E3. Qed.

Lemma lock_input_free (w : world D) c :
  input_lock (the_dev w c) = 0 -> lock_input c w = (put_dev w c (set_input_lock (the_dev w c) 1), 1).
Proof. intros H. unfold lock_input. now rewrite H. Qed.

Section Irq.
Variables (bv val : ptr) (hfuel : nat) (irq : Z) (t : nat).

Lemma env_quiet now w : now <> t -> irq_at bv val hfuel irq t now w = Ok w.
Proof. intros H. unfold irq_at. now rewrite (proj2 (Nat.eqb_neq now t) H). Qed.

Lemma env_irq w w1 r :
  interrupt_handler bv val hfuel w irq = Ok (w1, r) -> irq_at bv val hfuel irq t t w = Ok w1.
Proof. intros H. unfold irq_at. now rewrite Nat.eqb_refl, H. Qed.

(** The spinning thread is released by the interrupt. *)
Lemma spin_released fuel (locked : world D -> bool) now w w1 r :
  (now <= t)%nat -> (t - now < fuel)%nat -> locked w = true ->
  interrupt_handler bv val hfuel w irq = Ok (w1, r) -> locked w1 = false ->
  spin (irq_at bv val hfuel irq t) fuel locked now w = Ok (S t, w1).
Proof.
  revert now. induction fuel as [|fuel IH]; intros now Hn Hf Hl Hh Hl1; [lia |]. cbn [spin].
  destruct (decide (now = t)) as [->|Hne].
  - rewrite (env_irq _ _ _ Hh). cbn [rbind]. now rewrite Hl1.
  - rewrite env_quiet by assumption. cbn [rbind]. rewrite Hl. apply IH; try assumption; lia.
Qed.

End Irq.

(** While nothing happens, nothing releases it. *)
Lemma spin_stuck (env : nat -> world D -> res (world D)) fuel (locked : world D -> bool) now w :
  (forall i, (now <= i)%nat -> env i w = Ok w) -> locked w = true -> spin env fuel locked now w = Err OutOfFuel.
Proof.
  revert now. induction fuel as [|fuel IH]; intros now Hn Hl; [reflexivity |]. cbn [spin].
  rewrite Hn by lia. cbn [rbind]. rewrite Hl. apply IH; [intros i Hi; apply Hn; lia | assumption].
Qed.

(** An environment under observation: from instant [t] on, a world in which [P]
    does not hold stops the run. *)
Definition watched (P : world D -> bool) (t : nat) (env : nat -> world D -> res (world D)) :
    nat -> world D -> res (world D) :=
  fun i w => if (t <=? i)%nat && negb (P w) then Err Panic else env i w.
(** *** The read call *)

(** What a read of [q] into [user] leaves. *)
Record was_read (w : world D) (c : com) (p : Z) (q qout : list Z) (user : ptr) (n : Z) (X : list Z)
    (w' : world D) : Prop := {
  wr_dev : dev_ok (w_mem w') (the_dev w' c) p (drop (Z.to_nat n) q) qout;
  wr_data : load (w_mem w') user n = Ok (take (Z.to_nat n) q);
  wr_same : input_lock (the_dev w c) = 0 -> same_device (the_dev w c) (the_dev w' c);
  wr_lock : input_lock (the_dev w' c) = 0;
  wr_user : forall n', valid_at (w_mem w) user n' -> valid_at (w_mem w') user n';
  wr_mem : only_blocks (blk user :: X) (w_mem w) (w_mem w');
  wr_block : blocks (w_mem w') !! blk user = blocks (put_bytes (w_mem w) user (take (Z.to_nat n) q)) !! blk user
}.

(** The caller's buffer, apart from the device's memory and from the blocks
    the handler writes. *)
Record user_ok (m : mem) (dev : com_dev) (user : ptr) (size : Z) (X : list Z) : Prop := {
  us_valid : valid_at m user size;
  us_in : blk user <> blk (k_data (inbuffer dev));
  us_out : blk user <> blk (k_data (outbuffer dev));
  us_apart : blk user ∉ X
}.

Lemma same_device_data dev dev' :
  same_device dev dev' ->
  k_data (inbuffer dev') = k_data (inbuffer dev) /\ k_data (outbuffer dev') = k_data (outbuffer dev).
Proof. intros (_ & _ & (_ & _ & H1) & (_ & _ & H2) & _). auto. Qed.

Lemma same_device_refl dev : same_device dev dev.
Proof. now repeat split. Qed.

Lemma same_device_trans d1 d2 d3 : same_device d1 d2 -> same_device d2 d3 -> same_device d1 d3.
Proof. unfold same_device, same_buffer. intuition congruence. Qed.

Lemma dev_ok_lock m dev p qin qout l :
  dev_ok m dev p qin qout -> dev_ok m (set_input_lock dev l) p qin qout.
Proof. intros [H1 H2 H3 H4 H5 H6]. destruct dev. now split. Qed.

(** From the end of the wait on: [w0] is the world of the call, [w1] the one in
    which the lock is found free. *)
Lemma read_after_wait (w0 w1 : world D) c p q qout user buffer size fl ma X :
  fresh_block (w_mem w0) size fl ma buffer -> dyn (w_mem w0) ⊆ dom (blocks (w_mem w0)) ->
  only_blocks X ma (w_mem w1) -> blk buffer ∉ X -> same_device (the_dev w0 c) (the_dev w1 c) ->
  dev_ok (w_mem w1) (the_dev w1 c) p q qout -> user_ok (w_mem w0) (the_dev w0 c) user size X ->
  blk buffer <> blk (k_data (inbuffer (the_dev w0 c))) -> blk buffer <> blk (k_data (outbuffer (the_dev w0 c))) ->
  0 <= size ->
  let n := Z.min size (zlen q) in
  exists w', finish_read c user buffer size (put_dev w1 c (set_input_lock (the_dev w1 c) 1)) = Ok (w', n) /\
    was_read w0 c p q qout user n X w' /\ w_hw w' = w_hw w1 /\
    (forall r k, blk r <> blk buffer -> blk r <> blk user -> valid_at (w_mem w1) r k -> valid_at (w_mem w') r k).
Proof.
  intros Hfr Hdom Ho HbX Hsd Hdev [Hus Hui Huo HuX] Hbi Hbo Hsz n.
  destruct (fresh_apart _ _ _ _ _ Hfr _ _ Hus) as [Hub Hus'].
  destruct (same_device_data _ _ Hsd) as [Ei Eo]. pose proof (fresh_loan _ _ _ _ _ Hfr) as [Hl1 Hl2 Hl3 (B & HB & Hb)].
  set (wl := put_dev w1 c (set_input_lock (the_dev w1 c) 1)).
  assert (w_mem wl = w_mem w1 /\ w_hw wl = w_hw w1 /\ the_dev wl c = set_input_lock (the_dev w1 c) 1) as (Em & Eh & Ed)
    by now destruct c.
  destruct (finish_read_ok wl c p q qout user buffer size) as (w' & E & Hd' & Hld & Hlk & Hhw & _ & Ho' & Hvu & Hblk & f' & Ef & Hsb);
    rewrite ?Em, ?Ed.
  - now apply dev_ok_lock.
  - now destruct (the_dev w1 c).
  - exact Hsz.
  - split; try assumption; [now rewrite (proj1 Ho) |]. exists B. now rewrite (proj2 Ho).
  - destruct Hus' as (U & HU & HUb). exists U. now rewrite (proj2 Ho).
  - congruence.
  - intros f Hf. assert (f = inbuffer (the_dev w1 c) \/ f = outbuffer (the_dev w1 c)) as [-> | ->]
      by (destruct (the_dev w1 c); exact Hf); rewrite ?Ei, ?Eo; auto.
  - exists w'. split; [exact E |]. split; [|split; [congruence |]].
    2: { rewrite Em in Ho'. intros r k Hr1 Hr2 (V & HV & HVb). exists V. split; [|exact HVb].
         rewrite (proj2 Ho') by (rewrite list_elem_of_singleton; exact Hr2). cbn. now rewrite lookup_delete_ne by congruence. }
    rewrite Em in Hvu. split; try assumption; cycle 3.
    { rewrite Hblk, Em. apply put_bytes_ext. rewrite (proj2 Ho) by assumption. now apply (fresh_other _ _ _ _ _ Hfr). }
    { intros Hl0. rewrite Ef, Ed. rewrite Ed in Hsb. apply (same_device_trans _ _ _ Hsd).
      destruct Hsd as (_ & _ & _ & _ & El & _). rewrite Hl0 in El.
      destruct (the_dev w1 c). cbn in *. subst input_lock0. now repeat split; try apply Hsb. }
    { intros n' Hv. apply Hvu. destruct (fresh_apart _ _ _ _ _ Hfr _ _ Hv) as [_ (V & HV & HVb)]. exists V. now rewrite (proj2 Ho). }
    rewrite Em in Ho'. change (blk user :: X) with ([blk user] ++ X).
    apply (fresh_released _ _ _ _ _ Hfr Hdom _ _ (w_mem w1)); [|exact Ho' | set_solver].
    apply (only_blocks_mono _ _ _ _ Ho). set_solver.
Qed.

Lemma not_empty m dev p qin qout :
  dev_ok m dev p qin qout -> negb (kfifo_is_empty (inbuffer dev)) = negb (bool_decide (qin = [])).
Proof.
  intros [Hi _ _ _ _ _]. pose proof (fifo_len _ _ _ _ Hi) as [Hu _]. destruct Hi as [Hwf _ _ _ _].
  unfold kfifo_is_empty. rewrite (empty_iff _ _ Hwf), Hu. f_equal.
  destruct qin; [reflexivity |]. rewrite bool_decide_eq_false_2 by discriminate. apply Z.eqb_neq.
  unfold zlen. cbn. lia.
Qed.
End Calling.

Lemma read_ready_ok {D} (IO : PortIO D) (A : Allocator) (L : AllocatorLaws A) large fuel
    (w : world D) c p qin qout user size :
  let dev := the_dev w c in
  dev_ok (w_mem w) dev p qin qout -> input_lock dev = 0 -> qin <> [] -> 0 <= size -> (0 < fuel)%nat ->
  dyn (w_mem w) ⊆ dom (blocks (w_mem w)) -> user_ok (w_mem w) dev user size [] ->
  (malloc (w_mem w) size = None -> uart16550_read large idle fuel c user size w = Ok (w, - ENOMEM)) /\
  (malloc (w_mem w) size <> None ->
   let n := Z.min size (zlen qin) in
   exists w', uart16550_read large idle fuel c user size w = Ok (w', n) /\
     was_read w c p qin qout user n [] w' /\ w_hw w' = w_hw w).
Proof.
  intros dev Hdev Hlk Hne Hsz Hf Hdom Hus. unfold uart16550_read. split; intros Hm.
  { rewrite (kmalloc_fails large _ _ Hm). cbn. do 2 f_equal. now destruct w. }
  cbv zeta. destruct (kmalloc_buffer large (w_mem w) size Hsz Hm) as (ma & buffer & -> & Hfr & Hnb). cbn [rbind]. rewrite Hnb.
  destruct (fresh_dev _ _ _ _ _ Hfr _ _ _ _ Hdev) as (Hdev' & Hbi & Hbo).
  assert (the_dev (put_mem w ma) c = dev) as Ed by now destruct c.
  destruct fuel as [|fuel]; [lia |].
  erewrite (wait_and_lock_ok idle fuel _ _ _ _ 0 (put_mem w ma) 1 (put_mem w ma)); cycle 1.
  - cbn. rewrite Ed, (not_empty _ _ _ _ _ Hdev), bool_decide_eq_false_2 by exact Hne. reflexivity.
  - reflexivity.
  - apply lock_input_free. now rewrite Ed.
  - cbn [rbind].
    destruct (read_after_wait w (put_mem w ma) c p qin qout user buffer size _ ma [] Hfr Hdom)
      as (w' & E & Hr & Hh & _); rewrite ?Ed; try assumption; try (now apply only_blocks_refl); try apply not_elem_of_nil.
    + apply same_device_refl.
    + rewrite Ed in E. exists w'. rewrite E. split; [reflexivity | split; [exact Hr | exact Hh]].
Qed.

(** Reading what is already there.  When the allocator has no memory,
    [uart16550_read] returns -ENOMEM and changes nothing.  Otherwise, with
    input queued and the lock free, it returns at once with the number of bytes
    asked for or queued, whichever is less; exactly these bytes, oldest first,
    are in the caller's buffer and gone from the queue, the lock is free again,
    the temporary buffer is given back, and no other memory changed. *)
Theorem uart16550_read_ready {D} (IO : PortIO D) (A : Allocator) (L : AllocatorLaws A) large fuel
    (w : world D) c p qin qout user size :
  let dev := the_dev w c in
  dev_ok (w_mem w) dev p qin qout -> input_lock dev = 0 -> qin <> [] -> 0 <= size -> (0 < fuel)%nat ->
  dyn (w_mem w) ⊆ dom (blocks (w_mem w)) -> user_ok (w_mem w) dev user size [] ->
  (malloc (w_mem w) size = None -> uart16550_read large idle fuel c user size w = Ok (w, - ENOMEM)) /\
  (malloc (w_mem w) size <> None ->
   let n := Z.min size (zlen qin) in
   exists w', uart16550_read large idle fuel c user size w = Ok (w', n) /\
     was_read w c p qin qout user n [] w' /\ w_hw w' = w_hw w).
Proof. intros dev. now apply read_ready_ok. Qed.

(** The second device with two bytes of input. *)
Definition sample_filled : world (chip * chip) :=
  let w := sample_world [] in
  put_mem (put_dev w COM2 (set_inbuffer (com2_dev w) (Kfifo 2 0 4095 1 (Ptr 3 0))))
    (Mem (<[3 := 104 :: 105 :: replicate 4094 0]> (blocks (w_mem w))) ∅).

Lemma sample_filled_ok : dev_ok (w_mem sample_filled) (com2_dev sample_filled) COM2_BASEPORT [104; 105] [].
Proof.
  assert (zlen (104 :: 105 :: replicate 4094 0) = FIFO_SIZE) as Hz
    by (unfold zlen; cbn [length]; rewrite length_replicate; reflexivity).
  pose proof (byte_fifo_ok (Ptr 3 0) (w_mem sample_filled) _ 2 0 eq_refl eq_refl Hz
                ltac:(lia) ltac:(lia) ltac:(now vm_compute)) as H1.
  destruct (init_fifo_ok (Ptr 4 0) (w_mem sample_filled) (replicate (Z.to_nat FIFO_SIZE) 0)) as (H2 & H3 & _);
    [reflexivity | reflexivity | unfold zlen; rewrite length_replicate; reflexivity |].
  split; [exact H1 | exact H2 | reflexivity | exact H3 | discriminate | reflexivity].
Qed.

#[local] Instance sample_malloc : Allocator := bump_malloc 65536.

Lemma uart16550_read_ready_witness :
  exists w', uart16550_read (fun m _ _ => Ok (m, NULL)) idle 1 COM2 (Ptr 66 0) 1 sample_filled = Ok (w', 1) /\
    load (w_mem w') (Ptr 66 0) 1 = Ok [104].
Proof.
  destruct (uart16550_read_ready two_chips sample_malloc (bump_malloc_laws _) (fun m _ _ => Ok (m, NULL)) 1
              sample_filled COM2 COM2_BASEPORT [104; 105] [] (Ptr 66 0) 1) as [_ H].
  - apply sample_filled_ok.
  - reflexivity.
  - discriminate.
  - lia.
  - lia.
  - apply empty_subseteq.
  - split; [eexists; split; reflexivity | discriminate | discriminate | apply not_elem_of_nil].
  - destruct H as (w' & E & Hr & _); [vm_compute; discriminate |].
    exists w'. split; [exact E | exact (wr_data _ _ _ _ _ _ _ _ _ Hr)].
Defined.

Section Blocking.
Context {D : Type} {IO : PortIO D} {p : Z} {view : D -> chip} {U : Uart16550 IO p view}.
Context {A : Allocator} {L : AllocatorLaws A}.

Lemma raise_read_frame (w : world D) c :
  w_mem (raise_read c w) = w_mem w /\ w_hw (raise_read c w) = w_hw w /\
  wq_locked (read_wait_queue (the_dev (raise_read c w) c)) = true /\
  same_device (the_dev w c) (the_dev (raise_read c w) c) /\
  (forall m q1 q2, dev_ok m (the_dev w c) p q1 q2 -> dev_ok m (the_dev (raise_read c w) c) p q1 q2) /\
  (forall m bv val, slots_ok m (the_dev w c) bv val -> slots_ok m (the_dev (raise_read c w) c) bv val).
Proof.
  destruct c; cbn; (destruct (com1_dev w) || idtac); (destruct (com2_dev w) || idtac); cbn;
    (split; [reflexivity |]; split; [reflexivity |]; split; [reflexivity |];
     split; [now repeat split |]; split; intros; match goal with H : _ |- _ => destruct H end; now split).
Qed.

(** The world in which a waiting reader goes on, when the interrupt comes at
    instant [t]. *)
Lemma wait_for_input bv val hfuel fuel irq t (w : world D) qout :
  let c := irq_com irq in let dev := the_dev w c in
  (Z.to_nat FIFO_SIZE < hfuel)%nat -> (t < fuel)%nat ->
  dev_ok (w_mem w) dev p [] qout -> slots_ok (w_mem w) dev bv val ->
  dlab (view (w_hw w)) = false -> c_rx (view (w_hw w)) <> [] -> t <> 1%nat ->
  let X := [blk bv; blk val; blk (k_data (inbuffer dev))] in
  exists w0 w1 now, handled (p := p) (view := view) w0 c [] qout w1 X /\
    slots_ok (w_mem w1) (the_dev w1 c) bv val /\ w_mem w0 = w_mem w /\ w_hw w0 = w_hw w /\ same_device dev (the_dev w0 c) /\ (t < now)%nat /\
    wait_event (irq_at bv val hfuel irq t) fuel
      (fun w => negb (kfifo_is_empty (inbuffer (the_dev w c))))
      (fun w => wq_locked (read_wait_queue (the_dev w c))) (raise_read c) 0 w = Ok (now, w1).
Proof.
  intros c dev Hhf Hf Hdev Hsl Hdl Hrx Ht X. unfold wait_event. destruct (decide (t = 0%nat)) as [->|Hne].
  - destruct (handler_ok (p := p) (view := view) bv val hfuel w irq [] qout Hhf Hdev Hsl Hdl) as (w1 & E & Hh & Hsl1).
    rewrite (env_irq bv val hfuel irq 0 _ _ _ E). cbn [rbind]. fold c in Hh.
    rewrite (not_empty _ _ _ _ _ (hd_dev _ _ _ _ _ _ Hh)), bool_decide_eq_false_2.
    + exists w, w1, 1%nat. split; [exact Hh |]. split; [exact Hsl1 |]. repeat split; lia.
    + cbn [app]. destruct (c_rx (view (w_hw w))) as [|b rx]; [congruence |]. discriminate.
  - rewrite (env_quiet bv val hfuel irq t 0) by congruence. cbn [rbind].
    fold dev. rewrite (not_empty _ _ _ _ _ Hdev), bool_decide_eq_true_2 by reflexivity. cbn [negb].
    rewrite (env_quiet bv val hfuel irq t 1) by congruence. cbn [rbind].
    destruct (raise_read_frame w c) as (Em & Eh & El & Esd & Edv & Esl). fold dev in Esd, Edv, Esl.
    destruct (handler_ok (p := p) (view := view) bv val hfuel (raise_read c w) irq [] qout Hhf) as (w1 & E & Hh & Hsl1);
      fold c; rewrite ?Em, ?Eh; auto.
    rewrite (spin_released bv val hfuel irq t fuel _ 2 (raise_read c w) w1 IRQ_HANDLED);
      [| lia | lia | exact El | exact E | apply Hh].
    destruct (same_device_data _ _ Esd) as [Ei _]. fold c in Hh. rewrite Ei in Hh.
    exists (raise_read c w), w1, (S t). split; [exact Hh |]. split; [exact Hsl1 |]. repeat split; try assumption; try apply Esd; lia.
Qed.
End Blocking.

(** With what the read leaves of the chip. *)
Lemma read_blocking_ok {D} (IO : PortIO D) p view (U : Uart16550 IO p view)
    (A : Allocator) (L : AllocatorLaws A) large bv val hfuel fuel irq t (w : world D) qout user size :
  let c := irq_com irq in let dev := the_dev w c in
  let X := [blk bv; blk val; blk (k_data (inbuffer dev))] in
  (Z.to_nat FIFO_SIZE < hfuel)%nat -> (t < fuel)%nat ->
  dev_ok (w_mem w) dev p [] qout -> slots_ok (w_mem w) dev bv val -> input_lock dev = 0 ->
  dlab (view (w_hw w)) = false -> c_rx (view (w_hw w)) <> [] ->
  0 <= size -> dyn (w_mem w) ⊆ dom (blocks (w_mem w)) -> user_ok (w_mem w) dev user size X ->
  malloc (w_mem w) size <> None -> t <> 1%nat ->
  let q := u8 <$> take (Z.to_nat FIFO_SIZE) (c_rx (view (w_hw w))) in
  let n := Z.min size (zlen q) in
  exists w', uart16550_read large (irq_at bv val hfuel irq t) fuel c user size w = Ok (w', n) /\
    was_read w c p q (drop (c_room (view (w_hw w))) qout) user n X w' /\
    view (w_hw w') = chip_taken (chip_sent (view (w_hw w)) (u8 <$> take (c_room (view (w_hw w))) qout)) (S (Z.to_nat FIFO_SIZE)) /\
    slots_ok (w_mem w') (the_dev w' c) bv val.
Proof.
  intros c dev X Hhf Hf Hdev Hsl Hlk Hdl Hrx Hsz Hdom Hus Hm Ht q n.
  unfold uart16550_read. destruct (kmalloc_buffer large (w_mem w) size Hsz Hm) as (ma & buffer & -> & Hfr & Hnb).
  cbn [rbind]. rewrite Hnb. destruct (fresh_dev _ _ _ _ _ Hfr _ _ _ _ Hdev) as (Hdev' & Hbi & Hbo).
  destruct (fresh_slots _ _ _ _ _ Hfr _ _ _ Hsl) as (Hsl' & Hb1 & Hb2).
  assert (the_dev (put_mem w ma) c = dev) as Ed by now destruct c.
  destruct (wait_for_input (p := p) (view := view) bv val hfuel fuel irq t (put_mem w ma) qout)
    as (w0 & w1 & now & Hh & Hsl1 & Em & Eh & Esd & Hnow & Ew); fold c; rewrite ?Ed; try assumption.
  fold c in Hh, Esd, Ew. rewrite Ed in Hh, Esd. destruct Hh as [Hd1 Hc1 Hs1 _ _ Hm1]. rewrite Em in Hm1.
  destruct fuel as [|fuel]; [lia |].
  erewrite (wait_and_lock_ok _ fuel _ _ _ _ 0 (put_mem w ma) now w1 w1); [| exact Ew | apply env_quiet; lia |].
  2: { apply lock_input_free. destruct Hs1 as (_ & _ & _ & _ & -> & _), Esd as (_ & _ & _ & _ & -> & _). exact Hlk. }
  cbn [rbind]. rewrite Eh in Hd1. cbn [app w_hw put_mem] in Hd1. change (zlen []) with 0 in Hd1. rewrite Z.sub_0_r in Hd1.
  destruct (read_after_wait w w1 c p q (drop (c_room (view (w_hw w))) qout) user buffer size _ ma X Hfr Hdom)
    as (w' & -> & Hr & Ehw & Hval); try assumption.
  - unfold X. set_solver.
  - eapply same_device_trans; eassumption.
  - exists w'. split; [reflexivity |]. split; [exact Hr |].
    split; [rewrite Ehw, Hc1, Eh; reflexivity |]. destruct Hus as [_ _ _ HuX].
    destruct (same_device_data _ _ (wr_same _ _ _ _ _ _ _ _ _ Hr Hlk)) as [Ki Ko]. fold dev in Ki, Ko.
    destruct Hsl as [S1 S2 S3 S4 S5], Hsl1 as [T1 T2 _ _ _]. split; rewrite ?Ki, ?Ko; try assumption;
      (apply Hval; [assumption | intros Eb; apply HuX; rewrite <- Eb; unfold X; set_solver | assumption]).
Qed.

(** C10: a blocking read.  A reader finds no input while bytes wait in the chip,
    and the interrupt server runs the handler at instant [t] of the reader's
    execution: before its first look, or at any time once it is waiting.  Then
    [uart16550_read] returns the bytes the interrupt brought, in order and as
    many as asked for, in the caller's buffer; what was not asked for stays
    queued, the lock is free, the temporary buffer is given back, and besides
    the caller's buffer only the handler's blocks changed. *)
Theorem uart16550_read_blocking {D} (IO : PortIO D) p view (U : Uart16550 IO p view)
    (A : Allocator) (L : AllocatorLaws A) large bv val hfuel fuel irq t (w : world D) qout user size :
  let c := irq_com irq in let dev := the_dev w c in
  let X := [blk bv; blk val; blk (k_data (inbuffer dev))] in
  (Z.to_nat FIFO_SIZE < hfuel)%nat -> (t < fuel)%nat ->
  dev_ok (w_mem w) dev p [] qout -> slots_ok (w_mem w) dev bv val -> input_lock dev = 0 ->
  dlab (view (w_hw w)) = false -> c_rx (view (w_hw w)) <> [] ->
  0 <= size -> dyn (w_mem w) ⊆ dom (blocks (w_mem w)) -> user_ok (w_mem w) dev user size X ->
  malloc (w_mem w) size <> None -> t <> 1%nat ->
  let q := u8 <$> take (Z.to_nat FIFO_SIZE) (c_rx (view (w_hw w))) in
  let n := Z.min size (zlen q) in
  exists w', uart16550_read large (irq_at bv val hfuel irq t) fuel c user size w = Ok (w', n) /\
    was_read w c p q (drop (c_room (view (w_hw w))) qout) user n X w'.
Proof.
  intros c dev X Hhf Hf Hdev Hsl Hlk Hdl Hrx Hsz Hdom Hus Hm Ht q n.
  destruct (read_blocking_ok IO p view U A L large bv val hfuel fuel irq t w qout user size) as (w' & E & Hr & _); try assumption.
  exists w'. auto.
Qed.

(** The input queue of device [c] holds [q], and its reader's flag is up. *)
Definition waits_on {D} (c : com) (q : list Z) (w : world D) : bool :=
  bool_decide (contents (w_mem w) (inbuffer (the_dev w c)) = q) && wq_locked (read_wait_queue (the_dev w c)).

(** C12: the lost wake-up.  Bytes wait in the chip, the only interrupt falls
    between the reader's look at the empty queue and its raising of the
    [locked] flag, and no further one comes.  Then the handler's wake-up is
    overwritten and the read does not return however long it runs, although at
    every later instant of it the queue holds the bytes the interrupt brought,
    at least one, and the flag it spins on is up: an observer that stops the
    run where this does not hold never does. *)
Theorem uart16550_read_lost_wakeup {D} (IO : PortIO D) p view (U : Uart16550 IO p view)
    (A : Allocator) (L : AllocatorLaws A) large bv val hfuel fuel irq (w : world D) qout user size :
  let c := irq_com irq in let dev := the_dev w c in
  (Z.to_nat FIFO_SIZE < hfuel)%nat -> dev_ok (w_mem w) dev p [] qout -> slots_ok (w_mem w) dev bv val ->
  dlab (view (w_hw w)) = false -> c_rx (view (w_hw w)) <> [] -> 0 <= size -> malloc (w_mem w) size <> None ->
  let q := u8 <$> take (Z.to_nat FIFO_SIZE) (c_rx (view (w_hw w))) in
  q <> [] /\
  uart16550_read large (irq_at bv val hfuel irq 1) fuel c user size w = Err OutOfFuel /\
  uart16550_read large (watched (waits_on c q) 2 (irq_at bv val hfuel irq 1)) fuel c user size w = Err OutOfFuel.
Proof.
  intros c dev Hhf Hdev Hsl Hdl Hrx Hsz Hm q.
  split; [unfold q; destruct (c_rx (view (w_hw w))); [congruence | discriminate] |].
  unfold uart16550_read. destruct (kmalloc_buffer large (w_mem w) size Hsz Hm) as (ma & buffer & -> & Hfr & Hnb).
  cbn [rbind]. rewrite Hnb. destruct (fresh_dev _ _ _ _ _ Hfr _ _ _ _ Hdev) as (Hdev' & _ & _).
  destruct (fresh_slots _ _ _ _ _ Hfr _ _ _ Hsl) as (Hsl' & _ & _).
  assert (the_dev (put_mem w ma) c = dev) as Ed by now destruct c.
  destruct (handler_ok (p := p) (view := view) bv val hfuel (put_mem w ma) irq [] qout Hhf) as (w1 & E & Hh & _);
    fold c; rewrite ?Ed; try assumption. fold c in Hh.
  assert (forall env, env 0%nat (put_mem w ma) = Ok (put_mem w ma) -> env 1%nat (put_mem w ma) = Ok w1 ->
    (forall i, (2 <= i)%nat -> env i (raise_read c w1) = Ok (raise_read c w1)) ->
    forall fuel k, rbind (wait_and_lock env fuel (fun w => negb (kfifo_is_empty (inbuffer (the_dev w c))))
      (fun w => wq_locked (read_wait_queue (the_dev w c))) (raise_read c) (lock_input c) 0 (put_mem w ma)) k =
      @Err (world D * Z) OutOfFuel) as Hstuck.
  { intros env H0 H1 H2 [|fu] k; [reflexivity |]. cbn [wait_and_lock]. unfold wait_event.
    rewrite H0. cbn [rbind]. rewrite Ed, (not_empty _ _ _ _ _ Hdev), bool_decide_eq_true_2 by reflexivity. cbn [negb].
    rewrite H1. cbn [rbind]. rewrite spin_stuck; [reflexivity | exact H2 |]. apply (raise_read_frame (p := p)). }
  pose proof (env_irq bv val hfuel irq 1 _ _ _ E) as H1.
  split; apply Hstuck; try exact H1; try (apply env_quiet; lia); intros i Hi.
  - apply env_quiet. lia.
  - unfold watched. assert (waits_on c q (raise_read c w1) = true) as ->.
    { destruct (raise_read_frame (p := p) w1 c) as (Em & _ & Hfl & _ & Hdv & _).
      unfold waits_on. rewrite Em, Hfl, andb_true_r.
      apply bool_decide_eq_true. pose proof (dv_in _ _ _ _ _ (Hdv _ _ _ (hd_dev _ _ _ _ _ _ Hh))) as Hq.
      rewrite (fo_queue _ _ _ _ Hq). reflexivity. }
    rewrite andb_false_r. apply env_quiet. lia.
Qed.

Lemma sample_user rx size :
  0 <= size <= 8 ->
  user_ok (w_mem (sample_world rx)) (com2_dev (sample_world rx)) (Ptr 66 0) size [64; 65; 3].
Proof.
  intros Hs. split; [|discriminate | discriminate | set_solver].
  exists (replicate 8 0). split; [reflexivity |]. apply in_bounds_iff.
  change (zlen (replicate 8 0)) with 8. cbn [ofs]. lia.
Qed.

Lemma uart16550_read_blocking_witness :
  exists w', uart16550_read (fun m _ _ => Ok (m, NULL)) (irq_at (Ptr 64 0) (Ptr 65 0) 4097 COM2_IRQ 7) 9
      COM2 (Ptr 66 0) 8 (sample_world [104; 105]) = Ok (w', 2) /\
    load (w_mem w') (Ptr 66 0) 2 = Ok [104; 105].
Proof.
  destruct (uart16550_read_blocking two_chips COM2_BASEPORT snd com2_uart sample_malloc (bump_malloc_laws _)
              (fun m _ _ => Ok (m, NULL)) (Ptr 64 0) (Ptr 65 0) 4097 9 COM2_IRQ 7 (sample_world [104; 105])
              [] (Ptr 66 0) 8) as (w' & E & Hr).
  - unfold FIFO_SIZE. lia.
  - lia.
  - apply sample_dev_ok.
  - apply sample_slots.
  - reflexivity.
  - reflexivity.
  - discriminate.
  - lia.
  - apply empty_subseteq.
  - apply sample_user. lia.
  - vm_compute. discriminate.
  - discriminate.
  - exists w'. split; [exact E | exact (wr_data _ _ _ _ _ _ _ _ _ Hr)].
Defined.

Lemma uart16550_read_lost_wakeup_witness :
  uart16550_read (fun m _ _ => Ok (m, NULL)) (watched (waits_on COM2 [104; 105]) 2 (irq_at (Ptr 64 0) (Ptr 65 0) 4097 COM2_IRQ 1)) 1000
    COM2 (Ptr 66 0) 8 (sample_world [104; 105]) = Err OutOfFuel.
Proof.
  apply (uart16550_read_lost_wakeup two_chips COM2_BASEPORT snd com2_uart sample_malloc (bump_malloc_laws _)
           (fun m _ _ => Ok (m, NULL)) (Ptr 64 0) (Ptr 65 0) 4097 1000 COM2_IRQ (sample_world [104; 105])
           [] (Ptr 66 0) 8).
  - unfold FIFO_SIZE. lia.
  - apply sample_dev_ok.
  - apply sample_slots.
  - reflexivity.
  - discriminate.
  - lia.
  - vm_compute. discriminate.
Defined.

(** ** Writing *)

Definition port_of (c : com) : Z := match c with COM1 => COM1_BASEPORT | COM2 => COM2_BASEPORT end.

Section Writing.
Context {D : Type} {IO : PortIO D} {p : Z} {view : D -> chip} {U : Uart16550 IO p view}.
Context {A : Allocator} {L : AllocatorLaws A}.

(** Both interrupts on, the rest of the chip as it was. *)
Definition chip_armed (c : chip) : chip :=
  let '(Chip _ lcr mcr fcr dll dlm rx sent room) := c in Chip 3 lcr mcr fcr dll dlm rx sent room.

Lemma reemit_ok d :
  dlab (view d) = false ->
  exists d', uart16550_hw_force_interrupt_reemit d p = Ok d' /\ view d' = chip_armed (view d).
Proof.
  intros Hd. unfold uart16550_hw_force_interrupt_reemit, uart16550_hw_disable_interrupts, uart16550_hw_enable_interrupts.
  destruct (write_reg_ok (p := p) (view := view) d IER 0x00 ltac:(now unfold IER)) as (d1 & -> & V1). cbn [rbind].
  destruct (write_reg_ok (p := p) (view := view) d1 IER 0x03 ltac:(now unfold IER)) as (d2 & -> & V2).
  exists d2. split; [reflexivity |]. rewrite V2, V1. unfold dlab in Hd. destruct (view d).
  cbn -[Z.testbit] in *. unfold dlab. cbn -[Z.testbit]. rewrite Hd. cbn -[Z.testbit]. unfold dlab. cbn -[Z.testbit].
  now rewrite Hd.
Qed.

(** What a write of [bs] leaves: the first [n] bytes are queued. *)
Record was_written (w : world D) (c : com) (qin qout bs : list Z) (n : Z) (w' : world D) : Prop := {
  ww_dev : dev_ok (w_mem w') (the_dev w' c) p qin (qout ++ take (Z.to_nat n) bs);
  ww_same : same_device (the_dev w c) (the_dev w' c);
  ww_other : forall c', c' <> c -> the_dev w' c' = the_dev w c';
  ww_chip : view (w_hw w') = chip_armed (view (w_hw w));
  ww_mem : only_blocks [blk (k_data (outbuffer (the_dev w c)))] (w_mem w) (w_mem w')
}.

Lemma finish_write_ok (w : world D) c qin qout buffer size bs :
  let dev := the_dev w c in
  dev_ok (w_mem w) dev p qin qout -> p = port_of c -> 0 <= size -> loan (w_mem w) buffer size ->
  load (w_mem w) buffer size = Ok bs ->
  blk buffer <> blk (k_data (inbuffer dev)) -> blk buffer <> blk (k_data (outbuffer dev)) ->
  dlab (view (w_hw w)) = false ->
  let n := Z.min size (FIFO_SIZE - zlen qout) in
  exists w' f' m1, finish_write c buffer size w = Ok (w', n) /\
    the_dev w' c = set_output_lock (set_outbuffer dev f') (native_queued_spin_unlock (output_lock dev)) /\
    same_buffer (outbuffer dev) f' /\
    dev_ok (w_mem w') (the_dev w' c) p qin (qout ++ take (Z.to_nat n) bs) /\
    (forall c', c' <> c -> the_dev w' c' = the_dev w c') /\
    view (w_hw w') = chip_armed (view (w_hw w)) /\
    only_blocks [blk (k_data (outbuffer dev))] (w_mem w) m1 /\ w_mem w' = released (blk buffer) m1.
Proof.
  intros dev [Hin Hout Hci Hco Hap Hp] Hport Hsz Hln Hld Hbi Hbo Hdl n.
  pose proof (fifo_len _ _ _ _ Hout) as [Hu Hlen]. pose proof Hout as [Hwf Ht Hq He Hr].
  rewrite Hco in Hlen. pose proof (zlen_nonneg qout) as Hzq.
  assert (0 <= n <= size /\ n <= 4096) as [Hn Hn'] by (unfold FIFO_SIZE in *; subst n; lia).
  destruct (load_split _ _ _ _ n Hld Hn) as [Hl1 _].
  pose proof (in_ok (w_mem w) (outbuffer dev) buffer size (take (Z.to_nat n) bs) Hwf Hsz) as Hok. cbv zeta in Hok.
  rewrite He, Hu, Hco, Z.mul_1_r, Hq in Hok. fold n in Hok.
  destruct Hok as (m1 & E & Hw1 & Hc1 & Ho1); [now split |].
  unfold finish_write, kfifo_in. fold dev. cbn [out_type t_recsize truthy Z.eqb negb]. rewrite E. cbn [rbind].
  rewrite (kfree_loan _ buffer size) by (eapply loan_only_block; [exact Ho1 | congruence | exact Hln]). cbn [rbind].
  fold (port_of c). rewrite <- Hport. set (f1 := set_in _ _) in *.
  replace (w_hw (put_dev _ _ _)) with (w_hw w) by now destruct c.
  destruct (reemit_ok (w_hw w) Hdl) as (d' & -> & Vd). cbn [rbind]. rewrite s32_small by lia.
  eexists _, f1, m1. split; [reflexivity |].
  assert (same_buffer (outbuffer dev) f1) as Hsb by now repeat split.
  set (dev' := set_output_lock _ _).
  assert (forall m, dev_ok m dev' p qin (qout ++ take (Z.to_nat n) bs) <->
            fifo_ok (in_type dev) m (inbuffer dev) qin /\ fifo_ok (out_type dev) m f1 (qout ++ take (Z.to_nat n) bs)) as Hiff.
  { intros m. subst dev'. destruct Hsb as (Ha1 & _ & Ha3). destruct dev; cbn in *. split; [intros [X1 X2 _ _ _ _]; now split |].
    intros [X1 X2]. split; try assumption; cbn; unfold capacity in *; congruence. }
  split; [now destruct c |]. split; [exact Hsb |]. split.
  { replace (the_dev _ c) with dev' by now destruct c. apply Hiff.
    replace (w_mem _) with (released (blk buffer) m1) by now destruct c. split; apply fifo_released; try assumption.
    - eapply fifo_frame; [exact Hin | exact Ho1 | congruence].
    - split; try assumption. now apply (typed_same_buffer _ (outbuffer dev)). }
  split; [intros c' Hc'; now destruct c, c' |]. split; [now destruct c |]. split; [|now destruct c].
  apply (only_blocks_step _ _ _ _ _ Ho1); [set_solver | apply only_blocks_refl].
Qed.

Lemma not_full m dev qin qout :
  dev_ok m dev p qin qout -> negb (kfifo_is_full (outbuffer dev)) = (zlen qout <? FIFO_SIZE).
Proof.
  intros [_ Ho _ Hc _ _]. pose proof (fifo_len _ _ _ _ Ho) as [Hu Hl]. destruct Ho as [Hwf _ _ _ _].
  rewrite (full_iff _ _ Hwf), Hu, Hc. ztest; cbn; try reflexivity; lia.
Qed.

Lemma copy_from_user_ok m buffer user n bs :
  load m user n = Ok bs -> blk buffer <> blk user -> valid_at m buffer n ->
  copy_from_user (-1) m buffer user n = Ok (put_bytes m buffer bs, 0).
Proof.
  intros Hl Hne Hv. unfold copy_from_user, _copy_from_user. cbn [Z.ltb Z.compare orb].
  now rewrite (memcpy_put _ _ _ _ _ Hl).
Qed.

Lemma lock_output_free (w : world D) c :
  output_lock (the_dev w c) = 0 -> lock_output c w = (put_dev w c (set_output_lock (the_dev w c) 1), 1).
Proof. intros H. unfold lock_output. now rewrite H. Qed.

Lemma dev_ok_output_lock m dev qin qout l :
  dev_ok m dev p qin qout -> dev_ok m (set_output_lock dev l) p qin qout.
Proof. intros [H1 H2 H3 H4 H5 H6]. destruct dev. now split. Qed.
End Writing.

Lemma write_ready_ok {D} (IO : PortIO D) view (A : Allocator) (L : AllocatorLaws A) large fuel
    (w : world D) c (U : Uart16550 IO (port_of c) view) qin qout user size bs :
  let dev := the_dev w c in
  dev_ok (w_mem w) dev (port_of c) qin qout -> output_lock dev = 0 -> zlen qout < FIFO_SIZE ->
  0 <= size -> (0 < fuel)%nat -> dyn (w_mem w) ⊆ dom (blocks (w_mem w)) ->
  load (w_mem w) user size = Ok bs -> dlab (view (w_hw w)) = false ->
  (malloc (w_mem w) size = None -> uart16550_write large idle fuel c user size w = Ok (w, - ENOMEM)) /\
  (malloc (w_mem w) size <> None ->
   let n := Z.min size (FIFO_SIZE - zlen qout) in
   exists w', uart16550_write large idle fuel c user size w = Ok (w', n) /\
     was_written (p := port_of c) (view := view) w c qin qout bs n w').
Proof.
  intros dev Hdev Hlk Hroom Hsz Hf Hdom Hld Hdl. unfold uart16550_write. split; intros Hm.
  { rewrite (kmalloc_fails large _ _ Hm). cbn. do 2 f_equal. now destruct w. }
  cbv zeta. destruct (kmalloc_buffer large (w_mem w) size Hsz Hm) as (ma & buffer & -> & Hfr & Hnb).
  cbn [rbind]. rewrite Hnb. destruct (fresh_dev _ _ _ _ _ Hfr _ _ _ _ Hdev) as (Hdev' & Hbi & Hbo).
  pose proof (fresh_loan _ _ _ _ _ Hfr) as Hln. pose proof (load_length _ _ _ _ Hld) as Hlen.
  assert (load ma user size = Ok bs /\ blk user <> blk buffer) as [Hld' Hub].
  { apply load_inv in Hld as (B & HB & Hb & ->). destruct (fresh_apart _ _ _ _ _ Hfr user size) as [Hne _]; [exists B; auto |].
    split; [|exact Hne]. apply load_ok; [now rewrite (fresh_other _ _ _ _ _ Hfr) | exact Hb]. }
  rewrite (copy_from_user_ok _ _ _ _ _ Hld') by (congruence || apply Hln). cbn [rbind Z.eqb negb].
  set (m1 := put_bytes ma buffer bs). pose proof (put_bytes_only ma buffer bs) as Ho1. fold m1 in Ho1.
  assert (valid_at ma buffer (zlen bs)) as Hvb by (unfold zlen; rewrite Hlen, Z2Nat.id by lia; apply Hln).
  assert (loan m1 buffer size) as Hln1.
  { destruct Hln as [H1 H2 H3 H4]. split; try assumption; [now rewrite (proj1 Ho1) | now apply valid_put]. }
  assert (dev_ok m1 dev (port_of c) qin qout) as Hdev1.
  { destruct Hdev' as [H1 H2 H3 H4 H5 H6]. split; try assumption; eapply fifo_frame; eassumption. }
  assert (the_dev (put_mem w m1) c = dev) as Ed by now destruct c.
  destruct fuel as [|fuel]; [lia |].
  erewrite (wait_and_lock_ok idle fuel _ _ _ _ 0 (put_mem w m1) 1 (put_mem w m1)); cycle 1.
  - cbn. rewrite Ed, (not_full _ _ _ _ Hdev1), (proj2 (Z.ltb_lt _ _) Hroom). reflexivity.
  - reflexivity.
  - apply lock_output_free. now rewrite Ed.
  - cbn [rbind]. set (wl := put_dev _ c _).
    assert (w_mem wl = m1 /\ w_hw wl = w_hw w /\ the_dev wl c = set_output_lock dev 1 /\
            forall c', c' <> c -> the_dev wl c' = the_dev w c') as (Em & Eh & El & Eo).
    { subst wl. rewrite Ed. now destruct c; repeat split; intros []. }
    destruct (finish_write_ok (p := port_of c) (view := view) wl c qin qout buffer size bs)
      as (w' & f' & m2 & -> & Ew & Hsb & Hd2 & Ho & Hv & Hm2 & Er); rewrite ?Em, ?Eh, ?El; try assumption; try reflexivity.
    + now apply dev_ok_output_lock.
    + now apply load_put_bytes; [apply Hln |].
    + now destruct dev.
    + now destruct dev.
    + assert (outbuffer (the_dev wl c) = outbuffer dev /\ output_lock (the_dev wl c) = 1) as [Eb Elk]
        by (rewrite El; now destruct dev). rewrite Eb in Hm2, Hsb. rewrite Em in Hm2.
      exists w'. split; [reflexivity |]. split.
      * exact Hd2.
      * rewrite Ew, Elk, El. fold dev. clearbody dev. destruct dev; cbn in *. subst output_lock0. now repeat split; try apply Hsb.
      * intros c' Hc'. rewrite Ho, Eo by assumption. reflexivity.
      * now rewrite Hv, Eh.
      * change ([blk (k_data (outbuffer (the_dev w c)))]) with ([] ++ [blk (k_data (outbuffer dev))]).
        apply (fresh_released _ _ _ _ _ Hfr Hdom _ [] m2); [| rewrite Er; apply only_blocks_refl | apply not_elem_of_nil].
        refine (only_blocks_step _ _ _ _ _ Ho1 _ (only_blocks_mono _ _ _ _ Hm2 _)); set_solver.
Qed.

(** C11: writing.  When the allocator has no memory, [uart16550_write] returns
    -ENOMEM and changes nothing.  Otherwise, with room in the output queue and
    the lock free, it returns the number of bytes given or fitting, whichever is
    less; exactly these bytes of the caller's buffer are appended to the queue
    in order, both interrupts of the device's own chip are armed, the lock is
    free again, the temporary buffer is given back, and no other memory, device
    or register changed. *)
Theorem uart16550_write_spec {D} (IO : PortIO D) view (A : Allocator) (L : AllocatorLaws A) large fuel
    (w : world D) c (U : Uart16550 IO (port_of c) view) qin qout user size bs :
  let dev := the_dev w c in
  dev_ok (w_mem w) dev (port_of c) qin qout -> output_lock dev = 0 -> zlen qout < FIFO_SIZE ->
  0 <= size -> (0 < fuel)%nat -> dyn (w_mem w) ⊆ dom (blocks (w_mem w)) ->
  load (w_mem w) user size = Ok bs -> dlab (view (w_hw w)) = false ->
  (malloc (w_mem w) size = None -> uart16550_write large idle fuel c user size w = Ok (w, - ENOMEM)) /\
  (malloc (w_mem w) size <> None ->
   let n := Z.min size (FIFO_SIZE - zlen qout) in
   exists w', uart16550_write large idle fuel c user size w = Ok (w', n) /\
     was_written (p := port_of c) (view := view) w c qin qout bs n w').
Proof. intros dev. now apply write_ready_ok. Qed.

Lemma sample_write_hyps rx bs :
  length bs = 3%nat ->
  let w := sample_world rx in
  let w := put_mem w (put_bytes (w_mem w) (Ptr 66 0) bs) in
  dev_ok (w_mem w) (com2_dev w) COM2_BASEPORT [] [] /\ load (w_mem w) (Ptr 66 0) 3 = Ok bs.
Proof.
  intros Hl w w'. destruct (sample_dev_ok rx) as [H1 H2 H3 H4 H5 H6]. split.
  - split; try assumption; (eapply fifo_frame; [eassumption | apply put_bytes_only | discriminate]).
  - apply load_put_bytes; [eexists; split; reflexivity | exact Hl].
Qed.

Lemma uart16550_write_spec_witness :
  let w := sample_world [] in
  let w := put_mem w (put_bytes (w_mem w) (Ptr 66 0) [7; 8; 9]) in
  exists w', uart16550_write (fun m _ _ => Ok (m, NULL)) idle 1 COM2 (Ptr 66 0) 3 w = Ok (w', 3) /\
    contents (w_mem w') (outbuffer (com2_dev w')) = [7; 8; 9].
Proof.
  intros w0 w. destruct (sample_write_hyps [] [7; 8; 9] eq_refl) as [Hdev Hld].
  destruct (uart16550_write_spec two_chips snd sample_malloc (bump_malloc_laws _) (fun m _ _ => Ok (m, NULL)) 1
              w COM2 com2_uart [] [] (Ptr 66 0) 3 [7; 8; 9]) as [_ H].
  - exact Hdev.
  - reflexivity.
  - reflexivity.
  - lia.
  - lia.
  - apply empty_subseteq.
  - exact Hld.
  - reflexivity.
  - destruct H as (w' & E & Hr); [vm_compute; discriminate |].
    exists w'. split; [exact E |]. exact (fo_queue _ _ _ _ (dv_out _ _ _ _ _ (ww_dev _ _ _ _ _ _ _ Hr))).
Defined.

End Uart.
