(* ===== verification/SerialLine.v ===== *)
(** * The serial line a driver promises

    The contract of a device of src/apps/module-loader/src/uart16550.c as its
    clients see it: two queues and the chip.  [spec_step] says what one call,
    one interrupt or one move of the hardware may do to them; the driver is
    shown to simulate it over any sequence of events, and every byte that comes
    in or is written is accounted for over the sequence. *)

From S2P Require Import Prelude Bytes Log2 Memory Kfifo KfifoApi Locking UartHw Uart.
Import Bytes Log2 Memory Kfifo KfifoApi UartHw Uart.
Import Spinlock Wait.

(** ** The contract *)

Record line := Line { l_chip : chip; l_in : list Z; l_out : list Z }.

(** What happens to a device, in the order it happens; [EHw] is the wire: bytes
    come in and the transmitter empties. *)
Inductive event (D : Type) :=
| EIrq
| ERead (size : Z)
| EWrite (bs : list Z)
| EHw (d : D) (arrived : list Z).
Arguments EIrq {D}.
Arguments ERead {D}.
Arguments EWrite {D}.
Arguments EHw {D}.

Module SerialLine.

Definition arrive (c : chip) (bs : list Z) (room : nat) : chip :=
  let '(Chip ier lcr mcr fcr dll dlm rx sent _) := c in
  Chip ier lcr mcr fcr dll dlm (rx ++ bs) sent room.

Section Contract.
Context {D : Type} (view : D -> chip).

(** The return value [r], the bytes [out] the caller got, and the line after. *)
Definition spec_step (l : line) (e : event D) (r : Z) (out : list Z) (l' : line) : Prop :=
  let '(Line c qin qout) := l in
  match e with
  | EIrq =>
      let free := Z.to_nat (FIFO_SIZE - zlen qin) in
      r = IRQ_HANDLED /\ out = [] /\
      l' = Line (chip_taken (chip_sent c (u8 <$> take (c_room c) qout)) (S free))
             (qin ++ (u8 <$> take free (c_rx c))) (drop (c_room c) qout)
  | ERead size =>
      (r = - ENOMEM /\ out = [] /\ l' = l) \/
      (r = Z.min size (zlen qin) /\ out = take (Z.to_nat r) qin /\
       l' = Line c (drop (Z.to_nat r) qin) qout)
  | EWrite bs =>
      (r = - ENOMEM /\ out = [] /\ l' = l) \/
      (r = Z.min (zlen bs) (FIFO_SIZE - zlen qout) /\ out = [] /\
       l' = Line (chip_armed c) qin (qout ++ take (Z.to_nat r) bs))
  | EHw d bs => r = 0 /\ out = [] /\ l' = Line (view d) qin qout
  end.

(** When a call does not block: there is input to read, or room to write; the
    caller's buffer has [usize] bytes. *)
Definition enabled (usize : Z) (l : line) (e : event D) : Prop :=
  match e with
  | EIrq => True
  | ERead size => l_in l <> [] /\ 0 <= size <= usize
  | EWrite bs => zlen (l_out l) < FIFO_SIZE /\ zlen bs <= usize
  | EHw d bs => exists room, view d = arrive (l_chip l) bs room
  end.

(** Every event is enabled when its turn comes, whatever the earlier ones
    returned. *)
Fixpoint admissible (usize : Z) (l : line) (es : list (event D)) : Prop :=
  match es with
  | [] => True
  | e :: es => enabled usize l e /\
      forall r out l', spec_step l e r out l' -> admissible usize l' es
  end.

Inductive spec_run : line -> list (event D) -> list (Z * list Z) -> line -> Prop :=
| spec_nil l : spec_run l [] [] l
| spec_cons l e r out l1 es obs l2 :
    spec_step l e r out l1 -> spec_run l1 es obs l2 ->
    spec_run l (e :: es) ((r, out) :: obs) l2.
End Contract.

(** ** The driver *)

Section Driver.
Context {D : Type} {IO : PortIO D} {A : Allocator}.
Variable large : mem -> Z -> Z -> res (mem * ptr).
Variables (byte_value __val user : ptr) (c : com).

Definition irq_of (c : com) : Z := match c with COM1 => COM1_IRQ | COM2 => COM2_IRQ end.

(** One event on the driver; a writer first fills its buffer, a reader then
    looks at what it got.  The calls run without further interrupts, and the
    handler has fuel for a full buffer. *)
Definition exec (w : world D) (e : event D) : res (world D * (Z * list Z)) :=
  match e with
  | EIrq =>
      let! (w, r) := interrupt_handler byte_value __val 4097 w (irq_of c) in
      Ok (w, (r, []))
  | ERead size =>
      let! (w, r) := uart16550_read large idle 1 c user size w in
      if r <? 0 then Ok (w, (r, []))
      else
        let! bs := load (w_mem w) user r in
        Ok (w, (r, bs))
  | EWrite bs =>
      let! m := store (w_mem w) user bs in
      let! (w, r) := uart16550_write large idle 1 c user (zlen bs) (put_mem w m) in
      Ok (w, (r, []))
  | EHw d _ => Ok (put_hw w d, (0, []))
  end.

Fixpoint run (w : world D) (es : list (event D)) : res (world D * list (Z * list Z)) :=
  match es with
  | [] => Ok (w, [])
  | e :: es =>
      let! (w, o) := exec w e in
      let! (w, obs) := run w es in
      Ok (w, o :: obs)
  end.
End Driver.

(** ** Simulation *)

Section Simulation.
Context {D : Type} {IO : PortIO D} {A : Allocator} {L : AllocatorLaws A}.
Context (large : mem -> Z -> Z -> res (mem * ptr)) (byte_value __val user : ptr) (c : com) (usize : Z).
Context {view : D -> chip} {U : Uart16550 IO (port_of c) view}.

(** Device [c] of [w] stands for the line [l]. *)
Record sim (w : world D) (l : line) : Prop := {
  sm_dev : dev_ok (w_mem w) (the_dev w c) (port_of c) (l_in l) (l_out l);
  sm_chip : view (w_hw w) = l_chip l;
  sm_dlab : dlab (l_chip l) = false;
  sm_locks : input_lock (the_dev w c) = 0 /\ output_lock (the_dev w c) = 0;
  sm_slots : slots_ok (w_mem w) (the_dev w c) byte_value __val;
  sm_user : user_ok (w_mem w) (the_dev w c) user usize [blk byte_value; blk __val];
  sm_dom : dyn (w_mem w) ⊆ dom (blocks (w_mem w))
}.

Lemma valid_blocks X m m' q n : only_blocks X m m' -> blk q ∉ X -> valid_at m q n -> valid_at m' q n.
Proof. intros [_ H] Hq (B & HB & Hb). exists B. now rewrite H. Qed.

Lemma dom_blocks X m m' :
  only_blocks X m m' -> (forall b, b ∈ X -> is_Some (blocks m' !! b)) ->
  dyn m ⊆ dom (blocks m) -> dyn m' ⊆ dom (blocks m').
Proof.
  intros [Hd Hb] HX Hs b Hin. rewrite Hd in Hin. apply Hs in Hin. apply elem_of_dom in Hin. apply elem_of_dom.
  destruct (decide (b ∈ X)) as [Hx|Hx]; [now apply HX | now rewrite Hb].
Qed.

Lemma valid_exists m q n : valid_at m q n -> is_Some (blocks m !! blk q).
Proof. intros (B & HB & _). eauto. Qed.

Lemma fifo_exists t m f q : fifo_ok t m f q -> is_Some (blocks m !! blk (k_data f)).
Proof. intros [Hwf _ _ _ _]. destruct (wf_data _ _ Hwf) as (B & HB & _). eauto. Qed.

(** The locals and the caller's buffer move with the device. *)
Lemma slots_move m m' dev dev' X :
  slots_ok m dev byte_value __val -> same_device dev dev' -> only_blocks X m m' ->
  blk byte_value ∉ X -> blk __val ∉ X -> slots_ok m' dev' byte_value __val.
Proof.
  intros [H1 H2 H3 H4 H5] Hsd Ho Hb Hv. destruct (same_device_data _ _ Hsd) as [Ei Eo].
  split; rewrite ?Ei, ?Eo; try assumption; eapply valid_blocks; eassumption.
Qed.

Lemma user_move m m' dev dev' Y :
  user_ok m dev user usize Y -> same_device dev dev' -> valid_at m' user usize -> user_ok m' dev' user usize Y.
Proof.
  intros [H1 H2 H3 H4] Hsd Hv. destruct (same_device_data _ _ Hsd) as [Ei Eo].
  split; rewrite ?Ei, ?Eo; assumption.
Qed.

Lemma irq_com_of : irq_com (irq_of c) = c.
Proof. now destruct c. Qed.

Lemma sim_irq w l :
  sim w l -> exists w' r out l', exec large byte_value __val user c w EIrq = Ok (w', (r, out)) /\
    spec_step view l EIrq r out l' /\ sim w' l'.
Proof.
  destruct l as [ch qin qout]. intros [Hdev Hch Hdl [Hil Hol] Hsl Hus Hdom]. cbn [l_chip l_in l_out] in *.
  pose proof (handler_ok (p := port_of c) (view := view) byte_value __val 4097 w (irq_of c) qin qout) as Hh.
  rewrite irq_com_of in Hh. destruct Hh as (w' & E & [H1 H2 H3 _ _ H4] & H5);
    [unfold FIFO_SIZE; lia | assumption | assumption | congruence |].
  cbn [exec]. rewrite E. cbn [rbind]. rewrite Hch in H1, H2.
  eexists w', IRQ_HANDLED, [], _. split; [reflexivity |]. split; [repeat split |].
  pose proof Hus as [Hu1 Hu2 Hu3 Hu4]. assert (dlab (view (w_hw w')) = dlab ch) as Ed by (rewrite H2; now destruct ch).
  split; cbn [l_chip l_in l_out].
  - exact H1.
  - exact H2.
  - rewrite <- H2. congruence.
  - destruct H3 as (_ & _ & _ & _ & -> & -> & _). auto.
  - exact H5.
  - eapply user_move; [exact Hus | exact H3 |]. eapply valid_blocks; [exact H4 | | exact Hu1]. set_solver.
  - apply (dom_blocks _ _ _ H4); [|exact Hdom]. intros b Hb. destruct H5 as [Hs1 Hs2 _ _ _].
    apply elem_of_cons in Hb as [->|Hb]; [eauto using valid_exists |].
    apply elem_of_cons in Hb as [->|Hb]; [eauto using valid_exists |].
    apply elem_of_cons in Hb as [->|Hb]; [|now apply not_elem_of_nil in Hb]. destruct (same_device_data _ _ H3) as [<- _].
    exact (fifo_exists _ _ _ _ (dv_in _ _ _ _ _ H1)).
Qed.

Lemma sim_read w l size :
  sim w l -> enabled view usize l (ERead size) ->
  exists w' r out l', exec large byte_value __val user c w (ERead size) = Ok (w', (r, out)) /\
    spec_step view l (ERead size) r out l' /\ sim w' l'.
Proof.
  destruct l as [ch qin qout]. intros Hsim [Hne Hsz]. pose proof Hsim as [Hdev Hch Hdl [Hil Hol] Hsl Hus Hdom].
  cbn [l_chip l_in l_out] in *. pose proof Hus as [Hu1 Hu2 Hu3 Hu4].
  destruct (valid_split _ _ _ size Hu1 Hsz) as [Hu1' _]. cbn [exec].
  destruct (read_ready_ok IO A L large 1 w c (port_of c) qin qout user size) as [Hno Hyes]; try assumption; try lia.
  { split; try assumption. apply not_elem_of_nil. }
  destruct (malloc (w_mem w) size) as [x|] eqn:Em.
  2: { rewrite (Hno eq_refl). cbn [rbind Z.ltb Z.compare Z.opp ENOMEM].
       eexists _, _, _, _. split; [reflexivity |]. split; [left; auto | exact Hsim]. }
  destruct Hyes as (w' & -> & [H1 H2 H3 H4 H5 H6] & H7); [discriminate |]. cbn [rbind].
  assert (0 <= Z.min size (zlen qin)) by (pose proof (zlen_nonneg qin); lia).
  rewrite (proj2 (Z.ltb_ge _ _)), H2 by assumption. cbn [rbind]. specialize (H3 Hil).
  eexists _, _, _, _. split; [reflexivity |]. split; [right; repeat split |].
  split; cbn [l_chip l_in l_out]; try assumption.
  - congruence.
  - destruct H3 as (_ & _ & _ & _ & -> & -> & _). auto.
  - eapply slots_move; [exact Hsl | exact H3 | exact H6 | |]; set_solver.
  - eapply user_move; [exact Hus | exact H3 | now apply H5].
  - apply (dom_blocks _ _ _ H6); [|exact Hdom]. intros b Hb.
    apply elem_of_cons in Hb as [->|Hb]; [|now apply not_elem_of_nil in Hb]. eauto using valid_exists.
Qed.

Lemma sim_write w l bs :
  sim w l -> enabled view usize l (EWrite bs) ->
  exists w' r out l', exec large byte_value __val user c w (EWrite bs) = Ok (w', (r, out)) /\
    spec_step view l (EWrite bs) r out l' /\ sim w' l'.
Proof.
  destruct l as [ch qin qout]. intros [Hdev Hch Hdl [Hil Hol] Hsl Hus Hdom] [Hroom Hsz].
  cbn [l_chip l_in l_out] in *. pose proof Hus as [Hu1 Hu2 Hu3 Hu4]. pose proof (zlen_nonneg bs) as Hz.
  destruct (valid_split _ _ _ (zlen bs) Hu1 (conj Hz Hsz)) as [Hu1' _]. cbn [exec].
  rewrite store_put by assumption. cbn [rbind]. set (m1 := put_bytes (w_mem w) user bs).
  assert (only_block (blk user) (w_mem w) m1) as Ho1 by apply put_bytes_only.
  assert (only_blocks [blk user] (w_mem w) m1) as Ho1'.
  { apply (only_blocks_step _ _ _ _ _ Ho1); [set_solver | apply only_blocks_refl]. }
  assert (the_dev (put_mem w m1) c = the_dev w c) as Ed by now destruct c.
  assert (sim (put_mem w m1) (Line ch qin qout)) as Hsim.
  { split; rewrite ?Ed; cbn [l_chip l_in l_out]; try assumption; [|auto | | |].
    - destruct Hdev as [A1 A2 A3 A4 A5 A6]. split; try assumption; eapply fifo_frame; eauto.
    - eapply slots_move; [exact Hsl | apply same_device_refl | exact Ho1' | |]; set_solver.
    - split; try assumption. now apply valid_put.
    - apply (dom_blocks _ _ _ Ho1'); [|exact Hdom]. intros b Hb.
      apply elem_of_cons in Hb as [->|Hb]; [|now apply not_elem_of_nil in Hb].
      apply (valid_exists _ _ usize). now apply valid_put. }
  pose proof Hsim as [Sdev Sch _ _ Ssl Sus Sdom]. rewrite Ed in Sdev, Ssl, Sus.
  cbn [l_chip l_in l_out w_mem put_mem] in Sdev, Ssl, Sus, Sdom.
  destruct (write_ready_ok IO view A L large 1 (put_mem w m1) c U qin qout user (zlen bs) bs) as [Hno Hyes];
    rewrite ?Ed; cbn [w_mem w_hw put_mem]; try assumption; try lia.
  { apply load_put_bytes; [exact Hu1' | unfold zlen; lia]. }
  { congruence. }
  destruct (malloc m1 (zlen bs)) as [x|] eqn:Em.
  2: { rewrite (Hno Em). cbn [rbind]. eexists _, _, _, _. split; [reflexivity |]. split; [left; auto | exact Hsim]. }
  destruct Hyes as (w' & -> & [H1 H2 H3 H4 H5]); [cbn; congruence |]. cbn [rbind].
  rewrite Ed in H2, H5. cbn [w_mem w_hw put_mem] in H4, H5. rewrite Hch in H4.
  eexists _, _, _, _. split; [reflexivity |]. split; [right; repeat split |].
  pose proof Sus as [Su1 _ _ _]. destruct Hsl as [_ _ _ _ [Hs1 Hs2]].
  split; cbn [l_chip l_in l_out]; try assumption.
  - now destruct ch.
  - destruct H2 as (_ & _ & _ & _ & -> & -> & _). auto.
  - eapply slots_move; [exact Ssl | exact H2 | exact H5 | |]; set_solver.
  - eapply user_move; [exact Sus | exact H2 |]. eapply valid_blocks; [exact H5 | set_solver | exact Su1].
  - apply (dom_blocks _ _ _ H5); [|exact Sdom]. intros b Hb.
    apply elem_of_cons in Hb as [->|Hb]; [|now apply not_elem_of_nil in Hb].
    destruct (same_device_data _ _ H2) as [_ <-]. exact (fifo_exists _ _ _ _ (dv_out _ _ _ _ _ H1)).
Qed.

Lemma sim_step w l e :
  sim w l -> enabled view usize l e ->
  exists w' r out l', exec large byte_value __val user c w e = Ok (w', (r, out)) /\
    spec_step view l e r out l' /\ sim w' l'.
Proof.
  intros Hsim Hen. destruct e as [|size|bs|d bs].
  - now apply sim_irq.
  - now apply sim_read.
  - now apply sim_write.
  - destruct l as [ch qin qout], Hsim as [H1 H2 H3 H4 H5 H6 H7], Hen as [room Hr]. cbn [l_chip l_in l_out] in *.
    assert (the_dev (put_hw w d) c = the_dev w c) as Ed by now destruct c.
    eexists _, _, _, _. split; [reflexivity |]. split; [repeat split |].
    split; rewrite ?Ed; cbn [l_chip l_in l_out]; try assumption; [reflexivity |]. rewrite Hr. now destruct ch.
Qed.
End Simulation.

(** A run of the driver is a run of the contract. *)
Lemma run_sim {D} (IO : PortIO D) (A : Allocator) (L : AllocatorLaws A) large
    byte_value __val user c usize view (U : Uart16550 IO (port_of c) view) (w : world D) l es :
  sim byte_value __val user c usize (view := view) w l -> admissible view usize l es ->
  exists w' obs l', run large byte_value __val user c w es = Ok (w', obs) /\
    spec_run view l es obs l' /\ sim byte_value __val user c usize (view := view) w' l'.
Proof.
  revert w l. induction es as [|e es IH]; intros w l Hsim Had.
  { exists w, [], l. split; [reflexivity | split; [constructor | exact Hsim]]. }
  destruct Had as [Hen Had].
  destruct (sim_step large byte_value __val user c usize w l e Hsim Hen) as (w1 & r & out & l1 & E & Hs & Hsim1).
  destruct (IH w1 l1 Hsim1 (Had _ _ _ Hs)) as (w2 & obs & l2 & E2 & Hr & Hsim2).
  exists w2, ((r, out) :: obs), l2. cbn [run]. rewrite E. cbn [rbind]. rewrite E2.
  split; [reflexivity | split; [econstructor; eassumption | exact Hsim2]].
Qed.

(** C2: the driver implements the line.  For any sequence of interrupts, reads,
    writes and hardware activity in which no call would block, the driver runs
    to the end without undefined behaviour, its return values and the bytes
    readers find in their buffers are ones the two-queue contract allows for
    the same sequence, and its state again stands for the line the contract
    ends in. *)
Theorem driver_refines_line {D} (IO : PortIO D) (A : Allocator) (L : AllocatorLaws A) large
    byte_value __val user c usize view (U : Uart16550 IO (port_of c) view) (w : world D) l es :
  sim byte_value __val user c usize (view := view) w l -> admissible view usize l es ->
  exists w' obs l', run large byte_value __val user c w es = Ok (w', obs) /\
    spec_run view l es obs l' /\ sim byte_value __val user c usize (view := view) w' l'.
Proof. exact (run_sim IO A L large byte_value __val user c usize view U w l es). Qed.

Lemma sample_sim :
  sim (Ptr 64 0) (Ptr 65 0) (Ptr 66 0) COM2 8 (view := snd) (sample_world []) (Line (ready []) [] []).
Proof.
  split; cbn [l_chip l_in l_out]; try reflexivity.
  - apply sample_dev_ok.
  - now split.
  - apply sample_slots.
  - destruct (sample_user [] 8 ltac:(lia)) as [H1 H2 H3 H4]. split; try assumption.
    clear. cbn [blk]. set_solver.
  - apply empty_subseteq.
Qed.

(** Two bytes come in, one is read, two are written, an interrupt sends them. *)
Definition sample_events : list (event (chip * chip)) :=
  [EHw (ready [], ready [104; 105]) [104; 105]; EIrq; ERead 1; EWrite [7; 8]; EIrq].

Lemma sample_admissible : admissible snd 8 (Line (ready []) [] []) sample_events.
Proof.
  split; [exists 16%nat; reflexivity |]. intros r out l1 (-> & -> & ->).
  split; [exact I |]. intros r out l1 (-> & -> & ->).
  change (Z.to_nat (FIFO_SIZE - zlen [])) with 4096%nat.
  split; [split; [discriminate | lia] |].
  intros r out l1 H. split.
  - destruct H as [(-> & -> & ->) | (-> & -> & ->)]; (split; vm_compute; (reflexivity || discriminate)).
  - intros r2 out2 l2 _. split; [exact I |]. intros r3 out3 l3 _. exact I.
Qed.

Lemma driver_refines_line_witness :
  exists w' obs l', run (fun m _ _ => Ok (m, NULL)) (A := bump_malloc 65536) (Ptr 64 0) (Ptr 65 0) (Ptr 66 0) COM2
      (sample_world []) sample_events = Ok (w', obs) /\
    spec_run snd (Line (ready []) [] []) sample_events obs l'.
Proof.
  destruct (driver_refines_line two_chips (bump_malloc 65536) (bump_malloc_laws _) (fun m _ _ => Ok (m, NULL))
              (Ptr 64 0) (Ptr 65 0) (Ptr 66 0) COM2 8 snd com2_uart (sample_world []) (Line (ready []) [] [])
              sample_events) as (w' & obs & l' & E & Hr & _).
  - apply sample_sim.
  - apply sample_admissible.
  - exists w', obs, l'. split; [exact E | exact Hr].
Defined.

(** ** What the contract guarantees *)

Section Order.
Context {D : Type} (view : D -> chip) (usize : Z).

(** The bytes writers were told were taken, the bytes readers got, and the
    bytes that came in over the wire. *)
Definition accepted (e : event D) (r : Z) : list Z :=
  match e with EWrite bs => if r <? 0 then [] else take (Z.to_nat r) bs | _ => [] end.
Definition incoming (e : event D) : list Z := match e with EHw _ bs => bs | _ => [] end.

Fixpoint written (es : list (event D)) (obs : list (Z * list Z)) : list Z :=
  match es, obs with
  | e :: es, (r, _) :: obs => accepted e r ++ written es obs
  | _, _ => []
  end.
Definition delivered (obs : list (Z * list Z)) : list Z := concat (snd <$> obs).
Definition arrived (es : list (event D)) : list Z := concat (incoming <$> es).

Lemma step_output l e r out l' :
  spec_step view l e r out l' -> enabled view usize l e ->
  c_sent (l_chip l') ++ (u8 <$> l_out l') = c_sent (l_chip l) ++ (u8 <$> (l_out l ++ accepted e r)).
Proof.
  destruct l as [c qin qout]. intros Hs He. destruct e as [|size|bs|d bs]; cbn [spec_step l_chip l_in l_out accepted enabled] in *.
  - destruct Hs as (-> & -> & ->). cbn [l_chip l_out]. destruct c as [ier lcr mcr fcr dll dlm rx sent room].
    cbn [chip_sent chip_taken c_sent c_room]. rewrite app_nil_r, <- app_assoc, <- fmap_app, take_drop. reflexivity.
  - rewrite app_nil_r. destruct Hs as [(-> & -> & ->) | (-> & -> & ->)]; reflexivity.
  - destruct Hs as [(-> & -> & ->) | (-> & -> & ->)]; cbn [l_chip l_out].
    + cbn. now rewrite app_nil_r.
    + rewrite (proj2 (Z.ltb_ge _ _)) by (pose proof (zlen_nonneg bs); unfold FIFO_SIZE in *; lia). now destruct c.
  - destruct Hs as (-> & -> & ->), He as [room ->]. cbn [l_chip l_out]. rewrite app_nil_r. now destruct c.
Qed.

(** The bytes of one event, in the order they were received: those that were
    stored, then those that were lost.  Only an interrupt that leaves the queue
    full loses one. *)
Lemma step_input l e r out l' :
  spec_step view l e r out l' -> enabled view usize l e -> zlen (l_in l) <= FIFO_SIZE ->
  exists f : list Z * list Z,
    u8 <$> (c_rx (l_chip l) ++ incoming e) = (f.1 ++ f.2) ++ (u8 <$> c_rx (l_chip l')) /\
    l_in l ++ f.1 = out ++ l_in l' /\
    (f.2 <> [] -> e = EIrq /\ length f.2 = 1%nat /\ zlen (l_in l') = FIFO_SIZE).
Proof.
  destruct l as [c qin qout]. intros Hs He Hfit. destruct e as [|size|bs|d bs]; cbn [spec_step l_chip l_in l_out incoming enabled] in *.
  - destruct Hs as (-> & -> & ->). cbn [l_chip l_in app]. set (n := Z.to_nat _).
    replace (c_rx (chip_taken _ _)) with (drop (S n) (c_rx c)) by now destruct c.
    exists (u8 <$> take n (c_rx c), u8 <$> take 1 (drop n (c_rx c))). cbn [fst snd].
    rewrite app_nil_r, <- !fmap_app. split; [|split; [reflexivity |]].
    + f_equal. rewrite <- app_assoc. replace (S n) with (n + 1)%nat by lia.
      now rewrite <- drop_drop, !take_drop.
    + destruct (drop n (c_rx c)) as [|x rest] eqn:E; [cbn; congruence |]. intros _.
      split; [reflexivity | split; [reflexivity |]]. apply (f_equal length) in E. rewrite length_drop in E. cbn in E.
      unfold zlen in *. rewrite length_app, length_fmap, length_take. lia.
  - exists ([], []). cbn. rewrite !app_nil_r. split; [|split; [|congruence]].
    + destruct Hs as [(-> & -> & ->) | (-> & -> & ->)]; reflexivity.
    + destruct Hs as [(-> & -> & ->) | (-> & -> & ->)]; cbn [l_in app]; [reflexivity | now rewrite take_drop].
  - exists ([], []). cbn. rewrite !app_nil_r. split; [|split; [|congruence]].
    + destruct Hs as [(-> & -> & ->) | (-> & -> & ->)]; [reflexivity | now destruct c].
    + destruct Hs as [(-> & -> & ->) | (-> & -> & ->)]; reflexivity.
  - exists ([], []). destruct Hs as (-> & -> & ->), He as [room ->]. cbn. rewrite app_nil_r.
    split; [now destruct c | split; [reflexivity | congruence]].
Qed.
End Order.

(** ** Every byte accounted for *)

Section Account.
Context {D : Type} {IO : PortIO D} {A : Allocator} {L : AllocatorLaws A}.
Context (large : mem -> Z -> Z -> res (mem * ptr)) (byte_value __val user : ptr) (c : com) (usize : Z).
Context {view : D -> chip} {U : Uart16550 IO (port_of c) view}.

Lemma sim_fits (w : world D) l :
  sim byte_value __val user c usize (view := view) w l ->
  zlen (l_in l) <= FIFO_SIZE /\ (zlen (l_in l) = FIFO_SIZE -> kfifo_is_full (inbuffer (the_dev w c)) = true).
Proof.
  intros Hs. destruct (sm_dev _ _ _ _ _ _ _ Hs) as [Hi _ Hcap _ _ _]. pose proof (fifo_len _ _ _ _ Hi) as [Hu Hl].
  rewrite Hcap in Hl. split; [exact Hl |]. intros E. rewrite (full_iff _ _ (fo_wf _ _ _ _ Hi)), Hu, Hcap, E. reflexivity.
Qed.

(** What became of the bytes the interrupts took from the chip, event by event:
    the stored ones and the lost ones. *)
Record accounted (w : world D) (l : line) (es : list (event D)) (w' : world D) (obs : list (Z * list Z)) (l' : line)
    (fs : list (list Z * list Z)) : Prop := {
  ac_output : c_sent (view (w_hw w')) ++ (u8 <$> l_out l') =
    c_sent (view (w_hw w)) ++ (u8 <$> (l_out l ++ written es obs));
  ac_events : length fs = length es;
  ac_received : u8 <$> (c_rx (view (w_hw w)) ++ arrived es) =
    concat ((fun f => f.1 ++ f.2) <$> fs) ++ (u8 <$> c_rx (view (w_hw w')));
  ac_stored : l_in l ++ concat (fst <$> fs) = delivered obs ++ l_in l';
  ac_lost : forall i f, fs !! i = Some f -> f.2 <> [] ->
    es !! i = Some EIrq /\ length f.2 = 1%nat /\
    exists w1 obs1, run large byte_value __val user c w (take (S i) es) = Ok (w1, obs1) /\
      kfifo_is_full (inbuffer (the_dev w1 c)) = true
}.

Lemma run_accounted es : forall (w : world D) l,
  sim byte_value __val user c usize (view := view) w l -> admissible view usize l es ->
  exists w' obs l' fs, run large byte_value __val user c w es = Ok (w', obs) /\
    sim byte_value __val user c usize (view := view) w' l' /\ accounted w l es w' obs l' fs.
Proof.
  induction es as [|e es IH]; intros w l Hsim Had.
  { exists w, [], l, []. split; [reflexivity | split; [exact Hsim |]].
    split; cbn; rewrite ?app_nil_r; try reflexivity. intros i f Hf. discriminate Hf. }
  destruct Had as [Hen Had].
  destruct (sim_step large byte_value __val user c usize w l e Hsim Hen) as (w1 & r & out & l1 & E & Hs & Hsim1).
  destruct (IH w1 l1 Hsim1 (Had _ _ _ Hs)) as (w2 & obs & l2 & fs & E2 & Hsim2 & [A1 A2 A3 A4 A5]).
  pose proof (step_output view usize _ _ _ _ _ Hs Hen) as H1.
  destruct (step_input view usize _ _ _ _ _ Hs Hen (proj1 (sim_fits _ _ Hsim))) as (f & H2 & H3 & H4).
  rewrite <- (sm_chip _ _ _ _ _ _ _ Hsim), <- (sm_chip _ _ _ _ _ _ _ Hsim1) in H1, H2.
  exists w2, ((r, out) :: obs), l2, (f :: fs). cbn [run]. rewrite E. cbn [rbind]. rewrite E2.
  split; [reflexivity | split; [exact Hsim2 |]]. split.
  - rewrite A1, !fmap_app, app_assoc, H1. cbn [written]. now rewrite !fmap_app, <- !app_assoc.
  - cbn. now rewrite A2.
  - unfold arrived in *. cbn [fmap list_fmap concat]. rewrite app_assoc, fmap_app, H2, <- !app_assoc, <- fmap_app, A3. reflexivity.
  - unfold delivered in *. cbn [fmap list_fmap concat snd]. rewrite app_assoc, H3, <- !app_assoc, A4. reflexivity.
  - intros [|i] g Hg Hne; cbn in Hg.
    + injection Hg as <-. destruct (H4 Hne) as (-> & Hlen & Hfull). split; [reflexivity | split; [exact Hlen |]].
      exists w1, [(r, out)]. cbn [take run]. rewrite E. split; [reflexivity |]. now apply (sim_fits w1 l1).
    + destruct (A5 i g Hg Hne) as (He & Hlen & w3 & obs3 & E3 & Hfull). split; [exact He | split; [exact Hlen |]].
      exists w3, ((r, out) :: obs3). cbn [take run]. rewrite E. cbn [rbind]. cbn [take run] in E3. rewrite E3. auto.
Qed.
End Account.

(** C3: every byte is accounted for.  Over any sequence in which no call would
    block the driver runs to the end, and: the transmitter was given exactly
    the bytes writers were told were taken, in order, each once (the last ones
    may still be queued).  The bytes that arrived are, in the order they
    arrived, those each event took from the chip and those still in it; an
    event stores what it takes, except for a last byte it may lose; the stored
    ones, in order, are exactly what readers got followed by what is queued.  A
    byte is lost only by an interrupt that leaves the input queue full, and
    then one. *)
Theorem serial_line_order {D} (IO : PortIO D) (A : Allocator) (L : AllocatorLaws A) large
    byte_value __val user c usize view (U : Uart16550 IO (port_of c) view) (w : world D) l es :
  sim byte_value __val user c usize (view := view) w l -> admissible view usize l es ->
  exists w' obs l' fs, run large byte_value __val user c w es = Ok (w', obs) /\
    sim byte_value __val user c usize (view := view) w' l' /\
    c_sent (view (w_hw w')) ++ (u8 <$> l_out l') =
      c_sent (view (w_hw w)) ++ (u8 <$> (l_out l ++ written es obs)) /\
    length fs = length es /\
    u8 <$> (c_rx (view (w_hw w)) ++ arrived es) =
      concat ((fun f => f.1 ++ f.2) <$> fs) ++ (u8 <$> c_rx (view (w_hw w'))) /\
    l_in l ++ concat (fst <$> fs) = delivered obs ++ l_in l' /\
    (forall i f, fs !! i = Some f -> f.2 <> [] ->
       es !! i = Some EIrq /\ length f.2 = 1%nat /\
       exists w1 obs1, run large byte_value __val user c w (take (S i) es) = Ok (w1, obs1) /\
         kfifo_is_full (inbuffer (the_dev w1 c)) = true).
Proof.
  intros Hs Ha. destruct (run_accounted large byte_value __val user c usize es w l Hs Ha)
    as (w' & obs & l' & fs & E & Hs' & [A1 A2 A3 A4 A5]).
  exists w', obs, l', fs. do 6 (split; [assumption |]). exact A5.
Qed.

Lemma serial_line_order_witness :
  exists w' obs l' fs, run (fun m _ _ => Ok (m, NULL)) (A := bump_malloc 65536) (Ptr 64 0) (Ptr 65 0) (Ptr 66 0) COM2
      (sample_world []) sample_events = Ok (w', obs) /\
    c_sent (snd (w_hw w')) ++ (u8 <$> l_out l') = u8 <$> written sample_events obs /\
    [104; 105] = concat ((fun f => f.1 ++ f.2) <$> fs) ++ (u8 <$> c_rx (snd (w_hw w'))) /\
    concat (fst <$> fs) = delivered obs ++ l_in l'.
Proof.
  destruct (serial_line_order two_chips (bump_malloc 65536) (bump_malloc_laws _) (fun m _ _ => Ok (m, NULL))
              (Ptr 64 0) (Ptr 65 0) (Ptr 66 0) COM2 8 snd com2_uart (sample_world []) (Line (ready []) [] [])
              sample_events sample_sim sample_admissible) as (w' & obs & l' & fs & E & _ & Hs & _ & Hr & Hd & _).
  exists w', obs, l', fs. split; [exact E | split; [exact Hs | split; [exact Hr | exact Hd]]].
Defined.

End SerialLine.
