(* ===== verification/UartThreads.v ===== *)
(** * The serial driver under concurrent use

    src/apps/module-loader/src/uart16550.c with any number of threads inside
    [uart16550_read] and [uart16550_write] of one device while its interrupt
    handler runs.  Nothing here is atomic but single accesses: the reads of the
    two indices in the wait condition, the wait flag, the two accesses of
    [spin_trylock], the byte transfers and index updates of the fifos
    ([KfifoSpsc]), the unlock, the wake-ups.

    Each thread has a block of its own, the buffer it gets from [kmalloc]; the
    handler has its two one-byte locals ([byte_value] of the transmit loop and
    the copy of [byte_value] inside [kfifo_put]).  The chip may answer anything:
    whether it can send, whether it has data, and which byte.  The handler runs
    once at a time, since its interrupt is acknowledged when it has returned. *)

From S2P Require Import Prelude Bytes Memory Kfifo KfifoApi KfifoSpsc Locking UartHw Uart.
Import Bytes Memory Kfifo KfifoApi KfifoSpsc Uart.

(** Where a thread of [uart16550_read] or [uart16550_write] stands: not in a
    call; before the two reads of the wait condition; before the flag is
    raised; spinning on it; before the read and the exchange of
    [spin_trylock]; past the lock, inside the fifo function; before the
    unlock. *)
Inductive thread_pc (X : Type) :=
| PIdle
| PTest (len : Z)
| PTestOut (len i : Z)
| PRaise (len : Z)
| PSpin (len : Z)
| PTry (len : Z)
| PCas (len : Z)
| PIn (x : X)
| PUnlock.
Arguments PIdle {X}.
Arguments PTest {X}.
Arguments PTestOut {X}.
Arguments PRaise {X}.
Arguments PSpin {X}.
Arguments PTry {X}.
Arguments PCas {X}.
Arguments PIn {X}.
Arguments PUnlock {X}.

(** Where the interrupt handler stands: not running; at the test of the
    transmit loop; inside [kfifo_get]; before the byte goes to the chip; at the
    test of the receive loop; inside [kfifo_put]; before each wake-up. *)
Inductive handler_pc :=
| HIdle
| HSend
| HGet (r : reader)
| HWrite (b : Z)
| HRecv
| HPut (b : Z) (w : writer)
| HWakeRead
| HWakeWrite.

(** What happened, in order: the bytes read from the chip; those the handler
    was done with, and whether they were stored; what each read got and each
    write queued, with the thread; the bytes written to the chip. *)
Record trace := Trace {
  t_chip : list Z;
  t_rx : list (Z * bool);
  t_reads : list (nat * list Z);
  t_writes : list (nat * list Z);
  t_tx : list Z
}.

(** One device, the threads that read it and write it, and its handler. *)
Record system := Sys {
  y_mem : mem;
  y_dev : com_dev;
  y_readers : list (thread_pc reader);
  y_writers : list (thread_pc writer);
  y_handler : handler_pc;
  y_trace : trace
}.

Module UartThreads.

(** ** The loop around [spin_trylock] *)

(** What the loop of either call sees of the device. *)
Record gate := Gate { g_fifo : kfifo; g_lock : Z; g_wq : Wait.wait_queue_head }.

Definition in_gate (dev : com_dev) : gate := Gate (inbuffer dev) (input_lock dev) (read_wait_queue dev).
Definition out_gate (dev : com_dev) : gate := Gate (outbuffer dev) (output_lock dev) (write_wait_queue dev).
Definition set_in_gate (dev : com_dev) (g : gate) : com_dev :=
  set_read_wq (set_input_lock (set_inbuffer dev (g_fifo g)) (g_lock g)) (g_wq g).
Definition set_out_gate (dev : com_dev) (g : gate) : com_dev :=
  set_write_wq (set_output_lock (set_outbuffer dev (g_fifo g)) (g_lock g)) (g_wq g).

(** [do { wait_event_interruptible(wq, !blocked); } while (!spin_trylock(lock));]
    and [spin_unlock(lock)], one access at a time; [start] is the call past the
    lock. *)
Definition gate_step {X} (blocked : kfifo -> bool) (start : Z -> X) (g : gate) (p : thread_pc X)
    : option (gate * thread_pc X) :=
  let '(Gate f lock wq) := g in
  match p with
  | PTest len => Some (g, PTestOut len (k_in f))
  | PTestOut len i => Some (g, if blocked (set_in f i) then PRaise len else PTry len)
  | PRaise len => Some (Gate f lock (Wait.WQ (Wait.wq_lock wq) true), PSpin len)
  | PSpin len => Some (g, if Wait.wq_locked wq then PSpin len else PTry len)
  | PTry len => Some (g, if truthy lock then PTest len else PCas len)
  | PCas len =>
      let '(lock, r) := Spinlock.cmpxchg lock 0 Spinlock._Q_LOCKED_VAL in
      Some (Gate f lock wq, if r =? 0 then PIn (start len) else PTest len)
  | PUnlock => Some (Gate f (Spinlock.native_queued_spin_unlock lock) wq, PIdle)
  | PIdle | PIn _ => None
  end.

(** ** Steps *)

Definition fill (m : mem) (b : Z) (bs : list Z) : mem := Mem (<[b := bs]> (blocks m)) (dyn m).

(** An access inside a fifo function, and what it takes out or puts in. *)
Definition reads (b : Z) (m : mem) (f : kfifo) (r : reader) (m' : mem) (f' : kfifo) (r' : reader)
    (ev : list event) : Prop :=
  rstep b (Spsc m f WIdle r [] []) (Spsc m' f' WIdle r' [] ev).
Definition writes (b : Z) (m : mem) (f : kfifo) (w : writer) (m' : mem) (f' : kfifo) (w' : writer)
    (sent : list Z) : Prop :=
  wstep b (Spsc m f w RIdle [] []) (Spsc m' f' w' RIdle sent []).

Definition with_read (tr : trace) (i : nat) (bs : list Z) : trace :=
  Trace (t_chip tr) (t_rx tr) (t_reads tr ++ [(i, bs)]) (t_writes tr) (t_tx tr).
Definition with_write (tr : trace) (i : nat) (bs : list Z) : trace :=
  Trace (t_chip tr) (t_rx tr) (t_reads tr) (t_writes tr ++ [(i, bs)]) (t_tx tr).
Definition with_tx (tr : trace) (b : Z) : trace :=
  Trace (t_chip tr) (t_rx tr) (t_reads tr) (t_writes tr) (t_tx tr ++ [b]).
Definition with_chip (tr : trace) (b : Z) : trace :=
  Trace (t_chip tr ++ [b]) (t_rx tr) (t_reads tr) (t_writes tr) (t_tx tr).
Definition with_rx (tr : trace) (x : list (Z * bool)) : trace :=
  Trace (t_chip tr) (t_rx tr ++ x) (t_reads tr) (t_writes tr) (t_tx tr).

(** The buffer of each reading and writing thread, and the handler's locals. *)
Section Steps.
Variables rb wb : nat -> Z.
Variables byte_value __val : Z.

(** [uart16550_read] in thread [i], from the buffer it has got to the unlock. *)
Inductive rthread (i : nat) : mem -> com_dev -> thread_pc reader -> trace ->
    mem -> com_dev -> thread_pc reader -> trace -> Prop :=
| RT_call m dev tr len D :
    0 <= len < W32 -> len <= zlen D ->
    rthread i m dev PIdle tr (fill m (rb i) D) dev (PTest len) tr
| RT_gate m dev tr p g p' :
    gate_step kfifo_is_empty (RSize (Ptr (rb i) 0)) (in_gate dev) p = Some (g, p') ->
    rthread i m dev p tr m (set_in_gate dev g) p' tr
| RT_fifo m dev tr r m' f' r' :
    reads (rb i) m (inbuffer dev) r m' f' r' [] -> r <> RIdle -> r' <> RIdle ->
    rthread i m dev (PIn r) tr m' (set_inbuffer dev f') (PIn r') tr
| RT_done m dev tr r m' f' bs :
    reads (rb i) m (inbuffer dev) r m' f' RIdle [Took bs] ->
    rthread i m dev (PIn r) tr m' (set_inbuffer dev f') PUnlock (with_read tr i bs).

(** [uart16550_write] in thread [i], with the user's bytes in its buffer. *)
Inductive wthread (i : nat) : mem -> com_dev -> thread_pc writer -> trace ->
    mem -> com_dev -> thread_pc writer -> trace -> Prop :=
| WT_call m dev tr len bs :
    0 <= len < W32 -> len <= zlen bs ->
    wthread i m dev PIdle tr (fill m (wb i) bs) dev (PTest len) tr
| WT_gate m dev tr p g p' :
    gate_step kfifo_is_full (WSize (Ptr (wb i) 0)) (out_gate dev) p = Some (g, p') ->
    wthread i m dev p tr m (set_out_gate dev g) p' tr
| WT_fifo m dev tr w m' f' w' :
    writes (wb i) m (outbuffer dev) w m' f' w' [] -> w <> WIdle -> w' <> WIdle ->
    wthread i m dev (PIn w) tr m' (set_outbuffer dev f') (PIn w') tr
| WT_done m dev tr w m' f' bs :
    writes (wb i) m (outbuffer dev) w m' f' WIdle bs -> w <> WIdle ->
    wthread i m dev (PIn w) tr m' (set_outbuffer dev f') PUnlock (with_write tr i bs).

(** [interrupt_handler]. *)
Inductive hthread : mem -> com_dev -> handler_pc -> trace ->
    mem -> com_dev -> handler_pc -> trace -> Prop :=
| HT_irq m dev tr : hthread m dev HIdle tr m dev HSend tr
| HT_can_send m dev tr :
    hthread m dev HSend tr (fill m byte_value [0]) dev (HGet (RGet (Ptr byte_value 0))) tr
| HT_cannot_send m dev tr : hthread m dev HSend tr m dev HRecv tr
| HT_get m dev tr r m' f' r' :
    reads byte_value m (outbuffer dev) r m' f' r' [] -> r <> RIdle -> r' <> RIdle ->
    hthread m dev (HGet r) tr m' (set_outbuffer dev f') (HGet r') tr
| HT_no_more m dev tr r m' f' :
    reads byte_value m (outbuffer dev) r m' f' RIdle [] -> r <> RIdle ->
    hthread m dev (HGet r) tr m' (set_outbuffer dev f') HRecv tr
| HT_got m dev tr r m' f' b :
    reads byte_value m (outbuffer dev) r m' f' RIdle [Took [b]] ->
    hthread m dev (HGet r) tr m' (set_outbuffer dev f') (HWrite b) tr
| HT_write m dev tr b : hthread m dev (HWrite b) tr m dev HSend (with_tx tr b)
| HT_no_data m dev tr : hthread m dev HRecv tr m dev HWakeRead tr
| HT_recv m dev tr b :
    hthread m dev HRecv tr (fill m __val [b]) dev (HPut b (WPut (Ptr __val 0))) (with_chip tr b)
| HT_put m dev tr b w m' f' w' :
    writes __val m (inbuffer dev) w m' f' w' [] -> w <> WIdle -> w' <> WIdle ->
    hthread m dev (HPut b w) tr m' (set_inbuffer dev f') (HPut b w') tr
| HT_full m dev tr b w m' f' :
    writes __val m (inbuffer dev) w m' f' WIdle [] -> w <> WIdle ->
    hthread m dev (HPut b w) tr m' (set_inbuffer dev f') HWakeRead (with_rx tr [(b, false)])
| HT_stored m dev tr b w m' f' x xs :
    writes __val m (inbuffer dev) w m' f' WIdle (x :: xs) ->
    hthread m dev (HPut b w) tr m' (set_inbuffer dev f') HRecv
      (with_rx tr ((fun c => (c, true)) <$> x :: xs))
| HT_wake_read m dev tr :
    hthread m dev HWakeRead tr m (set_read_wq dev (Wait.__wake_up (read_wait_queue dev))) HWakeWrite tr
| HT_wake_write m dev tr :
    hthread m dev HWakeWrite tr m (set_write_wq dev (Wait.__wake_up (write_wait_queue dev))) HIdle tr.

(** Anyone may move. *)
Inductive sys_step : system -> system -> Prop :=
| step_reader m dev rs ws h tr i p m' dev' p' tr' :
    rs !! i = Some p -> rthread i m dev p tr m' dev' p' tr' ->
    sys_step (Sys m dev rs ws h tr) (Sys m' dev' (<[i := p']> rs) ws h tr')
| step_writer m dev rs ws h tr i p m' dev' p' tr' :
    ws !! i = Some p -> wthread i m dev p tr m' dev' p' tr' ->
    sys_step (Sys m dev rs ws h tr) (Sys m' dev' rs (<[i := p']> ws) h tr')
| step_handler m dev rs ws h tr m' dev' h' tr' :
    hthread m dev h tr m' dev' h' tr' ->
    sys_step (Sys m dev rs ws h tr) (Sys m' dev' rs ws h' tr').

(** The blocks are all different. *)
Record blocks_apart (d1 d2 : Z) : Prop := {
  ap_rb i j : rb i = rb j -> i = j;
  ap_wb i j : wb i = wb j -> i = j;
  ap_rw i j : rb i <> wb j;
  ap_fixed : NoDup [byte_value; __val; d1; d2];
  ap_r i : rb i ∉ [byte_value; __val; d1; d2];
  ap_w i : wb i ∉ [byte_value; __val; d1; d2]
}.

(** A device after its set-up, nobody in a call. *)
Record sys_initial (s : system) : Prop := {
  si_in : wf (y_mem s) (inbuffer (y_dev s)) /\ k_esize (inbuffer (y_dev s)) = 1 /\
    contents (y_mem s) (inbuffer (y_dev s)) = [];
  si_out : wf (y_mem s) (outbuffer (y_dev s)) /\ k_esize (outbuffer (y_dev s)) = 1 /\
    contents (y_mem s) (outbuffer (y_dev s)) = [];
  si_locks : input_lock (y_dev s) = Spinlock.spin_lock_init /\ output_lock (y_dev s) = Spinlock.spin_lock_init;
  si_apart : blocks_apart (blk (k_data (inbuffer (y_dev s)))) (blk (k_data (outbuffer (y_dev s))));
  si_readers : exists n, y_readers s = replicate n PIdle;
  si_writers : exists n, y_writers s = replicate n PIdle;
  si_handler : y_handler s = HIdle;
  si_trace : y_trace s = Trace [] [] [] [] []
}.

Definition sys_reachable (s : system) : Prop := exists s0, sys_initial s0 /\ rtc sys_step s0 s.
End Steps.

(** ** What the parts see *)

(** What the handler is doing to each fifo, and the byte it has in hand. *)
Definition in_writer (h : handler_pc) : writer := match h with HPut _ w => w | _ => WIdle end.
Definition out_reader (h : handler_pc) : reader := match h with HGet r => r | _ => RIdle end.
Definition in_hand (h : handler_pc) : list Z := match h with HPut b _ => [b] | _ => [] end.
Definition out_hand (h : handler_pc) : list Z := match h with HWrite b => [b] | _ => [] end.

(** The received bytes that were stored. *)
Definition stored (rx : list (Z * bool)) : list Z := fst <$> filter (fun x => x.2 = true) rx.

(** A thread past the lock. *)
Definition inside {X} (p : thread_pc X) : bool :=
  match p with PIn _ | PUnlock => true | _ => false end.

(** The call of a thread, begun or not. *)
Definition shadow {X} (idle : X) (start : Z -> X) (p : thread_pc X) : X :=
  match p with
  | PTest len | PTestOut len _ | PRaise len | PSpin len | PTry len | PCas len => start len
  | PIn x => x
  | PIdle | PUnlock => idle
  end.

(** The thread as the lock sees it. *)
Definition lock_pc {X} (p : thread_pc X) : Spinlock.pc :=
  match p with
  | PTry _ => Spinlock.TryRead
  | PCas _ => Spinlock.TryCas
  | PIn _ | PUnlock => Spinlock.Critical
  | _ => Spinlock.Idle
  end.

(** ** Steps of the fifos *)

(** The same access beside whatever the other side is doing. *)
Lemma reads_lift b m f r m' f' r' ev w se lg :
  reads b m f r m' f' r' ev -> rstep b (Spsc m f w r se lg) (Spsc m' f' w r' se (lg ++ ev)).
Proof.
  intros H. inversion H; subst; rewrite ?app_nil_r; cbn [app]; try (constructor; assumption).
Qed.

Lemma writes_lift b m f w m' f' w' sent r se lg :
  writes b m f w m' f' w' sent -> wstep b (Spsc m f w r se lg) (Spsc m' f' w' r (se ++ sent) lg).
Proof.
  intros H. inversion H; subst; rewrite ?app_nil_r; cbn [app]; try (constructor; assumption).
Qed.

(** A reader writes its own block only, a writer that or the ring. *)
Lemma reads_frame b m f r m' f' r' ev :
  reads b m f r m' f' r' ev -> wf m f -> b <> blk (k_data f) -> reader_inv b m f r ->
  only_block b m m' /\ same_buffer f f'.
Proof.
  intros H Hwf Hne Hr. inversion H; subst; (split; [|now repeat split]); try apply only_block_refl;
    try apply insert_only_block.
  destruct (reader_move b m f' (t1 ++ mv :: t2) buf len mv Hwf Hne Hr) as (j & x & -> & _ & _ & E); [set_solver |].
  assert (m' = put_bytes m (out_move f' buf j).1 [x]) as -> by congruence.
  destruct Hr as (-> & _). exact (put_bytes_only m (padd (Ptr b 0) j) [x]).
Qed.

Lemma writes_frame b m f w m' f' w' sent :
  writes b m f w m' f' w' sent -> wf m f -> b <> blk (k_data f) -> writer_inv b m f w ->
  (exists c, (c = b \/ c = blk (k_data f)) /\ only_block c m m') /\ same_buffer f f'.
Proof.
  intros H Hwf Hne Hw. inversion H; subst; (split; [|now repeat split]);
    try (exists b; split; [now left | apply only_block_refl || apply insert_only_block]).
  destruct (writer_move b m f' (t1 ++ mv :: t2) buf len mv Hwf Hne Hw) as (j & x & bs & -> & _ & _ & _ & E); [set_solver |].
  assert (m' = put_bytes m (in_move f' buf j).1 [x]) as -> by congruence.
  exists (blk (k_data f')). split; [now right |].
  exact (put_bytes_only m (padd (k_data f') (bpos f' (used f' * k_esize f' + j))) [x]).
Qed.

Lemma reader_only_block b m m' f r c :
  only_block c m m' -> c <> b -> c <> blk (k_data f) -> wf m f -> reader_inv b m f r -> reader_inv b m' f r.
Proof.
  intros Ho Hb Hd Hwf. eapply reader_grow; [exact Ho | congruence | apply same_buffer_refl | reflexivity | lia | | exact Hwf].
  now rewrite (contents_only_block _ _ _ _ Ho Hd).
Qed.

(** A call that has not looked at the fifo depends on its buffer only. *)
Definition waiting_r (r : reader) : Prop := match r with RIdle | RSize _ _ => True | _ => False end.
Definition waiting_w (w : writer) : Prop := match w with WIdle | WSize _ _ => True | _ => False end.

Lemma waiting_reader b m m' f f' r c :
  waiting_r r -> only_block c m m' -> c <> b -> k_esize f' = k_esize f -> reader_inv b m f r -> reader_inv b m' f' r.
Proof.
  destruct r; cbn; try tauto. intros _ Ho Hc -> (-> & Hl & Hv). split; [reflexivity | split; [exact Hl |]].
  eapply valid_only_block; [exact Ho | cbn; congruence | exact Hv].
Qed.

Lemma waiting_writer b m m' f f' w c :
  waiting_w w -> only_block c m m' -> c <> b -> k_esize f' = k_esize f -> writer_inv b m f w -> writer_inv b m' f' w.
Proof.
  destruct w; cbn; try tauto. intros _ Ho Hc -> (-> & Hl & Hv). split; [reflexivity | split; [exact Hl |]].
  eapply valid_only_block; [exact Ho | cbn; congruence | exact Hv].
Qed.

(** ** The two directions *)

Section Sides.
Variables rb wb : nat -> Z.
Variables byte_value __val d1 d2 : Z.
Hypothesis Hap : blocks_apart rb wb byte_value __val d1 d2.

Abbreviation rshadow i := (shadow RIdle (RSize (Ptr (rb i) 0))).
Abbreviation wshadow i := (shadow WIdle (WSize (Ptr (wb i) 0))).

(** Input: the handler writes ([w]), the threads [rs] read. *)
Record in_side (m : mem) (f : kfifo) (rs : list (thread_pc reader)) (w : writer) (sent : list Z) (lg : list event)
    : Prop := {
  in_wf : wf m f;
  in_block : blk (k_data f) = d1;
  in_byte : k_esize f = 1;
  in_w : writer_inv __val m f w;
  in_stream : log_bytes lg ++ contents m f = sent;
  in_threads i p : rs !! i = Some p -> reader_inv (rb i) m f (rshadow i p)
}.

(** Output: the threads [ws] write, the handler reads ([r]). *)
Record out_side (m : mem) (f : kfifo) (ws : list (thread_pc writer)) (r : reader) (sent : list Z) (lg : list event)
    : Prop := {
  out_wf : wf m f;
  out_block : blk (k_data f) = d2;
  out_byte : k_esize f = 1;
  out_r : reader_inv byte_value m f r;
  out_stream : log_bytes lg ++ contents m f = sent;
  out_threads i p : ws !! i = Some p -> writer_inv (wb i) m f (wshadow i p)
}.

Lemma ne_fixed : byte_value <> __val /\ byte_value <> d1 /\ byte_value <> d2 /\ __val <> d1 /\ __val <> d2 /\ d1 <> d2.
Proof.
  pose proof (ap_fixed _ _ _ _ _ _ Hap) as H. repeat (apply list.NoDup_cons in H as [? H]).
  repeat split; intros E; set_solver.
Qed.

Lemma rb_ne i : rb i <> byte_value /\ rb i <> __val /\ rb i <> d1 /\ rb i <> d2.
Proof. pose proof (ap_r _ _ _ _ _ _ Hap i). repeat split; intros E; set_solver. Qed.

Lemma wb_ne i : wb i <> byte_value /\ wb i <> __val /\ wb i <> d1 /\ wb i <> d2.
Proof. pose proof (ap_w _ _ _ _ _ _ Hap i). repeat split; intros E; set_solver. Qed.

(** A block that neither side uses does not matter to it. *)
Lemma in_frame m m' f rs w sent lg c :
  in_side m f rs w sent lg -> only_block c m m' -> c <> __val -> c <> d1 -> (forall i, c <> rb i) ->
  in_side m' f rs w sent lg.
Proof.
  intros [Hwf Hd He Hw Hs Ht] Ho H1 H2 H3. rewrite <- Hd in H2.
  split; [eapply wf_only_block; eassumption | exact Hd | exact He | eapply writer_only_block; eassumption | |].
  - now rewrite (contents_only_block _ _ _ _ Ho H2).
  - intros i p Hp. eapply reader_only_block; [exact Ho | apply H3 | exact H2 | exact Hwf | now apply Ht].
Qed.

Lemma out_frame m m' f ws r sent lg c :
  out_side m f ws r sent lg -> only_block c m m' -> c <> byte_value -> c <> d2 -> (forall i, c <> wb i) ->
  out_side m' f ws r sent lg.
Proof.
  intros [Hwf Hd He Hr Hs Ht] Ho H1 H2 H3. rewrite <- Hd in H2.
  split; [eapply wf_only_block; eassumption | exact Hd | exact He
    | eapply reader_only_block; [exact Ho | exact H1 | exact H2 | exact Hwf | exact Hr] | |].
  - now rewrite (contents_only_block _ _ _ _ Ho H2).
  - intros i p Hp. eapply writer_only_block; [exact Ho | apply H3 | exact H2 | now apply Ht].
Qed.

(** Each direction is a fifo with one writer and one reader, for whichever
    thread one looks at. *)
Lemma in_view m f rs w sent lg i r :
  in_side m f rs w sent lg -> reader_inv (rb i) m f r -> inv __val (rb i) (Spsc m f w r sent lg).
Proof.
  intros [Hwf Hd He Hw Hs Ht] Hr. destruct ne_fixed as (_ & _ & _ & N1 & _). destruct (rb_ne i) as (_ & N2 & N3 & _).
  split; cbn; try assumption. rewrite Hd. repeat (apply list.NoDup_cons; split; [set_solver |]). apply NoDup_nil_2.
Qed.

Lemma out_view m f ws r sent lg i w :
  out_side m f ws r sent lg -> writer_inv (wb i) m f w -> inv (wb i) byte_value (Spsc m f w r sent lg).
Proof.
  intros [Hwf Hd He Hr Hs Ht] Hw. destruct ne_fixed as (_ & _ & N1 & _). destruct (wb_ne i) as (N2 & _ & _ & N3).
  split; cbn; try assumption. rewrite Hd. repeat (apply list.NoDup_cons; split; [set_solver |]). apply NoDup_nil_2.
Qed.

(** A thread moves its own call; the others must not be inside the fifo when
    the fifo changes. *)
Lemma in_read m f rs w sent lg i p p' m' f' ev :
  in_side m f rs w sent lg -> rs !! i = Some p -> reads (rb i) m f (rshadow i p) m' f' (rshadow i p') ev ->
  f' = f \/ (forall j q, j <> i -> rs !! j = Some q -> waiting_r (rshadow j q)) ->
  in_side m' f' (<[i := p']> rs) w sent (lg ++ ev) /\ only_block (rb i) m m'.
Proof.
  intros Hin Hp Hrd Hoth. destruct (rb_ne i) as (_ & _ & Nd & _).
  pose proof Hin as [Hwf Hd He Hw Hs Ht]. rewrite <- Hd in Nd.
  destruct (reads_frame _ _ _ _ _ _ _ _ Hrd Hwf Nd (Ht i p Hp)) as [Ho Hsb].
  pose proof (rstep_inv _ _ _ _ (in_view _ _ _ _ _ _ i _ Hin (Ht i p Hp)) (reads_lift _ _ _ _ _ _ _ _ w sent lg Hrd))
    as [Hwf' _ Hw' Hr' Hs']. cbn in *. destruct Hsb as (S1 & S2 & S3).
  split; [|exact Ho]. split; [exact Hwf' | now rewrite S3 | now rewrite S2 | exact Hw' | exact Hs' |].
  intros j q Hq. destruct (decide (j = i)) as [->|Hne].
  { rewrite list_lookup_insert_eq in Hq by (now apply lookup_lt_is_Some; exists p). now injection Hq as <-. }
  rewrite list_lookup_insert_ne in Hq by congruence.
  assert (rb i <> rb j) as Nb by (intros E; apply (ap_rb _ _ _ _ _ _ Hap) in E; congruence).
  destruct Hoth as [->|Hoth].
  - eapply reader_only_block; [exact Ho | exact Nb | exact Nd | exact Hwf | now apply Ht].
  - eapply waiting_reader; [now apply (Hoth j q) | exact Ho | exact Nb | exact S2 | now apply Ht].
Qed.

Lemma out_write m f ws r sent lg i p p' m' f' sent' :
  out_side m f ws r sent lg -> ws !! i = Some p -> writes (wb i) m f (wshadow i p) m' f' (wshadow i p') sent' ->
  (f' = f /\ only_block (wb i) m m') \/ (forall j q, j <> i -> ws !! j = Some q -> waiting_w (wshadow j q)) ->
  out_side m' f' (<[i := p']> ws) r (sent ++ sent') lg /\
  exists c, (c = wb i \/ c = d2) /\ only_block c m m'.
Proof.
  intros Hout Hp Hwr Hoth. destruct (wb_ne i) as (_ & _ & _ & Nd).
  pose proof Hout as [Hwf Hd He Hr Hs Ht]. rewrite <- Hd in Nd.
  destruct (writes_frame _ _ _ _ _ _ _ _ Hwr Hwf Nd (Ht i p Hp)) as [(c & Hc & Ho) Hsb].
  pose proof (wstep_inv _ _ _ _ (out_view _ _ _ _ _ _ i _ Hout (Ht i p Hp)) (writes_lift _ _ _ _ _ _ _ _ r sent lg Hwr))
    as [Hwf' _ Hw' Hr' Hs']. cbn in *. destruct Hsb as (S1 & S2 & S3). rewrite Hd in Hc.
  split; [|now exists c]. split; [exact Hwf' | now rewrite S3 | now rewrite S2 | exact Hr' | exact Hs' |].
  intros j q Hq. destruct (decide (j = i)) as [->|Hne].
  { rewrite list_lookup_insert_eq in Hq by (now apply lookup_lt_is_Some; exists p). now injection Hq as <-. }
  rewrite list_lookup_insert_ne in Hq by congruence.
  assert (wb i <> wb j) as Nb by (intros E; apply (ap_wb _ _ _ _ _ _ Hap) in E; congruence).
  destruct Hoth as [[-> Ho']|Hoth].
  - eapply writer_only_block; [exact Ho' | exact Nb | exact Nd | now apply Ht].
  - destruct (wb_ne j) as (_ & _ & _ & Nj).
    eapply waiting_writer; [now apply (Hoth j q) | exact Ho | destruct Hc as [->| ->]; congruence | exact S2 | now apply Ht].
Qed.

(** The handler moves; every thread is as before. *)
Lemma in_write m f rs w sent lg m' f' w' sent' :
  in_side m f rs w sent lg -> writes __val m f w m' f' w' sent' ->
  in_side m' f' rs w' (sent ++ sent') lg /\ exists c, (c = __val \/ c = d1) /\ only_block c m m'.
Proof.
  intros Hin Hwr. pose proof Hin as [Hwf Hd He Hw Hs Ht].
  destruct ne_fixed as (_ & _ & _ & Nd & _). rewrite <- Hd in Nd.
  destruct (writes_frame _ _ _ _ _ _ _ _ Hwr Hwf Nd Hw) as [(c & Hc & Ho) (S1 & S2 & S3)]. rewrite Hd in Hc.
  assert (forall i r, reader_inv (rb i) m f r -> inv __val (rb i) (Spsc m' f' w' r (sent ++ sent') lg)) as Hall.
  { intros i r Hr. exact (wstep_inv _ _ _ _ (in_view _ _ _ _ _ _ i r Hin Hr) (writes_lift _ _ _ _ _ _ _ _ r sent lg Hwr)). }
  destruct (Hall (length rs) RIdle I) as [Hwf' _ Hw' _ Hs']. cbn in *.
  split; [|now exists c]. split; [exact Hwf' | now rewrite S3 | now rewrite S2 | exact Hw' | exact Hs' |].
  intros i p Hp. exact (inv_reader _ _ _ (Hall i _ (Ht i p Hp))).
Qed.

Lemma out_read m f ws r sent lg m' f' r' ev :
  out_side m f ws r sent lg -> reads byte_value m f r m' f' r' ev ->
  out_side m' f' ws r' sent (lg ++ ev) /\ only_block byte_value m m'.
Proof.
  intros Hout Hrd. pose proof Hout as [Hwf Hd He Hr Hs Ht].
  destruct ne_fixed as (_ & _ & Nd & _). rewrite <- Hd in Nd.
  destruct (reads_frame _ _ _ _ _ _ _ _ Hrd Hwf Nd Hr) as [Ho (S1 & S2 & S3)].
  assert (forall i w, writer_inv (wb i) m f w -> inv (wb i) byte_value (Spsc m' f' w r' sent (lg ++ ev))) as Hall.
  { intros i w Hw. exact (rstep_inv _ _ _ _ (out_view _ _ _ _ _ _ i w Hout Hw) (reads_lift _ _ _ _ _ _ _ _ w sent lg Hrd)). }
  destruct (Hall (length ws) WIdle I) as [Hwf' _ _ Hr' Hs']. cbn in *.
  split; [|exact Ho]. split; [exact Hwf' | now rewrite S3 | now rewrite S2 | exact Hr' | exact Hs' |].
  intros i p Hp. exact (inv_writer _ _ _ (Hall i _ (Ht i p Hp))).
Qed.

(** Moves around the lock leave the calls as they are. *)
Lemma in_wait m f rs w sent lg i p p' :
  in_side m f rs w sent lg -> rs !! i = Some p -> rshadow i p' = rshadow i p -> in_side m f (<[i := p']> rs) w sent lg.
Proof.
  intros [Hwf Hd He Hw Hs Ht] Hp E. split; try assumption. intros j q Hq.
  destruct (decide (j = i)) as [->|Hne].
  - rewrite list_lookup_insert_eq in Hq by (now apply lookup_lt_is_Some; exists p). injection Hq as <-.
    rewrite E. now apply Ht.
  - rewrite list_lookup_insert_ne in Hq by congruence. now apply Ht.
Qed.

Lemma out_wait m f ws r sent lg i p p' :
  out_side m f ws r sent lg -> ws !! i = Some p -> wshadow i p' = wshadow i p -> out_side m f (<[i := p']> ws) r sent lg.
Proof.
  intros [Hwf Hd He Hr Hs Ht] Hp E. split; try assumption. intros j q Hq.
  destruct (decide (j = i)) as [->|Hne].
  - rewrite list_lookup_insert_eq in Hq by (now apply lookup_lt_is_Some; exists p). injection Hq as <-.
    rewrite E. now apply Ht.
  - rewrite list_lookup_insert_ne in Hq by congruence. now apply Ht.
Qed.

(** ** The lock *)

Lemma lock_moves {X} (l l' : Z) (ts : list (thread_pc X)) i p p' :
  ts !! i = Some p -> Spinlock.thread_step Spinlock.CTry (lock_pc p) l = (l', lock_pc p') ->
  Spinlock.try_inv (l, lock_pc <$> ts) -> Spinlock.try_inv (l', lock_pc <$> <[i := p']> ts).
Proof.
  intros Hp Hs. apply Spinlock.try_step. rewrite list_fmap_insert.
  apply (Spinlock.step_thread _ l (lock_pc <$> ts) i (lock_pc p) Spinlock.CTry); [|reflexivity | exact Hs].
  now rewrite list_lookup_fmap, Hp.
Qed.

Lemma lock_stays {X} l (ts : list (thread_pc X)) i p p' :
  ts !! i = Some p -> lock_pc p' = lock_pc p ->
  Spinlock.try_inv (l, lock_pc <$> ts) -> Spinlock.try_inv (l, lock_pc <$> <[i := p']> ts).
Proof.
  intros Hp E. rewrite list_fmap_insert, E, list_insert_id; [easy |]. now rewrite list_lookup_fmap, Hp.
Qed.

Lemma one_critical l ts i j :
  Spinlock.try_inv (l, ts) -> ts !! i = Some Spinlock.Critical -> ts !! j = Some Spinlock.Critical -> i = j.
Proof.
  intros (_ & E & Hl) Hi Hj. cbn in *. destruct (decide (i = j)) as [|Hne]; [assumption | exfalso].
  pose proof (Spinlock.holders_insert ts i _ Spinlock.Idle Hi) as H1.
  pose proof (Spinlock.holders_insert (<[i := Spinlock.Idle]> ts) j Spinlock.Critical Spinlock.Idle) as H2.
  rewrite list_lookup_insert_ne in H2 by congruence. specialize (H2 Hj).
  pose proof (Spinlock.holders_nonneg (<[j := Spinlock.Idle]> (<[i := Spinlock.Idle]> ts))).
  unfold Spinlock.in_critical in *. rewrite !decide_True, !decide_False in * by congruence. lia.
Qed.

Lemma one_inside {X} l (ts : list (thread_pc X)) i j p q :
  Spinlock.try_inv (l, lock_pc <$> ts) -> ts !! i = Some p -> ts !! j = Some q ->
  inside p = true -> inside q = true -> i = j.
Proof.
  intros Hl Hp Hq Ip Iq. apply (one_critical l (lock_pc <$> ts)); [exact Hl | |].
  - rewrite list_lookup_fmap, Hp. now destruct p.
  - rewrite list_lookup_fmap, Hq. now destruct q.
Qed.

(** The loop around the lock: the fifo and the call stay, and the lock word
    moves as the lock prescribes. *)
Lemma gate_step_ok {X} blocked (idle : X) start g p g' p' (ts : list (thread_pc X)) i :
  gate_step blocked start g p = Some (g', p') -> ts !! i = Some p ->
  Spinlock.try_inv (g_lock g, lock_pc <$> ts) ->
  g_fifo g' = g_fifo g /\ shadow idle start p' = shadow idle start p /\
  Spinlock.try_inv (g_lock g', lock_pc <$> <[i := p']> ts) /\
  (forall x, p' = PIn x -> exists len, x = start len).
Proof.
  destruct g as [f l wq]. intros Hs Hp Hl. destruct p; cbn in Hs; try discriminate; injection Hs as <- <-; cbn in *;
    (split; [reflexivity | split; [now repeat case_match | split]]); try (intros x E; repeat case_match; try discriminate).
  - now apply (lock_stays l ts i (PTest len)).
  - destruct (blocked _); [now apply (lock_stays l ts i (PTestOut len i0)) | now apply (lock_moves l l ts i (PTestOut len i0))].
  - now apply (lock_stays l ts i (PRaise len)).
  - destruct (Wait.wq_locked wq); [now apply (lock_stays l ts i (PSpin len)) | now apply (lock_moves l l ts i (PSpin len))].
  - apply (lock_moves l l ts i (PTry len)); [exact Hp | cbn; now destruct (truthy l) | exact Hl].
  - apply (lock_moves l _ ts i (PCas len)); [exact Hp | cbn; now destruct (l =? 0) | exact Hl].
  - injection E as <-. eauto.
  - now apply (lock_moves l _ ts i PUnlock).
Qed.

(** The other threads are not inside. *)
Lemma others_wait {X} (P : X -> Prop) (idle : X) (start : nat -> Z -> X) l (ts : list (thread_pc X)) i p :
  Spinlock.try_inv (l, lock_pc <$> ts) -> ts !! i = Some p -> inside p = true ->
  P idle -> (forall j n, P (start j n)) ->
  forall j q, j <> i -> ts !! j = Some q -> P (shadow idle (start j) q).
Proof.
  intros Hl Hp Hin Hi Hs j q Hne Hq. destruct (inside q) eqn:E; [|destruct q; cbn in *; auto; discriminate].
  exfalso. apply Hne. exact (one_inside l ts j i q p Hl Hq Hp E Hin).
Qed.

(** ** The invariant *)

(** The fifo function a thread, and the handler, may be in. *)
Definition read_call (r : reader) : Prop := match r with RSize _ _ | RCopy _ _ _ => True | _ => False end.
Definition write_call (w : writer) : Prop := match w with WSize _ _ | WCopy _ _ _ => True | _ => False end.
Definition get_call (r : reader) : Prop := match r with RGet _ => True | RCopy _ _ len => len = 1 | _ => False end.
Definition put_call (w : writer) : Prop := match w with WPut _ => True | WCopy _ _ len => len = 1 | _ => False end.

Record in_part (m : mem) (f : kfifo) (lock : Z) (rs : list (thread_pc reader)) (h : handler_pc) (tr : trace) : Prop := {
  ip_side : in_side m f rs (in_writer h) (stored (t_rx tr)) ((fun x => Took x.2) <$> t_reads tr);
  ip_lock : Spinlock.try_inv (lock, lock_pc <$> rs);
  ip_calls i r : rs !! i = Some (PIn r) -> read_call r
}.

Record out_part (m : mem) (f : kfifo) (lock : Z) (ws : list (thread_pc writer)) (h : handler_pc) (tr : trace) : Prop := {
  op_side : out_side m f ws (out_reader h) (concat (snd <$> t_writes tr)) ((fun b => Took [b]) <$> t_tx tr ++ out_hand h);
  op_lock : Spinlock.try_inv (lock, lock_pc <$> ws);
  op_calls i w : ws !! i = Some (PIn w) -> write_call w
}.

Record hand_part (m : mem) (h : handler_pc) (tr : trace) : Prop := {
  hp_chip : t_chip tr = (fst <$> t_rx tr) ++ in_hand h;
  hp_put b w : h = HPut b w -> load m (Ptr __val 0) 1 = Ok [b] /\ put_call w;
  hp_get r : h = HGet r -> get_call r
}.

Definition sys_inv (s : system) : Prop :=
  let '(Sys m dev rs ws h tr) := s in
  in_part m (inbuffer dev) (input_lock dev) rs h tr /\
  out_part m (outbuffer dev) (output_lock dev) ws h tr /\
  hand_part m h tr.

Lemma hand_frame m m' h tr tr' c :
  hand_part m h tr -> only_block c m m' -> c <> __val -> t_chip tr' = t_chip tr -> t_rx tr' = t_rx tr ->
  hand_part m' h tr'.
Proof.
  intros [H1 H2 H3] Ho Hc E1 E2. split; [now rewrite E1, E2 | | exact H3].
  intros b w E. destruct (H2 b w E) as [Hld Hp]. split; [|exact Hp].
  now rewrite (load_only_block c m m') by (assumption || (cbn; congruence)).
Qed.

Lemma calls_insert {X} (P : X -> Prop) (ts : list (thread_pc X)) i p' :
  (forall j x, ts !! j = Some (PIn x) -> P x) -> (forall x, p' = PIn x -> P x) ->
  forall j x, <[i := p']> ts !! j = Some (PIn x) -> P x.
Proof.
  intros H Hp j x Hj. apply list_lookup_insert_Some in Hj as [(_ & E & _)|[_ E]]; eauto.
Qed.

(** Between two reads nothing of a call is lost. *)
Lemma reads_call b m f r m' f' r' ev :
  reads b m f r m' f' r' ev -> r <> RIdle ->
  (read_call r -> r' <> RIdle -> read_call r') /\ (get_call r -> r' <> RIdle -> get_call r').
Proof. intros H Hr. inversion H; subst; cbn; tauto. Qed.

Lemma writes_call b m f w m' f' w' sent :
  writes b m f w m' f' w' sent -> w <> WIdle ->
  (write_call w -> w' <> WIdle -> write_call w') /\ (put_call w -> w' <> WIdle -> put_call w').
Proof. intros H Hw. inversion H; subst; cbn; tauto. Qed.

(** *** Threads *)

Lemma reader_sys m dev rs ws h tr i p m' dev' p' tr' :
  rs !! i = Some p -> rthread rb i m dev p tr m' dev' p' tr' ->
  sys_inv (Sys m dev rs ws h tr) -> sys_inv (Sys m' dev' (<[i := p']> rs) ws h tr').
Proof.
  intros Hp Hst ([Hs Hl Hc] & [Hos Hol Hoc] & Hh). destruct (rb_ne i) as (N1 & N2 & N3 & N4).
  assert (forall m', only_block (rb i) m m' -> out_part m' (outbuffer dev) (output_lock dev) ws h tr) as Hout.
  { intros m1 Ho. split; [|exact Hol | exact Hoc].
    eapply out_frame; [exact Hos | exact Ho | exact N1 | exact N4 | apply (ap_rw _ _ _ _ _ _ Hap)]. }
  destruct Hst as [m dev tr len D Hlen HD | m dev tr p g p' Hg | m dev tr r m' f' r' Hrd Hr Hr'
                  | m dev tr r m' f' bs Hrd]; cbn [sys_inv] in *.
  - destruct (in_read _ _ _ _ _ _ i PIdle (PTest len) (fill m (rb i) D) (inbuffer dev) [] Hs Hp) as [Hs' Ho].
    { apply (R_call (rb i)); [exact Hlen |]. rewrite (in_byte _ _ _ _ _ _ Hs). lia. }
    { now left. }
    rewrite app_nil_r in Hs'. split; [|split; [now apply Hout | eapply hand_frame; eauto]].
    split; [exact Hs' | now apply (lock_stays _ rs i PIdle) | now apply calls_insert].
  - destruct (gate_step_ok kfifo_is_empty RIdle _ _ _ _ _ rs i Hg Hp Hl) as (E1 & E2 & Hl' & Hx).
    destruct g as [f1 l1 q1], dev as [ib ob inb outb il ol rq wq pt mi iq]. cbn in *. subst f1.
    split; [|split; [split; assumption | exact Hh]].
    split; [now apply (in_wait _ _ _ _ _ _ i p) | exact Hl' |].
    apply calls_insert; [exact Hc |]. intros x E. now destruct (Hx x E) as [len ->].
  - destruct (in_read _ _ _ _ _ _ i (PIn r) (PIn r') m' f' [] Hs Hp Hrd) as [Hs' Ho].
    { right. exact (others_wait waiting_r RIdle (fun j => RSize (Ptr (rb j) 0)) _ rs i (PIn r) Hl Hp eq_refl I (fun _ _ => I)). }
    rewrite app_nil_r in Hs'. destruct dev as [ib ob inb outb il ol rq wq pt mi iq]. cbn in *.
    split; [|split; [now apply Hout | eapply hand_frame; eauto]].
    split; [exact Hs' | now apply (lock_stays _ rs i (PIn r)) |].
    apply calls_insert; [exact Hc |]. intros x [= <-]. apply (reads_call _ _ _ _ _ _ _ _ Hrd Hr); eauto.
  - destruct (in_read _ _ _ _ _ _ i (PIn r) PUnlock m' f' [Took bs] Hs Hp Hrd) as [Hs' Ho].
    { right. exact (others_wait waiting_r RIdle (fun j => RSize (Ptr (rb j) 0)) _ rs i (PIn r) Hl Hp eq_refl I (fun _ _ => I)). }
    destruct dev as [ib ob inb outb il ol rq wq pt mi iq]. cbn in *.
    split; [|split; [destruct (Hout m' Ho); now split | eapply hand_frame; eauto]].
    split; [cbn; now rewrite fmap_app | now apply (lock_stays _ rs i (PIn r)) | now apply calls_insert].
Qed.

Lemma writer_sys m dev rs ws h tr i p m' dev' p' tr' :
  ws !! i = Some p -> wthread wb i m dev p tr m' dev' p' tr' ->
  sys_inv (Sys m dev rs ws h tr) -> sys_inv (Sys m' dev' rs (<[i := p']> ws) h tr').
Proof.
  intros Hp Hst ([His Hil Hic] & [Hs Hl Hc] & Hh). destruct (wb_ne i) as (N1 & N2 & N3 & N4).
  destruct ne_fixed as (_ & _ & _ & _ & M1 & M2).
  assert (forall c m', c = wb i \/ c = d2 -> only_block c m m' ->
    in_part m' (inbuffer dev) (input_lock dev) rs h tr /\ hand_part m' h tr) as Hin.
  { intros c m1 Hcc Ho. assert (c <> __val /\ c <> d1 /\ forall j, c <> rb j) as (C1 & C2 & C3).
    { destruct Hcc as [->| ->]; (split; [congruence | split; [congruence |]]); intros j E.
      - now apply (ap_rw _ _ _ _ _ _ Hap j i).
      - destruct (rb_ne j) as (_ & _ & _ & N). congruence. }
    split; [split; [eapply in_frame; eassumption | exact Hil | exact Hic] | eapply hand_frame; eauto]. }
  destruct Hst as [m dev tr len D Hlen HD | m dev tr p g p' Hg | m dev tr w m' f' w' Hwr Hw Hw'
                  | m dev tr w m' f' bs Hwr Hw]; cbn [sys_inv] in *.
  - destruct (out_write _ _ _ _ _ _ i PIdle (PTest len) (fill m (wb i) D) (outbuffer dev) [] Hs Hp) as [Hs' (c & Hcc & Ho)].
    { apply (W_call (wb i)); [exact Hlen |]. rewrite (out_byte _ _ _ _ _ _ Hs). lia. }
    { left. split; [reflexivity | apply insert_only_block]. }
    rewrite app_nil_r in Hs'. destruct (Hin c _ Hcc Ho) as [H1 H2]. split; [exact H1 | split; [|exact H2]].
    split; [exact Hs' | now apply (lock_stays _ ws i PIdle) | now apply calls_insert].
  - destruct (gate_step_ok kfifo_is_full WIdle _ _ _ _ _ ws i Hg Hp Hl) as (E1 & E2 & Hl' & Hx).
    destruct g as [f1 l1 q1], dev as [ib ob inb outb il ol rq wq pt mi iq]. cbn in *. subst f1.
    split; [split; assumption | split; [|exact Hh]].
    split; [now apply (out_wait _ _ _ _ _ _ i p) | exact Hl' |].
    apply calls_insert; [exact Hc |]. intros x E. now destruct (Hx x E) as [len ->].
  - destruct (out_write _ _ _ _ _ _ i (PIn w) (PIn w') m' f' [] Hs Hp Hwr) as [Hs' (c & Hcc & Ho)].
    { right. exact (others_wait waiting_w WIdle (fun j => WSize (Ptr (wb j) 0)) _ ws i (PIn w) Hl Hp eq_refl I (fun _ _ => I)). }
    rewrite app_nil_r in Hs'. destruct (Hin c _ Hcc Ho) as [H1 H2].
    destruct dev as [ib ob inb outb il ol rq wq pt mi iq]. cbn in *. split; [exact H1 | split; [|exact H2]].
    split; [exact Hs' | now apply (lock_stays _ ws i (PIn w)) |].
    apply calls_insert; [exact Hc |]. intros x [= <-]. apply (writes_call _ _ _ _ _ _ _ _ Hwr Hw); eauto.
  - destruct (out_write _ _ _ _ _ _ i (PIn w) PUnlock m' f' bs Hs Hp Hwr) as [Hs' (c & Hcc & Ho)].
    { right. exact (others_wait waiting_w WIdle (fun j => WSize (Ptr (wb j) 0)) _ ws i (PIn w) Hl Hp eq_refl I (fun _ _ => I)). }
    destruct (Hin c _ Hcc Ho) as [[G1 G2 G3] [G4 G5 G6]].
    destruct dev as [ib ob inb outb il ol rq wq pt mi iq]. cbn in *.
    split; [now split | split; [|now split]].
    split; [|now apply (lock_stays _ ws i (PIn w)) | now apply calls_insert].
    cbn. rewrite fmap_app, concat_app. cbn. now rewrite app_nil_r.
Qed.

(** *** The handler *)

(** An access of [kfifo_put] leaves its argument alone; when it publishes, it
    publishes that argument. *)
Lemma put_access m f w m' f' w' sent :
  writes __val m f w m' f' w' sent -> put_call w -> wf m f -> k_esize f = 1 -> blk (k_data f) = d1 ->
  writer_inv __val m f w ->
  load m' (Ptr __val 0) 1 = load m (Ptr __val 0) 1 /\
  (sent = [] \/ sent = bytes_at m (Ptr __val 0) 1).
Proof.
  intros H Hc Hwf He Hd Hw. destruct ne_fixed as (_ & _ & _ & N & _). rewrite <- Hd in N.
  inversion H; subst; cbn in Hc; try (now destruct Hc); try (split; [reflexivity | now left]).
  - destruct (writer_move __val m f' (t1 ++ mv :: t2) buf len mv Hwf N Hw) as (j & x & bs & -> & _ & _ & _ & E); [set_solver |].
    assert (m' = put_bytes m (in_move f' buf j).1 [x]) as -> by congruence. split; [|now left].
    apply load_put_other. cbn. congruence.
  - split; [reflexivity | right]. destruct Hw as (-> & _). now rewrite He, Hc.
Qed.

Lemma in_same m f l rs h h' tr tr' :
  in_part m f l rs h tr -> in_writer h' = in_writer h -> t_rx tr' = t_rx tr -> t_reads tr' = t_reads tr ->
  in_part m f l rs h' tr'.
Proof. intros [H1 H2 H3] E1 E2 E3. split; [|exact H2 | exact H3]. now rewrite E1, E2, E3. Qed.

Lemma out_same m f l ws h h' tr tr' :
  out_part m f l ws h tr -> out_reader h' = out_reader h -> t_tx tr' ++ out_hand h' = t_tx tr ++ out_hand h ->
  t_writes tr' = t_writes tr -> out_part m f l ws h' tr'.
Proof. intros [H1 H2 H3] E1 E2 E3. split; [|exact H2 | exact H3]. now rewrite E1, E2, E3. Qed.

(** While the handler is at the output, the input waits, and the other way
    round. *)
Lemma in_besides m m' f l rs h tr c :
  in_part m f l rs h tr -> only_block c m m' -> c = byte_value \/ c = d2 -> in_part m' f l rs h tr.
Proof.
  intros [H1 H2 H3] Ho Hc. split; [|exact H2 | exact H3]. destruct ne_fixed as (A1 & A2 & A3 & A4 & A5 & A6).
  eapply in_frame; [exact H1 | exact Ho | destruct Hc; congruence | destruct Hc; congruence |].
  intros i. destruct (rb_ne i) as (B1 & B2 & B3 & B4). destruct Hc; congruence.
Qed.

Lemma out_besides m m' f l ws h tr c :
  out_part m f l ws h tr -> only_block c m m' -> c = __val \/ c = d1 -> out_part m' f l ws h tr.
Proof.
  intros [H1 H2 H3] Ho Hc. split; [|exact H2 | exact H3]. destruct ne_fixed as (A1 & A2 & A3 & A4 & A5 & A6).
  eapply out_frame; [exact H1 | exact Ho | destruct Hc; congruence | destruct Hc; congruence |].
  intros i. destruct (wb_ne i) as (B1 & B2 & B3 & B4). destruct Hc; congruence.
Qed.

(** [kfifo_get] in the handler. *)
Lemma handler_gets m dev rs ws h tr h' m' f' r' ev :
  sys_inv (Sys m dev rs ws h tr) -> reads byte_value m (outbuffer dev) (out_reader h) m' f' r' ev ->
  in_writer h = WIdle -> in_writer h' = WIdle -> in_hand h = [] -> in_hand h' = [] -> out_hand h = [] ->
  out_reader h' = r' -> ev = (fun b => Took [b]) <$> out_hand h' -> (forall r, h' = HGet r -> get_call r) ->
  sys_inv (Sys m' (set_outbuffer dev f') rs ws h' tr).
Proof.
  intros (Hi & [Hs Hl Hc] & [H1 H2 H3]) Hrd W W' I1 I2 O1 Er Ev Hg.
  destruct (out_read _ _ _ _ _ _ _ _ _ _ Hs Hrd) as [Hs' Ho].
  pose proof (in_besides _ _ _ _ _ _ _ _ Hi Ho (or_introl eq_refl)) as Hi'.
  destruct dev as [ib ob inb outb il ol rq wq pt mi iq]. cbn in *.
  split; [eapply in_same; [exact Hi' | congruence | reflexivity | reflexivity] | split].
  - split; [|exact Hl | exact Hc]. rewrite Er. rewrite O1, app_nil_r in Hs'. now rewrite fmap_app, <- Ev.
  - split; [now rewrite I2, <- I1 | | exact Hg]. intros b w ->. discriminate I2.
Qed.

(** [kfifo_put] in the handler. *)
Lemma handler_puts m dev rs ws h tr h' tr' m' f' w' sent :
  sys_inv (Sys m dev rs ws h tr) -> writes __val m (inbuffer dev) (in_writer h) m' f' w' sent ->
  out_reader h = RIdle -> out_reader h' = RIdle -> out_hand h = [] -> out_hand h' = [] -> in_writer h' = w' ->
  stored (t_rx tr') = stored (t_rx tr) ++ sent -> t_reads tr' = t_reads tr -> t_writes tr' = t_writes tr ->
  t_tx tr' = t_tx tr -> hand_part m' h' tr' ->
  sys_inv (Sys m' (set_inbuffer dev f') rs ws h' tr').
Proof.
  intros ([Hs Hl Hc] & Ho & Hh) Hwr R R' O1 O2 Ew Est Er Ewr Et Hh'.
  destruct (in_write _ _ _ _ _ _ _ _ _ _ Hs Hwr) as [Hs' (c & Hcc & Hoc)].
  pose proof (out_besides _ _ _ _ _ _ _ _ Ho Hoc Hcc) as Ho'.
  destruct dev as [ib ob inb outb il ol rq wq pt mi iq]. cbn in *. split; [|split; [|exact Hh']].
  - split; [|exact Hl | exact Hc]. rewrite Ew, Est, Er. exact Hs'.
  - eapply out_same; [exact Ho' | congruence | now rewrite Et, O1, O2 | exact Ewr].
Qed.

Lemma stored_app a b : stored (a ++ b) = stored a ++ stored b.
Proof. unfold stored. now rewrite list.filter_app, fmap_app. Qed.

Lemma stored_true l : stored ((fun c => (c, true)) <$> l) = l.
Proof. induction l as [|x l IH]; [reflexivity |]. unfold stored in *. cbn [fmap list_fmap]. rewrite filter_cons_True by reflexivity. cbn. now f_equal. Qed.

(** The accesses of [kfifo_put] one by one. *)
Lemma handler_puts_on m dev rs ws tr b w m' f' w' sent h' tr' :
  sys_inv (Sys m dev rs ws (HPut b w) tr) -> writes __val m (inbuffer dev) w m' f' w' sent ->
  out_reader h' = RIdle -> out_hand h' = [] -> in_writer h' = w' ->
  stored (t_rx tr') = stored (t_rx tr) ++ sent -> t_reads tr' = t_reads tr -> t_writes tr' = t_writes tr ->
  t_tx tr' = t_tx tr -> t_chip tr' = t_chip tr ->
  (sent = [] \/ sent = [b] -> (fst <$> t_rx tr') ++ in_hand h' = (fst <$> t_rx tr) ++ [b]) ->
  (forall c x, h' = HPut c x -> c = b /\ put_call x) -> (forall r, h' <> HGet r) ->
  sys_inv (Sys m' (set_inbuffer dev f') rs ws h' tr').
Proof.
  intros Hinv Hwr R O Ew Est Er Ewr Et Ec Hrx Hp Hg.
  pose proof Hinv as ([[Hwf Hd He Hw _ _] _ _] & _ & [Hchip Hput _]).
  destruct (Hput b w eq_refl) as [Hld Hpc].
  destruct (put_access _ _ _ _ _ _ _ Hwr Hpc Hwf He Hd Hw) as [Hld' Hsent].
  unfold bytes_at in Hsent. rewrite Hld in Hsent.
  eapply handler_puts; try eassumption; [reflexivity | reflexivity |]. split.
  - rewrite Ec, Hchip. symmetry. now apply Hrx.
  - intros c x E. destruct (Hp c x E) as [-> Hx]. split; [congruence | exact Hx].
  - intros r E. now apply Hg in E.
Qed.

(** The handler between the fifo functions. *)
Definition quiet (h : handler_pc) : bool :=
  match h with HIdle | HSend | HRecv | HWakeRead | HWakeWrite => true | _ => false end.

Lemma handler_walks m dev dev' rs ws h h' tr :
  sys_inv (Sys m dev rs ws h tr) -> quiet h = true -> quiet h' = true ->
  inbuffer dev' = inbuffer dev -> outbuffer dev' = outbuffer dev ->
  input_lock dev' = input_lock dev -> output_lock dev' = output_lock dev ->
  sys_inv (Sys m dev' rs ws h' tr).
Proof.
  intros (Hi & Ho & [H1 H2 H3]) Q Q' E1 E2 E3 E4. cbn. rewrite E1, E2, E3, E4.
  split; [|split]; [apply (in_same _ _ _ _ h) with tr | apply (out_same _ _ _ _ h) with tr | split];
    try assumption; destruct h, h'; try discriminate Q; try discriminate Q'; easy.
Qed.

Lemma handler_sys m dev rs ws h tr m' dev' h' tr' :
  hthread byte_value __val m dev h tr m' dev' h' tr' ->
  sys_inv (Sys m dev rs ws h tr) -> sys_inv (Sys m' dev' rs ws h' tr').
Proof.
  intros Hst Hinv. pose proof Hinv as (Hi & Ho & Hh).
  assert (forall g, set_outbuffer g (outbuffer g) = g /\ set_inbuffer g (inbuffer g) = g) as Hset by now intros [].
  destruct Hst as [| m dev tr | | m dev tr r m' f' r' Hrd Hr Hr' | m dev tr r m' f' Hrd Hr | m dev tr r m' f' b Hrd
    | | | m dev tr b | m dev tr b w m' f' w' Hwr Hw Hw' | m dev tr b w m' f' Hwr Hw | m dev tr b w m' f' x xs Hwr | |].
  - now apply (handler_walks m dev dev rs ws HIdle).
  - rewrite <- (proj1 (Hset dev)).
    eapply (handler_gets m dev rs ws HSend tr _ _ _ _ []); try reflexivity; [exact Hinv | | now intros r [= <-]].
    apply (R_get_call byte_value). rewrite (out_byte _ _ _ _ _ _ (op_side _ _ _ _ _ _ Ho)). vm_compute. discriminate.
  - now apply (handler_walks m dev dev rs ws HSend).
  - eapply (handler_gets m dev rs ws (HGet r) tr _ _ _ _ []); try reflexivity; [exact Hinv | exact Hrd |].
    intros r1 [= <-]. apply (reads_call _ _ _ _ _ _ _ _ Hrd Hr); [now apply (hp_get _ _ _ Hh) | exact Hr'].
  - now eapply (handler_gets m dev rs ws (HGet r) tr _ _ _ _ []); [exact Hinv | exact Hrd | ..].
  - now eapply (handler_gets m dev rs ws (HGet r) tr _ _ _ _ [Took [b]]); [exact Hinv | exact Hrd | ..].
  - split; [|split]; [now apply (in_same _ _ _ _ (HWrite b)) with tr | | destruct Hh; now split].
    apply (out_same _ _ _ _ (HWrite b)) with tr; [exact Ho | reflexivity | cbn; now rewrite app_nil_r | reflexivity].
  - now apply (handler_walks m dev dev rs ws HRecv).
  - rewrite <- (proj2 (Hset dev)).
    eapply (handler_puts m dev rs ws HRecv tr _ _ _ _ _ []); try reflexivity; [exact Hinv | | now rewrite app_nil_r |].
    { apply (W_put_call __val). rewrite (in_byte _ _ _ _ _ _ (ip_side _ _ _ _ _ _ Hi)). vm_compute. discriminate. }
    destruct Hh as [Hc _ _]. cbn in Hc. rewrite app_nil_r in Hc. split; [cbn; now rewrite Hc | | discriminate].
    intros c x [= <- <-]. split; [|exact I]. unfold load, fill. cbn. now rewrite lookup_insert_eq.
  - eapply (handler_puts_on m dev rs ws tr b w _ _ w' []); try reflexivity; try eassumption; [now rewrite app_nil_r | |].
    { intros c x [= <- <-]. split; [reflexivity |].
      apply (writes_call _ _ _ _ _ _ _ _ Hwr Hw); [now apply (hp_put _ _ _ Hh b w) | exact Hw']. }
    discriminate.
  - eapply (handler_puts_on m dev rs ws tr b w _ _ WIdle []); try reflexivity; try eassumption; try discriminate.
    + cbn [with_rx t_rx]. rewrite stored_app. reflexivity.
    + intros _. cbn [with_rx t_rx in_hand]. now rewrite fmap_app, app_nil_r.
  - eapply (handler_puts_on m dev rs ws tr b w _ _ WIdle (x :: xs)); try reflexivity; try eassumption; try discriminate.
    + cbn [with_rx t_rx]. now rewrite stored_app, stored_true.
    + intros [E|E]; [discriminate E |]. cbn [with_rx t_rx in_hand]. now rewrite E, fmap_app, app_nil_r.
  - destruct dev. now eapply (handler_walks m _ _ rs ws HWakeRead); [exact Hinv | ..].
  - destruct dev. now eapply (handler_walks m _ _ rs ws HWakeWrite); [exact Hinv | ..].
Qed.

Lemma sys_step_inv s s' : sys_step rb wb byte_value __val s s' -> sys_inv s -> sys_inv s'.
Proof. intros [] Hinv; [eapply reader_sys | eapply writer_sys | eapply handler_sys]; eassumption. Qed.

Lemma idle_lock {X} n : Spinlock.try_inv (Spinlock.spin_lock_init, lock_pc <$> replicate n (@PIdle X)).
Proof.
  rewrite fmap_replicate. split; [|split]; cbn; [now apply Forall_replicate | now rewrite Spinlock.holders_replicate |].
  unfold Spinlock.spin_lock_init. lia.
Qed.
End Sides.

Lemma sys_initial_inv rb wb byte_value __val s :
  sys_initial rb wb byte_value __val s ->
  let d1 := blk (k_data (inbuffer (y_dev s))) in
  let d2 := blk (k_data (outbuffer (y_dev s))) in
  blocks_apart rb wb byte_value __val d1 d2 /\ sys_inv rb wb byte_value __val d1 d2 s.
Proof.
  intros [(Hw1 & He1 & Hc1) (Hw2 & He2 & Hc2) (Hl1 & Hl2) Hap (n & Hr) (k & Hw) Hh Ht] d1 d2. split; [exact Hap |].
  destruct s as [m dev rs ws h tr]. cbn in *. subst h tr rs ws. rewrite Hl1, Hl2.
  assert (forall (X : Type) k i (p : thread_pc X), replicate k PIdle !! i = Some p -> p = PIdle) as Hrep.
  { intros X k' i p H. now apply lookup_replicate_1 in H as [-> _]. }
  split; [|split]; split; try apply idle_lock; try (intros i x Hx; now apply Hrep in Hx); try discriminate; try easy.
  - split; try assumption; try reflexivity; try exact I. intros i p ->%Hrep. exact I.
  - split; try assumption; try reflexivity; try exact I. intros i p ->%Hrep. exact I.
Qed.

Lemma sys_reachable_inv rb wb byte_value __val s :
  sys_reachable rb wb byte_value __val s ->
  exists d1 d2, blocks_apart rb wb byte_value __val d1 d2 /\ sys_inv rb wb byte_value __val d1 d2 s.
Proof.
  intros (s0 & H0 & Hrun). destruct (sys_initial_inv _ _ _ _ _ H0) as [Hap Hinv].
  eexists _, _. split; [exact Hap |]. clear H0. cbv zeta in *. revert Hap Hinv.
  generalize (blk (k_data (inbuffer (y_dev s0)))) (blk (k_data (outbuffer (y_dev s0)))). intros d1 d2 Hap.
  induction Hrun as [|x y z Hxy _ IH]; [easy |]. intros Hinv. apply IH. now apply (sys_step_inv _ _ _ _ _ _ Hap x).
Qed.



(** ** Progress *)

(** Own accesses a thread past the lock still needs. *)
Definition read_left (m : mem) (dev : com_dev) (p : thread_pc reader) : nat :=
  match p with
  | PIn r => reader_work (Spsc m (inbuffer dev) WIdle r [] []) + 1
  | PUnlock => 1
  | _ => 0
  end.
Definition write_left (m : mem) (dev : com_dev) (p : thread_pc writer) : nat :=
  match p with
  | PIn w => writer_work (Spsc m (outbuffer dev) w RIdle [] []) + 1
  | PUnlock => 1
  | _ => 0
  end.

Lemma reader_advances rb wb byte_value __val d1 d2 m dev rs ws h tr i p :
  blocks_apart rb wb byte_value __val d1 d2 -> sys_inv rb wb byte_value __val d1 d2 (Sys m dev rs ws h tr) ->
  rs !! i = Some p -> inside p = true ->
  (exists m' dev' p' tr', rthread rb i m dev p tr m' dev' p' tr') /\
  (forall m' dev' p' tr', rthread rb i m dev p tr m' dev' p' tr' ->
     (read_left m' dev' p' < read_left m dev p)%nat).
Proof.
  intros Hap ([Hs Hl Hc] & _ & _) Hp Hin.
  destruct p as [|len|len j|len|len|len|len|r|]; try discriminate Hin.
  2: { split; [eexists _, _, _, _; now apply RT_gate |]. intros m' dev' p' tr' Hst.
       inversion Hst; subst; cbn in *. match goal with H : Some _ = Some _ |- _ => injection H as <- <- end. cbn. lia. }
  pose proof (in_threads _ _ _ _ _ _ _ _ _ Hs i _ Hp) as Hr. cbn [shadow] in Hr.
  pose proof (in_view _ _ _ _ _ _ Hap _ _ _ _ _ _ i _ Hs Hr) as Hv.
  assert (r <> RIdle) as Hne by (intros ->; now apply Hc in Hp).
  destruct (reader_progress _ _ _ Hv Hne) as [[s' He] Hd]. split.
  - pose proof (Hc i r Hp) as Hcall. inversion He; subst; cbn in Hcall; try tauto.
    + eexists _, _, _, _. eapply RT_fifo; [apply (R_size (rb i)) | easy | easy].
    + eexists _, _, _, _. eapply RT_fifo; [eapply (R_byte (rb i)); eassumption | easy | easy].
    + eexists _, _, _, _. eapply RT_done. apply (R_publish (rb i) m (inbuffer dev) WIdle [] []).
  - intros m' dev' p' tr' Hst. destruct dev as [ib ob inb outb il ol rq wq pt mi iq].
    inversion Hst; subst; cbn [read_left]; try discriminate.
    + match goal with H : reads _ _ _ _ _ _ _ _ |- _ =>
        pose proof (Hd _ (reads_lift _ _ _ _ _ _ _ _ _ _ _ H)) as Hlt end. unfold reader_work in *. cbn in *. lia.
    + match goal with H : reads _ _ _ _ _ _ _ _ |- _ =>
        pose proof (Hd _ (reads_lift _ _ _ _ _ _ _ _ _ _ _ H)) as Hlt end. unfold reader_work in *. cbn in *. lia.
Qed.

Lemma writer_advances rb wb byte_value __val d1 d2 m dev rs ws h tr i p :
  blocks_apart rb wb byte_value __val d1 d2 -> sys_inv rb wb byte_value __val d1 d2 (Sys m dev rs ws h tr) ->
  ws !! i = Some p -> inside p = true ->
  (exists m' dev' p' tr', wthread wb i m dev p tr m' dev' p' tr') /\
  (forall m' dev' p' tr', wthread wb i m dev p tr m' dev' p' tr' ->
     (write_left m' dev' p' < write_left m dev p)%nat).
Proof.
  intros Hap (_ & [Hs Hl Hc] & _) Hp Hin.
  destruct p as [|len|len j|len|len|len|len|w|]; try discriminate Hin.
  2: { split; [eexists _, _, _, _; now apply WT_gate |]. intros m' dev' p' tr' Hst.
       inversion Hst; subst; cbn in *. match goal with H : Some _ = Some _ |- _ => injection H as <- <- end. cbn. lia. }
  pose proof (out_threads _ _ _ _ _ _ _ _ _ Hs i _ Hp) as Hw. cbn [shadow] in Hw.
  pose proof (out_view _ _ _ _ _ _ Hap _ _ _ _ _ _ i _ Hs Hw) as Hv.
  assert (w <> WIdle) as Hne by (intros ->; now apply Hc in Hp).
  destruct (writer_progress _ _ _ Hv Hne) as [[s' He] Hd]. split.
  - pose proof (Hc i w Hp) as Hcall. inversion He; subst; cbn in Hcall; try tauto.
    + eexists _, _, _, _. eapply WT_fifo; [apply (W_size (wb i)) | easy | easy].
    + eexists _, _, _, _. eapply WT_fifo; [eapply (W_byte (wb i)); eassumption | easy | easy].
    + eexists _, _, _, _. eapply WT_done; [apply (W_publish (wb i) m (outbuffer dev) RIdle [] []) | easy].
  - intros m' dev' p' tr' Hst. destruct dev as [ib ob inb outb il ol rq wq pt mi iq].
    inversion Hst; subst; cbn [write_left]; try discriminate.
    + match goal with H : writes _ _ _ _ _ _ _ _ |- _ =>
        pose proof (Hd _ (writes_lift _ _ _ _ _ _ _ _ _ _ _ H)) as Hlt end. unfold writer_work in *. cbn in *. lia.
    + match goal with H : writes _ _ _ _ _ _ _ _ |- _ =>
        pose proof (Hd _ (writes_lift _ _ _ _ _ _ _ _ _ _ _ H)) as Hlt end. unfold writer_work in *. cbn in *. lia.
Qed.

Lemma handler_advances rb wb byte_value __val d1 d2 m dev rs ws h tr :
  blocks_apart rb wb byte_value __val d1 d2 -> sys_inv rb wb byte_value __val d1 d2 (Sys m dev rs ws h tr) ->
  exists m' dev' h' tr', hthread byte_value __val m dev h tr m' dev' h' tr'.
Proof.
  intros Hap ([Hs _ _] & [Ho _ _] & [_ Hput Hget]).
  destruct h as [| |r|b| |b w| |]; try (eexists _, _, _, _; now constructor).
  - specialize (Hget r eq_refl). pose proof (out_r _ _ _ _ _ _ _ _ _ Ho) as Hr. cbn in Hr.
    pose proof (out_byte _ _ _ _ _ _ _ _ _ Ho) as He.
    assert (r <> RIdle) as Hne by now intros ->.
    destruct (reader_progress _ _ _ (out_view _ _ _ _ _ _ Hap _ _ _ _ _ _ 0%nat WIdle Ho I) Hne) as [[s' Hst] _].
    inversion Hst; subst; cbn in Hget; try tauto; try congruence.
    + eexists _, _, _, _. eapply HT_no_more; [now apply (R_get_empty byte_value) | easy].
    + eexists _, _, _, _. eapply HT_get; [now apply (R_get byte_value) | easy | easy].
    + eexists _, _, _, _. eapply HT_get; [eapply (R_byte byte_value); eassumption | easy | easy].
    + destruct Hr as (-> & _ & _ & bs & Hld & _). rewrite Hget, He in Hld. pose proof (load_length _ _ _ _ Hld) as Hl.
      destruct bs as [|b [|c bs]]; try discriminate Hl. eexists _, _, _, _. eapply (HT_got _ _ _ _ _ _ _ _ b).
      pose proof (R_publish byte_value m (outbuffer dev) WIdle [] [] (Ptr byte_value 0) len) as Hp.
      unfold bytes_at in Hp. rewrite Hget, He, Hld in Hp. rewrite Hget. exact Hp.
  - destruct (Hput b w eq_refl) as [Hld Hc]. pose proof (in_w _ _ _ _ _ _ _ _ _ Hs) as Hw. cbn in Hw.
    pose proof (in_byte _ _ _ _ _ _ _ _ _ Hs) as He. assert (w <> WIdle) as Hne by now intros ->.
    destruct (writer_progress _ _ _ (in_view _ _ _ _ _ _ Hap _ _ _ _ _ _ 0%nat RIdle Hs I) Hne) as [[s' Hst] _].
    inversion Hst; subst; cbn in Hc; try tauto; try congruence.
    + eexists _, _, _, _. eapply HT_full; [now apply (W_put_full __val) | easy].
    + eexists _, _, _, _. eapply HT_put; [now apply (W_put __val) | easy | easy].
    + eexists _, _, _, _. eapply HT_put; [eapply (W_byte __val); eassumption | easy | easy].
    + destruct Hw as (-> & _). eexists _, _, _, _. eapply (HT_stored _ _ _ _ _ _ _ _ _ b []).
      pose proof (W_publish __val m (inbuffer dev) RIdle [] [] (Ptr __val 0) len) as Hp.
      unfold bytes_at in Hp. rewrite Hc, He in Hp. change (1 * 1) with 1 in Hp. rewrite Hld in Hp. rewrite Hc. exact Hp.
Qed.

(** The log of each direction as bytes. *)
Lemma took_bytes (l : list (nat * list Z)) : log_bytes ((fun x => Took x.2) <$> l) = concat (snd <$> l).
Proof. unfold log_bytes. rewrite <- list_fmap_compose. reflexivity. Qed.

Lemma tx_bytes l : log_bytes ((fun b => Took [b]) <$> l) = l.
Proof. unfold log_bytes. induction l as [|b l IH]; [reflexivity |]. cbn in *. now f_equal. Qed.

(** ** Theorems *)

(** C4: The driver is safe under concurrent use.  Whatever number of threads read
    and write a device while its handler runs, and however their accesses
    interleave: the fifos stay well formed; at most one reading and one writing
    thread is past its lock; the bytes read from the chip are those the handler
    was done with and the one in its hand; the stored ones are exactly what the
    reads got, in the order of their index updates, and what is queued, so that
    no stored byte is lost, doubled, reordered or given to two threads; what the
    writes queued is exactly what went to the chip, the byte in the handler's
    hand and what is queued; and no byte that one party still has to write is
    one that another still has to read. *)
Theorem driver_threads_safe rb wb byte_value __val s :
  sys_reachable rb wb byte_value __val s ->
  let '(Sys m dev rs ws h tr) := s in
  (wf m (inbuffer dev) /\ wf m (outbuffer dev)) /\
  (forall i j p q, rs !! i = Some p -> rs !! j = Some q -> inside p = true -> inside q = true -> i = j) /\
  (forall i j p q, ws !! i = Some p -> ws !! j = Some q -> inside p = true -> inside q = true -> i = j) /\
  t_chip tr = (fst <$> t_rx tr) ++ in_hand h /\
  stored (t_rx tr) = concat (snd <$> t_reads tr) ++ contents m (inbuffer dev) /\
  concat (snd <$> t_writes tr) = t_tx tr ++ out_hand h ++ contents m (outbuffer dev) /\
  (forall i r x y, rs !! i = Some (PIn r) -> x ∈ writer_todo (in_writer h) -> y ∈ reader_todo r -> x.1 <> y.2) /\
  (forall i w x y, ws !! i = Some (PIn w) -> x ∈ writer_todo w -> y ∈ reader_todo (out_reader h) -> x.1 <> y.2).
Proof.
  intros (d1 & d2 & Hap & Hinv)%sys_reachable_inv. destruct s as [m dev rs ws h tr].
  destruct Hinv as ([Hs Hl Hc] & [Ho Hl' Hc'] & [Hch _ _]).
  split; [split; [apply (in_wf _ _ _ _ _ _ _ _ _ Hs) | apply (out_wf _ _ _ _ _ _ _ _ _ Ho)] |].
  split; [intros i j p q; apply (one_inside _ _ _ _ _ _ Hl) |].
  split; [intros i j p q; apply (one_inside _ _ _ _ _ _ Hl') |]. split; [exact Hch |].
  split; [rewrite <- (in_stream _ _ _ _ _ _ _ _ _ Hs); f_equal; apply took_bytes |].
  split; [rewrite <- (out_stream _ _ _ _ _ _ _ _ _ Ho), tx_bytes; now rewrite <- app_assoc |]. split.
  - intros i r x y Hi Hx Hy. pose proof (in_threads _ _ _ _ _ _ _ _ _ Hs i _ Hi) as Hr.
    exact (no_collision _ _ _ (in_view _ _ _ _ _ _ Hap _ _ _ _ _ _ i r Hs Hr) x y Hx Hy).
  - intros i w x y Hi Hx Hy. pose proof (out_threads _ _ _ _ _ _ _ _ _ Ho i _ Hi) as Hw.
    exact (no_collision _ _ _ (out_view _ _ _ _ _ _ Hap _ _ _ _ _ _ i w Ho Hw) x y Hx Hy).
Qed.

(** C14: Nobody waits inside.  In every reachable state a thread past its lock has a
    next access that is defined, and every access of its own leaves it fewer to
    do before the lock is free; and the handler, whatever the threads are doing,
    always has a defined next access: it never waits for a thread. *)
Theorem driver_threads_progress rb wb byte_value __val s :
  sys_reachable rb wb byte_value __val s ->
  let '(Sys m dev rs ws h tr) := s in
  (forall i p, rs !! i = Some p -> inside p = true ->
     (exists m' dev' p' tr', rthread rb i m dev p tr m' dev' p' tr') /\
     (forall m' dev' p' tr', rthread rb i m dev p tr m' dev' p' tr' ->
        (read_left m' dev' p' < read_left m dev p)%nat)) /\
  (forall i p, ws !! i = Some p -> inside p = true ->
     (exists m' dev' p' tr', wthread wb i m dev p tr m' dev' p' tr') /\
     (forall m' dev' p' tr', wthread wb i m dev p tr m' dev' p' tr' ->
        (write_left m' dev' p' < write_left m dev p)%nat)) /\
  (exists m' dev' h' tr', hthread byte_value __val m dev h tr m' dev' h' tr').
Proof.
  intros (d1 & d2 & Hap & Hinv)%sys_reachable_inv. destruct s as [m dev rs ws h tr].
  split; [|split; [|exact (handler_advances _ _ _ _ _ _ _ _ _ _ _ _ Hap Hinv)]]; intros i p Hp Hin;
    [exact (reader_advances _ _ _ _ _ _ _ _ _ _ _ _ _ _ Hap Hinv Hp Hin)
    |exact (writer_advances _ _ _ _ _ _ _ _ _ _ _ _ _ _ Hap Hinv Hp Hin)].
Qed.

(** *** A thread that nobody disturbs *)

Section Undisturbed.
Variables rb wb : nat -> Z.
Variables byte_value __val : Z.
Abbreviation run := (rtc (sys_step rb wb byte_value __val)).

Lemma reader_goes m dev rs ws h tr i p m1 dev1 p1 tr1 s' :
  rs !! i = Some p -> rthread rb i m dev p tr m1 dev1 p1 tr1 ->
  run (Sys m1 dev1 (<[i := p1]> rs) ws h tr1) s' -> run (Sys m dev rs ws h tr) s'.
Proof. intros Hp Hst. apply rtc_l. now apply (step_reader _ _ _ _ _ _ _ _ _ _ i p). Qed.

Lemma writer_goes m dev rs ws h tr i p m1 dev1 p1 tr1 s' :
  ws !! i = Some p -> wthread wb i m dev p tr m1 dev1 p1 tr1 ->
  run (Sys m1 dev1 rs (<[i := p1]> ws) h tr1) s' -> run (Sys m dev rs ws h tr) s'.
Proof. intros Hp Hst. apply rtc_l. now apply (step_writer _ _ _ _ _ _ _ _ _ _ i p). Qed.

Lemma at_index {X} (ts : list (thread_pc X)) i p q : ts !! i = Some p -> <[i := q]> ts !! i = Some q.
Proof. intros Hp. apply list_lookup_insert_eq. now apply lookup_lt_is_Some; exists p. Qed.

Lemma reader_copies m m' ib ob inb outb il ol rq wq pt mi iq rs ws h tr i p todo buf n :
  let dev := ComDev ib ob inb outb il ol rq wq pt mi iq in
  rs !! i = Some p -> run_moves m todo = Ok m' ->
  run (Sys m dev (<[i := PIn (RCopy todo buf n)]> rs) ws h tr) (Sys m' dev (<[i := PIn (RCopy [] buf n)]> rs) ws h tr).
Proof.
  intros dev Hp. revert m. induction todo as [|mv todo IH]; intros m H; cbn in H; [injection H as ->; apply rtc_refl |].
  destruct (move_byte m mv) as [m1|] eqn:E; [|discriminate H]. cbn in H.
  eapply reader_goes; [eapply at_index; exact Hp | | rewrite list_insert_insert_eq; exact (IH m1 H)].
  apply (RT_fifo rb i m dev tr _ m1 inb); [|easy | easy]. exact (R_byte (rb i) m m1 inb WIdle [] [] [] mv todo buf n E).
Qed.

Lemma writer_copies m m' ib ob inb outb il ol rq wq pt mi iq rs ws h tr i p todo buf n :
  let dev := ComDev ib ob inb outb il ol rq wq pt mi iq in
  ws !! i = Some p -> run_moves m todo = Ok m' ->
  run (Sys m dev rs (<[i := PIn (WCopy todo buf n)]> ws) h tr) (Sys m' dev rs (<[i := PIn (WCopy [] buf n)]> ws) h tr).
Proof.
  intros dev Hp. revert m. induction todo as [|mv todo IH]; intros m H; cbn in H; [injection H as ->; apply rtc_refl |].
  destruct (move_byte m mv) as [m1|] eqn:E; [|discriminate H]. cbn in H.
  eapply writer_goes; [eapply at_index; exact Hp | | rewrite list_insert_insert_eq; exact (IH m1 H)].
  apply (WT_fifo wb i m dev tr _ m1 outb); [|easy | easy]. exact (W_byte (wb i) m m1 outb RIdle [] [] [] mv todo buf n E).
Qed.

(** Through the wait and the lock, when neither holds the thread up. *)
Ltac through lem := eapply lem; [first [eassumption | eapply at_index; eassumption] | | rewrite ?list_insert_insert_eq].

Lemma read_undisturbed m dev rs ws h tr i len :
  wf m (inbuffer dev) -> k_esize (inbuffer dev) = 1 -> rb i <> blk (k_data (inbuffer dev)) ->
  reader_inv (rb i) m (inbuffer dev) (RSize (Ptr (rb i) 0) len) ->
  rs !! i = Some (PTest len) -> kfifo_is_empty (inbuffer dev) = false -> input_lock dev = 0 ->
  exists m' f' n bs, kfifo_out (in_type dev) m (inbuffer dev) (Ptr (rb i) 0) len = Ok (m', f', n) /\
    load m' (Ptr (rb i) 0) n = Ok bs /\
    run (Sys m dev rs ws h tr) (Sys m' (set_inbuffer dev f') (<[i := PIdle]> rs) ws h (with_read tr i bs)).
Proof.
  intros Hwf He Hne (_ & Hlen & Hv) Hp Hem Hlk. destruct dev as [ib ob inb outb il ol rq wq pt mi iq]. cbn in *. subst il.
  pose proof (used_nonneg inb). rewrite He, Z.mul_1_r in Hv.
  destruct (valid_split _ _ _ (Z.min len (used inb)) Hv) as [Hv' _]; [lia |].
  destruct (out_ok m inb (Ptr (rb i) 0) len Hwf) as (m' & E & _ & Hld & _);
    [lia | split; [exact Hne | now rewrite He, Z.mul_1_r] |].
  rewrite He, Z.mul_1_r in Hld. change (kfifo_out _ m inb _ len) with (__kfifo_out m inb (Ptr (rb i) 0) len).
  eexists _, _, _, _. split; [exact E | split; [exact Hld |]].
  unfold __kfifo_out, __kfifo_out_peek in E. set (n := if _ <? _ then _ else _) in E.
  destruct (kfifo_copy_out m inb _ n (k_out inb)) as [m1|] eqn:Ec; [|discriminate E]. cbn in E. injection E as -> _ En.
  rewrite <- En in *.
  through reader_goes; [apply RT_gate; reflexivity |].
  through reader_goes; [apply RT_gate; cbn; unfold kfifo_is_empty in *; cbn; rewrite Hem; reflexivity |].
  through reader_goes; [apply RT_gate; reflexivity |]. through reader_goes; [apply RT_gate; reflexivity |]. cbn.
  through reader_goes; [eapply RT_fifo; [apply (R_size (rb i)) | easy | easy] |]. cbn. fold n.
  etrans; [eapply reader_copies; [exact Hp | apply run_copy_out; [exact Hne | exact Ec]] |].
  through reader_goes; [eapply (RT_done rb i m' _ tr _ m' _ (bytes_at m' (Ptr (rb i) 0) (n * k_esize inb)));
    apply (R_publish (rb i) m' inb WIdle [] []) |]. cbn.
  through reader_goes; [apply RT_gate; reflexivity |]. cbn. unfold bytes_at. rewrite He, Z.mul_1_r, Hld. apply rtc_refl.
Qed.

Lemma write_undisturbed m dev rs ws h tr i len :
  wf m (outbuffer dev) -> k_esize (outbuffer dev) = 1 -> wb i <> blk (k_data (outbuffer dev)) ->
  writer_inv (wb i) m (outbuffer dev) (WSize (Ptr (wb i) 0) len) ->
  ws !! i = Some (PTest len) -> kfifo_is_full (outbuffer dev) = false -> output_lock dev = 0 ->
  exists m' f' n bs, kfifo_in (out_type dev) m (outbuffer dev) (Ptr (wb i) 0) len = Ok (m', f', n) /\
    load m (Ptr (wb i) 0) n = Ok bs /\
    run (Sys m dev rs ws h tr) (Sys m' (set_outbuffer dev f') rs (<[i := PIdle]> ws) h (with_write tr i bs)).
Proof.
  intros Hwf He Hne (_ & Hlen & Hv) Hp Hfu Hlk. destruct dev as [ib ob inb outb il ol rq wq pt mi iq]. cbn in *. subst ol.
  pose proof (wf_used _ _ Hwf). rewrite He, Z.mul_1_r in Hv.
  destruct (valid_split _ _ _ (Z.min len (capacity outb - used outb)) Hv) as [Hv' _]; [lia |].
  destruct (load_valid _ _ _ Hv') as [bs Hld].
  destruct (in_ok m outb (Ptr (wb i) 0) len bs Hwf) as (m' & E & _ & _ & Ho);
    [lia | split; [exact Hne | now rewrite He, Z.mul_1_r] |].
  change (kfifo_in _ m outb _ len) with (__kfifo_in m outb (Ptr (wb i) 0) len).
  eexists _, _, _, _. split; [exact E | split; [exact Hld |]].
  unfold __kfifo_in in E. set (n := if _ <? _ then _ else _) in E.
  destruct (kfifo_copy_in m outb _ n (k_in outb)) as [m1|] eqn:Ec; [|discriminate E]. cbn in E. injection E as -> _ En.
  rewrite <- En in *.
  through writer_goes; [apply WT_gate; reflexivity |].
  through writer_goes; [apply WT_gate; cbn; unfold kfifo_is_full, kfifo_len in *; cbn; rewrite Hfu; reflexivity |].
  through writer_goes; [apply WT_gate; reflexivity |]. through writer_goes; [apply WT_gate; reflexivity |]. cbn.
  through writer_goes; [eapply WT_fifo; [apply (W_size (wb i)) | easy | easy] |]. cbn. fold n.
  etrans; [eapply writer_copies; [exact Hp | apply run_copy_in; [exact Hne | exact Ec]] |].
  through writer_goes; [eapply (WT_done wb i m' _ tr _ m' _ (bytes_at m' (Ptr (wb i) 0) (n * k_esize outb)));
    [apply (W_publish (wb i) m' outb RIdle [] []) | easy] |]. cbn.
  through writer_goes; [apply WT_gate; reflexivity |]. cbn. unfold bytes_at.
  rewrite He, Z.mul_1_r, (load_only_block _ m m' (Ptr (wb i) 0) n Ho Hne), Hld. apply rtc_refl.
Qed.
End Undisturbed.

(** C15: The accesses are those of the calls.  In every reachable state, a thread of
    [uart16550_read] at its wait, with input queued and the lock free, has a run
    of its own through the lock and back, to the memory and the fifo that
    [kfifo_out] returns, with the bytes in its buffer; and a thread of
    [uart16550_write], with room in the queue and the lock free, to those of
    [kfifo_in]. *)
Theorem driver_threads_sequential rb wb byte_value __val m dev rs ws h tr i len :
  sys_reachable rb wb byte_value __val (Sys m dev rs ws h tr) ->
  (rs !! i = Some (PTest len) -> kfifo_is_empty (inbuffer dev) = false -> input_lock dev = 0 ->
   exists m' f' n bs, kfifo_out (in_type dev) m (inbuffer dev) (Ptr (rb i) 0) len = Ok (m', f', n) /\
     load m' (Ptr (rb i) 0) n = Ok bs /\
     rtc (sys_step rb wb byte_value __val) (Sys m dev rs ws h tr)
       (Sys m' (set_inbuffer dev f') (<[i := PIdle]> rs) ws h (with_read tr i bs))) /\
  (ws !! i = Some (PTest len) -> kfifo_is_full (outbuffer dev) = false -> output_lock dev = 0 ->
   exists m' f' n bs, kfifo_in (out_type dev) m (outbuffer dev) (Ptr (wb i) 0) len = Ok (m', f', n) /\
     load m (Ptr (wb i) 0) n = Ok bs /\
     rtc (sys_step rb wb byte_value __val) (Sys m dev rs ws h tr)
       (Sys m' (set_outbuffer dev f') rs (<[i := PIdle]> ws) h (with_write tr i bs))).
Proof.
  intros (d1 & d2 & Hap & ([Hs _ _] & [Ho _ _] & _))%sys_reachable_inv.
  destruct Hs as [Hw1 Hd1 He1 _ _ Ht1], Ho as [Hw2 Hd2 He2 _ _ Ht2].
  destruct (rb_ne _ _ _ _ _ _ Hap i) as (_ & _ & N1 & _), (wb_ne _ _ _ _ _ _ Hap i) as (_ & _ & _ & N2).
  split; intros Hp.
  - apply read_undisturbed; try assumption; [now rewrite Hd1 | exact (Ht1 i _ Hp)].
  - apply write_undisturbed; try assumption; [now rewrite Hd2 | exact (Ht2 i _ Hp)].
Qed.

(** *** A run *)

(** Two reading threads on fifos of four bytes: the handler stores a byte, the
    first thread takes the lock, the second finds it taken, and the handler
    receives the next byte. *)
Definition run_rb (i : nat) : Z := 100 + 2 * Z.of_nat i.
Definition run_wb (i : nat) : Z := 101 + 2 * Z.of_nat i.
Definition run_dev (i : Z) (lock : Z) : com_dev :=
  ComDev (Ptr 3 0) (Ptr 4 0) (Kfifo i 0 3 1 (Ptr 3 0)) (Kfifo 0 0 3 1 (Ptr 4 0))
    lock 0 (Wait.WQ 1 false) (Wait.WQ 1 false) COM2_BASEPORT 1 COM2_IRQ.
Definition run0 : system :=
  Sys (Mem {[3 := [0; 0; 0; 0]; 4 := [0; 0; 0; 0]]} ∅) (run_dev 0 0) [PIdle; PIdle] [] HIdle (Trace [] [] [] [] []).
Definition run1 : system :=
  Sys (Mem {[2 := [8]; 3 := [7; 0; 0; 0]; 4 := [0; 0; 0; 0]; 100 := [0; 0]; 102 := [0]]} ∅) (run_dev 1 1)
    [PIn (RSize (Ptr 100 0) 2); PTest 1] [] (HPut 8 (WPut (Ptr 2 0))) (Trace [7; 8] [(7, true)] [] [] []).

Lemma run0_initial : sys_initial run_rb run_wb 1 2 run0.
Proof.
  assert (forall d, d = 3 \/ d = 4 -> wf (y_mem run0) (Kfifo 0 0 3 1 (Ptr d 0))) as Hwf.
  { intros d [->| ->]; (split; [exists 2; split; [lia | reflexivity] | cbn; lia | cbn; lia | cbn; lia | reflexivity
      | vm_compute; discriminate | eexists; split; reflexivity]). }
  split; cbn; try reflexivity; auto.
  - split; unfold run_rb, run_wb; intros; try lia; cbn in *.
    + repeat constructor; set_solver.
    + rewrite !not_elem_of_cons. repeat split; try lia. apply not_elem_of_nil.
    + rewrite !not_elem_of_cons. repeat split; try lia. apply not_elem_of_nil.
  - now exists 2%nat.
  - now exists 0%nat.
Qed.

(** One access of the handler, or of reader [i]. *)
Ltac handler_moves tac := eapply rtc_l; [eapply step_handler; tac |].
Ltac reader_moves i tac := eapply rtc_l; [eapply (step_reader _ _ _ _ _ _ _ _ _ _ i); [reflexivity | tac] |].

(** The first thread at its wait, the byte stored. *)
Definition run_mid : system :=
  Sys (Mem {[2 := [7]; 3 := [7; 0; 0; 0]; 4 := [0; 0; 0; 0]; 100 := [0; 0]]} ∅) (run_dev 1 0)
    [PTest 2; PIdle] [] HRecv (Trace [7] [(7, true)] [] [] []).

Lemma run_mid_steps : rtc (sys_step run_rb run_wb 1 2) run0 run_mid.
Proof.
  unfold run0. handler_moves ltac:(eapply HT_irq).
  handler_moves ltac:(eapply HT_cannot_send).
  handler_moves ltac:(eapply (HT_recv 1 2 _ _ _ 7)).
  handler_moves ltac:(eapply HT_put; [apply (W_put 2); reflexivity | easy | easy]).
  handler_moves ltac:(eapply HT_put; [eapply (W_byte 2 _ _ _ _ _ _ [] _ []); vm_compute; reflexivity | easy | easy]).
  handler_moves ltac:(eapply (HT_stored 1 2 _ _ _ _ _ _ _ 7 []); refine (W_publish 2 _ _ RIdle [] [] (Ptr 2 0) 1)).
  reader_moves 0%nat ltac:(eapply (RT_call run_rb 0%nat _ _ _ 2 [0; 0]); [lia | vm_compute; discriminate]).
  match goal with |- rtc _ ?s _ => replace s with run_mid; [apply rtc_refl |] end. vm_compute. reflexivity.
Qed.

Lemma run_mid_reachable : sys_reachable run_rb run_wb 1 2 run_mid.
Proof. exists run0. split; [apply run0_initial | apply run_mid_steps]. Qed.

Lemma run1_reachable : sys_reachable run_rb run_wb 1 2 run1.
Proof.
  exists run0. split; [apply run0_initial |]. etrans; [apply run_mid_steps |]. unfold run_mid.
  do 4 reader_moves 0%nat ltac:(eapply RT_gate; vm_compute; reflexivity).
  reader_moves 1%nat ltac:(eapply (RT_call run_rb 1%nat _ _ _ 1 [0]); [lia | vm_compute; discriminate]).
  do 3 reader_moves 1%nat ltac:(eapply RT_gate; vm_compute; reflexivity).
  handler_moves ltac:(eapply (HT_recv 1 2 _ _ _ 8)).
  match goal with |- rtc _ ?s _ => replace s with run1; [apply rtc_refl |] end. vm_compute. reflexivity.
Qed.

Lemma driver_threads_safe_witness :
  stored [(7, true)] = contents (y_mem run1) (inbuffer (y_dev run1)) /\
  forall i j p q, y_readers run1 !! i = Some p -> y_readers run1 !! j = Some q ->
    inside p = true -> inside q = true -> i = j.
Proof.
  destruct (driver_threads_safe run_rb run_wb 1 2 run1 run1_reachable) as (_ & Hx & _ & _ & Hs & _).
  split; [exact Hs | exact Hx].
Defined.

Lemma driver_threads_progress_witness :
  exists m' dev' p' tr', rthread run_rb 0 (y_mem run1) (y_dev run1) (PIn (RSize (Ptr 100 0) 2)) (y_trace run1) m' dev' p' tr'.
Proof.
  destruct (driver_threads_progress run_rb run_wb 1 2 run1 run1_reachable) as (Hr & _ & _).
  destruct (Hr 0%nat (PIn (RSize (Ptr 100 0) 2)) eq_refl eq_refl) as [He _]. exact He.
Defined.

Lemma driver_threads_sequential_witness :
  exists m' f' n bs, kfifo_out (in_type (y_dev run_mid)) (y_mem run_mid) (inbuffer (y_dev run_mid)) (Ptr 100 0) 2 = Ok (m', f', n) /\
    load m' (Ptr 100 0) n = Ok bs /\ n = 1 /\ bs = [7].
Proof.
  destruct (driver_threads_sequential run_rb run_wb 1 2 (y_mem run_mid) (y_dev run_mid) (y_readers run_mid) [] HRecv
    (y_trace run_mid) 0 2 run_mid_reachable) as [Hr _].
  destruct (Hr eq_refl eq_refl eq_refl) as (m' & f' & n & bs & E & Hld & _).
  exists m', f', n, bs. split; [exact E | split; [exact Hld |]].
  vm_compute in E. injection E as <- _ <-. vm_compute in Hld. injection Hld as <-. auto.
Defined.

(** *** A wake-up taken away *)

(** The first thread has been woken and the second, which found the queue empty
    before, is about to raise the flag they share. *)
Definition flag_dev (locked : bool) : com_dev :=
  set_read_wq (run_dev 1 0) (Wait.WQ 1 locked).
Definition run_woken (flag : bool) (second : thread_pc reader) : system :=
  Sys (Mem {[2 := [7]; 3 := [7; 0; 0; 0]; 4 := [0; 0; 0; 0]; 100 := [0; 0]; 102 := [0]]} ∅) (flag_dev flag)
    [PSpin 2; second] [] HIdle (Trace [7] [(7, true)] [] [] []).

Lemma run_woken_reachable : sys_reachable run_rb run_wb 1 2 (run_woken false (PRaise 1)).
Proof.
  exists run0. split; [apply run0_initial |]. unfold run0.
  reader_moves 0%nat ltac:(eapply (RT_call run_rb 0%nat _ _ _ 2 [0; 0]); [lia | vm_compute; discriminate]).
  reader_moves 1%nat ltac:(eapply (RT_call run_rb 1%nat _ _ _ 1 [0]); [lia | vm_compute; discriminate]).
  do 3 reader_moves 0%nat ltac:(eapply RT_gate; vm_compute; reflexivity).
  do 2 reader_moves 1%nat ltac:(eapply RT_gate; vm_compute; reflexivity).
  handler_moves ltac:(eapply HT_irq).
  handler_moves ltac:(eapply HT_cannot_send).
  handler_moves ltac:(eapply (HT_recv 1 2 _ _ _ 7)).
  handler_moves ltac:(eapply HT_put; [apply (W_put 2); reflexivity | easy | easy]).
  handler_moves ltac:(eapply HT_put; [eapply (W_byte 2 _ _ _ _ _ _ [] _ []); vm_compute; reflexivity | easy | easy]).
  handler_moves ltac:(eapply (HT_stored 1 2 _ _ _ _ _ _ _ 7 []); refine (W_publish 2 _ _ RIdle [] [] (Ptr 2 0) 1)).
  handler_moves ltac:(eapply HT_no_data).
  handler_moves ltac:(eapply HT_wake_read).
  handler_moves ltac:(eapply HT_wake_write).
  match goal with |- rtc _ ?s _ => replace s with (run_woken false (PRaise 1)); [apply rtc_refl |] end.
  vm_compute. reflexivity.
Qed.

(** Two readers share one wake-up flag, and one can take the other's wake-up
    away.  There is a reachable state in which the handler has stored a byte and
    woken a waiting thread, which would go on with its next access; one access
    of a second thread later both spin although the byte is queued, and no
    access of either changes anything: only another interrupt frees them. *)
Theorem driver_threads_stolen_wakeup :
  let s := run_woken false (PRaise 1) in
  let s' := run_woken true (PSpin 1) in
  sys_reachable run_rb run_wb 1 2 s /\
  gate_step kfifo_is_empty (RSize (Ptr (run_rb 0) 0)) (in_gate (y_dev s)) (PSpin 2) = Some (in_gate (y_dev s), PTry 2) /\
  sys_step run_rb run_wb 1 2 s s' /\
  contents (y_mem s') (inbuffer (y_dev s')) = [7] /\
  (forall i p m' dev' p' tr', y_readers s' !! i = Some p ->
     rthread run_rb i (y_mem s') (y_dev s') p (y_trace s') m' dev' p' tr' ->
     m' = y_mem s' /\ dev' = y_dev s' /\ p' = p /\ tr' = y_trace s').
Proof.
  intros s s'. split; [apply run_woken_reachable |]. split; [reflexivity |]. split.
  { apply (step_reader run_rb run_wb 1 2 _ _ [PSpin 2; PRaise 1] [] HIdle _ 1 (PRaise 1)); [reflexivity |].
    exact (RT_gate run_rb 1 _ (flag_dev false) _ (PRaise 1) (Gate (inbuffer (flag_dev true)) 0 (Wait.WQ 1 true)) (PSpin 1) eq_refl). }
  split; [vm_compute; reflexivity |].
  intros i p m' dev' p' tr' Hp Hst. destruct i as [|[|i]]; cbn in Hp; [| |destruct i; discriminate Hp];
    injection Hp as <-; inversion Hst; subst;
    match goal with H : gate_step _ _ _ _ = Some _ |- _ => cbn in H; injection H as <- <- end; auto.
Qed.

End UartThreads.
