(* ===== verification/Chardev.v ===== *)
(** * The character device registry

    src/libs/liblinux/src/cdev.c: the list of registered classes (one per
    /dev entry), the list of character devices, and the calls a driver makes on
    them.  Both are intrusive lists over the [heap] of ListHead.v; the other
    fields of a structure are kept by its address.  The heads are static, every
    other structure comes from [malloc], which is the parameter [ObjAlloc]. *)

From S2P Require Import Prelude ListHead.
Import ListHead.

(** struct cdev: the fields in use. *)
Record cdev := Cdev { cd_ops : Z; cd_owner : Z; cd_dev : Z }.

(** struct seL4_Class, apart from its list node. *)
Record seL4_Class := Class_ { cl_cdev : Z; cl_name : list Z; cl_dev : Z }.

(** The state of cdev.c: the nodes of both lists, the classes and the elements
    of the device list by address, the [struct cdev]s, the live [struct class]es,
    and which addresses are in use and which of them came from [malloc]. *)
Record registry := Reg {
  rg_heap : heap;
  rg_classes : gmap Z seL4_Class;
  rg_cur : Z;
  rg_devs : gmap Z Z;
  rg_cdevs : gmap Z cdev;
  rg_cls : gset Z;
  rg_live : gset Z;
  rg_dyn : gset Z
}.

(** What is asked of [malloc]: a structure of the source, or a string of [n]
    bytes. *)
Inductive object :=
| O_cdev | O_device_list | O_seL4_Class | O_device | O_class | O_opened_file | O_file
| O_resource | O_IRQData | O_module | O_module_list | O_struct_module
| O_string (n : nat).

(** [malloc] of an object, by the addresses in use.  It gives out unused
    addresses of the 32-bit space below the page of the error pointers; what a
    new [struct cdev] at an address holds is whatever was there. *)
Class ObjAlloc := {
  obj_malloc : gset Z -> object -> option Z;
  cdev_junk : Z -> cdev
}.
Class ObjAllocLaws (A : ObjAlloc) : Prop :=
  obj_fresh live o a : obj_malloc live o = Some a -> 0 < a < 2 ^ 32 - 4095 /\ a ∉ live.

(** There is memory for these objects, one after the other. *)
Fixpoint enough {A : ObjAlloc} (os : list object) (live : gset Z) : bool :=
  match os with
  | [] => true
  | o :: os =>
      match obj_malloc live o with
      | Some a => enough os ({[a]} ∪ live)
      | None => false
      end
  end.

Module Chardev.

(** ** C strings: bytes before the terminator *)

Fixpoint strncmp (n : nat) (a b : list Z) : Z :=
  match n with
  | O => 0
  | S n =>
      let x := default 0 (head a) in
      let y := default 0 (head b) in
      if x =? y then (if x =? 0 then 0 else strncmp n (tail a) (tail b)) else x - y
  end.

(** "/dev/" *)
Definition dev_prefix : list Z := [47; 100; 101; 118; 47].

(** [snprintf(name, 256, "/dev/%s", fmt)] *)
Definition dev_name (fmt : list Z) : list Z := take 255 (dev_prefix ++ fmt).

(** ** State *)

Definition classes_head : Z := 1.    (** &seL4_RegisteredClasses.others *)
Definition devs_head : Z := 2.       (** &all_devs.siblings *)

Definition with_heap (r : registry) (h : heap) : registry :=
  let '(Reg _ c u d v k l y) := r in Reg h c u d v k l y.
Definition with_classes (r : registry) (c : gmap Z seL4_Class) : registry :=
  let '(Reg h _ u d v k l y) := r in Reg h c u d v k l y.
Definition with_cur (r : registry) (u : Z) : registry :=
  let '(Reg h c _ d v k l y) := r in Reg h c u d v k l y.
Definition with_devs (r : registry) (d : gmap Z Z) : registry :=
  let '(Reg h c u _ v k l y) := r in Reg h c u d v k l y.
Definition with_cdevs (r : registry) (v : gmap Z cdev) : registry :=
  let '(Reg h c u d _ k l y) := r in Reg h c u d v k l y.
Definition with_cls (r : registry) (k : gset Z) : registry :=
  let '(Reg h c u d v _ l y) := r in Reg h c u d v k l y.
Definition with_alloc (r : registry) (l y : gset Z) : registry :=
  let '(Reg h c u d v k _ _) := r in Reg h c u d v k l y.

(** The statics: empty lists, no device. *)
Definition initial (statics : gset Z) : registry :=
  Reg (Heap {[ classes_head := classes_head; devs_head := devs_head ]}
            {[ classes_head := classes_head; devs_head := devs_head ]})
    ∅ 0 ∅ ∅ ∅ ({[ classes_head; devs_head ]} ∪ statics) ∅.

Definition cdev_at (r : registry) (p : Z) : res cdev :=
  match rg_cdevs r !! p with Some c => Ok c | None => Err UB end.
Definition class_at (r : registry) (a : Z) : res seL4_Class :=
  match rg_classes r !! a with Some c => Ok c | None => Err UB end.
Definition dev_entry_at (r : registry) (a : Z) : res Z :=
  match rg_devs r !! a with Some c => Ok c | None => Err UB end.

(** ** Operations *)

Section Ops.
Context {A : ObjAlloc}.

Definition alloc (r : registry) (o : object) : registry * Z :=
  match obj_malloc (rg_live r) o with
  | Some a => (with_alloc r ({[a]} ∪ rg_live r) ({[a]} ∪ rg_dyn r), a)
  | None => (r, 0)
  end.

(** [kfree(NULL)] does nothing; anything else must come from [malloc]. *)
Definition release (r : registry) (a : Z) : res registry :=
  if a =? 0 then Ok r
  else
    let! _ := defined_if (bool_decide (a ∈ rg_dyn r)) in
    Ok (with_alloc r (rg_live r ∖ {[a]}) (rg_dyn r ∖ {[a]})).

(** A list node inside a new structure, its links not yet set. *)
Definition raw_node (h : heap) (a : Z) : heap := Heap (<[a := 0]> (nx h)) (<[a := 0]> (pv h)).

Definition cdev_init (r : registry) (dev ops : Z) : res registry :=
  let! c := cdev_at r dev in
  Ok (with_cdevs r (<[dev := Cdev ops (cd_owner c) (cd_dev c)]> (rg_cdevs r))).

Definition cdev_alloc (r : registry) : registry * Z :=
  let '(r, dev) := alloc r O_cdev in
  if dev =? 0 then (r, 0)
  else (with_cdevs r (<[dev := cdev_junk dev]> (rg_cdevs r)), dev).

Definition cdev_put (r : registry) (p : Z) : res registry :=
  let! _ := cdev_at r p in
  let! _ := cassert (negb (p =? 0)) in
  if rg_cur r =? 0 then Ok (with_cur r p)
  else
    let '(r, l) := alloc r O_device_list in
    let! _ := cassert (negb (l =? 0)) in
    let r := with_devs r (<[l := p]> (rg_devs r)) in
    let! h := list_add (raw_node (rg_heap r) l) l devs_head in
    Ok (with_heap r h).

(** What the loop of [debug_device_status] prints, newest device first. *)
Definition debug_device_status (fuel : nat) (r : registry) : res (list (list Z * Z)) :=
  let! x := list_for_each_entry (R := Empty_set)
    (fun out cur =>
       let! c := class_at r cur in
       let! d := cdev_at r (cl_cdev c) in
       let! _ := defined_if (negb (cd_ops d =? 0)) in
       Ok (inl (out ++ [(cl_name c, cl_dev c)])))
    fuel (rg_heap r) classes_head [] in
  match x with inl out => Ok out | inr e => match e with end end.

(** The address of the class, 0 for NULL. *)
Definition device_by_name (fuel : nat) (r : registry) (name : list Z) : res Z :=
  let! x := list_for_each_entry
    (fun (_ : unit) cls =>
       let! c := class_at r cls in
       if strncmp 256 (cl_name c) name =? 0 then Ok (inr cls) else Ok (inl tt))
    fuel (rg_heap r) classes_head tt in
  match x with inr cls => Ok cls | inl _ => Ok 0 end.

Definition cdev_add_body (parent dev : Z) (r : registry) (cur : Z) : res (registry + registry * Z) :=
  let! c := class_at r cur in
  if cl_dev c =? dev then
    if negb (cl_cdev c =? 0) then Ok (inr (r, - EINVAL))
    else Ok (inl (with_classes r (<[cur := Class_ parent (cl_name c) (cl_dev c)]> (rg_classes r))))
  else Ok (inl r).

(** The loop leaves the list itself alone. *)
Definition cdev_add (fuel : nat) (r : registry) (parent dev x : Z) : res (registry * Z) :=
  let! x := list_for_each_entry (cdev_add_body parent dev) fuel (rg_heap r) classes_head r in
  match x with inr p => Ok p | inl r => Ok (r, 0) end.

Definition cdev_del (fuel : nat) (r : registry) (dev : Z) : res registry :=
  let! _ := cassert (negb (dev =? 0)) in
  let! x := list_for_each_entry
    (fun (_ : unit) cur =>
       let! d := dev_entry_at r cur in
       if d =? dev then Ok (inr cur) else Ok (inl tt))
    fuel (rg_heap r) devs_head tt in
  let! r :=
    match x with
    | inr cur => let! h := list_del (rg_heap r) cur in Ok (with_heap r h)
    | inl _ => Ok r
    end in
  release r dev.

(** These only print. *)
Definition cd_forget (r : registry) : registry := r.
Definition unregister_chrdev_region (r : registry) (d x : Z) : registry := r.
Definition register_chrdev_region (r : registry) (dev start : Z) : registry * Z := (r, 0).
Definition __release_region (r : registry) (start n : Z) : registry := r.

(** Reading [cls->name] for the message. *)
Definition read_class (r : registry) (cls : Z) : res unit :=
  defined_if (bool_decide (cls ∈ rg_cls r)).

Definition device_destroy (r : registry) (cls dev : Z) : res registry :=
  let! _ := read_class r cls in
  Ok r.

Definition class_unregister (r : registry) (cls : Z) : res registry :=
  let! _ := read_class r cls in
  Ok r.

(** Only the allocation of the class is checked. *)
Definition device_create (r : registry) (cls dev : Z) (fmt : list Z) : res (registry * Z) :=
  let! _ := read_class r cls in
  let '(r, device) := alloc r O_device in
  let! _ := defined_if (negb (device =? 0)) in
  let '(r, init_name) := alloc r (O_string (length fmt)) in
  let! _ := defined_if (negb (init_name =? 0)) in
  let '(r, new) := alloc r O_seL4_Class in
  if new =? 0 then Ok (r, 0)
  else
    let r := with_classes r (<[new := Class_ 0 (dev_name fmt) dev]> (rg_classes r)) in
    let! h := list_add (raw_node (rg_heap r) new) new classes_head in
    Ok (with_heap r h, device).

Definition __class_create (r : registry) (name : list Z) : res (registry * Z) :=
  let '(r, cls) := alloc r O_class in
  if cls =? 0 then Ok (r, 0)
  else
    let '(r, p) := alloc r (O_string (length name)) in
    let! _ := defined_if (negb (p =? 0)) in
    Ok (with_cls r ({[cls]} ∪ rg_cls r), cls).

(** The message reads the structure just freed. *)
Definition class_destroy (r : registry) (cls : Z) : res registry :=
  let! r := release r cls in
  let r := with_cls r (rg_cls r ∖ {[cls]}) in
  let! _ := read_class r cls in
  Ok r.
End Ops.

(** ** The registry as a list of classes *)

(** [cl] are the registered classes and [dl] the further devices, newest first. *)
Record reg_ok (r : registry) (cl dl : list Z) : Prop := {
  ro_classes : is_list (rg_heap r) classes_head cl;
  ro_devs : is_list (rg_heap r) devs_head dl;
  ro_apart : forall a, a ∈ devs_head :: dl -> a ∉ classes_head :: cl;
  ro_recs : forall a, a ∈ cl -> is_Some (rg_classes r !! a);
  ro_entries : forall a, a ∈ dl -> is_Some (rg_devs r !! a);
  ro_live : forall a, a ∈ classes_head :: cl ++ devs_head :: dl -> a ∈ rg_live r;
  ro_null : 0 ∉ rg_live r
}.

Definition no_class : seL4_Class := Class_ 0 [] 0.
Definition rec_of (r : registry) (a : Z) : seL4_Class := default no_class (rg_classes r !! a).
Definition recs (r : registry) (cl : list Z) : list seL4_Class := rec_of r <$> cl.

(** A string without terminator inside. *)
Definition cstring (s : list Z) : Prop := Forall (fun x => x <> 0) s.

Lemma strncmp_eq n a b :
  cstring a -> cstring b -> (length a < n)%nat -> (strncmp n a b =? 0) = bool_decide (a = b).
Proof.
  revert a b. induction n as [|n IH]; intros a b Ha Hb Hl; [lia |]. cbn [strncmp].
  destruct a as [|x a], b as [|y b]; cbn [hd_error tail default id option_fmap]; unfold id.
  - reflexivity.
  - apply Forall_cons_1 in Hb as [Hy _]. rewrite bool_decide_eq_false_2 by discriminate.
    destruct (Z.eqb_spec 0 y); [congruence |]. apply Z.eqb_neq. lia.
  - apply Forall_cons_1 in Ha as [Hx _]. rewrite bool_decide_eq_false_2 by discriminate.
    destruct (Z.eqb_spec x 0); [congruence |]. apply Z.eqb_neq. lia.
  - apply Forall_cons_1 in Ha as [Hx Ha], Hb as [Hy Hb]. cbn in Hl.
    destruct (Z.eqb_spec x y) as [->|Hne].
    + rewrite (proj2 (Z.eqb_neq _ _) Hy), IH by (assumption || lia).
      destruct (bool_decide_reflect (a = b)) as [->|H]; symmetry; [now apply bool_decide_eq_true_2 |].
      apply bool_decide_eq_false_2. congruence.
    + rewrite bool_decide_eq_false_2 by congruence. apply Z.eqb_neq. lia.
Qed.

Lemma dev_name_ok fmt : cstring fmt -> cstring (dev_name fmt) /\ (length (dev_name fmt) < 256)%nat.
Proof.
  intros H. unfold dev_name. split; [|rewrite length_take; lia]. apply Forall_take, Forall_app.
  split; [repeat constructor; discriminate | exact H].
Qed.

(** The names the registry holds are proper strings that fit their array. *)
Definition names_ok (r : registry) (cl : list Z) : Prop :=
  forall a, a ∈ cl -> cstring (cl_name (rec_of r a)) /\ (length (cl_name (rec_of r a)) < 256)%nat.

(** The newest class with a name, 0 if there is none. *)
Fixpoint by_name (r : registry) (cl : list Z) (name : list Z) : Z :=
  match cl with
  | [] => 0
  | a :: cl => if bool_decide (cl_name (rec_of r a) = name) then a else by_name r cl name
  end.

Section Facts.
Context {A : ObjAlloc} {L : ObjAllocLaws A}.

Lemma class_at_ok r cl dl a : reg_ok r cl dl -> a ∈ cl -> class_at r a = Ok (rec_of r a).
Proof.
  intros Hr Ha. destruct (ro_recs _ _ _ Hr a Ha) as [c Hc]. unfold class_at, rec_of. now rewrite Hc.
Qed.

Lemma device_by_name_ok fuel r cl dl name :
  reg_ok r cl dl -> names_ok r cl -> cstring name -> (length cl <= fuel)%nat ->
  device_by_name fuel r name = Ok (by_name r cl name).
Proof.
  intros Hr Hn Hs Hf. unfold device_by_name.
  rewrite (for_each_entry_ok _ _ _ _ cl) by (assumption || apply Hr).
  set (body := fun (_ : unit) cls => _).
  assert (forall k, (forall a, a ∈ k -> a ∈ cl) ->
    (let! x := over body tt k in match x with inr cls => Ok cls | inl _ => Ok 0 end) = Ok (by_name r k name)) as H.
  { induction k as [|a k IH]; intros Hk; [reflexivity |]. cbn [over by_name].
    assert (a ∈ cl) as Ha by (apply Hk, elem_of_cons; auto). destruct (Hn a Ha) as [H1 H2].
    unfold body at 1. rewrite (class_at_ok _ _ _ _ Hr Ha). cbn [rbind].
    rewrite (strncmp_eq 256 _ _ H1 Hs H2). destruct (bool_decide _); [reflexivity |].
    apply IH. intros b Hb. apply Hk, elem_of_cons. auto. }
  apply H. auto.
Qed.

(** A fresh structure with a list node in it, linked in at the front. *)
Lemma push_node h head l a :
  is_list h head l -> a ∉ head :: l ->
  exists h', list_add (raw_node h a) a head = Ok h' /\ is_list h' head (a :: l) /\
    same_outside (a :: head :: l) h h'.
Proof.
  intros Hl Ha. assert (is_list (raw_node h a) head l) as Hl0 by now apply overwrite_node.
  destruct (list_add_ok (raw_node h a) head l a Hl0) as (h' & E & H & Ho).
  - split; cbn; rewrite lookup_insert_eq; eauto.
  - exact Ha.
  - exists h'. split; [exact E | split; [exact H |]]. intros x Hx. destruct (Ho x Hx) as [-> ->]. cbn.
    rewrite !lookup_insert_ne by set_solver. auto.
Qed.

Lemma alloc_some r o os :
  enough (o :: os) (rg_live r) = true ->
  exists a, let r' := with_alloc r ({[a]} ∪ rg_live r) ({[a]} ∪ rg_dyn r) in
    alloc r o = (r', a) /\ a <> 0 /\ a ∉ rg_live r /\ enough os (rg_live r') = true /\ 0 < a < 2 ^ 32 - 4095.
Proof.
  unfold alloc. cbn [enough]. destruct (obj_malloc (rg_live r) o) as [a|] eqn:E; [|discriminate].
  intros He. exists a. destruct (obj_fresh _ _ _ E) as [Ha Hn]. destruct r. cbn in *. repeat split; try assumption; lia.
Qed.

Lemma enough_take os os' live : enough (os ++ os') live = true -> enough os live = true.
Proof.
  revert live. induction os as [|o os IH]; intros live; [reflexivity |]. cbn.
  destruct (obj_malloc live o); [apply IH | discriminate].
Qed.

Lemma reg_ok_alloc r cl dl a :
  reg_ok r cl dl -> a <> 0 -> reg_ok (with_alloc r ({[a]} ∪ rg_live r) ({[a]} ∪ rg_dyn r)) cl dl.
Proof.
  intros [H1 H2 H3 H4 H5 H6 H7] Ha. destruct r. cbn in *. split; try assumption; cbn.
  - intros x Hx. apply elem_of_union_r. now apply H6.
  - set_solver.
Qed.
(** *** Creating a device *)

(** What else of the registry a call leaves alone. *)
Definition same_rest (r r' : registry) : Prop :=
  rg_cur r' = rg_cur r /\ rg_devs r' = rg_devs r /\ rg_cdevs r' = rg_cdevs r /\ rg_cls r' = rg_cls r.

Lemma rec_of_insert r a c b :
  rec_of (with_classes r (<[a := c]> (rg_classes r))) b = if decide (b = a) then c else rec_of r b.
Proof.
  unfold rec_of. destruct r. cbn. case_decide as E; [subst; now rewrite lookup_insert_eq |].
  now rewrite lookup_insert_ne by congruence.
Qed.

Lemma with_heap_recs r h a : rec_of (with_heap r h) a = rec_of r a.
Proof. now destruct r. Qed.

Lemma with_alloc_recs r l y a : rec_of (with_alloc r l y) a = rec_of r a.
Proof. now destruct r. Qed.

(** A new class at the front. *)
Lemma push_class r cl dl a c :
  reg_ok r cl dl -> a <> 0 -> a ∉ classes_head :: cl ++ devs_head :: dl -> a ∈ rg_live r ->
  let r1 := with_classes r (<[a := c]> (rg_classes r)) in
  exists h, list_add (raw_node (rg_heap r1) a) a classes_head = Ok h /\
    reg_ok (with_heap r1 h) (a :: cl) dl.
Proof.
  intros [H1 H2 H3 H4 H5 H6 H7] Ha Hn Hlive r1.
  assert (rg_heap r1 = rg_heap r) as -> by now destruct r.
  assert (a ∉ classes_head :: cl /\ a ∉ devs_head :: dl) as [Hn1 Hn2] by set_solver.
  destruct (push_node (rg_heap r) classes_head cl a H1 Hn1) as (h & E & Hl & Ho).
  exists h. split; [exact E |]. destruct r as [hp cs cu dv cd ks lv dy]. cbn in *. split; cbn; try assumption.
  - apply (is_list_frame hp _ _ _ _ H2 Ho). intros x Hx. specialize (H3 x Hx). set_solver.
  - intros x Hx. specialize (H3 x Hx). set_solver.
  - intros x Hx. rewrite lookup_insert. case_decide; [eauto |]. apply H4. set_solver.
  - intros x Hx. apply elem_of_cons in Hx as [->|Hx]; [apply H6; set_solver |].
    apply elem_of_cons in Hx as [->|Hx]; [exact Hlive | apply H6; set_solver].
Qed.

(** [r'] is [r] with more memory in use and nothing else changed. *)
Record quiet (r r' : registry) : Prop := {
  qt_ok : forall cl dl, reg_ok r cl dl -> reg_ok r' cl dl;
  qt_recs : forall a, rec_of r' a = rec_of r a;
  qt_rest : same_rest r r';
  qt_live : rg_live r ⊆ rg_live r';
  qt_dyn : rg_dyn r ⊆ rg_dyn r';
  qt_sub : rg_dyn r ⊆ rg_live r -> rg_dyn r' ⊆ rg_live r'
}.

Lemma quiet_trans r1 r2 r3 : quiet r1 r2 -> quiet r2 r3 -> quiet r1 r3.
Proof.
  intros [A1 A2 (B1 & B2 & B3 & B4) A4 A5 A6] [C1 C2 (E1 & E2 & E3 & E4) C4 C5 C6].
  split; [auto | intros a; now rewrite C2 | repeat split; congruence | clear - A4 C4; set_solver | clear - A5 C5; set_solver | auto].
Qed.

Lemma quiet_alloc r a : a <> 0 -> quiet r (with_alloc r ({[a]} ∪ rg_live r) ({[a]} ∪ rg_dyn r)).
Proof.
  intros Ha. split.
  - intros cl dl H. now apply reg_ok_alloc.
  - intros b. apply with_alloc_recs.
  - destruct r. now repeat split.
  - destruct r. cbn. set_solver.
  - destruct r. cbn. set_solver.
  - destruct r. cbn. set_solver.
Qed.

(** The first two allocations of [device_create], which must succeed. *)
Lemma device_create_alloc r cls dev fmt :
  cls ∈ rg_cls r -> enough [O_device; O_string (length fmt)] (rg_live r) = true ->
  exists r2 d, quiet r r2 /\ 0 < d < 2 ^ 32 - 4095 /\
    (forall os, enough (O_device :: O_string (length fmt) :: os) (rg_live r) = enough os (rg_live r2)) /\
    device_create r cls dev fmt =
      (let '(r, new) := alloc r2 O_seL4_Class in
       if new =? 0 then Ok (r, 0)
       else
         let r := with_classes r (<[new := Class_ 0 (dev_name fmt) dev]> (rg_classes r)) in
         let! h := list_add (raw_node (rg_heap r) new) new classes_head in
         Ok (with_heap r h, d)).
Proof.
  intros Hc He. unfold device_create, read_class. rewrite bool_decide_eq_true_2 by exact Hc. cbn [defined_if rbind].
  destruct (alloc_some r O_device _ He) as (d & Ed & Hd0 & _ & He1 & Hd). rewrite Ed, (proj2 (Z.eqb_neq _ _) Hd0). cbn [negb defined_if rbind].
  set (r1 := with_alloc r _ _) in *.
  destruct (alloc_some r1 (O_string (length fmt)) _ He1) as (i & Ei & Hi0 & _).
  rewrite Ei, (proj2 (Z.eqb_neq _ _) Hi0). cbn [negb defined_if rbind].
  set (r2 := with_alloc r1 _ _) in *. exists r2, d.
  split; [apply (quiet_trans r r1); now apply quiet_alloc |]. split; [exact Hd |].
  split; [|reflexivity]. intros os. unfold alloc in Ed, Ei. cbn [enough].
  destruct (obj_malloc (rg_live r) O_device) as [d'|]; [|congruence]. injection Ed as _ ->.
  assert ({[d]} ∪ rg_live r = rg_live r1) as -> by (subst r1; now destruct r).
  destruct (obj_malloc (rg_live r1) (O_string (length fmt))) as [i'|]; [|congruence]. injection Ei as _ ->.
  assert ({[i]} ∪ rg_live r1 = rg_live r2) as -> by (subst r2; now destruct r1). reflexivity.
Qed.

Lemma device_create_ok r cl dl cls dev fmt os :
  reg_ok r cl dl -> cls ∈ rg_cls r ->
  enough (O_device :: O_string (length fmt) :: O_seL4_Class :: os) (rg_live r) = true ->
  exists r' device new, device_create r cls dev fmt = Ok (r', device) /\ same_rest r r' /\
    rg_live r ⊆ rg_live r' /\ 0 < device < 2 ^ 32 - 4095 /\ enough os (rg_live r') = true /\
    new <> 0 /\ new ∉ rg_live r /\ reg_ok r' (new :: cl) dl /\ rec_of r' new = Class_ 0 (dev_name fmt) dev /\
    (forall a, a <> new -> rec_of r' a = rec_of r a) /\ (rg_dyn r ⊆ rg_live r -> rg_dyn r' ⊆ rg_live r').
Proof.
  intros Hr Hc He. destruct (device_create_alloc r cls dev fmt Hc) as (r2 & d & Hq & Hd & Hen & ->).
  { now apply (enough_take [O_device; O_string (length fmt)] (O_seL4_Class :: os)). }
  pose proof He as He2. rewrite Hen in He2.
  destruct (alloc_some r2 O_seL4_Class _ He2) as (n & -> & Hn0 & Hn & He3 & _). rewrite (proj2 (Z.eqb_neq _ _) Hn0).
  cbv beta iota zeta. set (r3 := with_alloc r2 _ _) in *. pose proof (quiet_alloc r2 n Hn0) as Hq3. fold r3 in Hq3.
  pose proof (qt_ok _ _ (quiet_trans _ _ _ Hq Hq3) _ _ Hr) as Hr3.
  destruct (push_class r3 cl dl n (Class_ 0 (dev_name fmt) dev)) as (h & Eh & Hr4); try assumption.
  { intros Hin. apply Hn. now apply (ro_live _ _ _ (qt_ok _ _ Hq _ _ Hr)). }
  { subst r3. destruct r2. cbn. set_solver. }
  rewrite Eh. cbn [rbind]. eexists _, d, n. split; [reflexivity |].
  destruct (quiet_trans _ _ _ Hq Hq3) as [_ Q2 Q3 Q4 _ Q6].
  split; [clear - Q3; destruct r3; exact Q3 |]. split; [clear - Q4; destruct r3; exact Q4 |].
  split; [exact Hd |]. split; [clear - He3; destruct r3; exact He3 |]. split; [exact Hn0 |].
  split; [intros Hin; apply Hn, (qt_live _ _ Hq), Hin |]. split; [exact Hr4 |].
  split; [|split; [intros a Ha | clear - Q6; destruct r3; exact Q6]]; rewrite with_heap_recs, rec_of_insert; [now rewrite decide_True |].
  now rewrite decide_False.
Qed.

Lemma device_create_oom r cls dev fmt :
  cls ∈ rg_cls r -> enough [O_device; O_string (length fmt)] (rg_live r) = true ->
  enough [O_device; O_string (length fmt); O_seL4_Class] (rg_live r) = false ->
  exists r', device_create r cls dev fmt = Ok (r', 0) /\ quiet r r' /\
    (forall os, enough (O_device :: O_string (length fmt) :: os) (rg_live r) = true -> enough os (rg_live r') = true).
Proof.
  intros Hc He Hn. destruct (device_create_alloc r cls dev fmt Hc He) as (r2 & d & Hq & _ & Hen & E).
  rewrite Hen in Hn. assert (alloc r2 O_seL4_Class = (r2, 0)) as Ea.
  { unfold alloc. cbn in Hn. now destruct (obj_malloc (rg_live r2) O_seL4_Class). }
  rewrite Ea in E. exists r2. split; [exact E |]. split; [exact Hq |]. intros os. now rewrite Hen.
Qed.

(** *** Binding a device number *)

(** [cdev_add] over the classes alone: every class with the number is bound, up
    to the first one that was bound before. *)
Fixpoint bind (parent dev : Z) (l : list seL4_Class) : list seL4_Class * Z :=
  match l with
  | [] => ([], 0)
  | c :: l =>
      if cl_dev c =? dev then
        if negb (cl_cdev c =? 0) then (c :: l, - EINVAL)
        else let '(l', r) := bind parent dev l in (Class_ parent (cl_name c) (cl_dev c) :: l', r)
      else let '(l', r) := bind parent dev l in (c :: l', r)
  end.

(** Only classes change, and only inside [k]. *)
Definition only_classes (k : list Z) (r r' : registry) : Prop :=
  same_rest r r' /\ rg_heap r' = rg_heap r /\ rg_live r' = rg_live r /\ rg_dyn r' = rg_dyn r /\
  dom (rg_classes r') = dom (rg_classes r) /\ forall a, a ∉ k -> rec_of r' a = rec_of r a.

Lemma only_classes_trans k r1 r2 r3 : only_classes k r1 r2 -> only_classes k r2 r3 -> only_classes k r1 r3.
Proof.
  intros ((A1 & A2 & A3 & A4) & A5 & A6 & A7 & A8 & A9) ((B1 & B2 & B3 & B4) & B5 & B6 & B7 & B8 & B9).
  split; [repeat split; congruence |]. do 4 (split; [congruence |]). intros a Ha. rewrite B9, A9; auto.
Qed.

Lemma only_classes_mono k k' r r' : only_classes k r r' -> k ⊆ k' -> only_classes k' r r'.
Proof. intros (A1 & A2 & A3 & A4 & A5 & A6) Hk. do 5 (split; [assumption |]). intros a Ha. apply A6. set_solver. Qed.

Lemma recs_ext r r' k : (forall a, a ∈ k -> rec_of r' a = rec_of r a) -> recs r' k = recs r k.
Proof. intros H. unfold recs. apply list_fmap_ext. intros i a Ha. apply H. now apply list_elem_of_lookup_2 in Ha. Qed.

Lemma set_class_only r a c :
  is_Some (rg_classes r !! a) -> only_classes [a] r (with_classes r (<[a := c]> (rg_classes r))).
Proof.
  intros Ha. split; [destruct r; now repeat split |]. do 3 (split; [now destruct r |]). split.
  - destruct r. cbn in *. apply dom_insert_lookup_L, Ha.
  - intros b Hb. rewrite rec_of_insert, decide_False; [reflexivity | set_solver].
Qed.

Lemma cdev_add_over parent dev k : forall r,
  NoDup k -> (forall a, a ∈ k -> is_Some (rg_classes r !! a)) ->
  exists r', (let! x := over (cdev_add_body parent dev) r k in
              match x with inr p => Ok p | inl r => Ok (r, 0) end) = Ok (r', snd (bind parent dev (recs r k))) /\
    recs r' k = fst (bind parent dev (recs r k)) /\ only_classes k r r'.
Proof.
  induction k as [|a k IH]; intros r Hnd Hk.
  { exists r. split; [reflexivity | split; [reflexivity |]]. now repeat split. }
  apply list.NoDup_cons in Hnd as [Ha Hnd]. destruct (Hk a) as [c Hc]; [set_solver |].
  assert (rec_of r a = c) as Ec by (unfold rec_of; now rewrite Hc).
  cbn [over]. unfold cdev_add_body at 1, class_at. rewrite Hc. cbn [rbind recs fmap list_fmap bind]. rewrite Ec.
  assert (forall r1, only_classes [a] r r1 -> recs r1 k = recs r k) as Hrest.
  { intros r1 (_ & _ & _ & _ & _ & H). apply recs_ext. intros b Hb. apply H. set_solver. }
  assert (forall r1, only_classes [a] r r1 -> exists r',
    (let! x := over (cdev_add_body parent dev) r1 k in
     match x with inr p => Ok p | inl r => Ok (r, 0) end) = Ok (r', snd (bind parent dev (recs r k))) /\
    recs r' (a :: k) = rec_of r1 a :: fst (bind parent dev (recs r k)) /\ only_classes (a :: k) r r') as Hgo.
  { intros r1 Ho. destruct (IH r1 Hnd) as (r' & E & Er & Ho').
    - intros b Hb. destruct Ho as (_ & _ & _ & _ & Hd & _). apply elem_of_dom. rewrite Hd. apply elem_of_dom, Hk. set_solver.
    - rewrite (Hrest r1 Ho) in E, Er. exists r'. split; [exact E |]. split.
      + cbn [recs fmap list_fmap]. f_equal; [|exact Er]. destruct Ho' as (_ & _ & _ & _ & _ & H). now apply H.
      + apply (only_classes_trans _ _ r1); (eapply only_classes_mono; [eassumption | set_solver]). }
  fold (recs r k). destruct (cl_dev c =? dev); [destruct (negb (cl_cdev c =? 0)) |]; cbn [rbind].
  - exists r. split; [reflexivity |]. split; [cbn [fst]; unfold recs; cbn; now rewrite Ec | now repeat split].
  - destruct (Hgo _ (set_class_only r a (Class_ parent (cl_name c) (cl_dev c)) (mk_is_Some _ _ Hc))) as (r' & -> & Er & Ho).
    rewrite rec_of_insert, decide_True in Er by reflexivity. exists r'.
    destruct (bind parent dev (recs r k)) as [l' e]. auto.
  - destruct (Hgo r) as (r' & -> & Er & Ho); [now repeat split |]. rewrite Ec in Er. exists r'.
    destruct (bind parent dev (recs r k)) as [l' e]. auto.
Qed.

Lemma reg_ok_only r r' cl dl k : reg_ok r cl dl -> only_classes k r r' -> reg_ok r' cl dl.
Proof.
  intros [H1 H2 H3 H4 H5 H6 H7] ((_ & A2 & _) & A5 & A6 & _ & A8 & _).
  split; rewrite ?A5, ?A6, ?A2; try assumption. intros a Ha. apply elem_of_dom. rewrite A8. now apply elem_of_dom, H4.
Qed.

Lemma cdev_add_ok fuel r cl dl parent dev x :
  reg_ok r cl dl -> (length cl <= fuel)%nat ->
  exists r', cdev_add fuel r parent dev x = Ok (r', snd (bind parent dev (recs r cl))) /\
    recs r' cl = fst (bind parent dev (recs r cl)) /\ only_classes cl r r' /\ reg_ok r' cl dl.
Proof.
  intros Hr Hf. unfold cdev_add. rewrite (for_each_entry_ok _ _ _ _ cl) by (assumption || apply Hr).
  destruct (cdev_add_over parent dev cl r) as (r' & E & Er & Ho).
  - destruct (ro_classes _ _ _ Hr) as [_ H]. now apply list.NoDup_cons in H as [_ H].
  - apply Hr.
  - exists r'. split; [exact E |]. split; [exact Er |]. split; [exact Ho |]. eapply reg_ok_only; eassumption.
Qed.
(** *** Consequences *)

Definition bound_to (parent dev : Z) (c : seL4_Class) : seL4_Class :=
  if cl_dev c =? dev then Class_ parent (cl_name c) (cl_dev c) else c.

Definition unbound (dev : Z) (c : seL4_Class) : Prop := cl_dev c = dev -> cl_cdev c = 0.

Lemma bind_free parent dev l :
  Forall (unbound dev) l -> bind parent dev l = (bound_to parent dev <$> l, 0).
Proof.
  induction 1 as [|c l Hc _ IH]; [reflexivity |]. rewrite fmap_cons. cbn [bind]. rewrite IH.
  unfold unbound in Hc. unfold bound_to at 3. destruct (Z.eqb_spec (cl_dev c) dev) as [E|E]; [|reflexivity].
  now rewrite (Hc E).
Qed.

Lemma bind_taken parent dev l1 c l2 :
  Forall (unbound dev) l1 -> cl_dev c = dev -> cl_cdev c <> 0 ->
  bind parent dev (l1 ++ c :: l2) = ((bound_to parent dev <$> l1) ++ c :: l2, - EINVAL).
Proof.
  intros Hl Hc Hb. induction Hl as [|d l Hd _ IH]; cbn [app bind].
  - rewrite Hc, Z.eqb_refl, (proj2 (Z.eqb_neq _ _) Hb). reflexivity.
  - rewrite IH, fmap_cons. unfold unbound in Hd. unfold bound_to at 3.
    destruct (Z.eqb_spec (cl_dev d) dev) as [E|]; [|reflexivity]. now rewrite (Hd E).
Qed.
End Facts.

Lemma by_name_ext q q' name k :
  (forall a, a ∈ k -> rec_of q' a = rec_of q a) -> by_name q' k name = by_name q k name.
Proof.
  induction k as [|b k IH]; intros H; [reflexivity |]. cbn [by_name].
  rewrite (H b) by (apply elem_of_cons; auto). rewrite IH; [reflexivity |]. intros a Ha. apply H, elem_of_cons. auto.
Qed.

(** Creating a device.  With memory for it, [device_create] returns a device
    and registers a class "/dev/<name>" with the number, not yet bound: looking
    up this name now finds it, also when an older device had the name, and
    looking up any other name finds what it found before.  When the class does
    not fit in memory the call returns NULL and every lookup is as before. *)
Theorem device_create_spec (A : ObjAlloc) (L : ObjAllocLaws A) fuel r cl dl cls dev fmt :
  reg_ok r cl dl -> names_ok r cl -> cstring fmt -> cls ∈ rg_cls r -> (length cl < fuel)%nat ->
  enough [O_device; O_string (length fmt)] (rg_live r) = true ->
  exists r' device, device_create r cls dev fmt = Ok (r', device) /\
    if enough [O_device; O_string (length fmt); O_seL4_Class] (rg_live r) then
       device <> 0 /\ exists new, reg_ok r' (new :: cl) dl /\ names_ok r' (new :: cl) /\
         rec_of r' new = Class_ 0 (dev_name fmt) dev /\
         device_by_name fuel r' (dev_name fmt) = Ok new /\
         (forall name, cstring name -> name <> dev_name fmt ->
            device_by_name fuel r' name = device_by_name fuel r name)
    else
      device = 0 /\ reg_ok r' cl dl /\
      forall name, cstring name -> device_by_name fuel r' name = device_by_name fuel r name.
Proof.
  intros Hr Hn Hs Hc Hf He. destruct (dev_name_ok fmt Hs) as [Hs1 Hs2].
  destruct (enough [O_device; O_string (length fmt); O_seL4_Class] (rg_live r)) eqn:He3.
  - destruct (device_create_ok r cl dl cls dev fmt [] Hr Hc He3)
      as (r' & device & new & E & _ & _ & Hd & _ & _ & Hnew & Hr' & Hrec & Hsame & _).
    exists r', device. split; [exact E |]. split; [lia |]. exists new.
    assert (forall a, a ∈ cl -> rec_of r' a = rec_of r a) as Hold.
    { intros a Ha. apply Hsame. intros ->. apply Hnew, (ro_live _ _ _ Hr). clear - Ha. set_solver. }
    assert (names_ok r' (new :: cl)) as Hn'.
    { intros a Ha. apply elem_of_cons in Ha as [->|Ha]; [rewrite Hrec; auto | rewrite Hold by exact Ha; now apply Hn]. }
    do 3 (split; [assumption |]). split.
    + rewrite (device_by_name_ok fuel r' (new :: cl) dl) by (try assumption; cbn; lia). cbn [by_name].
      rewrite Hrec. now rewrite bool_decide_eq_true_2.
    + intros name Hname Hne. rewrite (device_by_name_ok fuel r' (new :: cl) dl) by (try assumption; cbn; lia).
      rewrite (device_by_name_ok fuel r cl dl) by (try assumption; lia). cbn [by_name]. rewrite Hrec.
      rewrite bool_decide_eq_false_2 by (cbn [cl_name]; congruence). f_equal. now apply by_name_ext.
  - destruct (device_create_oom r cls dev fmt Hc He He3) as (r' & E & [Q1 Q2 _ _ _ _] & _).
    exists r', 0. split; [exact E |]. split; [reflexivity |]. split; [auto |]. intros name Hname.
    rewrite !(device_by_name_ok fuel _ cl dl) by (try assumption; try lia; try auto; intros a Ha; rewrite Q2; now apply Hn).
    f_equal. apply by_name_ext. auto.
Qed.

(** C34: binding a number.  [cdev_add] binds every registered class with the
    number and returns 0 when none of them was bound before; this includes the
    number nobody created, for which nothing is bound.  When one was bound it
    returns -EINVAL, with that class and everything older as before and the
    newer ones already bound.  The list of classes itself never changes. *)
Theorem cdev_add_spec (A : ObjAlloc) (L : ObjAllocLaws A) fuel r cl dl parent dev x :
  reg_ok r cl dl -> (length cl <= fuel)%nat ->
  exists r' e, cdev_add fuel r parent dev x = Ok (r', e) /\ reg_ok r' cl dl /\
    (Forall (unbound dev) (recs r cl) -> e = 0 /\ recs r' cl = bound_to parent dev <$> recs r cl) /\
    (forall l1 c l2, recs r cl = l1 ++ c :: l2 -> Forall (unbound dev) l1 -> cl_dev c = dev -> cl_cdev c <> 0 ->
       e = - EINVAL /\ recs r' cl = (bound_to parent dev <$> l1) ++ c :: l2).
Proof.
  intros Hr Hf. destruct (cdev_add_ok fuel r cl dl parent dev x Hr Hf) as (r' & E & Er & _ & Hr').
  eexists r', _. split; [exact E |]. split; [exact Hr' |]. split.
  - intros Hu. rewrite bind_free in Er |- * by exact Hu. auto.
  - intros l1 c l2 El Hl Hc Hb. rewrite El, (bind_taken _ _ _ _ _ Hl Hc Hb) in Er. rewrite El, bind_taken by assumption. auto.
Qed.

(** Deleting leaves the first device behind.  [cdev_put] keeps the first
    device in the static head and [cdev_del] only searches the list behind it:
    after putting and deleting one device the structure is freed, while the head
    still points to it. *)
Theorem cdev_del_leaves_head (A : ObjAlloc) fuel r p :
  reg_ok r [] [] -> rg_cur r = 0 -> p <> 0 -> is_Some (rg_cdevs r !! p) -> p ∈ rg_dyn r ->
  exists r1 r2, cdev_put r p = Ok r1 /\ cdev_del fuel r1 p = Ok r2 /\
    rg_cur r2 = p /\ p ∉ rg_live r2.
Proof.
  intros Hr Hcur Hp [c Hc] Hdyn. unfold cdev_put, cdev_at. rewrite Hc. cbn [rbind].
  rewrite (proj2 (Z.eqb_neq _ _) Hp), Hcur. cbn [negb cassert rbind Z.eqb].
  exists (with_cur r p). eexists. split; [reflexivity |].
  unfold cdev_del. rewrite (proj2 (Z.eqb_neq _ _) Hp). cbn [negb cassert rbind].
  rewrite (for_each_entry_ok _ fuel _ _ []); [|destruct r; apply Hr | cbn; lia]. cbn [over rbind].
  unfold release. rewrite (proj2 (Z.eqb_neq _ _) Hp).
  rewrite bool_decide_eq_true_2 by (destruct r; exact Hdyn). cbn [defined_if rbind].
  split; [reflexivity |]. destruct r. cbn. split; [reflexivity | set_solver].
Qed.

(** [class_destroy] is always undefined: the message it prints after freeing
    the class reads the class. *)
Lemma class_destroy_ub (r : registry) (cls : Z) : class_destroy r cls = Err UB.
Proof.
  unfold class_destroy, release, read_class. destruct (Z.eqb_spec cls 0) as [->|Hne]; cbn [rbind].
  - rewrite bool_decide_eq_false_2; [reflexivity |]. destruct r. cbn. set_solver.
  - destruct (bool_decide (cls ∈ rg_dyn r)); [|reflexivity]. cbn [defined_if rbind].
    rewrite bool_decide_eq_false_2; [reflexivity |]. destruct r. cbn. set_solver.
Qed.

(** Deleting a device that did not come from [malloc]. *)
Lemma cdev_del_static fuel r p r' : p ∉ rg_dyn r -> cdev_del fuel r p <> Ok r'.
Proof.
  intros Hp. unfold cdev_del. destruct (Z.eqb_spec p 0) as [->|Hne]; [discriminate |]. cbn [negb cassert rbind].
  destruct (list_for_each_entry _ _ _ _ _) as [x|]; [|discriminate]. cbn [rbind].
  assert (forall q, rg_dyn q = rg_dyn r -> release q p <> Ok r') as Hrel.
  { intros q Eq. unfold release. rewrite (proj2 (Z.eqb_neq _ _) Hne), bool_decide_eq_false_2 by now rewrite Eq. discriminate. }
  destruct x as [|cur]; [now apply Hrel |].
  destruct (list_del (rg_heap r) cur) as [h|]; [|discriminate]. cbn [rbind]. apply Hrel. now destruct r.
Qed.

(** ** Examples *)

(** An allocator that takes the next address, while there is one. *)
Definition next_obj : ObjAlloc := {|
  obj_malloc live _ :=
    let a := 1 + fold_right Z.max 2 (elements live) in
    if a <? 2 ^ 32 - 4095 then Some a else None;
  cdev_junk a := Cdev 0xa5a5a5a5 0xa5a5a5a5 a
|}.

#[export] Instance next_obj_laws : ObjAllocLaws next_obj.
Proof.
  intros live o a. unfold obj_malloc, next_obj. destruct (Z.ltb_spec (1 + fold_right Z.max 2 (elements live)) (2 ^ 32 - 4095)); [|discriminate].
  intros [= <-].
  assert (forall l x, x ∈ l -> x <= fold_right Z.max 2 l) as Hmax.
  { induction l as [|y l IH]; intros x Hx; [now apply not_elem_of_nil in Hx |]. cbn.
    apply elem_of_cons in Hx as [->|Hx]; [lia | specialize (IH x Hx); lia]. }
  assert (2 <= fold_right Z.max 2 (elements live)) by (induction (elements live); cbn; lia).
  split; [lia |]. intros Hin%elem_of_elements. apply Hmax in Hin. lia.
Qed.

(** One struct class at address 3. *)
Definition sample_reg : registry := with_cls (initial {[3]}) {[3]}.

Lemma sample_reg_ok : reg_ok sample_reg [] [].
Proof.
  split; cbn.
  - split; [repeat constructor | apply NoDup_singleton].
  - split; [repeat constructor | apply NoDup_singleton].
  - unfold devs_head, classes_head. set_solver.
  - intros a Ha. now apply not_elem_of_nil in Ha.
  - intros a Ha. now apply not_elem_of_nil in Ha.
  - unfold devs_head, classes_head. set_solver.
  - unfold devs_head, classes_head. set_solver.
Qed.

Lemma device_create_spec_witness :
  exists r' device new, device_create (A := next_obj) sample_reg 3 44040193 [99; 111; 109; 50] = Ok (r', device) /\
    device_by_name 5 r' [47; 100; 101; 118; 47; 99; 111; 109; 50] = Ok new /\ cl_dev (rec_of r' new) = 44040193.
Proof.
  destruct (device_create_spec next_obj next_obj_laws 5 sample_reg [] [] 3 44040193 [99; 111; 109; 50])
    as (r' & device & E & H).
  - apply sample_reg_ok.
  - intros a Ha. now apply not_elem_of_nil in Ha.
  - repeat constructor; discriminate.
  - set_solver.
  - cbn. lia.
  - vm_compute. reflexivity.
  - destruct H as (_ & new & _ & _ & Hrec & Hl & _).
    exists r', device, new. split; [exact E |]. split; [exact Hl | now rewrite Hrec].
Defined.

(** Two classes with number 42: a newer one at 7, and one at 5 that is bound. *)
Definition taken_reg : registry :=
  Reg (Heap {[ 1 := 7; 7 := 5; 5 := 1; 2 := 2 ]} {[ 1 := 5; 5 := 7; 7 := 1; 2 := 2 ]})
    {[ 7 := Class_ 0 [120] 42; 5 := Class_ 6 [121] 42 ]} 0 ∅ {[ 6 := Cdev 9 0 42 ]} ∅ (list_to_set [1; 2; 5; 6; 7]) ∅.

Lemma taken_reg_ok : reg_ok taken_reg [7; 5] [].
Proof.
  split; cbn; try set_solver.
  - split; [repeat constructor |]. apply (bool_decide_unpack _). exact I.
  - split; [repeat constructor | apply NoDup_singleton].
Qed.

Lemma cdev_add_spec_witness :
  (exists r', cdev_add 0 sample_reg 70 44040193 1 = Ok (r', 0)) /\
  exists r', cdev_add 2 taken_reg 70 42 1 = Ok (r', - EINVAL) /\ recs r' [7; 5] = [Class_ 70 [120] 42; Class_ 6 [121] 42].
Proof.
  split.
  - destruct (cdev_add_spec next_obj next_obj_laws 0 sample_reg [] [] 70 44040193 1) as (r' & e & E & _ & H & _).
    + apply sample_reg_ok.
    + cbn. lia.
    + destruct H as [-> _]; [constructor |]. exists r'. exact E.
  - destruct (cdev_add_spec next_obj next_obj_laws 2 taken_reg [7; 5] [] 70 42 1) as (r' & e & E & _ & _ & H).
    + apply taken_reg_ok.
    + cbn. lia.
    + destruct (H [Class_ 0 [120] 42] (Class_ 6 [121] 42) []) as [-> Hr]; [reflexivity | now repeat constructor | reflexivity | discriminate |].
      exists r'. split; [exact E | exact Hr].
Defined.

Lemma cdev_del_leaves_head_witness :
  let r := with_cdevs (with_alloc sample_reg ({[7]} ∪ rg_live sample_reg) {[7]}) {[7 := Cdev 0 0 0]} in
  exists r1 r2, cdev_put (A := next_obj) r 7 = Ok r1 /\ cdev_del 1 r1 7 = Ok r2 /\ rg_cur r2 = 7.
Proof.
  intros r. destruct (cdev_del_leaves_head next_obj 1 r 7) as (r1 & r2 & E1 & E2 & H & _).
  - destruct sample_reg_ok as [H1 H2 H3 H4 H5 H6 H7]. split; try assumption; cbn in *; set_solver.
  - reflexivity.
  - discriminate.
  - eexists. reflexivity.
  - cbn. set_solver.
  - exists r1, r2. split; [exact E1 | split; [exact E2 | exact H]].
Defined.

End Chardev.
