(* ===== verification/Fd.v ===== *)
(** * File descriptors

    src/libs/liblinux/src/fd.c: the table of open files and the calls [open],
    [close], [read] and [write] on it.  The driver behind a device is whatever
    its [struct file_operations] says: [file_operations] is the interface, and
    the theorems hold for every implementation of it. *)

From S2P Require Import Prelude Memory ListHead Chardev.
Import Memory ListHead Chardev.

(** The entries of struct file_operations this file calls, on the driver's
    world [W] with the private data [P] of a file: [open] gets the device number
    of the inode and sets the private data. *)
Record file_operations (W P : Type) := FOps {
  op_open : W -> Z -> res (W * P * Z);
  op_read : W -> P -> ptr -> Z -> res (W * Z);
  op_write : W -> P -> ptr -> Z -> res (W * Z)
}.
Arguments op_open {W P}.
Arguments op_read {W P}.
Arguments op_write {W P}.

(** struct opened_file, apart from its list node. *)
Record opened_file := OpenedFile { of_fd : Z; of_name : Z; of_device : Z; of_file : Z }.

(** The statics of fd.c next to the device registry: the table, the private
    data of the [struct file]s, the next descriptor, [errno]. *)
Record fdstate (P : Type) := FdState {
  fs_reg : registry;
  fs_heap : heap;
  fs_open : gmap Z opened_file;
  fs_priv : gmap Z P;
  lfd : Z;
  errno : Z
}.
Arguments FdState {P}.
Arguments fs_reg {P}.
Arguments fs_heap {P}.
Arguments fs_open {P}.
Arguments fs_priv {P}.
Arguments lfd {P}.
Arguments errno {P}.

Module Fd.

Definition file_root : Z := 4.       (** &file_root.list *)
Definition INT_MAX : Z := 2147483647.

Section Ops.
Context {A : ObjAlloc} {W P : Type}.
Variable ops_at : Z -> option (file_operations W P).   (** the operation tables, by address *)

Definition with_reg (s : fdstate P) (r : registry) : fdstate P :=
  let '(FdState _ h o p l e) := s in FdState r h o p l e.
Definition with_errno (s : fdstate P) (e : Z) : fdstate P :=
  let '(FdState r h o p l _) := s in FdState r h o p l e.

Definition file_at (s : fdstate P) (f : Z) : res opened_file :=
  match fs_open s !! f with Some x => Ok x | None => Err UB end.

(** [f->device->ops] *)
Definition ops_of (s : fdstate P) (device : Z) : res (file_operations W P) :=
  let! d := cdev_at (fs_reg s) device in
  match ops_at (cd_ops d) with Some o => Ok o | None => Err UB end.

Definition alloc_file (s : fdstate P) (name : list Z) : res (fdstate P * Z) :=
  let '(r, f) := alloc (fs_reg s) O_opened_file in
  let '(r, d) := cdev_alloc r in
  if (f =? 0) || (d =? 0) then Ok (with_reg s r, 0)
  else
    let '(r, nm) := alloc r (O_string (length name)) in
    let '(r, fl) := alloc r O_file in
    let! _ := cassert (negb (nm =? 0)) in
    let! _ := defined_if (lfd s <? INT_MAX) in
    Ok (FdState r (raw_node (fs_heap s) f) (<[f := OpenedFile (lfd s) nm d fl]> (fs_open s))
          (fs_priv s) (lfd s + 1) (errno s), f).

Definition file_by_fd (fuel : nat) (s : fdstate P) (fd : Z) : res Z :=
  let! x := list_for_each_entry
    (fun (_ : unit) f =>
       let! o := file_at s f in
       if of_fd o =? fd then Ok (inr f) else Ok (inl tt))
    fuel (fs_heap s) file_root tt in
  match x with inr f => Ok f | inl _ => Ok 0 end.

Definition free_file (s : fdstate P) (f : Z) : res (fdstate P) :=
  let! _ := cassert (negb (f =? 0)) in
  let! o := file_at s f in
  let! _ := cassert (negb (of_name o =? 0)) in
  let! h := list_del (fs_heap s) f in
  let! r := release (fs_reg s) (of_file o) in
  let! r := release r (of_name o) in
  let! r := release r f in
  Ok (FdState r h (delete f (fs_open s)) (delete (of_file o) (fs_priv s)) (lfd s) (errno s)).

(** The class is read for the inode before it is compared with NULL. *)
Definition open (fuel : nat) (s : fdstate P) (w : W) (name : list Z) : res (fdstate P * W * Z) :=
  let! (s, f) := alloc_file s name in
  let! cls := device_by_name fuel (fs_reg s) name in
  let! c := class_at (fs_reg s) cls in
  let i_rdev := cl_dev c in
  if cls =? 0 then Ok (s, w, -1)
  else
    let! o := file_at s f in
    let o := OpenedFile (of_fd o) (of_name o) (cl_cdev c) (of_file o) in
    let! h := list_add (fs_heap s) f file_root in
    let! ops := ops_of s (of_device o) in
    let! (w, p, _) := op_open ops w i_rdev in
    let! _ := defined_if (negb (of_file o =? 0)) in
    Ok (FdState (fs_reg s) h (<[f := o]> (fs_open s)) (<[of_file o := p]> (fs_priv s)) (lfd s) (errno s),
        w, of_fd o).

Definition close (fuel : nat) (s : fdstate P) (fd : Z) : res (fdstate P * Z) :=
  let! cur := file_by_fd fuel s fd in
  if cur =? 0 then Ok (with_errno s EBADF, -1)
  else
    let! s := free_file s cur in
    Ok (s, 0).

(** The private data a driver finds in [f->file]. *)
Definition priv_of (s : fdstate P) (o : opened_file) : res P :=
  match fs_priv s !! of_file o with Some p => Ok p | None => Err UB end.

Definition write (fuel : nat) (s : fdstate P) (w : W) (fd : Z) (buf : ptr) (nbyte : Z)
    : res (fdstate P * W * Z) :=
  let! f := file_by_fd fuel s fd in
  if f =? 0 then Ok (with_errno s EBADF, w, 0)
  else if is_null buf then Ok (with_errno s EFAULT, w, 0)
  else
    let! o := file_at s f in
    let! ops := ops_of s (of_device o) in
    let! p := priv_of s o in
    let! (w, r) := op_write ops w p buf nbyte in
    Ok (s, w, r).

Definition read (fuel : nat) (s : fdstate P) (w : W) (fd : Z) (buf : ptr) (nbyte : Z)
    : res (fdstate P * W * Z) :=
  let! f := file_by_fd fuel s fd in
  if f =? 0 then Ok (with_errno s EBADF, w, 0)
  else if is_null buf then Ok (with_errno s EFAULT, w, 0)
  else
    let! o := file_at s f in
    let! ops := ops_of s (of_device o) in
    let! p := priv_of s o in
    let! (w, r) := op_read ops w p buf nbyte in
    Ok (s, w, r).

End Ops.

(** ** The table *)

Section Table.
Context {P : Type}.

(** The blocks an open file owns, and those of all of them. *)
Definition file_blocks (s : fdstate P) (f : Z) : list Z :=
  match fs_open s !! f with Some o => [f; of_name o; of_file o] | None => [] end.
Definition all_blocks (s : fdstate P) (l : list Z) : list Z := l ≫= file_blocks s.

(** [l] are the open files, newest first: each with a descriptor of its own
    below [lfd], private data, and blocks of its own from [malloc]; [cl] and
    [dl] are the lists of the registry. *)
Record table_ok (s : fdstate P) (l cl dl : list Z) : Prop := {
  to_reg : reg_ok (fs_reg s) cl dl;
  to_list : is_list (fs_heap s) file_root l;
  to_files : forall f, f ∈ l -> is_Some (fs_open s !! f);
  to_fds : forall f o, f ∈ l -> fs_open s !! f = Some o -> 1 <= of_fd o < lfd s;
  to_unique : forall f g o o', f ∈ l -> g ∈ l -> fs_open s !! f = Some o -> fs_open s !! g = Some o' ->
                of_fd o = of_fd o' -> f = g;
  to_priv : forall f o, f ∈ l -> fs_open s !! f = Some o -> is_Some (fs_priv s !! of_file o);
  to_lfd : 1 <= lfd s;
  to_nodup : NoDup (all_blocks s l);
  to_dyn : forall b, b ∈ all_blocks s l -> b ∈ rg_dyn (fs_reg s);
  to_sub : rg_dyn (fs_reg s) ⊆ rg_live (fs_reg s);
  to_apart : forall b, b ∈ all_blocks s l -> b ∉ file_root :: classes_head :: cl ++ devs_head :: dl;
  to_root : file_root ∈ rg_live (fs_reg s)
}.

(** The file a descriptor names. *)
Definition names_file (s : fdstate P) (l : list Z) (fd f : Z) : Prop :=
  f ∈ l /\ exists o, fs_open s !! f = Some o /\ of_fd o = fd.

(** What a descriptor stands for: the device and the private data. *)
Definition descriptor (s : fdstate P) (l : list Z) (fd : Z) (device : Z) (p : P) : Prop :=
  exists f o, f ∈ l /\ fs_open s !! f = Some o /\ of_fd o = fd /\ of_device o = device /\
    fs_priv s !! of_file o = Some p.

Lemma in_blocks s l f o : f ∈ l -> fs_open s !! f = Some o ->
  f ∈ all_blocks s l /\ of_name o ∈ all_blocks s l /\ of_file o ∈ all_blocks s l.
Proof.
  intros Hf Ho. unfold all_blocks. assert (forall b, b ∈ file_blocks s f -> b ∈ l ≫= file_blocks s) as H.
  { intros b Hb. apply list_elem_of_bind. eauto. }
  unfold file_blocks in H at 1. rewrite Ho in H. repeat split; apply H; set_solver.
Qed.

Lemma not_null s l cl dl f : table_ok s l cl dl -> f ∈ l -> f <> 0.
Proof.
  intros Ht Hf ->. destruct (to_files _ _ _ _ Ht 0 Hf) as [o Ho]. destruct (in_blocks _ _ _ _ Hf Ho) as [Hb _].
  apply (ro_null _ _ _ (to_reg _ _ _ _ Ht)), (to_sub _ _ _ _ Ht), (to_dyn _ _ _ _ Ht), Hb.
Qed.

Lemma file_by_fd_ok fuel s l cl dl fd :
  table_ok s l cl dl -> (length l <= fuel)%nat ->
  exists f, file_by_fd fuel s fd = Ok f /\
    (f <> 0 -> names_file s l fd f) /\ (f = 0 -> forall g, ~ names_file s l fd g).
Proof.
  intros Ht Hf. unfold file_by_fd. rewrite (for_each_entry_ok _ _ _ _ l) by (assumption || apply Ht).
  pose proof (to_files _ _ _ _ Ht) as Hs. assert (0 ∉ l) as H0 by (intros Hl; exact (not_null _ _ _ _ _ Ht Hl eq_refl)). clear Ht Hf. revert H0 Hs. unfold names_file.
  induction l as [|g l IH]; intros H0 Hs.
  { exists 0. split; [reflexivity |]. split; [congruence |]. intros _ g [Hg _]. now apply not_elem_of_nil in Hg. }
  cbn [over]. destruct (Hs g) as [o Ho]; [set_solver |]. unfold file_at at 1. rewrite Ho. cbn [rbind].
  destruct (Z.eqb_spec (of_fd o) fd) as [E|E].
  - cbn [rbind]. exists g. split; [reflexivity |]. split; [|set_solver]. intros _. split; [set_solver | eauto].
  - cbn [rbind]. destruct IH as (f & Ef & H1 & H2); [set_solver | set_solver |]. exists f. split; [exact Ef |]. split.
    + intros Hf. destruct (H1 Hf) as [Hl Ho']. split; [set_solver | exact Ho'].
    + intros Hf k [Hk (o' & Ho' & E')]. apply elem_of_cons in Hk as [->|Hk]; [congruence |].
      apply (H2 Hf k). eauto.
Qed.
End Table.

(** ** Opening *)

Section OpenFacts.
Context {A : ObjAlloc} {L : ObjAllocLaws A} {W P : Type}.

(** The registry after allocations: new addresses [X], one more [struct cdev]. *)
Record grown (r : registry) (X : list Z) (d : Z) (r' : registry) : Prop := {
  gr_live : forall b, b ∈ rg_live r' <-> b ∈ X \/ b ∈ rg_live r;
  gr_dyn : forall b, b ∈ rg_dyn r' <-> b ∈ X \/ b ∈ rg_dyn r;
  gr_classes : rg_classes r' = rg_classes r;
  gr_cdevs : rg_cdevs r' = <[d := cdev_junk d]> (rg_cdevs r);
  gr_cls : rg_cls r' = rg_cls r;
  gr_fresh : forall b, b ∈ X -> b <> 0 /\ b ∉ rg_live r;
  gr_nodup : NoDup X
}.

(** What [alloc_file] asks of [malloc]. *)
Definition file_objects (name : list Z) : list object := [O_opened_file; O_cdev; O_string (length name); O_file].

Lemma alloc_file_ok (s : fdstate P) name cl dl :
  enough (file_objects name) (rg_live (fs_reg s)) = true ->
  reg_ok (fs_reg s) cl dl -> lfd s < INT_MAX ->
  exists r' f nm d fl, alloc_file s name =
      Ok (FdState r' (raw_node (fs_heap s) f) (<[f := OpenedFile (lfd s) nm d fl]> (fs_open s))
            (fs_priv s) (lfd s + 1) (errno s), f) /\
    reg_ok r' cl dl /\ grown (fs_reg s) [f; d; nm; fl] d r'.
Proof.
  intros Hmem Hr Hlfd. unfold alloc_file, cdev_alloc. set (r := fs_reg s) in *.
  destruct (alloc_some r O_opened_file _ Hmem) as (f & -> & Hf0 & Hf & Hmem1 & _). set (r1 := with_alloc r _ _) in *.
  destruct (alloc_some r1 O_cdev _ Hmem1) as (d & -> & Hd0 & Hd & Hmem2 & _). rewrite (proj2 (Z.eqb_neq _ _) Hd0).
  set (r2 := with_alloc r1 _ _) in *. cbv beta iota zeta. set (r3 := with_cdevs r2 _).
  assert (rg_live r2 = rg_live r3) as E3 by (subst r3; now destruct r2). rewrite E3 in Hmem2. clear E3.
  rewrite (proj2 (Z.eqb_neq _ _) Hf0), (proj2 (Z.eqb_neq _ _) Hd0). cbn [orb].
  destruct (alloc_some r3 (O_string (length name)) _ Hmem2) as (nm & -> & Hn0 & Hn & Hmem3 & _). set (r4 := with_alloc r3 _ _) in *.
  destruct (alloc_some r4 O_file _ Hmem3) as (fl & -> & Hl0 & Hl & _). set (r5 := with_alloc r4 _ _).
  rewrite (proj2 (Z.eqb_neq _ _) Hn0), (proj2 (Z.ltb_lt _ _) Hlfd). cbn [negb cassert defined_if rbind].
  exists r5, f, nm, d, fl. split; [reflexivity |].
  assert (reg_ok r2 cl dl) as Hr2 by (do 2 (apply reg_ok_alloc; [|assumption]); exact Hr).
  assert (reg_ok r3 cl dl) as Hr3.
  { destruct Hr2 as [H1 H2 H3 H4 H5 H6 H7]. subst r3. clear - H1 H2 H3 H4 H5 H6 H7. destruct r2. now split. }
  split; [do 2 (apply reg_ok_alloc; [|assumption]); exact Hr3 |].
  subst r5 r4 r3 r2 r1. clear - Hf0 Hf Hd0 Hd Hn0 Hn Hl0 Hl. destruct r as [hp cs cu dv cd ks lv dy]. cbn in *.
  split; cbn; try reflexivity; [clear; set_solver | clear; set_solver | |].
  - intros b Hb. repeat (apply elem_of_cons in Hb as [->|Hb]; [split; [assumption | set_solver] |]). now apply not_elem_of_nil in Hb.
  - repeat (apply list.NoDup_cons; split; [set_solver |]). constructor.
Qed.

Lemma blocks_insert (s : fdstate P) r h o f x (p : gmap Z P) k e l :
  f ∉ l -> fs_open s = o -> all_blocks (FdState r h (<[f := x]> o) p k e) l = all_blocks s l.
Proof.
  intros Hf <-. unfold all_blocks, file_blocks. cbn. induction l as [|g l IH]; [reflexivity |].
  rewrite !bind_cons, IH, lookup_insert_ne by set_solver. reflexivity.
Qed.

(** The registry seen by a caller is the same after allocations. *)
Lemma grown_names r X d r' cl name :
  grown r X d r' -> by_name r' cl name = by_name r cl name /\ (names_ok r cl -> names_ok r' cl).
Proof.
  intros Hg. assert (forall a, rec_of r' a = rec_of r a) as Hrec by (intros a; unfold rec_of; now rewrite (gr_classes _ _ _ _ Hg)).
  split; [|intros Hn a Ha; rewrite Hrec; now apply Hn].
  induction cl as [|a cl IH]; [reflexivity |]. cbn [by_name]. now rewrite Hrec, IH.
Qed.

(** Adding the new file to the table. *)
Lemma table_push (s : fdstate P) l cl dl r' f nm d fl device p h :
  table_ok s l cl dl -> reg_ok r' cl dl -> grown (fs_reg s) [f; d; nm; fl] d r' ->
  is_list h file_root (f :: l) ->
  table_ok (FdState r' h (<[f := OpenedFile (lfd s) nm device fl]> (fs_open s)) (<[fl := p]> (fs_priv s))
              (lfd s + 1) (errno s)) (f :: l) cl dl.
Proof.
  intros [T1 T2 T3 T4 T5 T6 T7 T8 T9 T10 T11 T12] Hr Hg Hl.
  pose proof (gr_fresh _ _ _ _ Hg) as Hfr. pose proof (gr_nodup _ _ _ _ Hg) as Hnd.
  assert (forall b, b ∈ all_blocks s l -> b ∈ rg_live (fs_reg s)) as Hlive by (intros b Hb; apply T10, T9, Hb).
  assert (f ∉ l) as Hfl.
  { intros Hin. destruct (T3 f Hin) as [o Ho]. destruct (in_blocks _ _ _ _ Hin Ho) as [Hb _].
    apply (proj2 (Hfr f ltac:(set_solver))), Hlive, Hb. }
  set (s' := FdState _ _ _ _ _ _).
  assert (all_blocks s' (f :: l) = [f; nm; fl] ++ all_blocks s l) as Hab.
  { unfold all_blocks at 1. rewrite bind_cons. f_equal; [|now apply blocks_insert].
    unfold file_blocks. cbn. now rewrite lookup_insert_eq. }
  assert (forall g o, g ∈ f :: l -> fs_open s' !! g = Some o ->
    (g = f /\ o = OpenedFile (lfd s) nm device fl) \/ (g ∈ l /\ g <> f /\ fs_open s !! g = Some o)) as Hcase.
  { intros g o Hg' Ho. cbn in Ho. rewrite lookup_insert in Ho. case_decide as E; [subst; left; split; congruence |].
    right. split; [set_solver | auto]. }
  assert (forall g o, g ∈ l -> fs_open s !! g = Some o -> of_file o <> fl) as Hnfl.
  { intros g o Hg' Ho E. destruct (in_blocks _ _ _ _ Hg' Ho) as (_ & _ & Hb). rewrite E in Hb.
    apply (proj2 (Hfr fl ltac:(set_solver))), Hlive, Hb. }
  split; cbn [fs_reg fs_heap fs_priv lfd s']; fold s'; try assumption.
  - intros g Hg'. cbn. rewrite lookup_insert. case_decide; [eauto | apply T3; set_solver].
  - intros g o Hg' Ho. destruct (Hcase g o Hg' Ho) as [[-> ->] | (Hin & _ & Ho')]; cbn; [lia |].
    specialize (T4 g o Hin Ho'). lia.
  - intros g g' o o' Hg1 Hg2 Ho1 Ho2 Efd.
    destruct (Hcase g o Hg1 Ho1) as [[-> ->] | (Hi1 & _ & Hq1)], (Hcase g' o' Hg2 Ho2) as [[-> ->] | (Hi2 & _ & Hq2)]; cbn in Efd.
    + reflexivity.
    + specialize (T4 g' o' Hi2 Hq2). lia.
    + specialize (T4 g o Hi1 Hq1). lia.
    + exact (T5 g g' o o' Hi1 Hi2 Hq1 Hq2 Efd).
  - intros g o Hg' Ho. destruct (Hcase g o Hg' Ho) as [[-> ->] | (Hin & _ & Ho')]; cbn.
    + rewrite lookup_insert_eq. eauto.
    + rewrite lookup_insert_ne by (intros E; now apply (Hnfl g o)). eauto.
  - lia.
  - rewrite Hab. apply list.NoDup_app. split; [|split; [|exact T8]].
    + repeat (apply list.NoDup_cons in Hnd as [? Hnd]). repeat (apply list.NoDup_cons; split; [set_solver |]). constructor.
    + intros b Hb Hin. apply (proj2 (Hfr b ltac:(set_solver))), Hlive, Hin.
  - rewrite Hab. intros b Hb. apply (gr_dyn _ _ _ _ Hg). apply elem_of_app in Hb as [Hb|Hb]; [left; set_solver | right; auto].
  - intros b Hb. apply (gr_live _ _ _ _ Hg). apply (gr_dyn _ _ _ _ Hg) in Hb as [Hb|Hb]; auto.
  - rewrite Hab. intros b Hb. apply elem_of_app in Hb as [Hb|Hb]; [|now apply T11].
    intros Hin. apply (proj2 (Hfr b ltac:(set_solver))). apply elem_of_cons in Hin as [->|Hin]; [exact T12 |].
    now apply (ro_live _ _ _ T1).
  - apply (gr_live _ _ _ _ Hg). auto.
Qed.

Lemma open_ok ops_at fuel (s : fdstate P) l cl dl (w : W) name cls c d o w' p rc :
  enough (file_objects name) (rg_live (fs_reg s)) = true ->
  table_ok s l cl dl -> names_ok (fs_reg s) cl -> cstring name -> (length cl <= fuel)%nat -> lfd s < INT_MAX ->
  by_name (fs_reg s) cl name = cls -> cls <> 0 -> rec_of (fs_reg s) cls = c -> cls ∈ cl ->
  rg_cdevs (fs_reg s) !! cl_cdev c = Some d -> cl_cdev c ∈ rg_live (fs_reg s) ->
  ops_at (cd_ops d) = Some o -> op_open o w (cl_dev c) = Ok (w', p, rc) ->
  exists s' f, open ops_at fuel s w name = Ok (s', w', lfd s) /\ table_ok s' (f :: l) cl dl /\
    lfd s' = lfd s + 1 /\ errno s' = errno s /\
    descriptor s' (f :: l) (lfd s) (cl_cdev c) p /\
    (forall fd dv q, fd < lfd s -> descriptor s' (f :: l) fd dv q <-> descriptor s l fd dv q) /\
    rg_cdevs (fs_reg s') !! cl_cdev c = Some d /\
    exists nm d' fl, grown (fs_reg s) [f; d'; nm; fl] d' (fs_reg s') /\
      all_blocks s' (f :: l) = [f; nm; fl] ++ all_blocks s l.
Proof.
  intros Hmem Ht Hn Hs Hf Hlfd Hby Hcls Hrec Hin Hd Hlv Ho Hop.
  destruct (alloc_file_ok s name cl dl Hmem (to_reg _ _ _ _ Ht) Hlfd) as (r' & f & nm & d' & fl & E & Hr' & Hg).
  unfold open. rewrite E. cbn [rbind fs_reg]. destruct (grown_names _ _ _ _ cl name Hg) as [Eby Hn'].
  rewrite (device_by_name_ok fuel r' cl dl) by auto. cbn [rbind]. rewrite Eby, Hby.
  rewrite (class_at_ok r' cl dl cls Hr' Hin). cbn [rbind]. rewrite (proj2 (Z.eqb_neq _ _) Hcls).
  assert (rec_of r' cls = c) as -> by (unfold rec_of in *; now rewrite (gr_classes _ _ _ _ Hg)).
  unfold file_at. cbn [fs_open]. rewrite lookup_insert_eq. cbn [rbind of_fd of_name of_file of_device fs_heap].
  pose proof (gr_fresh _ _ _ _ Hg) as Hfr.
  assert (f ∉ file_root :: l) as Hfl.
  { intros Hi. apply (proj2 (Hfr f ltac:(set_solver))). apply elem_of_cons in Hi as [->|Hi]; [exact (to_root _ _ _ _ Ht) |].
    destruct (to_files _ _ _ _ Ht f Hi) as [x Hx]. destruct (in_blocks _ _ _ _ Hi Hx) as [Hb _].
    now apply (to_sub _ _ _ _ Ht), (to_dyn _ _ _ _ Ht). }
  destruct (push_node _ _ _ f (to_list _ _ _ _ Ht) Hfl) as (h & Eh & Hl & _). rewrite Eh. cbn [rbind].
  unfold ops_of, cdev_at. cbn [fs_reg]. rewrite (gr_cdevs _ _ _ _ Hg), lookup_insert_ne.
  2: { intros E2. apply (proj2 (Hfr d' ltac:(set_solver))). now rewrite E2. }
  rewrite Hd. cbn [rbind]. rewrite Ho. cbn [rbind]. rewrite Hop. cbn [rbind].
  rewrite (proj2 (Z.eqb_neq fl 0)) by (apply Hfr; set_solver). cbn [negb defined_if rbind fs_open fs_priv lfd errno].
  assert (rg_cdevs r' !! cl_cdev c = Some d) as Hd'.
  { rewrite (gr_cdevs _ _ _ _ Hg), lookup_insert_ne; [exact Hd |]. intros E2. apply (proj2 (Hfr d' ltac:(set_solver))). now rewrite E2. }
  rewrite insert_insert_eq. eexists _, f. split; [reflexivity |].
  split; [now apply (table_push s l cl dl r' f nm d' fl (cl_cdev c) p h) |].
  do 2 (split; [reflexivity |]). split; [|split; [|split; [exact Hd' |]]].
  3: { exists nm, d', fl. split; [exact Hg |]. unfold all_blocks at 1. rewrite bind_cons. f_equal.
       - unfold file_blocks. cbn. now rewrite lookup_insert_eq.
       - apply blocks_insert; [|reflexivity]. intros Hi. apply Hfl, elem_of_cons. auto. }
  - exists f. eexists. cbn. rewrite lookup_insert_eq. split; [set_solver |]. split; [reflexivity |]. cbn.
    rewrite lookup_insert_eq. auto.
  - intros fd dv q Hfd. split; intros (g & x & Hg1 & Hx & Hfd1 & Hdv & Hq); cbn in *.
    + rewrite lookup_insert in Hx. case_decide as Eg; [injection Hx as <-; cbn in Hfd1; lia |].
      exists g, x. assert (g ∈ l) as Hgl by set_solver. split; [exact Hgl |]. split; [exact Hx |]. do 2 (split; [assumption |]).
      rewrite lookup_insert_ne in Hq; [exact Hq |]. intros E2. destruct (in_blocks _ _ _ _ Hgl Hx) as (_ & _ & Hb).
      rewrite <- E2 in Hb. apply (proj2 (Hfr fl ltac:(set_solver))), (to_sub _ _ _ _ Ht), (to_dyn _ _ _ _ Ht), Hb.
    + assert (g <> f) as Hgf by (intros ->; set_solver). exists g, x. split; [set_solver |].
      cbn. rewrite lookup_insert_ne by congruence. split; [exact Hx |]. do 2 (split; [assumption |]).
      rewrite lookup_insert_ne; [exact Hq |]. intros E2. destruct (in_blocks _ _ _ _ Hg1 Hx) as (_ & _ & Hb).
      rewrite <- E2 in Hb. apply (proj2 (Hfr fl ltac:(set_solver))), (to_sub _ _ _ _ Ht), (to_dyn _ _ _ _ Ht), Hb.
Qed.
End OpenFacts.

(** ** Closing *)

Section CloseFacts.
Context {P : Type}.

Lemma release_ok r a cl dl :
  reg_ok r cl dl -> a <> 0 -> a ∈ rg_dyn r -> a ∉ classes_head :: cl ++ devs_head :: dl ->
  exists r', release r a = Ok r' /\ reg_ok r' cl dl /\
    rg_live r' = rg_live r ∖ {[a]} /\ rg_dyn r' = rg_dyn r ∖ {[a]} /\
    same_rest r r' /\ rg_classes r' = rg_classes r.
Proof.
  intros [H1 H2 H3 H4 H5 H6 H7] Ha Hd Hn. unfold release.
  rewrite (proj2 (Z.eqb_neq _ _) Ha), bool_decide_eq_true_2 by exact Hd. cbn [defined_if rbind].
  eexists. split; [reflexivity |]. destruct r. cbn in *. split; [|now repeat split]. split; try assumption; cbn.
  - intros x Hx. apply elem_of_difference. split; [now apply H6 |]. intros ->%elem_of_singleton. contradiction.
  - intros Hz. apply H7. now apply elem_of_difference in Hz as [Hz _].
Qed.

Lemma elem_middle (l1 : list Z) f l2 g : g = f \/ g ∈ l1 ++ l2 <-> g ∈ l1 ++ f :: l2.
Proof. rewrite !elem_of_app, elem_of_cons. tauto. Qed.

Lemma blocks_delete (s : fdstate P) r h f (p : gmap Z P) k e l :
  f ∉ l -> all_blocks (FdState r h (delete f (fs_open s)) p k e) l = all_blocks s l.
Proof.
  intros Hf. unfold all_blocks, file_blocks. cbn. induction l as [|g l IH]; [reflexivity |].
  rewrite !bind_cons, IH, lookup_delete_ne by set_solver. reflexivity.
Qed.

Lemma blocks_split (s : fdstate P) l1 f l2 o :
  fs_open s !! f = Some o ->
  all_blocks s (l1 ++ f :: l2) ≡ₚ [f; of_name o; of_file o] ++ all_blocks s (l1 ++ l2).
Proof.
  intros Ho. unfold all_blocks. rewrite !bind_app, bind_cons. unfold file_blocks at 2. rewrite Ho.
  rewrite !(Permutation_app_comm (l1 ≫= _)), <- app_assoc. reflexivity.
Qed.

Lemma table_pop (s : fdstate P) l1 f l2 cl dl o r' h :
  table_ok s (l1 ++ f :: l2) cl dl -> fs_open s !! f = Some o -> reg_ok r' cl dl ->
  (forall b, b ∈ rg_live r' <-> b ∈ rg_live (fs_reg s) /\ b ∉ [f; of_name o; of_file o]) ->
  (forall b, b ∈ rg_dyn r' <-> b ∈ rg_dyn (fs_reg s) /\ b ∉ [f; of_name o; of_file o]) ->
  is_list h file_root (l1 ++ l2) ->
  table_ok (FdState r' h (delete f (fs_open s)) (delete (of_file o) (fs_priv s)) (lfd s) (errno s)) (l1 ++ l2) cl dl.
Proof.
  intros [T1 T2 T3 T4 T5 T6 T7 T8 T9 T10 T11 T12] Ho Hr Hlv Hdy Hl.
  rewrite (blocks_split _ _ _ _ _ Ho) in T8. apply list.NoDup_app in T8 as (_ & Hap & T8).
  assert (forall b, b ∈ [f; of_name o; of_file o] \/ b ∈ all_blocks s (l1 ++ l2) -> b ∈ all_blocks s (l1 ++ f :: l2)) as Hin.
  { intros b Hb. rewrite (blocks_split _ _ _ _ _ Ho). now apply elem_of_app. }
  assert (f ∉ l1 ++ l2) as Hf.
  { destruct T2 as [_ Hnd]. apply list.NoDup_cons in Hnd as [_ Hnd]. rewrite <- Permutation_middle in Hnd.
    now apply list.NoDup_cons in Hnd as [Hnd _]. }
  assert (forall g x, g ∈ l1 ++ l2 -> delete f (fs_open s) !! g = Some x ->
    g ∈ l1 ++ f :: l2 /\ fs_open s !! g = Some x) as Hold.
  { intros g x Hg Hx. rewrite lookup_delete_ne in Hx by (intros ->; contradiction). split; [apply elem_middle; auto | exact Hx]. }
  split; cbn [fs_reg fs_heap fs_open fs_priv lfd]; try assumption.
  - intros g Hg. rewrite lookup_delete_ne by (intros ->; contradiction). apply T3, elem_middle. auto.
  - intros g x Hg Hx. destruct (Hold g x Hg Hx). eauto.
  - intros g g' x x' Hg Hg' Hx Hx'. destruct (Hold g x Hg Hx), (Hold g' x' Hg' Hx'). eauto.
  - intros g x Hg Hx. destruct (Hold g x Hg Hx) as [Hg' Hx']. rewrite lookup_delete_ne; [eauto |].
    intros E. rewrite lookup_delete_ne in Hx by (intros ->; contradiction).
    apply (Hap (of_file o)); [rewrite !elem_of_cons; auto |]. rewrite E. now apply (in_blocks s (l1 ++ l2) g x).
  - rewrite blocks_delete by exact Hf. exact T8.
  - rewrite blocks_delete by exact Hf. intros b Hb. apply Hdy. split; [apply T9; auto |]. intros Hb'. exact (Hap b Hb' Hb).
  - intros b Hb. apply Hdy in Hb as [Hb Hn]. apply Hlv. split; [now apply T10 | exact Hn].
  - rewrite blocks_delete by exact Hf. intros b Hb. apply T11. auto.
  - apply Hlv. split; [exact T12 |]. intros Hb. apply (T11 file_root); [auto | apply elem_of_cons; auto].
Qed.

Lemma close_ok fuel (s : fdstate P) l cl dl fd f :
  table_ok s l cl dl -> (length l <= fuel)%nat -> names_file s l fd f ->
  exists s' l', close fuel s fd = Ok (s', 0) /\ table_ok s' l' cl dl /\ lfd s' = lfd s /\
    (forall b, b ∈ rg_live (fs_reg s') <-> b ∈ rg_live (fs_reg s) /\ b ∉ file_blocks s f) /\
    (forall g, ~ names_file s' l' fd g) /\
    (forall fd' dv q, fd' <> fd -> descriptor s' l' fd' dv q <-> descriptor s l fd' dv q) /\
    length l = S (length l') /\ errno s' = errno s /\ same_rest (fs_reg s) (fs_reg s') /\
    rg_classes (fs_reg s') = rg_classes (fs_reg s) /\
    (forall b, b ∈ all_blocks s' l' -> b ∈ all_blocks s l).
Proof.
  intros Ht Hfu (Hf & o & Ho & Hfd). destruct (file_by_fd_ok fuel s l cl dl fd Ht Hfu) as (f' & E & H1 & H2).
  destruct (Z.eqb_spec f' 0) as [E0|E0]; [exfalso; apply (H2 E0 f); split; eauto |].
  destruct (H1 E0) as (Hf' & o' & Ho' & Hfd'). assert (f' = f) as -> by (eapply (to_unique _ _ _ _ Ht); eauto; congruence).
  unfold close. rewrite E. cbn [rbind]. rewrite (proj2 (Z.eqb_neq _ _) E0). unfold free_file.
  rewrite (proj2 (Z.eqb_neq _ _) E0). cbn [negb cassert rbind]. unfold file_at. rewrite Ho. cbn [rbind].
  destruct (in_blocks _ _ _ _ Hf Ho) as (B1 & B2 & B3).
  apply list_elem_of_split in Hf as (l1 & l2 & ->).
  assert (forall b, b ∈ all_blocks s (l1 ++ f :: l2) -> b <> 0 /\ b ∈ rg_dyn (fs_reg s) /\
            b ∉ classes_head :: cl ++ devs_head :: dl) as Hb.
  { intros b Hb. split; [|split; [now apply Ht |]].
    - intros ->. apply (ro_null _ _ _ (to_reg _ _ _ _ Ht)), (to_sub _ _ _ _ Ht), (to_dyn _ _ _ _ Ht), Hb.
    - intros Hin. apply (to_apart _ _ _ _ Ht b Hb), elem_of_cons. auto. }
  rewrite (proj2 (Z.eqb_neq (of_name o) 0)) by now apply Hb. cbn [negb cassert rbind].
  destruct (list_del_ok _ _ _ _ _ (to_list _ _ _ _ Ht)) as (h & Eh & Hl & _). rewrite Eh. cbn [rbind].
  pose proof (to_nodup _ _ _ _ Ht) as Hnd. rewrite (blocks_split _ _ _ _ _ Ho) in Hnd.
  apply list.NoDup_app in Hnd as (Hnd & _ & _). apply list.NoDup_cons in Hnd as [N1 Hnd]. apply list.NoDup_cons in Hnd as [N2 _].
  destruct (Hb _ B1) as (P1 & P2 & P3), (Hb _ B2) as (Q1 & Q2 & Q3), (Hb _ B3) as (R1 & R2 & R3).
  destruct (release_ok _ (of_file o) cl dl (to_reg _ _ _ _ Ht) R1 R2 R3) as (r1 & -> & Hr1 & Lv1 & Dy1 & (S11 & S12 & S13 & S14) & C1). cbn [rbind].
  destruct (release_ok r1 (of_name o) cl dl Hr1 Q1) as (r2 & -> & Hr2 & Lv2 & Dy2 & (S21 & S22 & S23 & S24) & C2); [rewrite Dy1; clear - Q2 N2; set_solver | exact Q3 |]. cbn [rbind].
  destruct (release_ok r2 f cl dl Hr2 P1) as (r3 & -> & Hr3 & Lv3 & Dy3 & (S31 & S32 & S33 & S34) & C3); [rewrite Dy2, Dy1; clear - P2 N1; set_solver | exact P3 |]. cbn [rbind].
  eexists _, (l1 ++ l2). split; [reflexivity |]. split.
  { apply table_pop; try assumption; intros b.
    - rewrite Lv3, Lv2, Lv1. clear. set_solver.
    - rewrite Dy3, Dy2, Dy1. clear. set_solver. }
  split; [reflexivity |].
  split; [intros b; unfold file_blocks; rewrite Ho; cbn; rewrite Lv3, Lv2, Lv1; clear; set_solver |].
  assert (f ∉ l1 ++ l2) as Hfl.
  { destruct (to_list _ _ _ _ Ht) as [_ Hn]. apply list.NoDup_cons in Hn as [_ Hn]. rewrite <- Permutation_middle in Hn.
    now apply list.NoDup_cons in Hn as [Hn _]. }
  split; [|split].
  3: { split; [rewrite !length_app; cbn; lia |]. split; [reflexivity |]. cbn [fs_reg].
       split; [repeat split; congruence |]. split; [congruence |]. intros b.
       rewrite blocks_delete by exact Hfl. rewrite (blocks_split _ _ _ _ _ Ho), elem_of_app. auto. }
  - intros g (Hg & x & Hx & Hxfd). cbn in Hx. rewrite lookup_delete_ne in Hx by (intros ->; contradiction).
    apply Hfl. replace f with g; [exact Hg |].
    apply (to_unique _ _ _ _ Ht g f x o); [apply elem_middle; auto | apply elem_middle; auto | exact Hx | exact Ho | congruence].
  - intros fd' dv q Hne. split; intros (g & x & Hg & Hx & H3 & H4 & H5); cbn in *.
    + rewrite lookup_delete_ne in Hx by (intros ->; contradiction).
      apply lookup_delete_Some in H5 as [_ H5]. exists g, x. split; [apply elem_middle; auto | auto].
    + assert (g <> f) as Hgf by (intros ->; congruence). assert (g ∈ l1 ++ l2) as Hg' by (apply elem_middle in Hg as [|]; [congruence | assumption]).
      exists g, x. cbn. split; [exact Hg' |].
      rewrite lookup_delete_ne by congruence. split; [exact Hx |]. do 2 (split; [assumption |]).
      rewrite lookup_delete_ne; [exact H5 |]. intros E5.
      pose proof (to_nodup _ _ _ _ Ht) as Hnd'. rewrite (blocks_split _ _ _ _ _ Ho) in Hnd'.
      apply list.NoDup_app in Hnd' as (_ & Hap & _). apply (Hap (of_file o)); [rewrite !elem_of_cons; auto |].
      rewrite E5. apply (in_blocks s (l1 ++ l2) g x); assumption.
Qed.
End CloseFacts.

(** ** The calls *)

Lemma descriptor_names {P} (s : fdstate P) l fd dv q : descriptor s l fd dv q -> exists f, names_file s l fd f.
Proof. intros (f & o & Hf & Ho & Hfd & _). exists f. split; eauto. Qed.

(** Opening a device.  [open] of the name of a registered, bound device
    whose driver accepts it, with memory available, returns the next unused
    descriptor, which from then on stands for the device and for the private
    data the driver's [open] set; every descriptor opened before keeps its
    meaning, and the table stays well formed: all descriptors distinct, all
    blocks of the open files distinct and from [malloc]. *)
Theorem fd_open_spec (A : ObjAlloc) (L : ObjAllocLaws A) {W P} (ops_at : Z -> option (file_operations W P))
    fuel (s : fdstate P) l cl dl w name c d o w' p rc :
  let cls := by_name (fs_reg s) cl name in
  enough (file_objects name) (rg_live (fs_reg s)) = true ->
  table_ok s l cl dl -> names_ok (fs_reg s) cl -> cstring name -> (length cl <= fuel)%nat -> lfd s < INT_MAX ->
  cls ∈ cl -> cls <> 0 -> rec_of (fs_reg s) cls = c ->
  rg_cdevs (fs_reg s) !! cl_cdev c = Some d -> cl_cdev c ∈ rg_live (fs_reg s) ->
  ops_at (cd_ops d) = Some o -> op_open o w (cl_dev c) = Ok (w', p, rc) ->
  exists s' l', open ops_at fuel s w name = Ok (s', w', lfd s) /\ table_ok s' l' cl dl /\ lfd s' = lfd s + 1 /\
    descriptor s' l' (lfd s) (cl_cdev c) p /\
    (forall fd dv q, fd < lfd s -> descriptor s' l' fd dv q <-> descriptor s l fd dv q).
Proof.
  intros cls Hmem Ht Hn Hs Hf Hlfd Hin Hcls Hrec Hd Hlv Ho Hop.
  destruct (open_ok ops_at fuel s l cl dl w name cls c d o w' p rc) as (s' & f & E & H1 & H2 & _ & H3 & H4 & _); try assumption.
  { reflexivity. }
  exists s', (f :: l). auto.
Qed.

(** Opening a name nobody registered is undefined: the class that was not
    found is read for the device number of the inode before it is compared with
    NULL, so the -1 the code means to return is never returned. *)
Theorem fd_open_unknown (A : ObjAlloc) (L : ObjAllocLaws A) {W P} (ops_at : Z -> option (file_operations W P))
    fuel (s : fdstate P) l cl dl w name :
  enough (file_objects name) (rg_live (fs_reg s)) = true ->
  table_ok s l cl dl -> names_ok (fs_reg s) cl -> cstring name -> (length cl <= fuel)%nat -> lfd s < INT_MAX ->
  by_name (fs_reg s) cl name = 0 -> rg_classes (fs_reg s) !! 0 = None ->
  open ops_at fuel s w name = Err UB.
Proof.
  intros Hmem Ht Hn Hs Hf Hlfd Hby H0.
  destruct (alloc_file_ok s name cl dl Hmem (to_reg _ _ _ _ Ht) Hlfd) as (r' & f & nm & d' & fl & E & Hr' & Hg).
  unfold open. rewrite E. cbn [rbind fs_reg]. destruct (grown_names _ _ _ _ cl name Hg) as [Eby Hn'].
  rewrite (device_by_name_ok fuel r' cl dl) by auto. cbn [rbind]. rewrite Eby, Hby.
  unfold class_at. now rewrite (gr_classes _ _ _ _ Hg), H0.
Qed.

(** Closing.  [close] of an open descriptor returns 0 and gives its blocks
    back; the descriptor then names no file, every other one keeps its meaning,
    and the table stays well formed.  [close] of anything else, a descriptor
    closed before included, returns -1 with [errno] set to EBADF and changes
    nothing else. *)
Theorem fd_close_spec {P} fuel (s : fdstate P) l cl dl fd :
  table_ok s l cl dl -> (length l <= fuel)%nat ->
  (forall f, names_file s l fd f ->
     exists s' l', close fuel s fd = Ok (s', 0) /\ table_ok s' l' cl dl /\ lfd s' = lfd s /\
       (forall b, b ∈ rg_live (fs_reg s') <-> b ∈ rg_live (fs_reg s) /\ b ∉ file_blocks s f) /\
       (forall g, ~ names_file s' l' fd g) /\
       (forall fd' dv q, fd' <> fd -> descriptor s' l' fd' dv q <-> descriptor s l fd' dv q)) /\
  ((forall f, ~ names_file s l fd f) -> close fuel s fd = Ok (with_errno s EBADF, -1)).
Proof.
  intros Ht Hf. split.
  { intros f Hn. destruct (close_ok fuel s l cl dl fd f Ht Hf Hn) as (s' & l' & E & H1 & H2 & H3 & H4 & H5 & _).
    exists s', l'. auto 10. }
  intros Hno.
  destruct (file_by_fd_ok fuel s l cl dl fd Ht Hf) as (f & E & H1 & _). unfold close. rewrite E. cbn [rbind].
  destruct (Z.eqb_spec f 0) as [_|E0]; [reflexivity |]. now destruct (Hno f (H1 E0)).
Qed.

(** The calls on an open descriptor. *)
Lemma read_write_ok {W P} (ops_at : Z -> option (file_operations W P)) fuel (s : fdstate P) l cl dl (w : W) fd buf n dv q d o :
  table_ok s l cl dl -> (length l <= fuel)%nat -> descriptor s l fd dv q -> is_null buf = false ->
  rg_cdevs (fs_reg s) !! dv = Some d -> ops_at (cd_ops d) = Some o ->
  read ops_at fuel s w fd buf n = (let! (w', r) := op_read o w q buf n in Ok (s, w', r)) /\
  write ops_at fuel s w fd buf n = (let! (w', r) := op_write o w q buf n in Ok (s, w', r)).
Proof.
  intros Ht Hf Hdesc Hb Hd Ho. destruct (file_by_fd_ok fuel s l cl dl fd Ht Hf) as (f & E & H1 & H2).
  destruct (descriptor_names _ _ _ _ _ Hdesc) as [g0 Hg0]. unfold read, write. rewrite E. cbn [rbind].
  destruct (Z.eqb_spec f 0) as [E0|E0]; [now destruct (H2 E0 g0) |].
  destruct Hdesc as (g & x & Hg & Hx & Hfd & Hdv & Hq). rewrite Hb. destruct (H1 E0) as (Hf' & x' & Hx' & Hfd').
  assert (f = g) as -> by (eapply (to_unique _ _ _ _ Ht f g x' x); eauto; congruence).
  unfold file_at, ops_of, cdev_at, priv_of. rewrite Hx. cbn [rbind]. rewrite Hdv, Hd. cbn [rbind]. rewrite Ho. cbn [rbind].
  rewrite Hq. cbn [rbind]. auto.
Qed.

(** Reading and writing.  On an open descriptor [read] and [write] are the
    driver's [read] and [write] on the private data of that descriptor, with
    the result and the world the driver leaves.  On anything else they return 0
    with [errno] set to EBADF, and on a NULL buffer 0 with EFAULT, without
    calling a driver: never the -1 of the manual pages the file names. *)
Theorem fd_read_write_spec {W P} (ops_at : Z -> option (file_operations W P))
    fuel (s : fdstate P) l cl dl (w : W) fd buf n :
  table_ok s l cl dl -> (length l <= fuel)%nat ->
  (forall dv q d o, descriptor s l fd dv q -> is_null buf = false ->
     rg_cdevs (fs_reg s) !! dv = Some d -> ops_at (cd_ops d) = Some o ->
     read ops_at fuel s w fd buf n = (let! (w', r) := op_read o w q buf n in Ok (s, w', r)) /\
     write ops_at fuel s w fd buf n = (let! (w', r) := op_write o w q buf n in Ok (s, w', r))) /\
  ((forall f, ~ names_file s l fd f) ->
     read ops_at fuel s w fd buf n = Ok (with_errno s EBADF, w, 0) /\
     write ops_at fuel s w fd buf n = Ok (with_errno s EBADF, w, 0)) /\
  (forall f, names_file s l fd f -> is_null buf = true ->
     read ops_at fuel s w fd buf n = Ok (with_errno s EFAULT, w, 0) /\
     write ops_at fuel s w fd buf n = Ok (with_errno s EFAULT, w, 0)).
Proof.
  intros Ht Hf. split; [intros dv q d o; now apply (read_write_ok ops_at fuel s l cl dl) |].
  destruct (file_by_fd_ok fuel s l cl dl fd Ht Hf) as (f & E & H1 & H2). unfold read, write. rewrite E. cbn [rbind].
  destruct (Z.eqb_spec f 0) as [E0|E0].
  - split; [auto |]. intros g Hg. now destruct (H2 E0 g).
  - split; [intros Hno; now destruct (Hno f (H1 E0)) |]. intros g Hg Hb. rewrite Hb. auto.
Qed.

(** ** Examples *)

(** A driver that answers with its private data: the device number. *)
Definition echo_ops : file_operations unit Z :=
  FOps unit Z (fun w dev => Ok (w, dev, 0)) (fun w p _ n => Ok (w, p)) (fun w p _ n => Ok (w, n)).
Definition echo_at (a : Z) : option (file_operations unit Z) := if a =? 9 then Some echo_ops else None.

(** One class "/dev/x" with number 42 at address 5, bound to a device at 6. *)
Definition echo_reg : registry :=
  Reg (Heap {[ 1 := 5; 5 := 1; 2 := 2 ]} {[ 1 := 5; 5 := 1; 2 := 2 ]})
    {[ 5 := Class_ 6 [47; 100; 101; 118; 47; 120] 42 ]} 0 ∅ {[ 6 := Cdev 9 0 42 ]} ∅
    (list_to_set [1; 2; 4; 5; 6]) ∅.
Definition echo_state : fdstate Z :=
  FdState echo_reg (Heap {[ file_root := file_root ]} {[ file_root := file_root ]}) ∅ ∅ 1 0.

Lemma echo_table : table_ok echo_state [] [5] [].
Proof.
  split; try (cbn; set_solver).
  - split; cbn.
    + split; [repeat constructor |]. apply (bool_decide_unpack _). exact I.
    + split; [repeat constructor | apply NoDup_singleton].
    + unfold classes_head, devs_head. set_solver.
    + intros a Ha. apply elem_of_cons in Ha as [->|Ha]; [eexists; reflexivity | now apply not_elem_of_nil in Ha].
    + intros a Ha. now apply not_elem_of_nil in Ha.
    + unfold classes_head, devs_head. set_solver.
    + set_solver.
  - split; [repeat constructor | apply NoDup_singleton].
  - constructor.
Qed.

Lemma echo_names : names_ok echo_reg [5].
Proof.
  intros a Ha. apply elem_of_cons in Ha as [->|Ha]; [|now apply not_elem_of_nil in Ha].
  change (cl_name (rec_of echo_reg 5)) with [47; 100; 101; 118; 47; 120].
  split; [repeat constructor; discriminate | cbn; lia].
Qed.

Lemma fd_open_spec_witness :
  exists s', open (A := next_obj) echo_at 3 echo_state tt [47; 100; 101; 118; 47; 120] = Ok (s', tt, 1).
Proof.
  destruct (fd_open_spec next_obj next_obj_laws echo_at 3 echo_state [] [5] [] tt [47; 100; 101; 118; 47; 120]
              (Class_ 6 [47; 100; 101; 118; 47; 120] 42) (Cdev 9 0 42) echo_ops tt 42 0) as (s' & l' & E & _).
  - vm_compute. reflexivity.
  - apply echo_table.
  - apply echo_names.
  - repeat constructor; discriminate.
  - cbn. lia.
  - reflexivity.
  - change (5 ∈ [5]). set_solver.
  - discriminate.
  - reflexivity.
  - reflexivity.
  - change (6 ∈ (list_to_set [1; 2; 4; 5; 6] : gset Z)). set_solver.
  - reflexivity.
  - reflexivity.
  - exists s'. exact E.
Defined.

Lemma fd_open_unknown_witness : open (A := next_obj) echo_at 3 echo_state tt [47; 120] = Err UB.
Proof.
  apply (fd_open_unknown next_obj next_obj_laws echo_at 3 echo_state [] [5] []).
  - vm_compute. reflexivity.
  - apply echo_table.
  - apply echo_names.
  - repeat constructor; discriminate.
  - cbn. lia.
  - reflexivity.
  - reflexivity.
  - reflexivity.
Defined.

(** The table after "/dev/x" was opened. *)
Lemma echo_opened :
  exists s' f, open (A := next_obj) echo_at 3 echo_state tt [47; 100; 101; 118; 47; 120] = Ok (s', tt, 1) /\
    table_ok s' [f] [5] [] /\ descriptor s' [f] 1 6 42 /\ rg_cdevs (fs_reg s') !! 6 = Some (Cdev 9 0 42).
Proof.
  destruct (open_ok (L := next_obj_laws) echo_at 3 echo_state [] [5] [] tt [47; 100; 101; 118; 47; 120] 5
              (Class_ 6 [47; 100; 101; 118; 47; 120] 42) (Cdev 9 0 42) echo_ops tt 42 0) as (s' & f & E & Ht & _ & _ & Hd & _ & Hc & _);
    try reflexivity; try apply echo_table; try apply echo_names; try (cbn; lia); try discriminate.
  - repeat constructor; discriminate.
  - set_solver.
  - exists s', f. auto.

Qed.

Lemma fd_close_spec_witness :
  close 3 echo_state 7 = Ok (with_errno echo_state EBADF, -1) /\
  exists s1 s2, open (A := next_obj) echo_at 3 echo_state tt [47; 100; 101; 118; 47; 120] = Ok (s1, tt, 1) /\
    close 3 s1 1 = Ok (s2, 0) /\ lfd s2 = lfd s1.
Proof.
  split.
  - apply (fd_close_spec 3 echo_state [] [5] [] 7); [apply echo_table | cbn; lia |].
    intros f [Hf _]. now apply not_elem_of_nil in Hf.
  - destruct echo_opened as (s1 & f & E & Ht & Hd & _). destruct (descriptor_names _ _ _ _ _ Hd) as [g Hg].
    destruct (proj1 (fd_close_spec 3 s1 [f] [5] [] 1 Ht ltac:(cbn; lia)) g Hg) as (s2 & l2 & E2 & _ & El & _).
    exists s1, s2. auto.
Defined.

Lemma fd_read_write_spec_witness :
  read echo_at 3 echo_state tt 7 (Ptr 66 0) 8 = Ok (with_errno echo_state EBADF, tt, 0) /\
  exists s1, open (A := next_obj) echo_at 3 echo_state tt [47; 100; 101; 118; 47; 120] = Ok (s1, tt, 1) /\
    read echo_at 3 s1 tt 1 (Ptr 66 0) 8 = Ok (s1, tt, 42) /\ write echo_at 3 s1 tt 1 (Ptr 66 0) 8 = Ok (s1, tt, 8).
Proof.
  split.
  - destruct (fd_read_write_spec echo_at 3 echo_state [] [5] [] tt 7 (Ptr 66 0) 8) as (_ & H & _); [apply echo_table | cbn; lia |].
    apply H. intros f [Hf _]. now apply not_elem_of_nil in Hf.
  - destruct echo_opened as (s1 & f & E & Ht & Hd & Hc). exists s1. split; [exact E |].
    destruct (fd_read_write_spec echo_at 3 s1 [f] [5] [] tt 1 (Ptr 66 0) 8 Ht ltac:(cbn; lia)) as (H & _).
    exact (H 6 42 (Cdev 9 0 42) echo_ops Hd eq_refl Hc eq_refl).
Defined.

End Fd.
