(* ===== verification/DevFs.v ===== *)
(** * The device file system

    The device registry (cdev.c) and the file descriptors (fd.c) together: any
    sequence of calls of a driver ([class_create], [cdev_init], [device_create],
    [cdev_add]) and of its users ([open], [close], [read], [write]) in any
    order.  The abstract file system [afs] is what the two files mean to be: a
    list of device files, and a finite map from descriptors to a device with
    the private data the driver gave the file. *)

From S2P Require Import Prelude Memory ListHead Chardev Fd.
Import Memory ListHead Chardev Fd.

(** The abstract file system: device files newest first, the driver classes,
    the devices with their operation tables, the open descriptors, the next
    descriptor and [errno]. *)
Record afs (P : Type) := AFs {
  a_files : list seL4_Class;
  a_cls : gset Z;
  a_devs : gmap Z Z;
  a_fds : gmap Z (Z * P);
  a_next : Z;
  a_errno : Z
}.
Arguments AFs {P}.
Arguments a_files {P}.
Arguments a_cls {P}.
Arguments a_devs {P}.
Arguments a_fds {P}.
Arguments a_next {P}.
Arguments a_errno {P}.

Module DevFs.

Inductive call :=
| CClass (name : list Z)
| CInit (dev ops : Z)
| CCreate (cls dev : Z) (fmt : list Z)
| CAdd (parent dev : Z)
| COpen (name : list Z)
| CClose (fd : Z)
| CRead (fd : Z) (buf : ptr) (n : Z)
| CWrite (fd : Z) (buf : ptr) (n : Z).

Section Calls.
Context {A : ObjAlloc} {W P : Type}.
Variable ops_at : Z -> option (file_operations W P).
Variable fuel : nat.

(** Of [device_create] the result is whether the pointer is NULL; nothing takes
    that pointer. *)
Definition do_call (c : call) (s : fdstate P) (w : W) : res (fdstate P * W * Z) :=
  match c with
  | CClass name =>
      let! (r, p) := __class_create (fs_reg s) name in
      Ok (with_reg s r, w, p)
  | CInit dev ops =>
      let! r := cdev_init (fs_reg s) dev ops in
      Ok (with_reg s r, w, 0)
  | CCreate cls dev fmt =>
      let! (r, p) := device_create (fs_reg s) cls dev fmt in
      Ok (with_reg s r, w, Z.b2z (negb (p =? 0)))
  | CAdd parent dev =>
      let! (r, rc) := cdev_add fuel (fs_reg s) parent dev 1 in
      Ok (with_reg s r, w, rc)
  | COpen name => open ops_at fuel s w name
  | CClose fd => let! (s, rc) := close fuel s fd in Ok (s, w, rc)
  | CRead fd buf n => read ops_at fuel s w fd buf n
  | CWrite fd buf n => write ops_at fuel s w fd buf n
  end.

(** A client chooses each call by the results of the earlier ones, oldest first:
    a class is made before it is passed on. *)
Definition client : Type := list (list Z -> call).

(** The results, after those of the calls before. *)
Fixpoint run (cs : client) (rs : list Z) (s : fdstate P) (w : W) : res (fdstate P * W * list Z) :=
  match cs with
  | [] => Ok (s, w, rs)
  | c :: cs =>
      let! (s, w, r) := do_call (c rs) s w in
      run cs (rs ++ [r]) s w
  end.

(** What a call asks of [malloc]. *)
Definition objects_of (c : call) : list object :=
  match c with
  | CClass name => [O_class; O_string (length name)]
  | CCreate _ _ fmt => [O_device; O_string (length fmt); O_seL4_Class]
  | COpen name => file_objects name
  | _ => []
  end.

(** There is memory for every call the run comes to.  It says nothing about
    whether a call returns: past one that does not nothing is asked. *)
Fixpoint memory_for (cs : client) (rs : list Z) (s : fdstate P) (w : W) : bool :=
  match cs with
  | [] => true
  | c :: cs =>
      enough (objects_of (c rs)) (rg_live (fs_reg s)) &&
      match do_call (c rs) s w with
      | Ok (s, w, r) => memory_for cs (rs ++ [r]) s w
      | Err _ => true
      end
  end.

(** ** The abstract file system *)

Definition is_cstring (s : list Z) : bool := forallb (fun x => negb (x =? 0)) s.

(** The newest file with a name. *)
Fixpoint find_file (name : list Z) (l : list seL4_Class) : option seL4_Class :=
  match l with
  | [] => None
  | c :: l => if bool_decide (cl_name c = name) then Some c else find_file name l
  end.

Definition dev_ops (a : afs P) (dv : Z) : option (file_operations W P) := a_devs a !! dv ≫= ops_at.

Definition set_files (a : afs P) (l : list seL4_Class) : afs P :=
  AFs l (a_cls a) (a_devs a) (a_fds a) (a_next a) (a_errno a).
Definition set_cls (a : afs P) (c : gset Z) : afs P :=
  AFs (a_files a) c (a_devs a) (a_fds a) (a_next a) (a_errno a).
Definition set_devs (a : afs P) (d : gmap Z Z) : afs P :=
  AFs (a_files a) (a_cls a) d (a_fds a) (a_next a) (a_errno a).
Definition set_fds (a : afs P) (d : gmap Z (Z * P)) (n : Z) : afs P :=
  AFs (a_files a) (a_cls a) (a_devs a) d n (a_errno a).
Definition set_err (a : afs P) (e : Z) : afs P :=
  AFs (a_files a) (a_cls a) (a_devs a) (a_fds a) (a_next a) e.

(** Reading or writing: [op] is the operation of the driver. *)
Definition spec_io (op : file_operations W P -> W -> P -> ptr -> Z -> res (W * Z))
    (a : afs P) (w : W) (fd : Z) (buf : ptr) (n : Z) : option (afs P * W * Z) :=
  match a_fds a !! fd with
  | None => Some (set_err a EBADF, w, 0)
  | Some (dv, q) =>
      if is_null buf then Some (set_err a EFAULT, w, 0)
      else
        match dev_ops a dv with
        | Some o => match op o w q buf n with Ok (w, r) => Some (a, w, r) | Err _ => None end
        | None => None
        end
  end.

(** [p] is where a new class would be.  [None] where a caller breaks the rules: a string with a zero inside, an
    unknown class or device, a name that is not registered and bound, too many
    descriptors, or a driver operation that goes wrong. *)
Definition spec_call (p : Z) (c : call) (a : afs P) (w : W) : option (afs P * W * Z) :=
  match c with
  | CClass name => Some (set_cls a ({[p]} ∪ a_cls a), w, p)
  | CInit dev ops =>
      match a_devs a !! dev with
      | Some _ => Some (set_devs a (<[dev := ops]> (a_devs a)), w, 0)
      | None => None
      end
  | CCreate cls dev fmt =>
      if bool_decide (cls ∈ a_cls a) && is_cstring fmt
      then Some (set_files a (Class_ 0 (dev_name fmt) dev :: a_files a), w, 1) else None
  | CAdd parent dev =>
      match a_devs a !! parent with
      | Some _ => let '(l, r) := bind parent dev (a_files a) in Some (set_files a l, w, r)
      | None => None
      end
  | COpen name =>
      if is_cstring name && (a_next a <? INT_MAX) then
        match find_file name (a_files a) with
        | Some c =>
            match dev_ops a (cl_cdev c) with
            | Some o =>
                match op_open o w (cl_dev c) with
                | Ok (w, p, _) =>
                    Some (set_fds a (<[a_next a := (cl_cdev c, p)]> (a_fds a)) (a_next a + 1), w, a_next a)
                | Err _ => None
                end
            | None => None
            end
        | None => None
        end
      else None
  | CClose fd =>
      match a_fds a !! fd with
      | Some _ => Some (set_fds a (delete fd (a_fds a)) (a_next a), w, 0)
      | None => Some (set_err a EBADF, w, -1)
      end
  | CRead fd buf n => spec_io op_read a w fd buf n
  | CWrite fd buf n => spec_io op_write a w fd buf n
  end.

(** The client breaks no rule, wherever its classes turn out to be. *)
Fixpoint legal (cs : client) (rs : list Z) (a : afs P) (w : W) : Prop :=
  match cs with
  | [] => True
  | c :: cs => forall p, p <> 0 ->
      match spec_call p (c rs) a w with
      | Some (a, w, r) => legal cs (rs ++ [r]) a w
      | None => False
      end
  end.

(** A run of the client on the abstract file system, with all its results. *)
Inductive spec_run : client -> list Z -> afs P -> W -> list Z -> afs P -> W -> Prop :=
| spec_done rs a w : spec_run [] rs a w rs a w
| spec_more p c cs rs a w a1 w1 r rs' a' w' :
    p <> 0 -> spec_call p (c rs) a w = Some (a1, w1, r) ->
    spec_run cs (rs ++ [r]) a1 w1 rs' a' w' -> spec_run (c :: cs) rs a w rs' a' w'.

(** ** The correspondence *)

(** The registered devices are there, in use, and not a block of an open file. *)
Definition device_ok (s : fdstate P) (l : list Z) (dv ops : Z) : Prop :=
  (exists d, rg_cdevs (fs_reg s) !! dv = Some d /\ cd_ops d = ops) /\
  dv ∈ rg_live (fs_reg s) /\ dv ∉ all_blocks s l.

Record implements (s : fdstate P) (a : afs P) (l cl dl : list Z) : Prop := {
  im_table : table_ok s l cl dl;
  im_names : names_ok (fs_reg s) cl;
  im_files : recs (fs_reg s) cl = a_files a;
  im_cls : a_cls a ⊆ rg_cls (fs_reg s);
  im_devs : forall dv ops, a_devs a !! dv = Some ops -> device_ok s l dv ops;
  im_fds : forall fd dv q, descriptor s l fd dv q <-> a_fds a !! fd = Some (dv, q);
  im_size : length l = size (a_fds a);
  im_next : lfd s = a_next a;
  im_errno : errno s = a_errno a
}.
End Calls.

(** ** Calls on the registry *)

Section Registry.
Context {A : ObjAlloc} {L : ObjAllocLaws A} {P : Type}.

Lemma alloc_grows r o :
  rg_live r ⊆ rg_live (fst (alloc r o)) /\ rg_dyn r ⊆ rg_dyn (fst (alloc r o)).
Proof. unfold alloc. destruct (obj_malloc _ _); [destruct r; cbn; set_solver | done]. Qed.

Lemma with_reg_blocks (s : fdstate P) r l : all_blocks (with_reg s r) l = all_blocks s l.
Proof. now destruct s. Qed.

Lemma with_reg_descriptor (s : fdstate P) r l fd dv q :
  descriptor (with_reg s r) l fd dv q <-> descriptor s l fd dv q.
Proof. now destruct s. Qed.

(** A new registry under the same open files: its lists are well formed, its
    memory has only grown, and its classes are old ones or fresh. *)
Record extends (s : fdstate P) (r' : registry) (cl cl' dl : list Z) : Prop := {
  ex_reg : reg_ok r' cl' dl;
  ex_live : rg_live (fs_reg s) ⊆ rg_live r';
  ex_dyn : rg_dyn (fs_reg s) ⊆ rg_dyn r';
  ex_sub : rg_dyn r' ⊆ rg_live r';
  ex_cls : rg_cls (fs_reg s) ⊆ rg_cls r';
  ex_names : names_ok r' cl';
  ex_fresh : forall x, x ∈ cl' -> x ∈ cl \/ x ∉ rg_live (fs_reg s)
}.

Lemma table_extends (s : fdstate P) r' l cl cl' dl :
  table_ok s l cl dl -> extends s r' cl cl' dl -> table_ok (with_reg s r') l cl' dl.
Proof.
  intros [T1 T2 T3 T4 T5 T6 T7 T8 T9 T10 T11 T12] [E1 E2 E3 E4 _ _ E7].
  assert (forall b, b ∈ all_blocks s l -> b ∉ file_root :: classes_head :: cl' ++ devs_head :: dl) as Hap.
  { intros b Hb. specialize (T11 b Hb). specialize (T9 b Hb). intros Hin.
    rewrite !elem_of_cons, elem_of_app, elem_of_cons in Hin, T11.
    destruct Hin as [|[|[Hc|[|]]]]; try (apply T11; tauto).
    destruct (E7 b Hc) as [|Hn]; [apply T11; tauto | apply Hn; now apply T10]. }
  destruct s as [r h o p n e]. cbn in *. split; cbn; auto.
Qed.

Lemma implements_extends (s : fdstate P) a r' l cl cl' dl files devs :
  implements s a l cl dl -> extends s r' cl cl' dl -> recs r' cl' = files ->
  (forall dv ops, devs !! dv = Some ops -> dv ∈ dom (a_devs a) /\
     exists d, rg_cdevs r' !! dv = Some d /\ cd_ops d = ops) ->
  implements (with_reg s r') (AFs files (a_cls a) devs (a_fds a) (a_next a) (a_errno a)) l cl' dl.
Proof.
  intros [I1 I2 I3 I4 I5 I6 I7 I8 I9] He Hf Hd. pose proof (table_extends _ _ _ _ _ _ I1 He) as Ht.
  destruct He as [E1 E2 E3 E4 E5 E6 E7].
  split; cbn [a_files a_cls a_devs a_fds a_next a_errno]; try assumption.
  - now destruct s.
  - now destruct s.
  - destruct s. cbn in *. set_solver.
  - intros dv ops Ho. destruct (Hd dv ops Ho) as [[x Hx]%elem_of_dom (d & Hd1 & Hd2)].
    destruct (I5 dv x Hx) as (_ & Hl & Hb). split; [|split].
    + exists d. now destruct s.
    + destruct s. cbn in *. now apply E2.
    + now rewrite with_reg_blocks.
  - intros fd dv q. rewrite with_reg_descriptor. apply I6.
  - now destruct s.
  - now destruct s.
Qed.

(** The devices as they were. *)
Lemma devs_kept (s : fdstate P) a l cl dl r' :
  implements s a l cl dl -> rg_cdevs r' = rg_cdevs (fs_reg s) ->
  forall dv ops, a_devs a !! dv = Some ops -> dv ∈ dom (a_devs a) /\
    exists d, rg_cdevs r' !! dv = Some d /\ cd_ops d = ops.
Proof.
  intros Hi E dv ops Hd. rewrite E. split; [apply elem_of_dom; eauto |].
  now destruct (im_devs _ _ _ _ _ Hi dv ops Hd) as [H _].
Qed.

Lemma names_kept r r' cl :
  (forall x, x ∈ cl -> rec_of r' x = rec_of r x) -> names_ok r cl -> names_ok r' cl.
Proof. intros H Hn x Hx. rewrite H by exact Hx. now apply Hn. Qed.

Lemma afs_eta (a : afs P) : a = AFs (a_files a) (a_cls a) (a_devs a) (a_fds a) (a_next a) (a_errno a).
Proof. now destruct a. Qed.

Lemma device_create_dyn r cls dev fmt r' d :
  device_create r cls dev fmt = Ok (r', d) -> rg_dyn r ⊆ rg_dyn r'.
Proof.
  unfold device_create. intros H. res_inv.
  pose proof (alloc_grows r O_device) as [_ G1]. destruct (alloc r O_device) as [r1 p1]. res_inv.
  pose proof (alloc_grows r1 (O_string (length fmt))) as [_ G2]. destruct (alloc r1 _) as [r2 p2]. res_inv.
  pose proof (alloc_grows r2 O_seL4_Class) as [_ G3]. destruct (alloc r2 _) as [r3 p3]. cbn [fst] in *.
  assert (rg_dyn r ⊆ rg_dyn r3) as G by set_solver. clear - H G.
  destruct (p3 =? 0); res_inv; subst; [exact G |]. destruct r3. exact G.
Qed.

Lemma is_cstring_iff s : is_cstring s = true <-> cstring s.
Proof.
  unfold is_cstring, cstring. rewrite forallb_forall, Forall_forall. split; intros H x Hx.
  - specialize (H x Hx). destruct (Z.eqb_spec x 0); [discriminate | assumption].
  - now rewrite (proj2 (Z.eqb_neq _ _) (H x Hx)).
Qed.

Lemma bind_same_names parent dev (l : list seL4_Class) :
  cl_name <$> fst (bind parent dev l) = cl_name <$> l.
Proof.
  induction l as [|c l IH]; [reflexivity |]. cbn [bind].
  destruct (cl_dev c =? dev); [destruct (negb (cl_cdev c =? 0)); [reflexivity |]|];
    destruct (bind parent dev l) as [l' e]; cbn in *; now rewrite IH.
Qed.

(** Names that are kept stay proper. *)
Lemma names_fmap r r' cl :
  cl_name <$> recs r' cl = cl_name <$> recs r cl -> names_ok r cl -> names_ok r' cl.
Proof.
  intros E Hn x Hx. apply list_elem_of_lookup in Hx as [i Hi].
  assert (cl_name (rec_of r' x) = cl_name (rec_of r x)) as ->.
  { assert ((cl_name <$> recs r' cl) !! i = (cl_name <$> recs r cl) !! i) as H by now rewrite E.
    unfold recs in H. rewrite !list_lookup_fmap, Hi in H. now injection H. }
  apply Hn. apply list_elem_of_lookup. eauto.
Qed.
End Registry.

Section RegistryCalls.
Context {A : ObjAlloc} {L : ObjAllocLaws A} {W P : Type}.
Variable ops_at : Z -> option (file_operations W P).
Variable fuel : nat.

Lemma implements_class (s : fdstate P) a l cl dl c :
  c ∈ rg_cls (fs_reg s) -> implements s a l cl dl -> implements s (set_cls a ({[c]} ∪ a_cls a)) l cl dl.
Proof. intros Hc [I1 I2 I3 I4 I5 I6 I7 I8 I9]. split; try assumption. cbn. set_solver. Qed.

Lemma class_step (s : fdstate P) a l cl dl (w : W) name :
  implements s a l cl dl -> enough [O_class; O_string (length name)] (rg_live (fs_reg s)) = true ->
  exists s' p, p <> 0 /\ do_call ops_at fuel (CClass name) s w = Ok (s', w, p) /\
    implements s' (set_cls a ({[p]} ∪ a_cls a)) l cl dl.
Proof.
  intros Hi He. cbn [do_call]. unfold __class_create. set (r := fs_reg s) in *.
  destruct (alloc_some r O_class _ He) as (c & -> & Hc & _ & He1 & _).
  rewrite (proj2 (Z.eqb_neq _ _) Hc). cbv beta iota zeta. set (r1 := with_alloc r _ _) in *.
  destruct (alloc_some r1 (O_string (length name)) _ He1) as (p & -> & Hp & _).
  rewrite (proj2 (Z.eqb_neq _ _) Hp). cbn [negb defined_if rbind]. set (r2 := with_alloc r1 _ _) in *.
  assert (quiet r r2) as [Q1 Q2 (_ & _ & Q3 & Qc) Q4 Q5 Q6] by (apply (quiet_trans r r1); now apply quiet_alloc).
  eexists _, c. split; [exact Hc | split; [reflexivity |]].
  apply implements_class; [destruct s, r2; cbn; set_solver |].
  pose proof (im_table _ _ _ _ _ Hi) as Ht. pose proof (Q1 _ _ (to_reg _ _ _ _ Ht)) as Hr2.
  pose proof (Q6 (to_sub _ _ _ _ Ht)) as Hsub. clearbody r2.
  rewrite (afs_eta a). apply (implements_extends s a _ l cl cl dl); [exact Hi | | |].
  - destruct r2 as [h2 cs2 cu2 dv2 cd2 ks2 lv2 dy2]. cbn in *. split; cbn; [|exact Q4|exact Q5|exact Hsub|set_solver| |auto].
    + destruct Hr2. now split.
    + apply (names_kept (fs_reg s)); [intros x _; exact (Q2 x) | apply Hi].
  - rewrite <- (im_files _ _ _ _ _ Hi). apply recs_ext. intros x _. etrans; [|exact (Q2 x)]. now destruct r2.
  - apply (devs_kept s a l cl dl); [exact Hi |]. destruct r2. exact Q3.
Qed.

Lemma init_step (s : fdstate P) a l cl dl (w : W) dev ops x :
  implements s a l cl dl -> a_devs a !! dev = Some x ->
  exists s', do_call ops_at fuel (CInit dev ops) s w = Ok (s', w, 0) /\
    implements s' (set_devs a (<[dev := ops]> (a_devs a))) l cl dl.
Proof.
  intros Hi Hx. destruct (im_devs _ _ _ _ _ Hi dev x Hx) as ((d & Hd & _) & _).
  cbn [do_call]. unfold cdev_init, cdev_at. rewrite Hd. cbn [rbind]. eexists. split; [reflexivity |].
  pose proof (im_table _ _ _ _ _ Hi) as Ht.
  apply (implements_extends s a _ l cl cl dl); [exact Hi | | |].
  - split; auto; try (destruct (fs_reg s); done).
    + destruct (to_reg _ _ _ _ Ht). destruct (fs_reg s). now split.
    + pose proof (to_sub _ _ _ _ Ht). now destruct (fs_reg s).
    + apply (names_kept (fs_reg s)); [intros y _; now destruct (fs_reg s) | apply Hi].
  - rewrite <- (im_files _ _ _ _ _ Hi). apply recs_ext. intros y _. now destruct (fs_reg s).
  - intros dv o Ho. assert (rg_cdevs (with_cdevs (fs_reg s) (<[dev := Cdev ops (cd_owner d) (cd_dev d)]> (rg_cdevs (fs_reg s))))
      = <[dev := Cdev ops (cd_owner d) (cd_dev d)]> (rg_cdevs (fs_reg s))) as -> by now destruct (fs_reg s).
    destruct (Z.eq_dec dv dev) as [->|Hne].
    + rewrite lookup_insert_eq. rewrite (lookup_insert_eq (M := gmap Z)) in Ho. injection Ho as <-. split; [apply elem_of_dom; eauto |]. eexists. now split.
    + rewrite lookup_insert_ne by congruence. rewrite (lookup_insert_ne (M := gmap Z)) in Ho by congruence. now apply (devs_kept s a l cl dl (fs_reg s) Hi).
Qed.

Lemma create_step (s : fdstate P) a l cl dl (w : W) cls dev fmt :
  implements s a l cl dl -> cls ∈ a_cls a -> cstring fmt ->
  enough [O_device; O_string (length fmt); O_seL4_Class] (rg_live (fs_reg s)) = true ->
  exists s' cl', do_call ops_at fuel (CCreate cls dev fmt) s w = Ok (s', w, 1) /\
    implements s' (set_files a (Class_ 0 (dev_name fmt) dev :: a_files a)) l cl' dl /\
    length cl' = S (length cl).
Proof.
  intros Hi Hc Hs He. pose proof (im_table _ _ _ _ _ Hi) as Ht.
  destruct (device_create_ok (fs_reg s) cl dl cls dev fmt []) as
    (r' & d & new & E & (_ & _ & S3 & S4) & Hl & Hd & _ & Hn0 & Hn & Hr & Hrec & Hoth & Hsub).
  { apply Ht. } { now apply (im_cls _ _ _ _ _ Hi). } { exact He. }
  pose proof (device_create_dyn _ _ _ _ _ _ E) as Hdyn.
  assert (forall x, x ∈ cl -> rec_of r' x = rec_of (fs_reg s) x) as Hold.
  { intros x Hx. apply Hoth. intros ->. apply Hn. apply (ro_live _ _ _ (to_reg _ _ _ _ Ht)).
    apply elem_of_cons. right. apply elem_of_app. now left. }
  exists (with_reg s r'), (new :: cl). cbn [do_call]. rewrite E. cbn [rbind].
  rewrite (proj2 (Z.eqb_neq d 0)) by lia. split; [reflexivity | split; [|reflexivity]].
  apply (implements_extends s a r' l cl (new :: cl) dl); [exact Hi | | |].
  - split; try assumption; [apply Hsub, Ht | now rewrite S4 | |].
    + intros x Hx. apply elem_of_cons in Hx as [->|Hx].
      * rewrite Hrec. now apply dev_name_ok.
      * rewrite Hold by exact Hx. now apply (im_names _ _ _ _ _ Hi).
    + intros x Hx. apply elem_of_cons in Hx as [->|Hx]; auto.
  - cbn. rewrite Hrec. f_equal. rewrite <- (im_files _ _ _ _ _ Hi). now apply recs_ext.
  - now apply (devs_kept s a l cl dl).
Qed.

Lemma add_step (s : fdstate P) a l cl dl (w : W) parent dev :
  implements s a l cl dl -> (length cl <= fuel)%nat ->
  exists s', do_call ops_at fuel (CAdd parent dev) s w = Ok (s', w, snd (bind parent dev (a_files a))) /\
    implements s' (set_files a (fst (bind parent dev (a_files a)))) l cl dl.
Proof.
  intros Hi Hf. pose proof (im_table _ _ _ _ _ Hi) as Ht.
  destruct (cdev_add_ok fuel (fs_reg s) cl dl parent dev 1 (to_reg _ _ _ _ Ht) Hf)
    as (r' & E & Er & ((_ & _ & S3 & S4) & _ & O1 & O2 & _ & _) & Hr).
  exists (with_reg s r'). cbn [do_call]. rewrite E. cbn [rbind]. rewrite (im_files _ _ _ _ _ Hi) in *.
  split; [reflexivity |]. apply (implements_extends s a r' l cl cl dl); [exact Hi | | exact Er |].
  - split; auto; rewrite ?O1, ?O2, ?S4; try done; [apply Ht |].
    apply (names_fmap (fs_reg s)); [|apply Hi]. rewrite Er, bind_same_names. now rewrite (im_files _ _ _ _ _ Hi).
  - now apply (devs_kept s a l cl dl).
Qed.
End RegistryCalls.

(** ** Calls on files *)

Section Files.
Context {A : ObjAlloc} {L : ObjAllocLaws A} {W P : Type}.
Variable ops_at : Z -> option (file_operations W P).
Variable fuel : nat.

Lemma descriptor_bound (s : fdstate P) l cl dl fd dv q :
  table_ok s l cl dl -> descriptor s l fd dv q -> 1 <= fd < lfd s.
Proof. intros Ht (f & o & Hf & Ho & <- & _). now apply (to_fds _ _ _ _ Ht f). Qed.

Lemma descriptor_fun (s : fdstate P) l cl dl fd dv q dv' q' :
  table_ok s l cl dl -> descriptor s l fd dv q -> descriptor s l fd dv' q' -> dv = dv' /\ q = q'.
Proof.
  intros Ht (f & o & Hf & Ho & Hfd & Hdv & Hq) (g & o' & Hg & Ho' & Hfd' & Hdv' & Hq').
  assert (f = g) as -> by (apply (to_unique _ _ _ _ Ht f g o o'); congruence). split; congruence.
Qed.

(** A descriptor is open exactly when it names a file. *)
Lemma descriptor_open (s : fdstate P) a l cl dl fd :
  implements s a l cl dl -> (exists f, names_file s l fd f) <-> is_Some (a_fds a !! fd).
Proof.
  intros Hi. split.
  - intros (f & Hf & o & Ho & Hfd). destruct (to_priv _ _ _ _ (im_table _ _ _ _ _ Hi) f o Hf Ho) as [q Hq].
    exists (of_device o, q). apply (im_fds _ _ _ _ _ Hi). exists f, o. auto.
  - intros [[dv q] H]. apply (im_fds _ _ _ _ _ Hi) in H. now apply descriptor_names in H.
Qed.

Lemma find_by_name r cl name c :
  find_file name (recs r cl) = Some c ->
  by_name r cl name ∈ cl /\ rec_of r (by_name r cl name) = c.
Proof.
  induction cl as [|x cl IH]; [discriminate |]. cbn. fold (recs r cl).
  destruct (bool_decide (cl_name (rec_of r x) = name)).
  - intros [= <-]. split; [apply elem_of_cons; auto | reflexivity].
  - intros H. destruct (IH H). split; [apply elem_of_cons; auto | assumption].
Qed.

(** A block known to the file system survives the allocations of [open]. *)
Lemma device_opened (s s' : fdstate P) l f nm d' fl dv ops :
  grown (fs_reg s) [f; d'; nm; fl] d' (fs_reg s') -> all_blocks s' (f :: l) = [f; nm; fl] ++ all_blocks s l ->
  device_ok s l dv ops -> device_ok s' (f :: l) dv ops.
Proof.
  intros Hg Hb ((d & Hd & Ho) & Hl & Hn). pose proof (gr_fresh _ _ _ _ Hg) as Hfr.
  assert (forall x, x ∈ [f; d'; nm; fl] -> x <> dv) as Hne by (intros x Hx ->; now apply (proj2 (Hfr dv Hx))).
  split; [|split].
  - exists d. rewrite (gr_cdevs _ _ _ _ Hg), lookup_insert_ne; [auto |]. apply Hne. set_solver.
  - apply (gr_live _ _ _ _ Hg). auto.
  - rewrite Hb, elem_of_app. intros [Hin|Hin]; [|contradiction]. apply (Hne dv); [|reflexivity]. set_solver.
Qed.

Lemma open_step (s : fdstate P) a l cl dl (w w' : W) name c o p rc :
  implements s a l cl dl -> enough (file_objects name) (rg_live (fs_reg s)) = true ->
  (length cl <= fuel)%nat -> cstring name -> a_next a < INT_MAX ->
  find_file name (a_files a) = Some c -> dev_ops ops_at a (cl_cdev c) = Some o ->
  op_open o w (cl_dev c) = Ok (w', p, rc) ->
  exists s' l', do_call ops_at fuel (COpen name) s w = Ok (s', w', a_next a) /\
    implements s' (set_fds a (<[a_next a := (cl_cdev c, p)]> (a_fds a)) (a_next a + 1)) l' cl dl.
Proof.
  intros Hi Hm Hf Hs Hn Hc Ho Hop. pose proof Hi as [I1 I2 I3 I4 I5 I6 I7 I8 I9].
  rewrite <- I3 in Hc. apply find_by_name in Hc as [Hin Hrec].
  unfold dev_ops in Ho. destruct (a_devs a !! cl_cdev c) as [x|] eqn:Hx; [|discriminate]. cbn in Ho.
  destruct (I5 _ _ Hx) as ((d & Hd & <-) & Hl & _).
  destruct (open_ok ops_at fuel s l cl dl w name _ c d o w' p rc Hm I1 I2 Hs Hf ltac:(lia) eq_refl)
    as (s' & f & E & Ht & H1 & H2 & H3 & H4 & _ & nm & d' & fl & Hg & Hb); try assumption.
  { intros E. rewrite E in Hin. apply (ro_null _ _ _ (to_reg _ _ _ _ I1)), (ro_live _ _ _ (to_reg _ _ _ _ I1)).
    apply elem_of_cons. right. apply elem_of_app. now left. }
  exists s', (f :: l). cbn [do_call]. rewrite E, I8. split; [reflexivity |]. rewrite I8 in H1, H3, H4.
  assert (a_fds a !! a_next a = None) as Hno.
  { destruct (a_fds a !! a_next a) as [[dv q]|] eqn:Hq; [|reflexivity]. apply I6 in Hq.
    apply (descriptor_bound s l cl dl) in Hq; [lia | assumption]. }
  split; cbn [a_files a_cls a_devs a_fds a_next a_errno set_fds]; try assumption.
  - now apply (grown_names _ _ _ _ cl name Hg).
  - rewrite <- I3. apply recs_ext. intros y _. unfold rec_of. now rewrite (gr_classes _ _ _ _ Hg).
  - now rewrite (gr_cls _ _ _ _ Hg).
  - intros dv ops Hdv. apply (device_opened s s' l f nm d' fl dv ops Hg Hb). now apply I5.
  - intros fd dv q. destruct (Z.lt_trichotomy fd (a_next a)) as [Hlt|[->|Hgt]].
    + rewrite lookup_insert_ne by lia. rewrite H4 by exact Hlt. apply I6.
    + rewrite lookup_insert_eq. split.
      * intros Hq. destruct (descriptor_fun _ _ _ _ _ _ _ _ _ Ht Hq H3) as [-> ->]. reflexivity.
      * intros [= <- <-]. exact H3.
    + rewrite lookup_insert_ne by lia. split; intros Hq; exfalso.
      * apply (descriptor_bound s' _ cl dl) in Hq; [lia | assumption].
      * apply I6 in Hq. apply (descriptor_bound s l cl dl) in Hq; [lia | assumption].
  - rewrite map_size_insert_None by exact Hno. cbn. now rewrite I7.
  - congruence.
Qed.

Lemma close_step (s : fdstate P) a l cl dl (w : W) fd :
  implements s a l cl dl -> (length l <= fuel)%nat ->
  match a_fds a !! fd with
  | Some _ => exists s' l', do_call ops_at fuel (CClose fd) s w = Ok (s', w, 0) /\
      implements s' (set_fds a (delete fd (a_fds a)) (a_next a)) l' cl dl
  | None => do_call ops_at fuel (CClose fd) s w = Ok (with_errno s EBADF, w, -1)
  end.
Proof.
  intros Hi Hf. pose proof Hi as [I1 I2 I3 I4 I5 I6 I7 I8 I9].
  destruct (a_fds a !! fd) as [x|] eqn:Hx.
  - destruct (proj2 (descriptor_open s a l cl dl fd Hi) ltac:(eauto)) as [g Hg].
    destruct (close_ok fuel s l cl dl fd g I1 Hf Hg)
      as (s' & l' & E & Ht & H1 & H2 & H3 & H4 & H5 & H6 & (_ & _ & S3 & S4) & H7 & H8).
    exists s', l'. cbn [do_call]. rewrite E. split; [reflexivity |].
    split; cbn [a_files a_cls a_devs a_fds a_next a_errno set_fds]; try assumption.
    + apply (names_kept (fs_reg s)); [|exact I2]. intros y _. unfold rec_of. now rewrite H7.
    + rewrite <- I3. apply recs_ext. intros y _. unfold rec_of. now rewrite H7.
    + now rewrite S4.
    + intros dv ops Hdv. destruct (I5 dv ops Hdv) as (Hd & Hl & Hb). split; [now rewrite S3 |]. split.
      * apply H2. split; [exact Hl |]. intros Hin. apply Hb. destruct Hg as (Hgl & _).
        apply list_elem_of_bind. eauto.
      * intros Hin. apply Hb, H8, Hin.
    + intros fd' dv q. destruct (Z.eq_dec fd' fd) as [->|Hne].
      * rewrite lookup_delete_eq. split; [|discriminate]. intros Hq. exfalso.
        destruct (descriptor_names _ _ _ _ _ Hq) as [g' Hg']. exact (H3 g' Hg').
      * rewrite lookup_delete_ne by congruence. rewrite H4 by exact Hne. apply I6.
    + rewrite map_size_delete, Hx. cbn. lia.
    + congruence.
    + congruence.
  - cbn [do_call]. unfold close. destruct (file_by_fd_ok fuel s l cl dl fd I1 Hf) as (f & -> & H1 & _). cbn [rbind].
    destruct (Z.eqb_spec f 0) as [|E0]; [reflexivity |]. exfalso.
    destruct (proj1 (descriptor_open s a l cl dl fd Hi) ltac:(eauto)) as [y Hy]. congruence.
Qed.

Lemma with_errno_implements (s : fdstate P) a l cl dl e :
  implements s a l cl dl -> implements (with_errno s e) (set_err a e) l cl dl.
Proof.
  intros [[T1 T2 T3 T4 T5 T6 T7 T8 T9 T10 T11 T12] I2 I3 I4 I5 I6 I7 I8 I9]. destruct s. now split.
Qed.
(** [read] and [write] at once: each is a search followed by the driver. *)
Lemma io_step (s : fdstate P) a l cl dl (w w' : W) fd buf n a' r :
  implements s a l cl dl -> (length l <= fuel)%nat ->
  (spec_io ops_at op_read a w fd buf n = Some (a', w', r) ->
     exists s', read ops_at fuel s w fd buf n = Ok (s', w', r) /\ implements s' a' l cl dl) /\
  (spec_io ops_at op_write a w fd buf n = Some (a', w', r) ->
     exists s', write ops_at fuel s w fd buf n = Ok (s', w', r) /\ implements s' a' l cl dl).
Proof.
  intros Hi Hf. pose proof (im_table _ _ _ _ _ Hi) as Ht. unfold spec_io.
  destruct (file_by_fd_ok fuel s l cl dl fd Ht Hf) as (f & E & H1 & H2).
  destruct (a_fds a !! fd) as [[dv q]|] eqn:Hx.
  - pose proof (proj2 (im_fds _ _ _ _ _ Hi fd dv q) Hx) as Hd.
    destruct (is_null buf) eqn:Hb.
    + assert ((f =? 0) = false) as E0.
      { apply Z.eqb_neq. intros E0. destruct (descriptor_names _ _ _ _ _ Hd) as [g Hg]. exact (H2 E0 g Hg). }
      unfold read, write. rewrite E. cbn [rbind]. rewrite E0, Hb.
      split; intros [= <- <- <-]; eexists; (split; [reflexivity | now apply with_errno_implements]).
    + unfold dev_ops. destruct (a_devs a !! dv) as [x|] eqn:Hdv; [|split; discriminate]. cbn.
      destruct (ops_at x) as [o|] eqn:Ho; [|split; discriminate].
      destruct (im_devs _ _ _ _ _ Hi dv x Hdv) as ((d & Hcd & <-) & _).
      destruct (read_write_ok ops_at fuel s l cl dl w fd buf n dv q d o Ht Hf Hd Hb Hcd Ho) as [-> ->].
      destruct (op_read o w q buf n) as [[w1 r1]|], (op_write o w q buf n) as [[w2 r2]|];
        split; try discriminate; intros [= <- <- <-]; eauto.
  - assert ((f =? 0) = true) as E0.
    { destruct (Z.eqb_spec f 0) as [|E0]; [reflexivity |]. exfalso.
      destruct (proj1 (descriptor_open s a l cl dl fd Hi) ltac:(eauto)) as [y Hy]. congruence. }
    unfold read, write. rewrite E. cbn [rbind]. rewrite E0.
    split; intros [= <- <- <-]; eexists; (split; [reflexivity | now apply with_errno_implements]).
Qed.

(** One call: the same result, and the correspondence again. *)
Lemma step_sim (s : fdstate P) a l cl dl (w : W) c :
  implements s a l cl dl -> enough (objects_of c) (rg_live (fs_reg s)) = true ->
  (length (a_files a) <= fuel)%nat -> (size (a_fds a) <= fuel)%nat ->
  exists p, p <> 0 /\ forall a' w' r, spec_call ops_at p c a w = Some (a', w', r) ->
    exists s' l' cl', do_call ops_at fuel c s w = Ok (s', w', r) /\ implements s' a' l' cl' dl.
Proof.
  intros Hi Hm Hf1 Hf2.
  assert (length cl <= fuel)%nat as Hcl
    by (rewrite <- (im_files _ _ _ _ _ Hi) in Hf1; unfold recs in Hf1; now rewrite length_fmap in Hf1).
  assert (length l <= fuel)%nat as Hl by now rewrite (im_size _ _ _ _ _ Hi).
  destruct c as [name|dev ops|cls dev fmt|parent dev|name|fd|fd buf n|fd buf n]; cbn [spec_call objects_of] in *.
  { destruct (class_step ops_at fuel s a l cl dl w name Hi Hm) as (s' & p & Hp & ? & ?).
    exists p. split; [exact Hp |]. intros a' w' r [= <- <- <-]. eauto. }
  all: exists 1; split; [lia |]; intros a' w' r Hs.
  - destruct (a_devs a !! dev) as [x|] eqn:Hx; [|discriminate]. injection Hs as <- <- <-.
    destruct (init_step ops_at fuel s a l cl dl w dev ops x Hi Hx) as (s' & ? & ?). eauto.
  - case_bool_decide as Hc; [|discriminate]. destruct (is_cstring fmt) eqn:Hz; [|discriminate].
    apply is_cstring_iff in Hz. injection Hs as <- <- <-.
    destruct (create_step ops_at fuel s a l cl dl w cls dev fmt Hi Hc Hz Hm) as (s' & cl' & ? & ? & _). eauto.
  - destruct (a_devs a !! parent) as [x|]; [|discriminate].
    destruct (add_step ops_at fuel s a l cl dl w parent dev Hi Hcl) as (s' & E & Hi').
    destruct (bind parent dev (a_files a)) as [l1 r1]. injection Hs as <- <- <-. eauto.
  - destruct (is_cstring name) eqn:Hz; [|discriminate]. apply is_cstring_iff in Hz.
    destruct (Z.ltb_spec (a_next a) INT_MAX) as [Hn|]; [|discriminate]. cbn [andb] in Hs.
    destruct (find_file name (a_files a)) as [c|] eqn:Hc; [|discriminate].
    destruct (dev_ops ops_at a (cl_cdev c)) as [o|] eqn:Ho; [|discriminate].
    destruct (op_open o w (cl_dev c)) as [[[w1 p] rc]|] eqn:Hop; [|discriminate]. injection Hs as <- <- <-.
    destruct (open_step s a l cl dl w w1 name c o p rc Hi Hm Hcl Hz Hn Hc Ho Hop) as (s' & l' & ? & ?). eauto.
  - pose proof (close_step s a l cl dl w fd Hi Hl) as H. destruct (a_fds a !! fd) as [x|].
    + injection Hs as <- <- <-. destruct H as (s' & l' & ? & ?). eauto.
    + injection Hs as <- <- <-. rewrite H. eexists _, l, cl. split; [reflexivity | now apply with_errno_implements].
  - destruct (proj1 (io_step s a l cl dl w w' fd buf n a' r Hi Hl) Hs) as (s' & ? & ?). eauto.
  - destruct (proj2 (io_step s a l cl dl w w' fd buf n a' r Hi Hl) Hs) as (s' & ? & ?). eauto.
Qed.

(** A call adds at most one file and one descriptor. *)
Lemma spec_call_size p c (a a' : afs P) (w w' : W) r :
  spec_call ops_at p c a w = Some (a', w', r) ->
  (length (a_files a') <= S (length (a_files a)))%nat /\ (size (a_fds a') <= S (size (a_fds a)))%nat.
Proof.
  assert (forall op fd buf n, spec_io ops_at op a w fd buf n = Some (a', w', r) ->
    a_files a' = a_files a /\ a_fds a' = a_fds a) as Hio.
  { intros op fd buf n. unfold spec_io. destruct (a_fds a !! fd) as [[dv q]|]; [|intros [= <- <- <-]; auto].
    destruct (is_null buf); [intros [= <- <- <-]; auto |]. destruct (dev_ops ops_at a dv) as [o|]; [|discriminate].
    destruct (op o w q buf n) as [[w1 r1]|]; [intros [= <- <- <-]; auto | discriminate]. }
  destruct c; cbn [spec_call]; intros H.
  - injection H as <- <- <-. cbn. lia.
  - destruct (a_devs a !! dev); [injection H as <- <- <-; cbn; lia | discriminate].
  - destruct (_ && _); [injection H as <- <- <-; cbn; lia | discriminate].
  - destruct (a_devs a !! parent); [|discriminate].
    pose proof (f_equal length (bind_same_names parent dev (a_files a))) as Hl. rewrite !length_fmap in Hl.
    destruct (bind parent dev (a_files a)) as [l1 r1]. injection H as <- <- <-. cbn in *. lia.
  - destruct (_ && _); [|discriminate]. destruct (find_file name (a_files a)) as [c|]; [|discriminate].
    destruct (dev_ops ops_at a (cl_cdev c)) as [o|]; [|discriminate].
    destruct (op_open o w (cl_dev c)) as [[[w1 q] rc]|]; [injection H as <- <- <- | discriminate]. cbn.
    split; [lia |]. rewrite map_size_insert. destruct (a_fds a !! a_next a); cbn; lia.
  - destruct (a_fds a !! fd) as [x|]; injection H as <- <- <-; cbn; [|lia].
    rewrite map_size_delete. destruct (a_fds a !! fd); cbn; lia.
  - destruct (Hio op_read fd buf n H) as [-> ->]. lia.
  - destruct (Hio op_write fd buf n H) as [-> ->]. lia.
Qed.

Lemma calls_sim cs : forall (rs : list Z) (s : fdstate P) a l cl dl (w : W),
  implements s a l cl dl ->
  (length (a_files a) + length cs <= fuel)%nat -> (size (a_fds a) + length cs <= fuel)%nat ->
  memory_for ops_at fuel cs rs s w = true -> legal ops_at cs rs a w ->
  exists s' w' rs' a' l' cl', run ops_at fuel cs rs s w = Ok (s', w', rs') /\
    spec_run ops_at cs rs a w rs' a' w' /\ implements s' a' l' cl' dl.
Proof.
  induction cs as [|c cs IH]; intros rs s a l cl dl w Hi Hf1 Hf2 Hm Hs; cbn in *.
  - eexists s, w, rs, a, l, cl. split; [reflexivity | split; [constructor | exact Hi]].
  - apply andb_prop in Hm as [Hm1 Hm2].
    destruct (step_sim s a l cl dl w (c rs) Hi Hm1 ltac:(lia) ltac:(lia)) as (p & Hp & Hsim).
    specialize (Hs p Hp). destruct (spec_call ops_at p (c rs) a w) as [[[a1 w1] r1]|] eqn:Ec; [|contradiction].
    destruct (Hsim _ _ _ eq_refl) as (s1 & l1 & cl1 & E1 & Hi1).
    rewrite E1 in *. cbn [rbind]. destruct (spec_call_size p (c rs) a a1 w w1 r1 Ec).
    destruct (IH (rs ++ [r1]) s1 a1 l1 cl1 dl w1 Hi1 ltac:(lia) ltac:(lia) Hm2 Hs)
      as (s2 & w2 & rs2 & a2 & l2 & cl2 & E2 & Hr & Hi2).
    exists s2, w2, rs2, a2, l2, cl2. eauto using spec_more.
Qed.
End Files.

(** ** Whatever memory does *)

Section WellFormed.
Context {A : ObjAlloc} {L : ObjAllocLaws A} {W P : Type}.
Variable ops_at : Z -> option (file_operations W P).
Variable fuel : nat.

(** The names a caller passes are strings. *)
Definition strings_ok (c : call) : bool :=
  match c with CCreate _ _ s | COpen s => is_cstring s | _ => true end.

(** At most [n] files registered and [n] open; nothing at the null address. *)
Record well_formed (s : fdstate P) (n : nat) : Prop := {
  wf_lists : exists l cl dl, table_ok s l cl dl /\ names_ok (fs_reg s) cl /\ (length l <= n)%nat /\ (length cl <= n)%nat;
  wf_no_file : fs_open s !! 0 = None;
  wf_no_class : rg_classes (fs_reg s) !! 0 = None
}.

Lemma well_formed_mono s n n' : well_formed s n -> (n <= n')%nat -> well_formed s n'.
Proof. intros [(l & cl & dl & H1 & H2 & H3 & H4) H5 H6] Hn. split; try assumption. exists l, cl, dl. auto with lia. Qed.

(** The registry replaced by one that extends it. *)
Lemma well_formed_extends (s : fdstate P) r' n n' l cl cl' dl :
  well_formed s n -> table_ok s l cl dl -> extends s r' cl cl' dl -> (length l <= n')%nat -> (length cl' <= n')%nat ->
  rg_classes r' !! 0 = None -> well_formed (with_reg s r') n'.
Proof.
  intros [_ H5 _] Ht He Hl Hc H0. split; [|now destruct s | now destruct s].
  exists l, cl', dl. split; [now apply (table_extends s r' l cl) |]. split; [|auto].
  pose proof (ex_names _ _ _ _ _ He). now destruct s.
Qed.

Lemma quiet_extends (s : fdstate P) r' l cl dl :
  table_ok s l cl dl -> names_ok (fs_reg s) cl -> quiet (fs_reg s) r' -> extends s r' cl cl dl.
Proof.
  intros Ht Hn [Q1 Q2 (_ & _ & _ & Q3) Q4 Q5 Q6]. split; auto; [apply Q1, Ht | apply Q6, Ht | now rewrite Q3 |].
  now apply (names_kept (fs_reg s)).
Qed.

Lemma quiet_refl r : quiet r r.
Proof. split; auto. now repeat split. Qed.

Lemma alloc_quiet r o : quiet r (fst (alloc r o)).
Proof.
  unfold alloc. destruct (obj_malloc (rg_live r) o) as [a|] eqn:E; [|apply quiet_refl].
  apply quiet_alloc. destruct (obj_fresh _ _ _ E). lia.
Qed.

Lemma alloc_classes r o : rg_classes (fst (alloc r o)) = rg_classes r.
Proof. unfold alloc. destruct (obj_malloc _ _); now destruct r. Qed.

Lemma class_wf (s s' : fdstate P) n (w w' : W) name x :
  well_formed s n -> do_call ops_at fuel (CClass name) s w = Ok (s', w', x) -> well_formed s' n.
Proof.
  intros Hw H. pose proof Hw as [(l & cl & dl & Ht & Hn & Hl & Hc) _ H0].
  cbn [do_call] in H. res_inv. destruct a as [r p]. injection H as <- _ _. unfold __class_create in E.
  pose proof (alloc_quiet (fs_reg s) O_class) as Q1. pose proof (alloc_classes (fs_reg s) O_class) as C1.
  destruct (alloc (fs_reg s) O_class) as [r1 c1]. cbn [fst] in *. destruct (c1 =? 0).
  - injection E as <- <-. apply (well_formed_extends s r1 n n l cl cl dl); auto; [exact (quiet_extends s r1 l cl dl Ht Hn Q1) | now rewrite C1].
  - pose proof (alloc_quiet r1 (O_string (length name))) as Q2. pose proof (alloc_classes r1 (O_string (length name))) as C2.
    destruct (alloc r1 _) as [r2 c2]. cbn [fst] in *. res_inv. subst.
    pose proof (quiet_extends s r2 l cl dl Ht Hn (quiet_trans _ _ _ Q1 Q2)) as [E1' E2' E3' E4' E5' E6' E7'].
    apply (well_formed_extends s _ n n l cl cl dl); auto; [|destruct r2; cbn in *; congruence].
    destruct r2. cbn in *. split; cbn; auto; [destruct E1'; now split | set_solver].
Qed.

Lemma init_wf (s s' : fdstate P) n (w w' : W) dev ops x :
  well_formed s n -> do_call ops_at fuel (CInit dev ops) s w = Ok (s', w', x) -> well_formed s' n.
Proof.
  intros Hw H. pose proof Hw as [(l & cl & dl & Ht & Hn & Hl & Hc) _ H0].
  cbn [do_call] in H. res_inv. subst s'. unfold cdev_init in E. res_inv. subst a.
  apply (well_formed_extends s _ n n l cl cl dl); auto; [|now destruct (fs_reg s)].
  pose proof (quiet_extends s _ l cl dl Ht Hn (quiet_refl _)) as [E1' E2' E3' E4' E5' E6' E7'].
  destruct s as [[hp cs cu dv cd ks lv dy] h o p k e]. cbn in *. split; cbn; auto. destruct E1'. now split.
Qed.

Lemma alloc_live r o :
  match obj_malloc (rg_live r) o with
  | Some a => snd (alloc r o) = a /\ rg_live (fst (alloc r o)) = {[a]} ∪ rg_live r
  | None => alloc r o = (r, 0)
  end.
Proof. unfold alloc. destruct (obj_malloc _ _); [now destruct r | reflexivity]. Qed.

Lemma device_create_enough r cls dev fmt x :
  device_create r cls dev fmt = Ok x ->
  cls ∈ rg_cls r /\ enough [O_device; O_string (length fmt)] (rg_live r) = true.
Proof.
  unfold device_create, read_class. intros H. res_inv. apply defined_if_ok, bool_decide_eq_true in E.
  split; [exact E |]. cbn [enough].
  pose proof (alloc_live r O_device) as H1. destruct (obj_malloc (rg_live r) O_device) as [b1|].
  2: { rewrite H1 in H. discriminate. }
  destruct (alloc r O_device) as [r1 c1]. cbn in H1. destruct H1 as [_ H1]. res_inv. rewrite <- H1.
  pose proof (alloc_live r1 (O_string (length fmt))) as H2.
  destruct (obj_malloc (rg_live r1) (O_string (length fmt))) as [b2|]; [reflexivity |].
  rewrite H2 in H. discriminate.
Qed.

Lemma create_no_class r cls dev fmt r' d :
  device_create r cls dev fmt = Ok (r', d) -> rg_classes r !! 0 = None -> rg_classes r' !! 0 = None.
Proof.
  unfold device_create. intros H H0. res_inv.
  pose proof (alloc_classes r O_device) as C1. destruct (alloc r O_device) as [r1 p1]. res_inv.
  pose proof (alloc_classes r1 (O_string (length fmt))) as C2. destruct (alloc r1 _) as [r2 p2]. res_inv.
  pose proof (alloc_classes r2 O_seL4_Class) as C3. destruct (alloc r2 _) as [r3 p3]. cbn [fst] in *.
  assert (rg_classes r3 !! 0 = None) as G by congruence. clear - H G.
  destruct (Z.eqb_spec p3 0) as [|Hp]; res_inv; subst; [exact G |].
  destruct r3. cbn in *. now rewrite lookup_insert_ne.
Qed.

Lemma free_no_file (s s' : fdstate P) f x :
  (let! s := free_file s f in Ok (s, 0)) = Ok (s', x) -> fs_open s !! 0 = None -> fs_open s' !! 0 = None.
Proof.
  intros H H0. res_inv. unfold free_file in E. res_inv. subst. cbn.
  now rewrite lookup_delete_None; right.
Qed.

Lemma create_wf (s s' : fdstate P) n (w w' : W) cls dev fmt x :
  well_formed s n -> cstring fmt -> do_call ops_at fuel (CCreate cls dev fmt) s w = Ok (s', w', x) ->
  well_formed s' (S n).
Proof.
  intros Hw Hs H. pose proof Hw as [(l & cl & dl & Ht & Hn & Hl & Hc) _ H0].
  cbn [do_call] in H. res_inv. destruct a as [r p]. injection H as <- _ _.
  destruct (device_create_enough _ _ _ _ _ E) as [Hcl He2]. pose proof (to_reg _ _ _ _ Ht) as Hr.
  destruct (enough [O_device; O_string (length fmt); O_seL4_Class] (rg_live (fs_reg s))) eqn:He.
  - destruct (device_create_ok (fs_reg s) cl dl cls dev fmt [] Hr Hcl He) as
      (r' & d & new & E' & (_ & _ & S3 & S4) & Hlv & Hd & _ & Hn0 & Hnew & Hr' & Hrec & Hoth & Hsub).
    rewrite E in E'. injection E' as <- <-.
    assert (forall y, y ∈ cl -> rec_of r y = rec_of (fs_reg s) y) as Hold.
    { intros y Hy. apply Hoth. intros ->. apply Hnew, (ro_live _ _ _ Hr). rewrite elem_of_cons, elem_of_app. auto. }
    apply (well_formed_extends s r n (S n) l cl (new :: cl) dl); auto with lia; [|cbn; lia |].
    + split; auto; [exact (device_create_dyn _ _ _ _ _ _ E) | apply Hsub, Ht | now rewrite S4 | |].
      * intros y Hy. apply elem_of_cons in Hy as [->|Hy]; [rewrite Hrec; now apply dev_name_ok |].
        rewrite Hold by exact Hy. now apply Hn.
      * intros y Hy. apply elem_of_cons in Hy as [->|Hy]; auto.
    + exact (create_no_class _ _ _ _ _ _ E H0).
  - destruct (device_create_oom (fs_reg s) cls dev fmt Hcl He2 He) as (r' & E' & Hq & _).
    rewrite E in E'. injection E' as <- _. apply (well_formed_extends s r n (S n) l cl cl dl); auto with lia.
    + exact (quiet_extends s r l cl dl Ht Hn Hq).
    + exact (create_no_class _ _ _ _ _ _ E H0).
Qed.

Lemma add_wf (s s' : fdstate P) n (w w' : W) parent dev x :
  well_formed s n -> (n <= fuel)%nat -> do_call ops_at fuel (CAdd parent dev) s w = Ok (s', w', x) -> well_formed s' n.
Proof.
  intros Hw Hf H. pose proof Hw as [(l & cl & dl & Ht & Hn & Hl & Hc) _ H0].
  destruct (cdev_add_ok fuel (fs_reg s) cl dl parent dev 1 (to_reg _ _ _ _ Ht) ltac:(lia))
    as (r' & E & Er & ((_ & _ & S3 & S4) & _ & O1 & O2 & O3 & _) & Hr).
  cbn [do_call] in H. rewrite E in H. cbn [rbind] in H. injection H as <- _ _.
  apply (well_formed_extends s r' n n l cl cl dl); auto.
  - split; auto; rewrite ?O1, ?O2, ?S4; try done; [apply Ht |].
    apply (names_fmap (fs_reg s)); [|exact Hn]. rewrite Er. apply bind_same_names.
  - apply not_elem_of_dom. rewrite O3. now apply not_elem_of_dom.
Qed.

Lemma close_wf (s s' : fdstate P) n (w w' : W) fd x :
  well_formed s n -> (n <= fuel)%nat -> do_call ops_at fuel (CClose fd) s w = Ok (s', w', x) -> well_formed s' n.
Proof.
  intros Hw Hf H. pose proof Hw as [(l & cl & dl & Ht & Hn & Hl & Hc) H1 H0]. cbn [do_call] in H.
  destruct (file_by_fd_ok fuel s l cl dl fd Ht ltac:(lia)) as (f & E & Hf1 & _).
  destruct (Z.eqb_spec f 0) as [E0|E0].
  - unfold close in H. rewrite E, E0 in H. cbn in H. injection H as <- _ _.
    split; [|now destruct s | now destruct s]. exists l, cl, dl.
    split; [|split; [now destruct s | auto]]. destruct Ht. destruct s. now split.
  - destruct (close_ok fuel s l cl dl fd f Ht ltac:(lia) (Hf1 E0))
      as (s1 & l' & E1 & Ht' & _ & _ & _ & _ & H5 & _ & _ & H7 & _).
    rewrite E1 in H. cbn in H. injection H as <- _ _.
    unfold close in E1. rewrite E in E1. cbn [rbind] in E1. rewrite (proj2 (Z.eqb_neq _ _) E0) in E1.
    split; [|exact (free_no_file _ _ _ _ E1 H1) | now rewrite H7].
    exists l', cl, dl. split; [exact Ht' |]. split; [|lia].
    apply (names_kept (fs_reg s)); [|exact Hn]. intros y _. unfold rec_of. now rewrite H7.
Qed.
(** [open] without the file structure does not return. *)
Lemma open_null (s : fdstate P) (r : registry) (w : W) name y :
  fs_open s !! 0 = None -> rg_classes (fs_reg s) !! 0 = None -> rg_classes r = rg_classes (fs_reg s) ->
  alloc_file s name = Ok (with_reg s r, 0) -> open ops_at fuel s w name <> Ok y.
Proof.
  intros H1 H0 Hr Ha H. unfold open in H. rewrite Ha in H. cbn [rbind] in H.
  assert (fs_reg (with_reg s r) = r) as Er by now destruct s. rewrite Er in H.
  res_inv. destruct (Z.eqb_spec a 0) as [->|Hne].
  - unfold class_at in E0. rewrite Hr, H0 in E0. discriminate.
  - unfold file_at in H. replace (fs_open (with_reg s r)) with (fs_open s) in H by now destruct s.
    rewrite H1 in H. discriminate.
Qed.

Lemma alloc_file_cases (s s1 : fdstate P) name f :
  alloc_file s name = Ok (s1, f) ->
  (f = 0 /\ exists r, s1 = with_reg s r /\ rg_classes r = rg_classes (fs_reg s)) \/
  (lfd s < INT_MAX /\ exists o, fs_open s1 !! f = Some o /\
     (of_file o <> 0 -> enough (file_objects name) (rg_live (fs_reg s)) = true)).
Proof.
  intros H. unfold alloc_file, cdev_alloc in H. cbn [file_objects enough].
  pose proof (alloc_live (fs_reg s) O_opened_file) as L1. pose proof (alloc_classes (fs_reg s) O_opened_file) as C1.
  destruct (alloc (fs_reg s) O_opened_file) as [r1 f1]. cbn [fst snd] in *.
  pose proof (alloc_live r1 O_cdev) as L2. pose proof (alloc_classes r1 O_cdev) as C2.
  destruct (alloc r1 O_cdev) as [r2 d]. cbn [fst snd] in *.
  assert (forall r (b : bool), rg_classes r = rg_classes r2 -> Ok (with_reg s r, 0) = Ok (s1, f) ->
    f = 0 /\ exists r, s1 = with_reg s r /\ rg_classes r = rg_classes (fs_reg s)) as Hnull.
  { intros r _ Hr [= <- <-]. split; [reflexivity |]. exists r. split; [reflexivity | congruence]. }
  destruct (Z.eqb_spec d 0) as [Ed|Ed].
  { left. rewrite orb_true_r in H. now apply (Hnull r2 true). }
  destruct (Z.eqb_spec f1 0) as [Ef|Ef]; [left; apply (Hnull _ true) in H; [exact H | now destruct r2] |].
  cbn [orb] in H. rewrite (proj2 (Z.eqb_neq _ _) Ed) in H. right.
  destruct (obj_malloc (rg_live (fs_reg s)) O_opened_file) as [b1|]; [destruct L1 as [<- <-] | congruence].
  destruct (obj_malloc (rg_live r1) O_cdev) as [b2|]; [destruct L2 as [<- <-] | congruence].
  replace (rg_live r2) with (rg_live (with_cdevs r2 (<[d := cdev_junk d]> (rg_cdevs r2)))) by now destruct r2.
  set (r3 := with_cdevs r2 _) in *. clearbody r3. clear - H.
  pose proof (alloc_live r3 (O_string (length name))) as L3. destruct (alloc r3 _) as [r4 nm].
  pose proof (alloc_live r4 O_file) as L4. destruct (alloc r4 O_file) as [r5 fl]. cbn [fst snd] in *.
  res_inv. apply defined_if_ok in E0. unfold cassert in E. destruct (Z.eqb_spec nm 0) as [|Hnm]; [discriminate |].
  split; [now apply Z.ltb_lt |]. subst. eexists. cbn. rewrite lookup_insert_eq. split; [reflexivity |]. cbn. intros Hfl.
  destruct (obj_malloc (rg_live r3) (O_string (length name))) as [b3|]; [destruct L3 as [<- <-] | congruence].
  destruct (obj_malloc (rg_live r4) O_file) as [b4|]; [reflexivity | congruence].
Qed.

Lemma alloc_file_classes (s s1 : fdstate P) name f :
  alloc_file s name = Ok (s1, f) -> rg_classes (fs_reg s1) = rg_classes (fs_reg s).
Proof.
  intros H. unfold alloc_file, cdev_alloc in H.
  pose proof (alloc_classes (fs_reg s) O_opened_file) as C1. destruct (alloc (fs_reg s) O_opened_file) as [r1 f1].
  pose proof (alloc_classes r1 O_cdev) as C2. destruct (alloc r1 O_cdev) as [r2 d]. cbn [fst] in *.
  set (q := if d =? 0 then (r2, 0) else _) in H.
  assert (rg_classes (fst q) = rg_classes r2) as C3 by (unfold q; destruct (d =? 0); [reflexivity | now destruct r2]).
  destruct q as [r3 d3]. cbn [fst] in *. destruct (_ || _).
  - injection H as <- _. destruct s. cbn in *. congruence.
  - pose proof (alloc_classes r3 (O_string (length name))) as C4. destruct (alloc r3 _) as [r4 nm].
    pose proof (alloc_classes r4 O_file) as C5. destruct (alloc r4 O_file) as [r5 fl]. cbn [fst] in *.
    res_inv. subst. cbn. congruence.
Qed.

Lemma open_enough (s : fdstate P) (w : W) name y :
  fs_open s !! 0 = None -> rg_classes (fs_reg s) !! 0 = None -> open ops_at fuel s w name = Ok y ->
  enough (file_objects name) (rg_live (fs_reg s)) = true /\ lfd s < INT_MAX.
Proof.
  intros H1 H0 H. pose proof H as Ho. unfold open in Ho.
  destruct (alloc_file s name) as [[s1 f]|] eqn:Ea; [|discriminate]. cbn [rbind] in Ho.
  destruct (alloc_file_cases s s1 name f Ea) as [(-> & r & -> & Hr) | (Hl & o & Hof & He)].
  - destruct (open_null s r w name y H1 H0 Hr Ea H).
  - split; [|exact Hl]. apply He. res_inv. destruct (Z.eqb_spec a 0) as [->|Hne].
    + unfold class_at in E0. rewrite (alloc_file_classes s s1 name f Ea), H0 in E0. discriminate.
    + unfold file_at in Ho. rewrite Hof in Ho. cbn [rbind] in Ho. res_inv. destruct a3 as [[w1 p1] c1].
      res_inv. cbn in *. intros Hz. rewrite Hz in *. discriminate.
Qed.

(** What [open] leaves when it returns. *)
Lemma open_wf (s s' : fdstate P) n (w w' : W) name x :
  well_formed s n -> (n <= fuel)%nat -> cstring name -> do_call ops_at fuel (COpen name) s w = Ok (s', w', x) ->
  well_formed s' (S n).
Proof.
  intros Hw Hf Hs H. pose proof Hw as [(l & cl & dl & Ht & Hn & Hl & Hc) H1 H0]. cbn [do_call] in H.
  destruct (open_enough s w name _ H1 H0 H) as [Hm Hlfd].
  destruct (alloc_file_ok s name cl dl Hm (to_reg _ _ _ _ Ht) Hlfd) as (r' & f & nm & d' & fl & E & Hr' & Hg).
  unfold open in H. rewrite E in H. cbn [rbind fs_reg] in H. destruct (grown_names _ _ _ _ cl name Hg) as [_ Hn'].
  rewrite (device_by_name_ok fuel r' cl dl) in H by (auto with lia). cbn [rbind] in H.
  pose proof (gr_fresh _ _ _ _ Hg) as Hfr. assert (f <> 0) as Hf0 by (apply Hfr; set_solver).
  assert (f ∉ file_root :: l) as Hfl.
  { intros Hi. apply (proj2 (Hfr f ltac:(set_solver))). apply elem_of_cons in Hi as [->|Hi]; [exact (to_root _ _ _ _ Ht) |].
    destruct (to_files _ _ _ _ Ht f Hi) as [y Hy]. destruct (in_blocks _ _ _ _ Hi Hy) as [Hb _].
    now apply (to_sub _ _ _ _ Ht), (to_dyn _ _ _ _ Ht). }
  destruct (push_node _ _ _ f (to_list _ _ _ _ Ht) Hfl) as (h & Eh & Hli & _).
  assert (rg_classes r' !! 0 = None) as H0' by now rewrite (gr_classes _ _ _ _ Hg).
  destruct (class_at r' (by_name r' cl name)) as [c|] eqn:Ec; [|discriminate]. cbn [rbind] in H.
  destruct (Z.eqb_spec (by_name r' cl name) 0) as [Eb|_].
  { rewrite Eb in Ec. unfold class_at in Ec. now rewrite H0' in Ec. }
  unfold file_at in H. cbn [fs_open] in H. rewrite lookup_insert_eq in H. cbn [rbind fs_heap of_device of_file of_fd of_name] in H.
  rewrite Eh in H. cbn [rbind] in H. res_inv. destruct a0 as [[w1 p1] c1]. res_inv. subst. rewrite insert_insert_eq.
  split; cbn; [|rewrite lookup_insert_ne by exact Hf0; exact H1 | exact H0'].
  exists (f :: l), cl, dl. split; [|split; [now apply Hn' | cbn; lia]].
  exact (table_push s l cl dl r' f nm d' fl (cl_cdev c) p1 h Ht Hr' Hg Hli).
Qed.

Lemma io_wf (s s' : fdstate P) n (w w' : W) fd buf k x :
  well_formed s n ->
  read ops_at fuel s w fd buf k = Ok (s', w', x) \/ write ops_at fuel s w fd buf k = Ok (s', w', x) ->
  well_formed s' n.
Proof.
  intros Hw H. assert (s' = s \/ exists e, s' = with_errno s e) as [->|[e ->]]; [|exact Hw|].
  - unfold read, write in H. destruct (file_by_fd fuel s fd) as [f|]; [|destruct H; discriminate]. cbn [rbind] in H.
    destruct (f =? 0); [right; exists EBADF; destruct H as [[= <- _ _]|[= <- _ _]]; reflexivity |].
    destruct (is_null buf); [right; exists EFAULT; destruct H as [[= <- _ _]|[= <- _ _]]; reflexivity |].
    left. destruct H as [H|H]; res_inv; destruct a2 as [w2 r2]; res_inv; congruence.
  - destruct Hw as [(l & cl & dl & [] & Hn & Hl & Hc) H1 H0]. destruct s. split; try assumption.
    exists l, cl, dl. split; [now split | auto].
Qed.

Lemma step_wf c (s s' : fdstate P) n (w w' : W) x :
  well_formed s n -> (n <= fuel)%nat -> strings_ok c = true ->
  do_call ops_at fuel c s w = Ok (s', w', x) -> well_formed s' (S n).
Proof.
  intros Hw Hf Hs H. destruct c; cbn [strings_ok] in Hs; try apply is_cstring_iff in Hs.
  - eapply well_formed_mono; [eapply class_wf; eassumption | lia].
  - eapply well_formed_mono; [eapply init_wf; eassumption | lia].
  - eapply create_wf; eassumption.
  - eapply well_formed_mono; [eapply add_wf; eassumption | lia].
  - eapply open_wf; eassumption.
  - eapply well_formed_mono; [eapply close_wf; eassumption | lia].
  - eapply well_formed_mono; [eapply io_wf; eauto | lia].
  - eapply well_formed_mono; [eapply io_wf; eauto | lia].
Qed.

Lemma run_wf cs : forall (rs rs' : list Z) (s s' : fdstate P) n (w w' : W),
  well_formed s n -> (n + length cs <= fuel)%nat -> Forall (fun c => forall rs, strings_ok (c rs) = true) cs ->
  run ops_at fuel cs rs s w = Ok (s', w', rs') -> well_formed s' (n + length cs).
Proof.
  induction cs as [|c cs IH]; intros rs rs' s s' n w w' Hw Hf Hs H; cbn in *.
  - injection H as <- _ _. now rewrite Nat.add_0_r.
  - inversion_clear Hs as [|? ? Hs1 Hs2].
    destruct (do_call ops_at fuel (c rs) s w) as [[[s1 w1] r1]|] eqn:E1; [|discriminate]. cbn [rbind] in H.
    replace (n + S (length cs))%nat with (S n + length cs)%nat by lia.
    eapply IH; [eapply step_wf; [exact Hw | lia | apply Hs1 | exact E1] | lia | exact Hs2 | exact H].
Qed.
End WellFormed.

(** ** Theorems *)

(** C8: The registry and the descriptor table are a file system.  Take a client
    that chooses each call by the results of the earlier ones and is legal on
    the abstract file system, wherever the classes it makes turn out to be, and
    let there be memory for the calls it comes to.  Then every call returns, the
    results and the world the drivers leave are those of a run of the client on
    the abstract file system, and the tables correspond to it again: the same
    device files in the same order, the same descriptors with the same devices
    and private data, the same next descriptor and [errno].  A descriptor is
    never used twice, and [open], [close], [read] and [write] disturb no other
    descriptor; a class can be used for devices once it is made. *)
Theorem devfs_refines (A : ObjAlloc) (L : ObjAllocLaws A) {W P} (ops_at : Z -> option (file_operations W P))
    fuel (cs : client) (s : fdstate P) a l cl dl (w : W) :
  implements s a l cl dl ->
  (length (a_files a) + length cs <= fuel)%nat -> (size (a_fds a) + length cs <= fuel)%nat ->
  memory_for ops_at fuel cs [] s w = true -> legal ops_at cs [] a w ->
  exists s' w' rs a' l' cl', run ops_at fuel cs [] s w = Ok (s', w', rs) /\
    spec_run ops_at cs [] a w rs a' w' /\ implements s' a' l' cl' dl.
Proof. intros Hi Hf1 Hf2 Hm Hs. now apply (calls_sim ops_at fuel cs [] s a l cl dl w). Qed.

(** C13: The types of the tables.  Whatever calls are made with proper strings, in
    whatever order and chosen by whatever results, whether memory lasts or not,
    and whatever the drivers do: a sequence that returns leaves the tables well
    formed.  Both lists are circular and doubly linked, every entry is a live
    structure with a proper name or an own descriptor below the next one, the
    blocks of the open files are distinct and from [malloc], and nothing is at
    the null address. *)
Theorem devfs_wellformed (A : ObjAlloc) (L : ObjAllocLaws A) {W P} (ops_at : Z -> option (file_operations W P))
    fuel (cs : client) (s s' : fdstate P) n (w w' : W) rs :
  well_formed s n -> (n + length cs <= fuel)%nat -> Forall (fun c => forall rs, strings_ok (c rs) = true) cs ->
  run ops_at fuel cs [] s w = Ok (s', w', rs) -> well_formed s' (n + length cs).
Proof. intros Hw Hf Hs H. now apply (run_wf ops_at fuel cs [] rs s s' n w w'). Qed.

(** *** A run: a class, a second file on the device of [echo_state], both files
    opened, read, written, closed *)

Definition echo_afs : afs Z :=
  AFs [Class_ 6 [47; 100; 101; 118; 47; 120] 42] ∅ {[ 6 := 9 ]} ∅ 1 0.
Definition echo_client : client :=
  [fun _ => CClass [116]; fun rs => CCreate (default 0 (head rs)) 43 [121]; fun _ => CAdd 6 43;
   fun _ => COpen [47; 100; 101; 118; 47; 121]; fun _ => COpen [47; 100; 101; 118; 47; 120];
   fun rs => CRead (default 0 (list.last rs)) (Ptr 64 0) 5; fun _ => CClose 1; fun _ => CRead 1 (Ptr 64 0) 5;
   fun _ => CWrite 2 (Ptr 64 0) 7; fun _ => CClose 1].
Definition echo_results : list Z := [7; 1; 0; 1; 2; 42; 0; 0; 7; -1].

Lemma echo_legal : legal echo_at echo_client [] echo_afs tt.
Proof.
  intros c _. cbn [spec_call]. intros p _. cbn [spec_call app head default].
  rewrite bool_decide_eq_true_2 by (cbn; clear; set_solver). cbn [andb is_cstring forallb negb Z.eqb].
  unfold set_files, set_cls. cbn [a_files a_cls a_devs a_fds a_next a_errno echo_afs].
  generalize ({[c]} ∪ ∅ : gset Z). intros X. vm_compute. auto.
Qed.

Lemma echo_run : run (A := next_obj) echo_at 11 echo_client [] echo_state tt =
  match run (A := next_obj) echo_at 11 echo_client [] echo_state tt with
  | Ok (s, w, _) => Ok (s, w, echo_results)
  | Err e => Err e
  end.
Proof. vm_compute. reflexivity. Qed.

Lemma echo_implements : implements echo_state echo_afs [] [5] [].
Proof.
  split; try reflexivity.
  - apply echo_table.
  - apply echo_names.
  - intros dv ops H. cbn [a_devs echo_afs] in H. apply (lookup_singleton_Some (M := gmap Z)) in H as [<- <-]. split; [exists (Cdev 9 0 42); now split |].
    split; [|apply not_elem_of_nil]. change (6 ∈ (list_to_set [1; 2; 4; 5; 6] : gset Z)). set_solver.
  - intros fd dv q. split; [|discriminate]. intros (f & o & Hf & _). now apply not_elem_of_nil in Hf.
Qed.

Lemma devfs_refines_witness :
  exists s' a' l' cl', run (A := next_obj) echo_at 11 echo_client [] echo_state tt = Ok (s', tt, echo_results) /\
    spec_run echo_at echo_client [] echo_afs tt echo_results a' tt /\ implements s' a' l' cl' [].
Proof.
  destruct (devfs_refines next_obj next_obj_laws echo_at 11 echo_client echo_state echo_afs [] [5] [] tt)
    as (s' & u & rs & a' & l' & cl' & E & Hr & Hi).
  - apply echo_implements.
  - apply Nat.leb_le. vm_compute. reflexivity.
  - apply Nat.leb_le. vm_compute. reflexivity.
  - vm_compute. reflexivity.
  - apply echo_legal.
  - pose proof echo_run as Er. rewrite E in Er. injection Er as ->. destruct u. exists s', a', l', cl'. auto.
Defined.

Lemma devfs_wellformed_witness :
  exists s', run (A := next_obj) echo_at 11 echo_client [] echo_state tt = Ok (s', tt, echo_results) /\
    well_formed s' 11.
Proof.
  destruct (run (A := next_obj) echo_at 11 echo_client [] echo_state tt) as [[[s' u] rs]|] eqn:E; [|vm_compute in E; discriminate].
  pose proof echo_run as Er. rewrite E in Er. injection Er as ->.
  destruct u. exists s'. split; [reflexivity |].
  apply (devfs_wellformed next_obj next_obj_laws echo_at 11 echo_client echo_state s' 1 tt tt echo_results).
  - split; [|reflexivity | reflexivity]. exists [], [5], []. split; [apply echo_table |]. split; [apply echo_names | cbn; lia].
  - cbn. lia.
  - repeat constructor.
  - exact E.
Defined.

End DevFs.
