(* ===== verification/Driver.v ===== *)
(** * Loading and unloading the serial driver

    The rest of src/apps/module-loader/src/uart16550.c (device set-up, module
    init and exit), with what it calls: src/libs/liblinux/src/interrupt.c and
    [__request_region] of src/libs/liblinux/src/ioport.c, the device registry
    ([Chardev]) and the register layer ([UartHw]).

    The interrupt server of sel4utils is not in the tree: it is the parameter
    [IrqServer]. *)

From S2P Require Import Prelude Bytes Log2 Memory Kfifo KfifoApi Locking Kdev UartHw ListHead Uart Chardev.
Import Bytes Log2 Memory Kfifo KfifoApi Kdev UartHw Uart.
Import Spinlock Wait ListHead Chardev.

(** [irq_server_register_irq], which may refuse, and [irq_data_ack_irq]. *)
Class IrqServer (S : Type) := {
  irq_register : S -> Z -> option S;
  irq_ack : S -> Z -> S
}.

(** The state of interrupt.c: the server and, by interrupt number, the token it
    was given; a token is [None] until its fields are written. *)
Record irqs (S T : Type) := Irqs { ir_srv : S; ir_tokens : gmap Z (option T) }.
Arguments Irqs {S T}.
Arguments ir_srv {S T}.
Arguments ir_tokens {S T}.

Module Interrupt.
Section Irq.
Context {S T : Type} {IS : IrqServer S} {A : ObjAlloc}.

(** The two stores of [request_threaded_irq] around the registration. *)
Definition register_irq (s : irqs S T) (irq : Z) : res (irqs S T) :=
  match irq_register (ir_srv s) irq with
  | Some srv => Ok (Irqs srv (<[irq := None]> (ir_tokens s)))
  | None => Err Panic
  end.
Definition fill_token (s : irqs S T) (irq : Z) (t : T) : irqs S T :=
  Irqs (ir_srv s) (<[irq := Some t]> (ir_tokens s)).

(** [t] is the handler with its device. *)
Definition request_threaded_irq (r : registry) (s : irqs S T) (irq : Z) (t : T)
    : res (registry * irqs S T * Z) :=
  let '(r, token) := alloc r O_IRQData in
  let! _ := cassert (negb (token =? 0)) in
  let! s := register_irq s irq in
  Ok (r, fill_token s irq t, 0).

(** Nothing is freed. *)
Definition free_irq (s : irqs S T) (irq : Z) : irqs S T := s.

(** [call] runs the handler of a token. *)
Definition lmseL4_InterruptHandler {W} (call : T -> Z -> W -> res W) (s : irqs S T) (w : W) (irq : Z)
    : res (irqs S T * W) :=
  match ir_tokens s !! irq with
  | Some (Some d) =>
      let! w := call d irq w in
      Ok (Irqs (irq_ack (ir_srv s) irq) (ir_tokens s), w)
  | _ => Err UB
  end.

(** C23: an interrupt after [request_threaded_irq] runs the requested handler
    with its own number and acknowledges it; other lines are as before.  But
    the handler is written into the token only after the server has it: an
    interrupt in between jumps through memory nobody wrote. *)
Theorem request_irq_spec {W} (call : T -> Z -> W -> res W) (r : registry) (s : irqs S T) irq t srv w :
  enough [O_IRQData] (rg_live r) = true -> ObjAllocLaws A -> irq_register (ir_srv s) irq = Some srv ->
  (exists r' s', request_threaded_irq r s irq t = Ok (r', s', 0) /\
     lmseL4_InterruptHandler call s' w irq =
       (let! w' := call t irq w in Ok (Irqs (irq_ack srv irq) (ir_tokens s'), w')) /\
     (forall irq', irq' <> irq -> ir_tokens s' !! irq' = ir_tokens s !! irq')) /\
  (exists s1, register_irq s irq = Ok s1 /\ lmseL4_InterruptHandler call s1 w irq = Err UB).
Proof.
  intros Hm L Hr. split.
  - unfold request_threaded_irq, register_irq. destruct (alloc_some r O_IRQData _ Hm) as (a & -> & Ha & _).
    rewrite (proj2 (Z.eqb_neq _ _) Ha), Hr. cbn [negb cassert rbind]. eexists _, _. split; [reflexivity |].
    unfold lmseL4_InterruptHandler. cbn. rewrite lookup_insert_eq. split; [reflexivity |].
    intros irq' Hne. now rewrite !lookup_insert_ne by congruence.
  - unfold register_irq. rewrite Hr. eexists. split; [reflexivity |].
    unfold lmseL4_InterruptHandler. cbn. now rewrite lookup_insert_eq.
Qed.
End Irq.

(** A server that accepts every line and counts acknowledgements. *)
#[export] Instance counting_server : IrqServer nat := {| irq_register n _ := Some n; irq_ack n _ := S n |}.

Lemma request_irq_spec_witness :
  exists r' s', request_threaded_irq (A := next_obj) sample_reg (Irqs 0%nat ∅) 3 tt = Ok (r', s', 0).
Proof.
  destruct (request_irq_spec (A := next_obj) (fun (_ : unit) _ (w : nat) => Ok w) sample_reg (Irqs 0%nat ∅) 3 tt 0%nat 0%nat)
    as [(r' & s' & E & _) _].
  - vm_compute. reflexivity.
  - apply next_obj_laws.
  - reflexivity.
  - exists r', s'. exact E.
Defined.
End Interrupt.

(** ** The driver module *)

Record drv (D S : Type) := Drv {
  dr_world : world D;
  dr_reg : registry;
  dr_irq : irqs S com;
  uart16550_class : Z;
  priv_module : Z      (** the [struct module] behind THIS_MODULE *)
}.
Arguments Drv {D S}.
Arguments dr_world {D S}.
Arguments dr_reg {D S}.
Arguments dr_irq {D S}.
Arguments uart16550_class {D S}.
Arguments priv_module {D S}.

Module Driver.
Import Interrupt.

Definition cdev_addr (c : com) : Z := match c with COM1 => 10 | COM2 => 11 end.   (** &comN_dev.cdev *)
Definition fops : Z := 12.                                                        (** &fops *)

Definition OPTION_COM1 : Z := 1.
Definition OPTION_COM2 : Z := 2.
Definition OPTION_BOTH : Z := 3.

Definition com1_name : list Z := [99; 111; 109; 49].
Definition com2_name : list Z := [99; 111; 109; 50].

Section Ops.
Context {D S : Type} {IO : PortIO D} {IS : IrqServer S} {A : ObjAlloc}.

(** ioport.c: neither allocation is checked. *)
Definition __request_region (r : registry) (name : list Z) : res (registry * Z) :=
  let '(r, out) := alloc r O_resource in
  let! _ := defined_if (negb (out =? 0)) in
  let '(r, nm) := alloc r (O_string (length name)) in
  let! _ := defined_if (negb (nm =? 0)) in
  Ok (r, out).

Definition init_struct (fuel : nat) (dev : com_dev) : res com_dev :=
  let dev := set_output_lock (set_input_lock dev spin_lock_init) spin_lock_init in
  let dev := set_inbuffer dev (INIT_KFIFO (in_type dev)) in
  let dev := set_outbuffer dev (INIT_KFIFO (out_type dev)) in
  let! rq := __init_waitqueue_head fuel (read_wait_queue dev) in
  let! wq := __init_waitqueue_head fuel (write_wait_queue dev) in
  Ok (set_write_wq (set_read_wq dev rq) wq).

Definition init_com_dev (fuel : nat) (r : registry) (c : com) (this_module major minor : Z)
    : res (registry * Z) :=
  let! r := cdev_init r (cdev_addr c) fops in
  let! d := cdev_at r (cdev_addr c) in
  let r := with_cdevs r (<[cdev_addr c := Cdev fops this_module (cd_dev d)]> (rg_cdevs r)) in
  cdev_add fuel r (cdev_addr c) (MKDEV major minor) 1.

Definition set_ids (dev : com_dev) (mi irq port : Z) : com_dev :=
  let '(ComDev ib ob i o il ol rq wq _ _ _) := dev in ComDev ib ob i o il ol rq wq port mi irq.

(** The module's own name, "asd", is read from THIS_MODULE. *)
Definition module_name (st : drv D S) : res (list Z) :=
  let! _ := defined_if (negb (priv_module st =? 0)) in
  Ok [97; 115; 100].

Definition with_drv (st : drv D S) (w : world D) (r : registry) (i : irqs S com) : drv D S :=
  Drv w r i (uart16550_class st) (priv_module st).

Definition uart16550_init_device (fuel : nat) (st : drv D S) (c : com) (major mi : Z) (name : list Z)
    (baseport irq : Z) : res (drv D S * Z) :=
  let dev := MKDEV major mi in
  let w := put_dev (dr_world st) c (set_ids (the_dev (dr_world st) c) mi irq baseport) in
  let! nm := module_name st in
  let '(r, rc) := register_chrdev_region (dr_reg st) dev 1 in
  if negb (rc =? 0) then Ok (with_drv st w r (dr_irq st), rc)
  else
    let! device := init_struct fuel (the_dev w c) in
    let w := put_dev w c device in
    let! (r, i, rc) := request_threaded_irq r (dr_irq st) irq c in
    if negb (rc =? 0) then Ok (with_drv st w (unregister_chrdev_region r dev 1) i, rc)
    else
      let! (r, com) := device_create r (uart16550_class st) dev name in
      if IS_ERR com then
        Ok (with_drv st w (unregister_chrdev_region r dev 1) (free_irq i irq), rc)
      else
        let! (r, region) := __request_region r nm in
        let! (d, rc) := uart16550_hw_setup_device (w_hw w) (negb (region =? 0)) baseport in
        let w := put_hw w d in
        if negb (rc =? 0) then
          let! r := device_destroy r (uart16550_class st) dev in
          Ok (with_drv st w (unregister_chrdev_region r dev 1) (free_irq i irq), rc)
        else
          let! (r, rc) := init_com_dev fuel r c (priv_module st) major mi in
          if negb (rc =? 0) then
            let! d := uart16550_hw_cleanup_device (w_hw w) baseport in
            let w := put_hw w d in
            let! r := device_destroy r (uart16550_class st) dev in
            Ok (with_drv st w (unregister_chrdev_region r dev 1) (free_irq i irq), rc)
          else Ok (with_drv st w r i, 0).

Definition valid_behavior (behavior : Z) : bool :=
  bool_decide (behavior ∈ [OPTION_BOTH; OPTION_COM1; OPTION_COM2]).

Definition uart16550_init (fuel : nat) (st : drv D S) (behavior major : Z) : res (drv D S * Z) :=
  let have_com1 := behavior .& OPTION_COM1 in
  let have_com2 := behavior .& OPTION_COM2 in
  if negb (valid_behavior behavior) then Ok (st, - EINVAL)
  else if (major <? 0) || (8191 <? major) then Ok (st, - EINVAL)
  else
    let! (r, cls) := __class_create (dr_reg st) [117; 97; 114; 116; 49; 54; 53; 53; 48] in
    let st := Drv (dr_world st) r (dr_irq st) cls (priv_module st) in
    let! (st, rc) :=
      if truthy have_com1 then
        uart16550_init_device fuel st COM1 major 0 com1_name COM1_BASEPORT COM1_IRQ
      else Ok (st, 0) in
    if negb (rc =? 0) then Ok (st, rc)
    else if truthy have_com2 then
      let! (st, rc) := uart16550_init_device fuel st COM2 major 1 com2_name COM2_BASEPORT COM2_IRQ in
      if negb (rc =? 0) then Ok (st, rc) else Ok (st, 0)
    else Ok (st, 0).

Definition uart16550_cleanup_device (fuel : nat) (st : drv D S) (c : com) (major : Z) : res (drv D S) :=
  let device := the_dev (dr_world st) c in
  let dev := MKDEV major (minor device) in
  let! d := uart16550_hw_cleanup_device (w_hw (dr_world st)) (base_port device) in
  let w := put_hw (dr_world st) d in
  let i := free_irq (dr_irq st) (irq_no device) in
  let! r := device_destroy (dr_reg st) (uart16550_class st) dev in
  let r := unregister_chrdev_region r dev 1 in
  let! r := cdev_del fuel r (cdev_addr c) in
  Ok (with_drv st w r i).

Definition uart16550_cleanup (fuel : nat) (st : drv D S) (behavior major : Z) : res (drv D S) :=
  let have_com1 := behavior .& OPTION_COM1 in
  let have_com2 := behavior .& OPTION_COM2 in
  let! st := if truthy have_com1 then uart16550_cleanup_device fuel st COM1 major else Ok st in
  let! st := if truthy have_com2 then uart16550_cleanup_device fuel st COM2 major else Ok st in
  let! r := class_unregister (dr_reg st) (uart16550_class st) in
  let! r := class_destroy r (uart16550_class st) in
  Ok (with_drv st (dr_world st) r (dr_irq st)).
End Ops.

(** ** Facts *)

(** The arrays behind the fifos of a device. *)
Record bufs_ok (m : mem) (dev : com_dev) : Prop := {
  bf_in : exists B, blocks m !! blk (in_buf dev) = Some B /\ zlen B = FIFO_SIZE;
  bf_out : exists B, blocks m !! blk (out_buf dev) = Some B /\ zlen B = FIFO_SIZE;
  bf_ofs : ofs (in_buf dev) = 0 /\ ofs (out_buf dev) = 0;
  bf_apart : blk (in_buf dev) <> blk (out_buf dev)
}.

Lemma init_struct_ok fuel m dev :
  (0 < fuel)%nat -> bufs_ok m dev ->
  exists dev', init_struct fuel dev = Ok dev' /\ dev_ok m dev' (base_port dev) [] [] /\
    input_lock dev' = 0 /\ output_lock dev' = 0 /\ minor dev' = minor dev /\ irq_no dev' = irq_no dev /\
    in_buf dev' = in_buf dev /\ out_buf dev' = out_buf dev /\
    k_data (inbuffer dev') = in_buf dev /\ k_data (outbuffer dev') = out_buf dev /\
    wq_locked (read_wait_queue dev') = wq_locked (read_wait_queue dev) /\
    wq_locked (write_wait_queue dev') = wq_locked (write_wait_queue dev).
Proof.
  intros Hf [(B1 & HB1 & HZ1) (B2 & HB2 & HZ2) [Ho1 Ho2] Hap]. unfold init_struct, __init_waitqueue_head.
  rewrite (spin_lock_alone fuel _ Hf). cbn [rbind].
  destruct (init_fifo_ok _ m B1 HB1 Ho1 HZ1) as (F1 & C1 & K1). destruct (init_fifo_ok _ m B2 HB2 Ho2 HZ2) as (F2 & C2 & K2).
  destruct dev. cbn in *. eexists. split; [reflexivity |]. split; [|repeat split]. now split.
Qed.

Section Facts.
Context {D S : Type} {IO : PortIO D} {IS : IrqServer S} {A : ObjAlloc} {L : ObjAllocLaws A}.

Lemma request_region_ok r name os :
  enough (O_resource :: O_string (length name) :: os) (rg_live r) = true ->
  exists r' a, __request_region r name = Ok (r', a) /\ a <> 0 /\ quiet r r' /\ enough os (rg_live r') = true.
Proof.
  intros He. unfold __request_region. destruct (alloc_some r O_resource _ He) as (a & -> & Ha & _ & He1 & _).
  rewrite (proj2 (Z.eqb_neq _ _) Ha). cbn [negb defined_if rbind]. set (r1 := with_alloc r _ _) in *.
  destruct (alloc_some r1 (O_string (length name)) _ He1) as (b & -> & Hb & _ & He2 & _).
  rewrite (proj2 (Z.eqb_neq _ _) Hb). cbn [negb defined_if rbind]. eexists _, a. split; [reflexivity |].
  split; [exact Ha |]. split; [apply (quiet_trans r r1); now apply quiet_alloc | exact He2].
Qed.

Lemma request_irq_ok r (s : irqs S com) irq t srv os :
  enough (O_IRQData :: os) (rg_live r) = true -> irq_register (ir_srv s) irq = Some srv ->
  exists r', request_threaded_irq r s irq t = Ok (r', Irqs srv (<[irq := Some t]> (ir_tokens s)), 0) /\
    quiet r r' /\ enough os (rg_live r') = true.
Proof.
  intros He Hr. unfold request_threaded_irq, register_irq. destruct (alloc_some r O_IRQData _ He) as (a & -> & Ha & _ & He1 & _).
  rewrite (proj2 (Z.eqb_neq _ _) Ha), Hr. cbn [negb cassert rbind]. eexists. split; [unfold fill_token; cbn; now rewrite insert_insert_eq |].
  split; [now apply quiet_alloc | exact He1].
Qed.

(** Filling the [struct cdev] of a device before it is added. *)
Lemma init_com_dev_ok fuel r cl dl c this major mi d :
  reg_ok r cl dl -> (length cl <= fuel)%nat -> rg_cdevs r !! cdev_addr c = Some d ->
  exists r', init_com_dev fuel r c this major mi = Ok (r', snd (bind (cdev_addr c) (MKDEV major mi) (recs r cl))) /\
    recs r' cl = fst (bind (cdev_addr c) (MKDEV major mi) (recs r cl)) /\ reg_ok r' cl dl /\
    rg_cdevs r' = <[cdev_addr c := Cdev fops this (cd_dev d)]> (rg_cdevs r) /\
    rg_cls r' = rg_cls r /\ rg_live r' = rg_live r /\ rg_dyn r' = rg_dyn r.
Proof.
  intros Hr Hf Hd. unfold init_com_dev, cdev_init, cdev_at. rewrite Hd. cbn [rbind].
  set (r1 := with_cdevs r _). assert (rg_cdevs r1 = <[cdev_addr c := Cdev fops (cd_owner d) (cd_dev d)]> (rg_cdevs r)) as E1
    by (subst r1; now destruct r). rewrite E1, lookup_insert_eq. cbn [rbind cd_dev]. rewrite insert_insert_eq.
  set (r2 := with_cdevs r1 _). assert (reg_ok r2 cl dl) as Hr2.
  { subst r2 r1. destruct Hr as [H1 H2 H3 H4 H5 H6 H7]. destruct r. now split. }
  destruct (cdev_add_ok fuel r2 cl dl (cdev_addr c) (MKDEV major mi) 1 Hr2 Hf) as (r' & E & Er & ((_ & _ & E3 & E4) & _ & E5 & E6 & _) & Hr').
  assert (recs r2 cl = recs r cl) as Ecl by (subst r2 r1; now destruct r). rewrite Ecl in E, Er.
  exists r'. split; [exact E |]. split; [exact Er |]. split; [exact Hr' |].
  rewrite E3, E4, E5, E6. subst r2 r1. now destruct r.
Qed.
(** *** Setting up one device *)

(** Everything of the driver's own state after [uart16550_init_device]. *)
Record set_up (st st' : drv D S) (c : com) (p mi irq : Z) : Prop := {
  su_dev : dev_ok (w_mem (dr_world st')) (the_dev (dr_world st') c) p [] [];
  su_locks : input_lock (the_dev (dr_world st') c) = 0 /\ output_lock (the_dev (dr_world st') c) = 0;
  su_ids : minor (the_dev (dr_world st') c) = mi /\ irq_no (the_dev (dr_world st') c) = irq;
  su_bufs : in_buf (the_dev (dr_world st') c) = in_buf (the_dev (dr_world st) c) /\
            out_buf (the_dev (dr_world st') c) = out_buf (the_dev (dr_world st) c);
  su_data : k_data (inbuffer (the_dev (dr_world st') c)) = in_buf (the_dev (dr_world st) c) /\
            k_data (outbuffer (the_dev (dr_world st') c)) = out_buf (the_dev (dr_world st) c);
  su_other : forall c', c' <> c -> the_dev (dr_world st') c' = the_dev (dr_world st) c';
  su_mem : w_mem (dr_world st') = w_mem (dr_world st);
  su_statics : uart16550_class st' = uart16550_class st /\ priv_module st' = priv_module st
}.

Lemma is_err_low a : 0 <= a < 2 ^ 32 - 4095 -> IS_ERR a = false.
Proof. intros Ha. unfold IS_ERR, IS_ERR_VALUE, MAX_ERRNO. apply Z.leb_gt. zmod. Qed.

(** There is more memory in use than in [r], and still enough for [os]. *)
Definition grows (os : list object) (r r' : registry) : Prop :=
  rg_live r ⊆ rg_live r' /\ (rg_dyn r ⊆ rg_live r -> rg_dyn r' ⊆ rg_live r') /\ enough os (rg_live r') = true.

(** From [device_create] on, whatever it returned. *)
Lemma init_device_tail {p view} {U : Uart16550 IO p view} fuel (st : drv D S) c major mi name irq r0 i r1 device cl1 dl d os :
  (0 < fuel)%nat -> priv_module st <> 0 -> bufs_ok (w_mem (dr_world st)) (the_dev (dr_world st) c) ->
  request_threaded_irq (dr_reg st) (dr_irq st) irq c = Ok (r0, i, 0) ->
  device_create r0 (uart16550_class st) (MKDEV major mi) name = Ok (r1, device) -> 0 <= device < 2 ^ 32 - 4095 ->
  enough (O_resource :: O_string 3 :: os) (rg_live r1) = true -> reg_ok r1 cl1 dl -> (length cl1 <= fuel)%nat ->
  rg_cdevs r1 !! cdev_addr c = Some d -> uart16550_class st ∈ rg_cls r1 ->
  let rc := snd (bind (cdev_addr c) (MKDEV major mi) (recs r1 cl1)) in
  exists st', uart16550_init_device fuel st c major mi name p irq = Ok (st', rc) /\
    set_up st st' c p mi irq /\ dr_irq st' = i /\
    recs (dr_reg st') cl1 = fst (bind (cdev_addr c) (MKDEV major mi) (recs r1 cl1)) /\
    reg_ok (dr_reg st') cl1 dl /\
    rg_cdevs (dr_reg st') = <[cdev_addr c := Cdev fops (priv_module st) (cd_dev d)]> (rg_cdevs r1) /\
    rg_cls (dr_reg st') = rg_cls r1 /\ grows os r1 (dr_reg st') /\
    (if rc =? 0 then configured default_param (view (w_hw (dr_world st'))) /\ c_rx (view (w_hw (dr_world st'))) = []
     else c_ier (view (w_hw (dr_world st'))) = 0 /\ c_fcr (view (w_hw (dr_world st'))) = 0).
Proof.
  intros Hf Hpm Hb Ei Ed Hdev He Hr Hl Hd Hc rc. unfold uart16550_init_device, module_name, register_chrdev_region.
  rewrite (proj2 (Z.eqb_neq _ _) Hpm). cbn [negb defined_if rbind Z.eqb].
  set (w := put_dev _ _ _). set (dev := the_dev (dr_world st) c) in *.
  assert (the_dev w c = set_ids dev mi irq p) as Ew by (subst w; now destruct c).
  assert (bufs_ok (w_mem w) (the_dev w c)) as Hbw.
  { rewrite Ew. replace (w_mem w) with (w_mem (dr_world st)) by (subst w; now destruct c).
    destruct Hb. now split; destruct dev. }
  destruct (init_struct_ok fuel (w_mem w) (the_dev w c) Hf Hbw) as (dev' & -> & Hdv & L1 & L2 & M1 & M2 & B1 & B2 & B3 & B4 & _).
  cbn [rbind]. rewrite Ei. cbn [rbind negb Z.eqb]. rewrite Ed. cbn [rbind]. rewrite (is_err_low _ Hdev).
  destruct (request_region_ok r1 [97; 115; 100] os He) as (r2 & reg & -> & Hreg & Hq & Hos). cbn [rbind].
  rewrite (proj2 (Z.eqb_neq _ _) Hreg). cbn [negb].
  destruct (setup_ok (p := p) (view := view) (w_hw (put_dev w c dev'))) as (d1 & -> & Hcf & Hrx). cbn [rbind negb Z.eqb].
  destruct Hq as [Q1 Q2 (_ & _ & Q3 & Q4) Q5 _ Q6].
  destruct (init_com_dev_ok fuel r2 cl1 dl c (priv_module st) major mi d) as (r3 & -> & Er & Hr3 & Ecd & Ecl & Elv & Edy).
  
  { now apply Q1. } { exact Hl. } { now rewrite Q3. }
  rewrite (recs_ext r1 r2) in Er |- * by auto. cbn [rbind]. fold rc.
  assert (grows os r1 r3) as Hgr by (unfold grows; rewrite Elv, Edy; auto).
  assert (forall st', (exists h r' i', st' = with_drv st (put_hw (put_dev w c dev') h) r' i') -> set_up st st' c p mi irq) as Hsu.
  { intros st' (h & r' & i' & ->). rewrite Ew in *. subst w. split; cbn.
    - destruct c, dev; exact Hdv.
    - destruct c; auto.
    - destruct c, dev; split; assumption.
    - destruct c; subst dev; cbn in *; rewrite B1, B2; [now destruct (com1_dev (dr_world st)) | now destruct (com2_dev (dr_world st))].
    - destruct c; subst dev; cbn in *; rewrite B3, B4; [now destruct (com1_dev (dr_world st)) | now destruct (com2_dev (dr_world st))].
    - intros c' Hne. now destruct c, c'.
    - now destruct c.
    - auto. }
  destruct (rc =? 0) eqn:Erc; cbn [negb].
  - eexists. split; [apply Z.eqb_eq in Erc; now rewrite Erc |]. split; [apply Hsu; eauto |]. cbn. rewrite Ecd, Ecl, Q3, Q4. auto 10.
  - destruct (cleanup_ok (p := p) (view := view) d1) as (d2 & Ecu & H1 & H2 & _); [apply Hcf |].
    cbn [w_hw put_hw put_dev]. rewrite Ecu. cbn [rbind]. unfold device_destroy, read_class.
    rewrite bool_decide_eq_true_2 by (rewrite Ecl, Q4; exact Hc). cbn [defined_if rbind].
    eexists. split; [reflexivity |]. split; [apply Hsu; destruct c; eauto |]. unfold unregister_chrdev_region. cbn.
    rewrite Ecd, Ecl, Q3, Q4. auto 10.
Qed.

(** What [uart16550_init_device] asks of [malloc]. *)
Definition device_objects (name : list Z) : list object :=
  [O_IRQData; O_device; O_string (length name); O_seL4_Class; O_resource; O_string 3].

(** The driver before a device is set up. *)
Record can_init (fuel : nat) (st : drv D S) (c : com) (cl dl : list Z) : Prop := {
  ci_fuel : (length cl < fuel)%nat;
  ci_module : priv_module st <> 0;
  ci_bufs : bufs_ok (w_mem (dr_world st)) (the_dev (dr_world st) c);
  ci_reg : reg_ok (dr_reg st) cl dl;
  ci_names : names_ok (dr_reg st) cl;
  ci_class : uart16550_class st ∈ rg_cls (dr_reg st);
  ci_cdev : is_Some (rg_cdevs (dr_reg st) !! cdev_addr c)
}.

Definition listen (i : irqs S com) (srv : S) (irq : Z) (c : com) : irqs S com :=
  Irqs srv (<[irq := Some c]> (ir_tokens i)).

(** With memory for everything the new class comes first and is bound; the
    older ones decide the result. *)
Lemma init_device_ok {p view} {U : Uart16550 IO p view} fuel (st : drv D S) c major mi name irq srv cl dl os :
  let dev := MKDEV major mi in let old := bind (cdev_addr c) dev (recs (dr_reg st) cl) in
  can_init fuel st c cl dl -> cstring name ->
  enough (device_objects name ++ os) (rg_live (dr_reg st)) = true -> irq_register (ir_srv (dr_irq st)) irq = Some srv ->
  exists st' new, uart16550_init_device fuel st c major mi name p irq = Ok (st', snd old) /\
    set_up st st' c p mi irq /\ dr_irq st' = listen (dr_irq st) srv irq c /\
    new <> 0 /\ new ∉ cl /\ rec_of (dr_reg st') new = Class_ (cdev_addr c) (dev_name name) dev /\
    recs (dr_reg st') cl = fst old /\ reg_ok (dr_reg st') (new :: cl) dl /\
    (exists d, rg_cdevs (dr_reg st') = <[cdev_addr c := Cdev fops (priv_module st) d]> (rg_cdevs (dr_reg st))) /\
    rg_cls (dr_reg st') = rg_cls (dr_reg st) /\ grows os (dr_reg st) (dr_reg st') /\
    (if snd old =? 0 then configured default_param (view (w_hw (dr_world st'))) /\ c_rx (view (w_hw (dr_world st'))) = []
     else c_ier (view (w_hw (dr_world st'))) = 0 /\ c_fcr (view (w_hw (dr_world st'))) = 0).
Proof.
  intros dev old [Hf Hpm Hb Hr Hn Hc [d Hd]] Hs He Hirq.
  destruct (request_irq_ok _ _ irq c srv _ He Hirq) as (r0 & Ei & [Q1 Q2 (_ & _ & Q3 & Q4) Q5 _ Q6] & He0).
  destruct (device_create_ok r0 cl dl (uart16550_class st) dev name _ (Q1 _ _ Hr) ltac:(now rewrite Q4) He0)
    as (r1 & device & new & Ed & (_ & _ & R3 & R4) & R5 & Hdev & He1 & Hnew & Hnl & Hr1 & Hrec & Hold & R6).
  assert (recs r1 (new :: cl) = Class_ 0 (dev_name name) dev :: recs (dr_reg st) cl) as Erecs.
  { unfold recs. rewrite fmap_cons, Hrec. f_equal. apply list_fmap_ext. intros k a Ha%list_elem_of_lookup_2.
    rewrite Hold, Q2; [reflexivity |]. intros ->. apply Hnl, (ro_live _ _ _ (Q1 _ _ Hr)). clear - Ha. set_solver. }
  destruct (init_device_tail (p := p) (view := view) fuel st c major mi name irq r0 (listen (dr_irq st) srv irq c) r1 device (new :: cl) dl d os)
    as (st' & E & Hsu & Eirq & Er & Hr' & Ecd & Ecl & (G1 & G2 & G3) & Hchip); try assumption; try lia.
  { now rewrite R3, Q3. } { now rewrite R4, Q4. }
  fold dev in E, Er, Hchip. rewrite Erecs in E, Er, Hchip. cbn [bind cl_dev cl_cdev cl_name] in E, Er, Hchip.
  rewrite !Z.eqb_refl in E, Er, Hchip. cbn [negb] in E, Er, Hchip. fold old in E, Er, Hchip.
  exists st', new. destruct old as [l' e]. cbn [fst snd] in *. unfold recs in Er. rewrite fmap_cons in Er. injection Er as Er1 Er2.
  split; [exact E |]. split; [exact Hsu |]. split; [exact Eirq |]. split; [exact Hnew |].
  split; [intros Hin; apply Hnl, (ro_live _ _ _ (Q1 _ _ Hr)); clear - Hin; set_solver |].
  split; [exact Er1 |]. split; [exact Er2 |]. split; [exact Hr' |]. rewrite Ecd, Ecl, R3, R4, Q3, Q4.
  split; [eauto |]. split; [reflexivity |]. split; [|exact Hchip]. split; [etransitivity; [exact Q5 |]; etransitivity; eassumption | auto].
Qed.

(** Without memory for the class there is none, and the older ones decide. *)
Lemma init_device_oom {p view} {U : Uart16550 IO p view} fuel (st : drv D S) c major mi name irq srv cl dl :
  let dev := MKDEV major mi in let old := bind (cdev_addr c) dev (recs (dr_reg st) cl) in
  can_init fuel st c cl dl ->
  enough [O_IRQData; O_device; O_string (length name); O_resource; O_string 3] (rg_live (dr_reg st)) = true ->
  enough [O_IRQData; O_device; O_string (length name); O_seL4_Class] (rg_live (dr_reg st)) = false ->
  irq_register (ir_srv (dr_irq st)) irq = Some srv ->
  exists st', uart16550_init_device fuel st c major mi name p irq = Ok (st', snd old) /\
    recs (dr_reg st') cl = fst old /\ reg_ok (dr_reg st') cl dl.
Proof.
  intros dev old [Hf Hpm Hb Hr Hn Hc [d Hd]] He Hno Hirq.
  destruct (request_irq_ok _ _ irq c srv _ He Hirq) as (r0 & Ei & [Q1 Q2 (_ & _ & Q3 & Q4) Q5 _ _] & He0).
  assert (enough [O_device; O_string (length name); O_seL4_Class] (rg_live r0) = false) as Hno0.
  { clear - Ei Hno. unfold request_threaded_irq, alloc in Ei. cbn [enough] in Hno.
    destruct (obj_malloc (rg_live (dr_reg st)) O_IRQData) as [a|]; cbn in Ei; [|discriminate].
    destruct (negb (a =? 0)); [|discriminate]. cbn in Ei. destruct (register_irq _ _); [|discriminate].
    cbn in Ei. injection Ei as <- _. destruct (dr_reg st). exact Hno. }
  destruct (device_create_oom r0 (uart16550_class st) dev name ltac:(now rewrite Q4)
              (enough_take [O_device; O_string (length name)] _ _ He0) Hno0)
    as (r1 & Ed & [R1 R2 (_ & _ & R3 & R4) _ _ _] & Hen).
  destruct (init_device_tail (p := p) (view := view) fuel st c major mi name irq r0 (listen (dr_irq st) srv irq c) r1 0 cl dl d [])
    as (st' & E & _ & _ & Er & Hr' & _); try assumption; try lia; auto.
  { now rewrite R3, Q3. } { now rewrite R4, Q4. }
  fold dev in E, Er. rewrite (recs_ext (dr_reg st) r1) in E, Er by (intros a _; now rewrite R2, Q2).
  exists st'. auto.
Qed.

(** Binding changes no name. *)
Lemma bind_names parent dev l : cl_name <$> fst (bind parent dev l) = cl_name <$> l.
Proof.
  induction l as [|c l IH]; [reflexivity |]. cbn [bind]. destruct (cl_dev c =? dev), (bind parent dev l) as [l' r]; cbn in *.
  - destruct (cl_cdev c =? 0); cbn; congruence.
  - congruence.
Qed.

Lemma bound_names (r r' : registry) cl parent dev :
  recs r' cl = fst (bind parent dev (recs r cl)) -> names_ok r cl ->
  names_ok r' cl /\ forall name, by_name r' cl name = by_name r cl name.
Proof.
  intros E Hn. apply (f_equal (fmap cl_name)) in E. rewrite bind_names in E.
  assert (forall a, a ∈ cl -> cl_name (rec_of r' a) = cl_name (rec_of r a)) as Hsame.
  { intros a [i Hi]%list_elem_of_lookup. apply (f_equal (.!! i)) in E. unfold recs in E.
    rewrite !list_lookup_fmap, Hi in E. cbn in E. now injection E. }
  split; [intros a Ha; rewrite Hsame by exact Ha; now apply Hn |]. intros name. clear Hn E.
  induction cl as [|a cl IH]; [reflexivity |]. cbn [by_name].
  rewrite Hsame by (apply elem_of_cons; auto). rewrite IH; [reflexivity |]. intros b Hb. apply Hsame, elem_of_cons. auto.
Qed.

(** A new class at the front of the list is the one its name finds. *)
Lemma new_class_lookup fuel (r r' : registry) cl dl new name parent dev :
  reg_ok r cl dl -> reg_ok r' (new :: cl) dl -> names_ok r cl -> cstring name -> (length cl < fuel)%nat ->
  recs r' cl = fst (bind parent dev (recs r cl)) -> cl_name (rec_of r' new) = dev_name name ->
  device_by_name fuel r' (dev_name name) = Ok new /\
  forall other, cstring other -> other <> dev_name name -> device_by_name fuel r' other = device_by_name fuel r other.
Proof.
  intros Hr Hr' Hn Hs Hf Erecs Hrec. destruct (bound_names _ _ _ _ _ Erecs Hn) as [Hn' Hby]. destruct (dev_name_ok name Hs) as [Hs1 Hs2].
  assert (names_ok r' (new :: cl)) as Hn''.
  { intros a Ha. apply elem_of_cons in Ha as [->|Ha]; [now rewrite Hrec | now apply Hn']. }
  split.
  - rewrite (device_by_name_ok fuel _ (new :: cl) dl) by (try assumption; cbn; lia). cbn [by_name]. rewrite Hrec.
    now rewrite bool_decide_eq_true_2.
  - intros other Ho Hne. rewrite (device_by_name_ok fuel _ (new :: cl) dl) by (try assumption; cbn; lia).
    rewrite (device_by_name_ok fuel _ cl dl) by (try assumption; lia). cbn [by_name]. rewrite Hrec.
    rewrite bool_decide_eq_false_2 by congruence. now rewrite Hby.
Qed.
End Facts.

(** C20: setting up a device.  With memory, a free device number and a server
    that takes the interrupt line, [uart16550_init_device] returns 0.  The
    device then has empty queues and free locks, the chip runs at its default
    line parameters with nothing received, an interrupt on the line reaches
    this device, and opening by name works: the lookup of "/dev/<name>" finds a
    class with this number, bound to the device's [struct cdev] with the
    driver's operations, while every other name and the other device are as
    before. *)
Theorem uart16550_init_device_spec {D S} (IO : PortIO D) (IS : IrqServer S) (A : ObjAlloc) (L : ObjAllocLaws A)
    p view (U : Uart16550 IO p view) fuel (st : drv D S) c major mi name irq srv cl dl :
  let dev := MKDEV major mi in
  can_init fuel st c cl dl -> cstring name ->
  enough (device_objects name) (rg_live (dr_reg st)) = true -> irq_register (ir_srv (dr_irq st)) irq = Some srv ->
  Forall (unbound dev) (recs (dr_reg st) cl) ->
  exists st' new, uart16550_init_device fuel st c major mi name p irq = Ok (st', 0) /\
    set_up st st' c p mi irq /\
    configured default_param (view (w_hw (dr_world st'))) /\ c_rx (view (w_hw (dr_world st'))) = [] /\
    ir_tokens (dr_irq st') !! irq = Some (Some c) /\
    device_by_name fuel (dr_reg st') (dev_name name) = Ok new /\
    rec_of (dr_reg st') new = Class_ (cdev_addr c) (dev_name name) dev /\
    cd_ops <$> rg_cdevs (dr_reg st') !! cdev_addr c = Some fops /\
    (forall other, cstring other -> other <> dev_name name ->
       device_by_name fuel (dr_reg st') other = device_by_name fuel (dr_reg st) other).
Proof.
  intros dev Hci Hs He Hirq Hfree. pose proof Hci as [Hf _ _ Hr Hn _ _].
  destruct (init_device_ok (p := p) (view := view) fuel st c major mi name irq srv cl dl [] Hci Hs He Hirq)
    as (st' & new & E & Hsu & Ei & Hnew & Hncl & Hrec & Erecs & Hr' & [d Ecd] & _ & _ & Hchip).
  fold dev in E, Hrec, Erecs, Hchip.
  destruct (new_class_lookup fuel _ _ cl dl new name _ _ Hr Hr' Hn Hs ltac:(lia) Erecs ltac:(now rewrite Hrec)) as [Hl1 Hl2].
  rewrite (bind_free _ _ _ Hfree) in E, Hchip. cbn [fst snd Z.eqb] in *.
  exists st', new. split; [exact E |]. split; [exact Hsu |]. split; [apply Hchip |]. split; [apply Hchip |].
  split; [rewrite Ei; apply lookup_insert_eq |]. split; [exact Hl1 |]. split; [exact Hrec |]. split; [now rewrite Ecd, lookup_insert_eq | exact Hl2].
Qed.

(** C21: how setting up a device fails.  When the number is taken the call
    returns -EINVAL and the chip's interrupts and FIFOs are off again, but the
    class it registered stays: the lookup of the name finds it, bound to the
    half set up device, and the interrupt line still reaches the device.  When
    there is no memory for the class, a free number makes the call return 0,
    as if the device were there, with no class registered: [device_create]
    reports this with NULL, which [IS_ERR] does not see. *)
Theorem uart16550_init_device_failures {D S} (IO : PortIO D) (IS : IrqServer S) (A : ObjAlloc) (L : ObjAllocLaws A)
    p view (U : Uart16550 IO p view) fuel (st : drv D S) c major mi name irq srv cl dl :
  let dev := MKDEV major mi in
  can_init fuel st c cl dl -> cstring name -> irq_register (ir_srv (dr_irq st)) irq = Some srv ->
  (forall l1 b l2, enough (device_objects name) (rg_live (dr_reg st)) = true ->
     recs (dr_reg st) cl = l1 ++ b :: l2 -> Forall (unbound dev) l1 -> cl_dev b = dev -> cl_cdev b <> 0 ->
     exists st' new, uart16550_init_device fuel st c major mi name p irq = Ok (st', - EINVAL) /\
       c_ier (view (w_hw (dr_world st'))) = 0 /\ c_fcr (view (w_hw (dr_world st'))) = 0 /\
       ir_tokens (dr_irq st') !! irq = Some (Some c) /\
       reg_ok (dr_reg st') (new :: cl) dl /\ rec_of (dr_reg st') new = Class_ (cdev_addr c) (dev_name name) dev /\
       device_by_name fuel (dr_reg st') (dev_name name) = Ok new) /\
  (enough [O_IRQData; O_device; O_string (length name); O_resource; O_string 3] (rg_live (dr_reg st)) = true ->
   enough [O_IRQData; O_device; O_string (length name); O_seL4_Class] (rg_live (dr_reg st)) = false ->
   Forall (fun b => cl_dev b <> dev) (recs (dr_reg st) cl) ->
     exists st', uart16550_init_device fuel st c major mi name p irq = Ok (st', 0) /\
       reg_ok (dr_reg st') cl dl /\ recs (dr_reg st') cl = recs (dr_reg st) cl).
Proof.
  intros dev Hci Hs Hirq. split.
  - intros l1 b l2 He El H1 Hb Hbound.
    destruct (init_device_ok (p := p) (view := view) fuel st c major mi name irq srv cl dl [] Hci Hs He Hirq)
      as (st' & new & E & _ & Ei & _ & _ & Hrec & Erecs & Hr' & _ & _ & _ & Hchip).
    fold dev in E, Hrec, Erecs, Hchip. pose proof Hci as [Hf _ _ Hr Hn _ _].
    destruct (new_class_lookup fuel _ _ cl dl new name _ _ Hr Hr' Hn Hs ltac:(lia) Erecs ltac:(now rewrite Hrec)) as [Hl1 _].
    rewrite El, (bind_taken _ _ _ _ _ H1 Hb Hbound) in E, Hchip. cbn [snd] in *.
    exists st', new. split; [exact E |]. split; [apply Hchip |]. split; [apply Hchip |].
    split; [rewrite Ei; apply lookup_insert_eq |]. auto.
  - intros He Hno Hfree.
    destruct (init_device_oom (p := p) (view := view) fuel st c major mi name irq srv cl dl Hci He Hno Hirq)
      as (st' & E & Er & Hr'). fold dev in E, Er.
    assert (Forall (unbound dev) (recs (dr_reg st) cl)) as Hu
      by (clear - Hfree; induction Hfree; constructor; [unfold unbound; congruence | assumption]).
    rewrite (bind_free _ _ _ Hu) in E, Er. exists st'. split; [exact E |]. split; [exact Hr' |]. rewrite Er. cbn [fst].
    clear - Hfree. induction Hfree as [|b l Hb _ IH]; [reflexivity |]. rewrite fmap_cons, IH. f_equal.
    unfold bound_to. now rewrite (proj2 (Z.eqb_neq _ _) Hb).
Qed.

(** Loading checks its parameters first: a [behavior] other than COM1, COM2
    or both, or a [major] outside 0..8191, gives -EINVAL with nothing touched.
    Majors from 4096 on pass this check although a device number has only
    twelve bits for them: the number created is that of [major mod 4096]. *)
Theorem uart16550_init_checks {D S} (IO : PortIO D) (IS : IrqServer S) (A : ObjAlloc) fuel (st : drv D S) behavior major :
  (behavior <> 1 /\ behavior <> 2 /\ behavior <> 3 \/ major < 0 \/ 8191 < major ->
     uart16550_init fuel st behavior major = Ok (st, - EINVAL)) /\
  (forall mi, 4096 <= major <= 8191 -> 0 <= mi < 2 ^ 20 -> MKDEV major mi = MKDEV (major - 4096) mi).
Proof.
  unfold uart16550_init. split.
  - intros H. destruct (valid_behavior behavior) eqn:Hv; [|reflexivity]. cbn [negb].
    unfold valid_behavior, OPTION_BOTH, OPTION_COM1, OPTION_COM2 in Hv. apply bool_decide_eq_true in Hv.
    assert (behavior = 3 \/ behavior = 1 \/ behavior = 2) as Hb by (clear - Hv; set_solver).
    assert ((major <? 0) || (8191 <? major) = true) as ->; [|reflexivity]. apply orb_true_iff.
    rewrite !Z.ltb_lt. lia.
  - intros mi H1 H2. rewrite !MKDEV_eq by exact H2. zmod.
Qed.

(** Unloading is never defined.  [uart16550_cleanup_device] hands the
    [struct cdev] inside the static device to [cdev_del], which frees it; and
    whatever happened before, [uart16550_cleanup] ends by reading the class it
    has just freed. *)
Theorem uart16550_cleanup_undefined {D S} (IO : PortIO D) (fuel : nat) (st : drv D S) behavior major :
  (forall c, cdev_addr c ∉ rg_dyn (dr_reg st) ->
     forall st', uart16550_cleanup_device fuel st c major <> Ok st') /\
  forall st', uart16550_cleanup fuel st behavior major <> Ok st'.
Proof.
  split.
  - intros c Hn st'. unfold uart16550_cleanup_device.
    destruct (uart16550_hw_cleanup_device _ _) as [d|]; [|discriminate]. cbn [rbind].
    unfold device_destroy. destruct (read_class _ _); [|discriminate]. cbn [rbind].
    destruct (cdev_del _ _ _) as [r|] eqn:E; [|discriminate]. now apply cdev_del_static in E.
  - intros st'. unfold uart16550_cleanup.
    destruct (if truthy (behavior .& OPTION_COM1) then _ else _) as [st1|]; [|discriminate]. cbn [rbind].
    destruct (if truthy (behavior .& OPTION_COM2) then _ else _) as [st2|]; [|discriminate]. cbn [rbind].
    destruct (class_unregister _ _) as [r|]; [|discriminate]. cbn [rbind]. rewrite class_destroy_ub. discriminate.
Qed.

(** ** Examples *)

(** Two devices as the loader finds them, both chips idle, nothing registered
    but the driver's class at address 3. *)
Definition boot_reg : registry :=
  with_cdevs (with_cls (initial (list_to_set [3; 10; 11; 12])) {[3]}) {[ 10 := Cdev 0 0 0; 11 := Cdev 0 0 0 ]}.
Definition boot (rx : list Z) : drv (chip * chip) nat := Drv (sample_world rx) boot_reg (Irqs 0%nat ∅) 3 14.

Lemma boot_reg_ok : reg_ok boot_reg [] [].
Proof.
  split; cbn.
  - split; [repeat constructor | apply NoDup_singleton].
  - split; [repeat constructor | apply NoDup_singleton].
  - unfold devs_head, classes_head. set_solver.
  - intros a Ha. now apply not_elem_of_nil in Ha.
  - intros a Ha. now apply not_elem_of_nil in Ha.
  - unfold devs_head, classes_head. set_solver.
  - unfold devs_head, classes_head. set_solver.
Qed.

Lemma boot_can_init rx : can_init 5 (boot rx) COM2 [] [].
Proof.
  split.
  - cbn. lia.
  - discriminate.
  - assert (zlen (replicate (Z.to_nat FIFO_SIZE) 0) = FIFO_SIZE) as Hz
      by (unfold zlen; rewrite length_replicate; reflexivity).
    split; [now eexists | now eexists | now split | discriminate].
  - apply boot_reg_ok.
  - intros a Ha. now apply not_elem_of_nil in Ha.
  - change (3 ∈ ({[3]} : gset Z)). set_solver.
  - now eexists.
Qed.

Lemma uart16550_init_device_spec_witness :
  exists st' new, uart16550_init_device (A := next_obj) 5 (boot [104]) COM2 42 1 com2_name COM2_BASEPORT COM2_IRQ = Ok (st', 0) /\
    device_by_name 5 (dr_reg st') (dev_prefix ++ com2_name) = Ok new /\ c_rx (snd (w_hw (dr_world st'))) = [].
Proof.
  destruct (uart16550_init_device_spec two_chips counting_server next_obj next_obj_laws COM2_BASEPORT snd com2_uart
              5 (boot [104]) COM2 42 1 com2_name COM2_IRQ 0%nat [] []) as (st' & new & E & _ & _ & Hrx & _ & Hl & _).
  - apply boot_can_init.
  - repeat constructor; discriminate.
  - vm_compute. reflexivity.
  - reflexivity.
  - constructor.
  - exists st', new. auto.
Defined.

Lemma uart16550_init_device_failures_witness :
  can_init 5 (boot []) COM2 [] [] /\
  exists A : ObjAlloc, ObjAllocLaws A /\
    exists st', uart16550_init_device 5 (boot []) COM2 42 1 com2_name COM2_BASEPORT COM2_IRQ = Ok (st', 0) /\
      reg_ok (dr_reg st') [] [].
Proof.
  split; [apply boot_can_init |].
  pose (A := {| obj_malloc live o := match o with O_seL4_Class => None | _ => obj_malloc (ObjAlloc := next_obj) live o end;
                cdev_junk := cdev_junk (ObjAlloc := next_obj) |}).
  assert (ObjAllocLaws A) as L.
  { intros live o a H. apply (next_obj_laws live o). now destruct o. }
  exists A. split; [exact L |].
  destruct (uart16550_init_device_failures two_chips counting_server A L COM2_BASEPORT snd com2_uart
              5 (boot []) COM2 42 1 com2_name COM2_IRQ 0%nat [] []) as (_ & H).
  - apply boot_can_init.
  - repeat constructor; discriminate.
  - reflexivity.
  - destruct H as (st' & E & Hr & _); [vm_compute; reflexivity | vm_compute; reflexivity | constructor |].
    exists st'. auto.
Defined.

Lemma uart16550_init_checks_witness :
  uart16550_init (IO := two_chips) (IS := counting_server) (A := next_obj) 5 (boot []) 4 42 = Ok (boot [], - EINVAL) /\
  MKDEV 4138 1 = MKDEV 42 1.
Proof.
  destruct (uart16550_init_checks two_chips counting_server next_obj 5 (boot []) 4 42) as [H _].
  destruct (uart16550_init_checks two_chips counting_server next_obj 5 (boot []) 3 4138) as [_ H2].
  split; [apply H; lia | apply (H2 1); lia].
Defined.

Lemma uart16550_cleanup_undefined_witness :
  forall st', uart16550_cleanup_device 5 (boot []) COM2 42 <> Ok st'.
Proof.
  destruct (uart16550_cleanup_undefined two_chips 5 (boot []) 2 42) as [H _].
  apply (H COM2). apply not_elem_of_empty.
Defined.

End Driver.
