(* ===== verification/Loader.v ===== *)
(** * The module loader

    src/libs/liblinux/src/loader.c with the macros of
    src/libs/liblinux/liblinux_include/loader.h: the list of modules, module
    parameters and metadata, and opening a module by name.

    The dynamic linker ([dlopen], [dlsym]) and the functions it finds are
    parameters, and so is the [kmalloc] this file declares for itself, which no
    file of the tree defines as a function: it is the instance of [Allocator]. *)

From S2P Require Import Prelude Bytes Memory Chardev.
Import Bytes Memory Chardev.

(** struct seL4_Module, the fields in use; functions and handles by address. *)
Record seL4_Module := Mod { m_init : Z; m_exit : Z; m_dlhandle : Z }.

(** The modules and the nodes [(mod, next)] of the module list by address, the
    addresses in use, and [errno]. *)
Record loader := Ldr {
  ld_mods : gmap Z seL4_Module;
  ld_nodes : gmap Z (Z * Z);
  ld_live : gset Z;
  ld_errno : Z
}.

Module Loader.

Definition all_modules : Z := 20.     (** &all_modules *)

(** ** C strings in memory *)

(** The bytes before the first zero, if there is one. *)
Fixpoint until0 (l : list Z) : option (list Z) :=
  match l with
  | [] => None
  | x :: l => if x =? 0 then Some [] else (x ::.) <$> until0 l
  end.

Definition string_at (m : mem) (p : ptr) : res (list Z) :=
  match blocks m !! blk p with
  | Some D =>
      let! _ := defined_if (0 <=? ofs p) in
      match until0 (drop (Z.to_nat (ofs p)) D) with Some s => Ok s | None => Err UB end
  | None => Err UB
  end.

(** [strncpy] pads with zeros, and writes no terminator into a full buffer. *)
Definition strncpy (m : mem) (dst : ptr) (src : list Z) (n : Z) : res mem :=
  store m dst (take (Z.to_nat n) (src ++ replicate (Z.to_nat n) 0)).

Definition strncat (m : mem) (dst : ptr) (src : list Z) (n : Z) : res mem :=
  let! s := string_at m dst in
  store m (padd dst (zlen s)) (take (Z.to_nat n) src ++ [0]).

(** A new block, or NULL. *)
Definition new_block {A : Allocator} (m : mem) (n : Z) : mem * ptr :=
  match malloc m n with
  | Some (a, bs) => (Mem (<[a := bs]> (blocks m)) ({[a]} ∪ dyn m), Ptr a 0)
  | None => (m, NULL)
  end.

Definition calloc {A : Allocator} (m : mem) (n size : Z) : res (mem * ptr) :=
  let '(m, p) := new_block m (n * size) in
  if is_null p then Ok (m, NULL)
  else
    let! m := memset m p 0 (n * size) in
    Ok (m, p).

(** ** The module list *)

Section List.
Context {A : ObjAlloc} {W : Type}.

Definition append_module (ld : loader) (l elem : Z) : res (loader * Z) :=
  let! _ := cassert (negb (elem =? 0)) in
  let! _ := cassert (negb (l =? 0)) in
  match obj_malloc (ld_live ld) O_module_list with
  | None => Ok (ld, - ENOMEM)
  | Some n =>
      match ld_nodes ld !! l with
      | None => Err UB
      | Some (md, _) =>
          Ok (Ldr (ld_mods ld) (<[n := (elem, 0)]> (<[l := (md, n)]> (ld_nodes ld)))
                ({[n]} ∪ ld_live ld) (ld_errno ld), 0)
      end
  end.

Fixpoint traverse_loop (func : Z -> W -> res (W * Z)) (fuel : nat) (ld : loader) (cur : Z) (w : W) : res (W * Z) :=
  if cur =? 0 then Ok (w, 0)
  else
    match fuel, ld_nodes ld !! cur with
    | O, _ => Err OutOfFuel
    | S _, None => Err UB
    | S fuel, Some (md, next) =>
        let! (w, r) := func md w in
        if r <? 0 then Ok (w, r) else traverse_loop func fuel ld next w
    end.

Definition traverse_list (func : Z -> W -> res (W * Z)) (fuel : nat) (ld : loader) (l : Z) (w : W) : res (W * Z) :=
  let! _ := cassert (negb (l =? 0)) in
  traverse_loop func fuel ld l w.

(** The init and exit functions, by address. *)
Variable call : Z -> W -> res (W * Z).

Definition mod_at (ld : loader) (md : Z) : res seL4_Module :=
  match ld_mods ld !! md with Some x => Ok x | None => Err UB end.

Definition load_module (ld : loader) (md : Z) (w : W) : res (W * Z) :=
  let! x := mod_at ld md in
  let! _ := cassert (negb (m_init x =? 0)) in
  call (m_init x) w.

Definition unload_module (ld : loader) (md : Z) (w : W) : res (W * Z) :=
  let! x := mod_at ld md in
  let! _ := cassert (negb (m_exit x =? 0)) in
  call (m_exit x) w.

Definition unload_modules (fuel : nat) (ld : loader) (l : Z) (w : W) : res (W * Z) :=
  traverse_list (unload_module ld) fuel ld l w.

Definition init_modules (fuel : nat) (ld : loader) (l : Z) (w : W) : res (W * Z) :=
  traverse_list (load_module ld) fuel ld l w.
End List.

(** ** Metadata and parameters *)

Section Strings.
Context {A : Allocator} {W : Type}.

(** [dest] is the value written through the argument. *)
Definition load_metadata (m : mem) (fetched : option (list Z)) : res (mem * ptr * Z) :=
  match fetched with
  | None => Ok (m, NULL, - ENOENT)
  | Some s =>
      let len := zlen s + 1 in
      let! (m, dest) := calloc m len 1 in
      let! m := strncpy m dest s len in
      Ok (m, dest, 0)
  end.

(** "PARAM_SETTER_PREFIX": the source quotes the name of the macro. *)
Definition quoted_prefix : list Z :=
  [80; 65; 82; 65; 77; 95; 83; 69; 84; 84; 69; 82; 95; 80; 82; 69; 70; 73; 88].

(** The function [module_param] defines: pasting with ## keeps the macro from
    being expanded, so the symbol is PARAM_SETTER_PREFIX_<name>. *)
Definition module_param (name : list Z) : list Z := quoted_prefix ++ 95 :: name.

(** [dlsym] on the handle, and what the function it returns does. *)
Variable dlsym : Z -> list Z -> option (Z -> W -> res W).

Definition modulectl_set_param (m : mem) (w : W) (name : list Z) (value mhandle : Z) : res (mem * W * Z) :=
  let len := zlen quoted_prefix ⊞ zlen name in
  let '(m, setter) := new_block m (len ⊞ 1) in
  let! m := strncpy m setter quoted_prefix len in
  let! m := strncat m setter name len in
  let! sym := string_at m setter in
  match dlsym mhandle sym with
  | None => Ok (m, w, - ENOENT)
  | Some set_func =>
      let! w := set_func value w in
      Ok (m, w, 0)
  end.
End Strings.

(** ** Opening a module *)

Section Open.
Context {A : ObjAlloc}.
Variables (dlopen : list Z -> Z) (dlsym : Z -> list Z -> option (seL4_Module -> res (seL4_Module * Z))).
Variable junk : seL4_Module.          (** what malloc's block holds *)

(** "MODULE_LOAD_FCN" and "MODULE_UNLOAD_FCN", again the names of macros. *)
Definition load_symbol : list Z := [77; 79; 68; 85; 76; 69; 95; 76; 79; 65; 68; 95; 70; 67; 78].
Definition unload_symbol : list Z := [77; 79; 68; 85; 76; 69; 95; 85; 78; 76; 79; 65; 68; 95; 70; 67; 78].

(** "fetch_module_init" and "fetch_module_exit", what the macros stand for. *)
Definition module_init : list Z :=
  [102; 101; 116; 99; 104; 95; 109; 111; 100; 117; 108; 101; 95; 105; 110; 105; 116].
Definition module_exit : list Z :=
  [102; 101; 116; 99; 104; 95; 109; 111; 100; 117; 108; 101; 95; 101; 120; 105; 116].

Definition put_mod (ld : loader) (a : Z) (x : seL4_Module) : loader :=
  Ldr (<[a := x]> (ld_mods ld)) (ld_nodes ld) (ld_live ld) (ld_errno ld).
Definition free_mod (ld : loader) (a : Z) : loader :=
  Ldr (delete a (ld_mods ld)) (ld_nodes ld) (ld_live ld ∖ {[a]}) (ld_errno ld).

Definition find_sym_and_apply (ld : loader) (dlhandle : Z) (sym : list Z) (md : Z) : res (loader * Z) :=
  match dlsym dlhandle sym with
  | None => Ok (ld, -1)
  | Some handler =>
      let! x := mod_at ld md in
      let! (x, r) := handler x in
      Ok (put_mod ld md x, r)
  end.

Definition module_by_name (ld : loader) (obj : list Z) : res (loader * Z) :=
  let '(ld, out) :=
    match obj_malloc (ld_live ld) O_module with
    | Some a => (Ldr (<[a := junk]> (ld_mods ld)) (ld_nodes ld) ({[a]} ∪ ld_live ld) (ld_errno ld), a)
    | None => (ld, 0)
    end in
  let dlhandle := dlopen obj in
  if dlhandle =? 0 then Ok (Ldr (ld_mods ld) (ld_nodes ld) (ld_live ld) ENOENT, 0)
  else
    let! x := mod_at ld out in
    let ld := put_mod ld out (Mod (m_init x) (m_exit x) dlhandle) in
    let! (ld, r) := find_sym_and_apply ld dlhandle load_symbol out in
    if r <? 0 then Ok (free_mod ld out, 0)
    else
      let! (ld, r) := find_sym_and_apply ld dlhandle unload_symbol out in
      if r <? 0 then Ok (free_mod ld out, 0)
      else Ok (ld, out).
End Open.

(** ** Facts about strings *)

Lemma until0_zero s r : cstring s -> until0 (s ++ 0 :: r) = Some s.
Proof.
  induction 1 as [|x s Hx _ IH]; [reflexivity |]. cbn. rewrite (proj2 (Z.eqb_neq _ _) Hx), IH. reflexivity.
Qed.

(** Writing into a block that is all there is to write. *)
Lemma store_block (m : mem) a B o bs :
  blocks m !! a = Some B -> 0 <= o -> o + zlen bs <= zlen B ->
  store m (Ptr a o) bs = Ok (Mem (<[a := write_at B (Z.to_nat o) bs]> (blocks m)) (dyn m)).
Proof. intros HB Ho Hl. apply (store_ok m (Ptr a o) bs B HB). apply in_bounds_iff. cbn. pose proof (zlen_nonneg bs). lia. Qed.

Lemma string_block (m : mem) a B s r :
  blocks m !! a = Some B -> B = s ++ 0 :: r -> cstring s -> string_at m (Ptr a 0) = Ok s.
Proof. intros HB -> Hs. unfold string_at. cbn. rewrite HB. cbn. now rewrite drop_0, until0_zero. Qed.

(** Overwriting everything from an offset on. *)
Lemma write_at_tail a b c : length c = length b -> write_at (a ++ b) (length a) c = a ++ c.
Proof.
  intros H. unfold write_at. rewrite take_app_length, drop_app_ge by lia.
  rewrite drop_ge by lia. now rewrite app_nil_r.
Qed.

Lemma new_block_ok (A : Allocator) (L : AllocatorLaws A) m n :
  0 <= n -> malloc m n <> None ->
  exists a B, new_block m n = (Mem (<[a := B]> (blocks m)) ({[a]} ∪ dyn m), Ptr a 0) /\ a <> 0 /\
    blocks m !! a = None /\ zlen B = n.
Proof.
  intros Hn Hm. unfold new_block. destruct (malloc m n) as [[a B]|] eqn:E; [|congruence].
  exists a, B. destruct (malloc_fresh _ _ _ _ E). split; [reflexivity |]. split; [assumption |].
  split; [assumption |]. exact (malloc_size _ _ _ _ Hn E).
Qed.

(** Building a string in two steps in a block with one byte more than it has. *)
Lemma concat_ok (m : mem) a B s t :
  blocks m !! a = Some B -> zlen B = zlen s + zlen t + 1 -> cstring s -> cstring t -> t <> [] ->
  (let! m := strncpy m (Ptr a 0) s (zlen s + zlen t) in strncat m (Ptr a 0) t (zlen s + zlen t)) =
    Ok (Mem (<[a := s ++ t ++ [0]]> (blocks m)) (dyn m)).
Proof.
  intros HB Hl Hs Ht Hne. unfold zlen in Hl. unfold strncpy.
  assert (take (Z.to_nat (zlen s + zlen t)) (s ++ replicate (Z.to_nat (zlen s + zlen t)) 0) = s ++ replicate (length t) 0) as ->.
  { unfold zlen. rewrite take_app_ge by lia. rewrite take_replicate. do 2 f_equal. lia. }
  rewrite (store_block m a B 0) by (try assumption; unfold zlen; rewrite ?length_app, ?length_replicate; lia).
  change (Z.to_nat 0) with 0%nat. cbn [rbind]. unfold strncat.
  set (B1 := write_at B 0 _). assert (exists x, B1 = s ++ replicate (length t) 0 ++ [x]) as [x HB1].
  { subst B1. unfold write_at. rewrite take_0, length_app, length_replicate. cbn [app Nat.add].
    destruct (drop (length s + length t) B) as [|x l] eqn:E.
    - apply (f_equal length) in E. rewrite length_drop in E. cbn in E. lia.
    - apply (f_equal length) in E as El. rewrite length_drop in El. cbn in El.
      destruct l; [|cbn in El; lia]. exists x. now rewrite <- app_assoc. }
  set (m1 := Mem _ _). assert (blocks m1 !! a = Some B1) as Hm1 by apply lookup_insert_eq.
  destruct t as [|t0 t]; [congruence |].
  rewrite (string_block m1 a B1 s (replicate (length t) 0 ++ [x])) by (try assumption; now rewrite HB1). cbn [rbind padd blk ofs].
  rewrite take_ge by (unfold zlen; cbn; lia).
  assert (length B1 = length s + length (t0 :: t) + 1)%nat as Hl1
    by (rewrite HB1, !length_app, length_replicate; cbn; lia).
  change (padd (Ptr a 0) (zlen s)) with (Ptr a (zlen s)). rewrite (store_block m1 a B1 (zlen s) _ Hm1).
  - subst m1. cbn [blocks dyn]. rewrite insert_insert_eq. do 4 f_equal. rewrite HB1.
    replace (Z.to_nat (zlen s)) with (length s) by (unfold zlen; lia).
    rewrite write_at_tail; [reflexivity |]. rewrite !length_app, length_replicate. cbn. lia.
  - apply zlen_nonneg.
  - unfold zlen. rewrite Hl1, length_app. cbn. lia.
Qed.

Lemma quoted_prefix_ok : cstring quoted_prefix /\ zlen quoted_prefix = 19.
Proof. split; [repeat constructor; discriminate | reflexivity]. Qed.

(** C37: setting a module parameter.  For a name that is not empty
    [modulectl_set_param] stays inside the block it allocates and asks the
    linker for PARAM_SETTER_PREFIX<name>, returning -ENOENT when there is none
    and otherwise the effect of the setter.  This never is the function
    [module_param] defines for that name, whose symbol has an underscore more:
    it finds the setter of [name'] exactly when called with "_name'". *)
Theorem modulectl_set_param_spec (A : Allocator) (L : AllocatorLaws A) {W} (dlsym : Z -> list Z -> option (Z -> W -> res W))
    m w name value mhandle :
  cstring name -> name <> [] -> zlen name < 2 ^ 31 -> malloc m (20 + zlen name) <> None ->
  (exists m', modulectl_set_param dlsym m w name value mhandle =
     match dlsym mhandle (quoted_prefix ++ name) with
     | None => Ok (m', w, - ENOENT)
     | Some set_func => let! w' := set_func value w in Ok (m', w', 0)
     end /\ forall b, b ∈ dom (blocks m) -> blocks m' !! b = blocks m !! b) /\
  quoted_prefix ++ name <> module_param name /\
  (forall name', quoted_prefix ++ name = module_param name' <-> name = 95 :: name').
Proof.
  intros Hs Hne Hl Hm. destruct quoted_prefix_ok as [Hq Hq19]. split; [|split].
  - unfold modulectl_set_param. rewrite Hq19. pose proof (zlen_nonneg name).
    rewrite (u32_small (19 + zlen name)) by lia. rewrite (u32_small (19 + zlen name + 1)) by lia.
    replace (19 + zlen name + 1) with (20 + zlen name) by lia.
    destruct (new_block_ok A L m (20 + zlen name)) as (a & B & -> & Ha & Hfr & HzB); [lia | exact Hm |].
    cbv beta iota zeta. set (m1 := Mem _ _).
    pose proof (concat_ok m1 a B quoted_prefix name ltac:(apply lookup_insert_eq) ltac:(lia) Hq Hs Hne) as E.
    rewrite Hq19 in E. destruct (strncpy m1 (Ptr a 0) quoted_prefix (19 + zlen name)) as [m2|]; [|discriminate E].
    cbn [rbind] in E |- *. rewrite E. cbn [rbind]. set (m3 := Mem _ _).
    rewrite (string_block m3 a (quoted_prefix ++ name ++ [0]) (quoted_prefix ++ name) []).
    + cbn [rbind]. exists m3. split; [destruct (dlsym _ _); reflexivity |]. intros b [x Hb]%elem_of_dom. subst m3 m1. cbn.
      rewrite !lookup_insert_ne by congruence. reflexivity.
    + apply lookup_insert_eq.
    + now rewrite <- app_assoc.
    + apply Forall_app. auto.
  - unfold module_param. intros E%app_inv_head. apply (f_equal length) in E. cbn in E. lia.
  - intros name'. unfold module_param. split; [apply app_inv_head | now intros ->].
Qed.

Lemma calloc_ok (A : Allocator) (L : AllocatorLaws A) m n size :
  0 <= n * size -> malloc m (n * size) <> None ->
  exists a, calloc m n size = Ok (Mem (<[a := replicate (Z.to_nat (n * size)) 0]> (blocks m)) ({[a]} ∪ dyn m), Ptr a 0) /\
    a <> 0 /\ blocks m !! a = None.
Proof.
  intros Hn Hm. unfold calloc. destruct (new_block_ok A L m _ Hn Hm) as (a & B & -> & Ha & Hfr & HzB).
  cbv beta iota zeta. unfold is_null. rewrite bool_decide_eq_false_2 by (unfold NULL; congruence).
  set (m1 := Mem _ _). unfold memset, zlen in *.
  rewrite (store_block m1 a B 0) by (try apply lookup_insert_eq; unfold zlen; rewrite ?length_replicate; lia). cbn [rbind].
  exists a. split; [|auto]. subst m1. cbn [blocks dyn]. rewrite insert_insert_eq. do 4 f_equal.
  apply write_at_all. rewrite length_replicate. lia.
Qed.

(** Fetching metadata.  [load_metadata] of a string the module has returns
    0 and a fresh copy of it that can be read back; without one it returns
    -ENOENT and NULL with memory as it was. *)
Theorem load_metadata_spec (A : Allocator) (L : AllocatorLaws A) m s :
  cstring s -> malloc m (zlen s + 1) <> None ->
  load_metadata m None = Ok (m, NULL, - ENOENT) /\
  exists m' dest, load_metadata m (Some s) = Ok (m', dest, 0) /\ is_null dest = false /\
    string_at m' dest = Ok s /\ blocks m !! blk dest = None /\
    forall b, b ∈ dom (blocks m) -> blocks m' !! b = blocks m !! b.
Proof.
  intros Hs Hm. split; [reflexivity |]. unfold load_metadata. pose proof (zlen_nonneg s).
  destruct (calloc_ok A L m (zlen s + 1) 1) as (a & -> & Ha & Hfr); rewrite ?Z.mul_1_r; [lia | exact Hm |].
  cbn [rbind]. set (m2 := Mem _ _). assert (blocks m2 !! a = Some (replicate (Z.to_nat (zlen s + 1)) 0)) as H2
    by apply lookup_insert_eq.
  unfold strncpy. unfold zlen in *.
  rewrite (store_block m2 a _ 0 _ H2) by (unfold zlen; rewrite ?length_take, ?length_app, ?length_replicate; lia).
  cbn [rbind]. set (m3 := Mem _ _). exists m3, (Ptr a 0). split; [reflexivity |].
  split; [apply bool_decide_eq_false_2; unfold NULL; congruence |].
  split; [|split; [exact Hfr |]].
  - apply (string_block m3 a (s ++ [0]) s []); [|reflexivity | exact Hs]. subst m3. cbn [blocks]. rewrite lookup_insert_eq.
    f_equal. rewrite write_at_all; [|rewrite ?length_take, ?length_app, ?length_replicate; lia].
    rewrite take_app_ge by lia. rewrite take_replicate. f_equal.
    replace (_ `min` _)%nat with 1%nat by lia. reflexivity.
  - intros b [x Hb]%elem_of_dom. subst m3 m2. cbn. rewrite !lookup_insert_ne by congruence. reflexivity.
Qed.

(** ** The module list *)

(** From node [cur] on, the list holds the modules [ms]. *)
Fixpoint chain (nodes : gmap Z (Z * Z)) (cur : Z) (ms : list Z) : Prop :=
  match ms with
  | [] => cur = 0
  | md :: ms => cur <> 0 /\ exists next, nodes !! cur = Some (md, next) /\ chain nodes next ms
  end.

(** A handler applied to each module in order, up to the first failure. *)
Fixpoint visit {W} (func : Z -> W -> res (W * Z)) (ms : list Z) (w : W) : res (W * Z) :=
  match ms with
  | [] => Ok (w, 0)
  | md :: ms =>
      let! (w, r) := func md w in
      if r <? 0 then Ok (w, r) else visit func ms w
  end.

Lemma traverse_loop_ok {W} (func : Z -> W -> res (W * Z)) ld ms : forall fuel cur w,
  chain (ld_nodes ld) cur ms -> (length ms <= fuel)%nat -> traverse_loop func fuel ld cur w = visit func ms w.
Proof.
  induction ms as [|md ms IH]; intros fuel cur w; cbn [chain visit length].
  - intros -> _. now destruct fuel.
  - intros (Hc & next & Hn & Hch) Hf. destruct fuel as [|fuel]; [lia |]. cbn [traverse_loop].
    rewrite (proj2 (Z.eqb_neq _ _) Hc), Hn. destruct (func md w) as [[w' r]|]; [|reflexivity]. cbn [rbind].
    destruct (r <? 0); [reflexivity |]. apply IH; [exact Hch | lia].
Qed.

(** C35: walking the module list.  [traverse_list] on a list of [n] nodes ends
    within [n] steps; it applies the handler to the modules in list order, stops
    at the first negative result and returns it, and returns 0 when there is
    none.  [init_modules] and [unload_modules] are this walk with
    [load_module] and [unload_module]. *)
Theorem traverse_list_spec {W} (call : Z -> W -> res (W * Z)) (func : Z -> W -> res (W * Z)) fuel ld l ms w :
  chain (ld_nodes ld) l ms -> ms <> [] -> (length ms <= fuel)%nat ->
  traverse_list func fuel ld l w = visit func ms w /\
  init_modules call fuel ld l w = visit (load_module call ld) ms w /\
  unload_modules call fuel ld l w = visit (unload_module call ld) ms w.
Proof.
  intros Hc Hne Hf. assert (l <> 0) as Hl by (destruct ms; [congruence | apply Hc]).
  unfold init_modules, unload_modules, traverse_list. rewrite (proj2 (Z.eqb_neq _ _) Hl). cbn [negb cassert rbind].
  rewrite !(traverse_loop_ok _ ld ms) by assumption. auto.
Qed.

(** Appending several modules, one call after the other. *)
Fixpoint append_all {A : ObjAlloc} (ld : loader) (l : Z) (elems : list Z) : res (loader * Z) :=
  match elems with
  | [] => Ok (ld, 0)
  | e :: elems =>
      let! (ld, r) := append_module ld l e in
      if r <? 0 then Ok (ld, r) else append_all ld l elems
  end.

Lemma append_ok (A : ObjAlloc) (L : ObjAllocLaws A) ld l h next e os :
  e <> 0 -> l <> 0 -> ld_nodes ld !! l = Some (h, next) -> l ∈ ld_live ld ->
  enough (O_module_list :: os) (ld_live ld) = true ->
  exists ld', append_module ld l e = Ok (ld', 0) /\ chain (ld_nodes ld') l [h; e] /\ l ∈ ld_live ld' /\
    enough os (ld_live ld') = true /\ ld_mods ld' = ld_mods ld.
Proof.
  intros He Hl Hn Hlive Hen. unfold append_module. rewrite (proj2 (Z.eqb_neq _ _) He), (proj2 (Z.eqb_neq _ _) Hl).
  cbn [negb cassert rbind]. cbn [enough] in Hen. destruct (obj_malloc (ld_live ld) O_module_list) as [n|] eqn:E; [|discriminate].
  destruct (obj_fresh _ _ _ E) as [Hn0 Hnl]. rewrite Hn. eexists. split; [reflexivity |]. cbn [ld_nodes ld_live ld_mods].
  assert (n <> l) as Hne by (intros ->; contradiction).
  split; [|split; [clear - Hlive; set_solver | auto]].
  split; [exact Hl |]. exists n. rewrite lookup_insert_ne, lookup_insert_eq by congruence. split; [reflexivity |].
  split; [lia |]. exists 0. now rewrite lookup_insert_eq.
Qed.

Lemma append_all_ok (A : ObjAlloc) (L : ObjAllocLaws A) l h elems : forall ld e next,
  e <> 0 -> Forall (fun e => e <> 0) elems -> l <> 0 -> ld_nodes ld !! l = Some (h, next) -> l ∈ ld_live ld ->
  enough (replicate (S (length elems)) O_module_list) (ld_live ld) = true ->
  exists ld', append_all ld l (e :: elems) = Ok (ld', 0) /\ chain (ld_nodes ld') l [h; List.last (e :: elems) 0] /\
    ld_mods ld' = ld_mods ld.
Proof.
  induction elems as [|e' elems IH]; intros ld e next He Hs Hl Hn Hlive Hen.
  - destruct (append_ok A L ld l h next e [] He Hl Hn Hlive Hen) as (ld' & E & Hc & _ & _ & Hm). exists ld'.
    cbn [append_all]. rewrite E. auto.
  - apply Forall_cons_1 in Hs as [He' Hs].
    destruct (append_ok A L ld l h next e _ He Hl Hn Hlive Hen) as (ld1 & E & Hc & Hlv & Hen1 & Hm).
    destruct Hc as (_ & next1 & Hn1 & _). destruct (IH ld1 e' next1 He' Hs Hl Hn1 Hlv Hen1) as (ld' & E' & Hc' & Hm').
    exists ld'. cbn [append_all] in *. rewrite E. cbn [rbind Z.ltb Z.compare]. rewrite E'. split; [reflexivity |].
    split; [exact Hc' | congruence].
Qed.

(** Appending keeps only the last module.  After any number of calls of
    [append_module] on the same head the list holds the head's own module and
    the one appended last; and since the head of [all_modules] holds NULL,
    [init_modules] on it is undefined: [load_module] reads through NULL before
    any module is initialised. *)
Theorem append_module_keeps_last (A : ObjAlloc) (L : ObjAllocLaws A) {W} (call : Z -> W -> res (W * Z))
    fuel ld elems e next w :
  e <> 0 -> Forall (fun e => e <> 0) elems -> all_modules ∈ ld_live ld ->
  ld_nodes ld !! all_modules = Some (0, next) -> ld_mods ld !! 0 = None ->
  enough (replicate (S (length elems)) O_module_list) (ld_live ld) = true -> (2 <= fuel)%nat ->
  exists ld', append_all ld all_modules (e :: elems) = Ok (ld', 0) /\
    chain (ld_nodes ld') all_modules [0; List.last (e :: elems) 0] /\
    init_modules call fuel ld' all_modules w = Err UB.
Proof.
  intros He Hs Hlive Hn H0 Hen Hf.
  destruct (append_all_ok A L all_modules 0 elems ld e next) as (ld' & E & Hc & Hm); try assumption; [discriminate |].
  exists ld'. split; [exact E |]. split; [exact Hc |]. unfold init_modules, traverse_list. cbn [negb Z.eqb all_modules cassert rbind].
  change 20 with all_modules. rewrite (traverse_loop_ok _ _ _ _ _ _ Hc) by (cbn; lia). cbn [visit]. unfold load_module, mod_at.
  now rewrite Hm, H0.
Qed.

(** Nothing but a dropped entry in the table of modules: no block is in use that
    was not before, and the modules in use are as they were. *)
Definition given_back (ld ld' : loader) : Prop :=
  ld_live ld' = ld_live ld /\ ld_errno ld' = ld_errno ld /\ ld_nodes ld' = ld_nodes ld /\
  forall b, b ∈ ld_live ld -> ld_mods ld' !! b = ld_mods ld !! b.

(** One symbol on the module at [a]. *)
Lemma apply_ok dlsym ld h sym a x :
  ld_mods ld !! a = Some x ->
  find_sym_and_apply dlsym ld h sym a =
    match dlsym h sym with
    | None => Ok (ld, -1)
    | Some f => let! (x, r) := f x in Ok (put_mod ld a x, r)
    end.
Proof. intros Hx. unfold find_sym_and_apply, mod_at. now rewrite Hx. Qed.

Lemma given_back_free dlh (A : ObjAlloc) (L : ObjAllocLaws A) ld a x :
  obj_malloc (ld_live ld) O_module = Some a ->
  given_back ld (free_mod (put_mod (Ldr (<[a := dlh]> (ld_mods ld)) (ld_nodes ld) ({[a]} ∪ ld_live ld) (ld_errno ld)) a x) a).
Proof.
  intros Ea. destruct (obj_fresh _ _ _ Ea) as [_ Hfr]. repeat split; cbn.
  - clear - Hfr. set_solver.
  - intros b Hb. rewrite lookup_delete_ne, !lookup_insert_ne by (intros <-; contradiction). reflexivity.
Qed.

(** The module of [out], with its handle, after the handler of [sym]: the module
    the handler leaves, or [None] when there is no handler or it reports an
    error; [Err] when it goes wrong. *)
Definition stage (dlsym : Z -> list Z -> option (seL4_Module -> res (seL4_Module * Z))) (h : Z) (sym : list Z)
    (x : seL4_Module) : res (option seL4_Module) :=
  match dlsym h sym with
  | None => Ok None
  | Some f => let! (x, r) := f x in Ok (if r <? 0 then None else Some x)
  end.

(** C36: opening a module by name, on every path.  When the library does not open
    the result is NULL with ENOENT, and the block for the module is lost: it
    stays in use with no pointer to it.  When it opens and there was no memory
    for the module, a null pointer is written through.  Otherwise the module
    with its handle goes through the handlers of two symbols in this order, the
    names of the macros and not of the functions [module_init] and
    [module_exit] define: a symbol that is missing or a handler that reports an
    error, the first or the second, gives NULL with the block freed and nothing
    else changed; a handler that goes wrong goes wrong; and when both report
    success the result is a fresh block with the module the two left. *)
Theorem module_by_name_spec (A : ObjAlloc) (L : ObjAllocLaws A) dlopen dlsym junk ld obj :
  let h := dlopen obj in let run := module_by_name dlopen dlsym junk ld obj in
  load_symbol <> module_init /\ unload_symbol <> module_exit /\
  (enough [O_module] (ld_live ld) = false ->
     (h = 0 -> run = Ok (Ldr (ld_mods ld) (ld_nodes ld) (ld_live ld) ENOENT, 0)) /\
     (h <> 0 -> ld_mods ld !! 0 = None -> run = Err UB)) /\
  (enough [O_module] (ld_live ld) = true ->
     (h = 0 -> exists ld' a, run = Ok (ld', 0) /\ ld_errno ld' = ENOENT /\
        a ∉ ld_live ld /\ ld_live ld' = {[a]} ∪ ld_live ld) /\
     (h <> 0 ->
        match (let! x1 := stage dlsym h load_symbol (Mod (m_init junk) (m_exit junk) h) in
               match x1 with Some x1 => stage dlsym h unload_symbol x1 | None => Ok None end) with
        | Ok None => exists ld', run = Ok (ld', 0) /\ given_back ld ld'
        | Ok (Some x2) => exists ld' a, run = Ok (ld', a) /\ a <> 0 /\ a ∉ ld_live ld /\
            ld_live ld' = {[a]} ∪ ld_live ld /\ ld_mods ld' !! a = Some x2
        | Err e => run = Err e
        end)).
Proof.
  intros h run. do 2 (split; [discriminate |]). cbn [enough]. subst run. unfold module_by_name. fold h.
  destruct (obj_malloc (ld_live ld) O_module) as [a|] eqn:Ea.
  2: { split; [intros _ | discriminate]. split; [now intros -> |]. intros Hh H0.
       rewrite (proj2 (Z.eqb_neq _ _) Hh). unfold mod_at. now rewrite H0. }
  destruct (obj_fresh _ _ _ Ea) as [Ha Hfr]. split; [discriminate | intros _]. split.
  { intros ->. eexists _, a. split; [reflexivity |]. auto. }
  intros Hh. rewrite (proj2 (Z.eqb_neq _ _) Hh). unfold mod_at. cbn [ld_mods]. rewrite lookup_insert_eq. cbn [rbind].
  set (ld1 := put_mod _ _ _). set (x0 := Mod _ _ _). assert (ld_mods ld1 !! a = Some x0) as H0 by apply lookup_insert_eq.
  assert (forall x, given_back ld (free_mod (put_mod ld1 a x) a)) as Hg.
  { intros x. replace (put_mod ld1 a x) with (put_mod (Ldr (<[a := junk]> (ld_mods ld)) (ld_nodes ld) ({[a]} ∪ ld_live ld) (ld_errno ld)) a x).
    - exact (given_back_free junk A L ld a x Ea).
    - unfold ld1, put_mod. cbn. now rewrite !insert_insert_eq. }
  assert (forall x y, put_mod (put_mod ld1 a x) a y = put_mod ld1 a y) as Hpp.
  { intros x y. unfold put_mod. cbn. now rewrite !insert_insert_eq. }
  assert (ld1 = put_mod ld1 a x0) as H1.
  { unfold ld1, put_mod. cbn. now rewrite !insert_insert_eq. }
  rewrite (apply_ok _ _ _ _ _ x0 H0). unfold stage.
  destruct (dlsym h load_symbol) as [f|].
  2: { cbn. rewrite H1. eauto. }
  destruct (f x0) as [[x1 r1]|e]; [|reflexivity]. cbn [rbind]. destruct (r1 <? 0); [eauto |].
  rewrite (apply_ok _ _ _ _ _ x1) by (cbn; apply lookup_insert_eq).
  destruct (dlsym h unload_symbol) as [g|]; [|cbn; eauto].
  destruct (g x1) as [[x2 r2]|e]; [|reflexivity]. cbn [rbind]. rewrite Hpp. destruct (r2 <? 0); [eauto |].
  eexists _, a. split; [reflexivity |]. split; [lia |]. split; [exact Hfr |]. split; [reflexivity |]. cbn. apply lookup_insert_eq.
Qed.

(** ** Examples *)

Definition empty_mem : mem := Mem ∅ ∅.
Definition two_modules : loader := Ldr {[ 30 := Mod 100 200 0; 31 := Mod 101 201 0 ]} {[ all_modules := (0, 0) ]} {[ all_modules; 30; 31 ]} 0.
Definition count_call : Z -> nat -> res (nat * Z) := fun _ n => Ok (S n, 0).

Lemma traverse_list_spec_witness :
  init_modules count_call 2 (Ldr (ld_mods two_modules) {[ 40 := (30, 41); 41 := (31, 0) ]} ∅ 0) 40 0%nat = Ok (2%nat, 0).
Proof.
  destruct (traverse_list_spec count_call count_call 2
              (Ldr (ld_mods two_modules) {[ 40 := (30, 41); 41 := (31, 0) ]} ∅ 0) 40 [30; 31] 0%nat) as (_ & H & _).
  - cbn. split; [lia |]. exists 41. split; [reflexivity |]. split; [lia |]. exists 0. split; reflexivity.
  - discriminate.
  - cbn. lia.
  - rewrite H. reflexivity.
Defined.

Lemma append_module_keeps_last_witness :
  exists ld', append_all (A := next_obj) two_modules all_modules [30; 31] = Ok (ld', 0) /\
    chain (ld_nodes ld') all_modules [0; 31] /\ init_modules count_call 2 ld' all_modules 0%nat = Err UB.
Proof.
  apply (append_module_keeps_last next_obj next_obj_laws count_call 2 two_modules [31] 30 0 0%nat).
  - lia.
  - repeat constructor; lia.
  - set_solver.
  - reflexivity.
  - reflexivity.
  - vm_compute. reflexivity.
  - lia.
Defined.

(** A library that exports both symbols; its functions fill in the module. *)
Definition good_lib (h : Z) (sym : list Z) : option (seL4_Module -> res (seL4_Module * Z)) :=
  if bool_decide (sym = load_symbol) then Some (fun x => Ok (Mod 100 (m_exit x) (m_dlhandle x), 0))
  else if bool_decide (sym = unload_symbol) then Some (fun x => Ok (Mod (m_init x) 200 (m_dlhandle x), 0))
  else None.

(** A library that lacks the second symbol, and one whose first handler fails. *)
Definition half_lib (h : Z) (sym : list Z) : option (seL4_Module -> res (seL4_Module * Z)) :=
  if bool_decide (sym = load_symbol) then good_lib h sym else None.
Definition failing_lib (h : Z) (sym : list Z) : option (seL4_Module -> res (seL4_Module * Z)) :=
  if bool_decide (sym = load_symbol) then Some (fun x => Ok (x, -5)) else good_lib h sym.

Lemma module_by_name_spec_witness :
  (exists ld' a, module_by_name (A := next_obj) (fun _ => 0) (fun _ _ => None) (Mod 0 0 0) two_modules [97] = Ok (ld', 0) /\
     ld_live ld' = {[a]} ∪ ld_live two_modules) /\
  (exists ld', module_by_name (A := next_obj) (fun _ => 8) half_lib (Mod 0 0 0) two_modules [97] = Ok (ld', 0) /\ given_back two_modules ld') /\
  (exists ld', module_by_name (A := next_obj) (fun _ => 8) failing_lib (Mod 0 0 0) two_modules [97] = Ok (ld', 0) /\ given_back two_modules ld') /\
  exists ld' a, module_by_name (A := next_obj) (fun _ => 8) good_lib (Mod 0 0 0) two_modules [97] = Ok (ld', a) /\
    a <> 0 /\ ld_mods ld' !! a = Some (Mod 100 200 8).
Proof.
  split; [|split; [|split]].
  - destruct (module_by_name_spec next_obj next_obj_laws (fun _ => 0) (fun _ _ => None) (Mod 0 0 0) two_modules [97])
      as (_ & _ & _ & H). destruct H as [H _]; [vm_compute; reflexivity |].
    destruct (H eq_refl) as (ld' & a & E & _ & _ & Hl). exists ld', a. auto.
  - destruct (module_by_name_spec next_obj next_obj_laws (fun _ => 8) half_lib (Mod 0 0 0) two_modules [97])
      as (_ & _ & _ & H). destruct H as [_ H]; [vm_compute; reflexivity |]. apply H. discriminate.
  - destruct (module_by_name_spec next_obj next_obj_laws (fun _ => 8) failing_lib (Mod 0 0 0) two_modules [97])
      as (_ & _ & _ & H). destruct H as [_ H]; [vm_compute; reflexivity |]. apply H. discriminate.
  - destruct (module_by_name_spec next_obj next_obj_laws (fun _ => 8) good_lib (Mod 0 0 0) two_modules [97])
      as (_ & _ & _ & H). destruct H as [_ H]; [vm_compute; reflexivity |].
    destruct (H ltac:(discriminate)) as (ld' & a & E & Ha & _ & _ & Hm). exists ld', a. split; [exact E | split; [exact Ha | exact Hm]].
Defined.

Lemma modulectl_set_param_spec_witness :
  exists m', modulectl_set_param (A := bump_malloc 65536) (fun _ _ => None) empty_mem tt [109; 97; 106; 111; 114] 7 1 = Ok (m', tt, - ENOENT).
Proof.
  destruct (modulectl_set_param_spec (bump_malloc 65536) (bump_malloc_laws 65536) (fun _ _ => None) empty_mem tt
              [109; 97; 106; 111; 114] 7 1) as [(m' & E & _) _].
  - repeat constructor; discriminate.
  - discriminate.
  - reflexivity.
  - vm_compute. discriminate.
  - exists m'. exact E.
Defined.

Lemma load_metadata_spec_witness :
  exists m' dest, load_metadata (A := bump_malloc 65536) empty_mem (Some [71; 80; 76]) = Ok (m', dest, 0) /\
    string_at m' dest = Ok [71; 80; 76].
Proof.
  destruct (load_metadata_spec (bump_malloc 65536) (bump_malloc_laws 65536) empty_mem [71; 80; 76])
    as [_ (m' & dest & E & _ & Hs & _)].
  - repeat constructor; discriminate.
  - vm_compute. discriminate.
  - exists m', dest. auto.
Defined.

End Loader.
