(* ===== verification/System.v ===== *)
(** * The application

    src/apps/module-loader/src/main.c and module_start.c: the root task loads
    the serial driver and echoes what it first reads from the second serial
    port.  [main] starts here where it calls [module_handler]; the set-up of the
    seL4 process before that (bootinfo, allocator, virtual memory, interrupt
    server) and the functions that start threads are in Boot.v.  The two heaps
    of the model, the objects of the device layer and the byte blocks of
    [Memory], are one heap in the program. *)

From S2P Require Import Prelude Bytes Memory Kfifo KfifoApi Kdev UartHw ListHead Uart SerialLine Chardev Fd Driver Loader.
Import Bytes Memory Kfifo KfifoApi Kdev UartHw Uart.
Import SerialLine ListHead Chardev Fd Interrupt Driver Loader.

Module System.

Section Main.
Context {D S : Type} {IO : PortIO D} {IS : IrqServer S} {A : ObjAlloc} {M : Allocator}.
Variable large : mem -> Z -> Z -> res (mem * ptr).

(** module_start.c; the result of [kmalloc] is not checked. *)
Definition init_module_struct (st : drv D S) : res (drv D S) :=
  let '(r, p) := alloc (dr_reg st) O_struct_module in
  let! _ := defined_if (negb (p =? 0)) in
  Ok (Drv (dr_world st) r (dr_irq st) (uart16550_class st) p).

(** The statics of uart16550.c: no parameter is ever set. *)
Definition major : Z := 42.
Definition behavior : Z := 0x2.

(** The static [module] of main.c before it is filled, and the function that
    [module_init(uart16550_init)] defines under the name [MODULE_LOAD_FCN]. *)
Definition module0 : seL4_Module := Mod 0 0 0.
Definition uart16550_init_fn : Z := 31.     (** uart16550_init *)
Definition fetch_module_init (md : seL4_Module) : seL4_Module :=
  Mod uart16550_init_fn (m_exit md) (m_dlhandle md).

(** A call through the [init] pointer of a module. *)
Definition call_init (fuel : nat) (fn : Z) (st : drv D S) : res (drv D S * Z) :=
  if fn =? uart16550_init_fn then uart16550_init fuel st behavior major else Err UB.

(** The result of the init function is dropped. *)
Definition module_handler (fuel : nat) (st : drv D S) : res (drv D S * Z) :=
  let module := fetch_module_init module0 in
  let! st := init_module_struct st in
  let! (st, _) := call_init fuel (m_init module) st in
  Ok (st, 0).

(** The driver's [struct file_operations] behind the calls of fd.c, with the
    interrupts that come while a call runs. *)
Definition uart_fops (env : nat -> world D -> res (world D)) (fuel : nat) : file_operations (world D) com :=
  FOps _ _
    (fun w i_rdev => let '(c, rc) := uart16550_open (MINOR i_rdev) in Ok (w, c, rc))
    (fun w c buf n => uart16550_read large env fuel c buf n w)
    (fun w c buf n => uart16550_write large env fuel c buf n w).
Definition ops_at (env : nat -> world D -> res (world D)) (fuel : nat) (a : Z) : option (file_operations (world D) com) :=
  if a =? fops then Some (uart_fops env fuel) else None.

(** [while((r = read(fd, buf, 256)) == 0);] where [hw k] is what happens to the
    hardware before call [k], and [env k] are the interrupts during it. *)
Fixpoint read_loop (env : nat -> nat -> world D -> res (world D)) (hw : nat -> D -> D)
    (fuel n k : nat) (s : fdstate com) (w : world D) (fd : Z) (buf : ptr) : res (fdstate com * world D * Z) :=
  match n with
  | O => Err OutOfFuel
  | Datatypes.S n =>
      let w := put_hw w (hw k (w_hw w)) in
      let! (s, w, r) := read (ops_at (env k) fuel) fuel s w fd buf 256 in
      if r =? 0 then read_loop env hw fuel n (Datatypes.S k) s w fd buf else Ok (s, w, r)
  end.

(** "/dev/com2" *)
Definition com2_path : list Z := dev_prefix ++ com2_name.

(** The table of open files before the first [open]. *)
Definition no_files (r : registry) : fdstate com :=
  FdState r (Heap {[ file_root := file_root ]} {[ file_root := file_root ]}) ∅ ∅ 1 0.

(** Up to the final endless loop, or the early return on a read error. *)
Definition main (env : nat -> nat -> world D -> res (world D)) (hw : nat -> D -> D) (fuel : nat) (st : drv D S)
    : res (fdstate com * world D * irqs S com * ptr * Z) :=
  let! (st, _) := module_handler fuel st in
  let! _ := debug_device_status fuel (dr_reg st) in
  let! (s, w, fd) := open (ops_at idle fuel) fuel (no_files (dr_reg st)) (dr_world st) com2_path in
  let! (m, buf) := calloc (w_mem w) 1 256 in
  let w := put_mem w m in
  let! _ := cassert (negb (is_null buf)) in
  let! _ := cassert (0 <? fd) in
  let! (s, w, r) := read_loop env hw fuel fuel 0 s w fd buf in
  if r <? 0 then Ok (s, w, dr_irq st, buf, r)
  else
    let! _ := string_at (w_mem w) buf in       (** printed with %s *)
    let! (s, w, _) := write (ops_at idle fuel) fuel s w fd buf r in
    Ok (s, w, dr_irq st, buf, r).
End Main.
(** ** Loading the driver *)

Section Boot.
Context {D S : Type} {IO : PortIO D} {IS : IrqServer S} {A : ObjAlloc} {L : ObjAllocLaws A}.
Context {view : D -> chip} {U : Uart16550 IO COM2_BASEPORT view}.

Lemma class_create_ok r cl dl name os :
  reg_ok r cl dl -> enough (O_class :: O_string (length name) :: os) (rg_live r) = true ->
  exists r' cls, __class_create r name = Ok (r', cls) /\ cls ∈ rg_cls r' /\ reg_ok r' cl dl /\
    rg_cdevs r' = rg_cdevs r /\ grows os r r' /\ (forall a, rec_of r' a = rec_of r a).
Proof.
  intros Hr He. unfold __class_create. destruct (alloc_some r O_class _ He) as (c & -> & Hc & _ & He1 & _).
  rewrite (proj2 (Z.eqb_neq _ _) Hc). cbv beta iota zeta. set (r1 := with_alloc r _ _) in *.
  destruct (alloc_some r1 (O_string (length name)) _ He1) as (p & -> & Hp & _ & He2 & _).
  rewrite (proj2 (Z.eqb_neq _ _) Hp). cbn [negb defined_if rbind]. set (r2 := with_alloc r1 _ _) in *.
  assert (quiet r r2) as [Q1 Q2 (_ & _ & Q3 & _) Q4 _ Q6] by (apply (quiet_trans r r1); now apply quiet_alloc).
  eexists _, c. split; [reflexivity |]. pose proof (Q1 _ _ Hr) as Hr2. clearbody r2. clear - Hr2 Q2 Q3 Q4 Q6 He2.
  destruct r2 as [h cs cu dv cd ks lv dy]. cbn in *. split; [set_solver |].
  split; [destruct Hr2; now split |]. split; [exact Q3 |]. split; [split; auto |]. exact Q2.
Qed.

Definition driver_objects : list object := [O_struct_module; O_class; O_string 9] ++ device_objects com2_name.

(** The program before [main] calls [module_handler]: empty device tables, the
    static structures in place, memory for what follows. *)
Record bootable (st : drv D S) (srv : S) (os : list object) : Prop := {
  bo_reg : reg_ok (dr_reg st) [] [];
  bo_cdev : is_Some (rg_cdevs (dr_reg st) !! cdev_addr COM2);
  bo_statics : cdev_addr COM2 ∈ rg_live (dr_reg st) /\ file_root ∈ rg_live (dr_reg st);
  bo_sub : rg_dyn (dr_reg st) ⊆ rg_live (dr_reg st);
  bo_bufs : bufs_ok (w_mem (dr_world st)) (com2_dev (dr_world st));
  bo_memory : enough (driver_objects ++ os) (rg_live (dr_reg st)) = true;
  bo_irq : irq_register (ir_srv (dr_irq st)) COM2_IRQ = Some srv
}.

(** The loaded driver: one class, for /dev/com2, bound to the second device. *)
Record loaded (st st' : drv D S) (new : Z) (os : list object) : Prop := {
  lo_reg : reg_ok (dr_reg st') [new] [];
  lo_null : new <> 0;
  lo_rec : rec_of (dr_reg st') new = Class_ (cdev_addr COM2) com2_path (MKDEV major 1);
  lo_cdev : exists owner d, rg_cdevs (dr_reg st') !! cdev_addr COM2 = Some (Cdev fops owner d);
  lo_statics : cdev_addr COM2 ∈ rg_live (dr_reg st') /\ file_root ∈ rg_live (dr_reg st');
  lo_sub : rg_dyn (dr_reg st') ⊆ rg_live (dr_reg st');
  lo_memory : enough os (rg_live (dr_reg st')) = true;
  lo_irq : ir_tokens (dr_irq st') !! COM2_IRQ = Some (Some COM2);
  lo_dev : dev_ok (w_mem (dr_world st')) (com2_dev (dr_world st')) COM2_BASEPORT [] [];
  lo_locks : input_lock (com2_dev (dr_world st')) = 0 /\ output_lock (com2_dev (dr_world st')) = 0;
  lo_bufs : in_buf (com2_dev (dr_world st')) = in_buf (com2_dev (dr_world st)) /\
            out_buf (com2_dev (dr_world st')) = out_buf (com2_dev (dr_world st));
  lo_data : k_data (inbuffer (com2_dev (dr_world st'))) = in_buf (com2_dev (dr_world st)) /\
            k_data (outbuffer (com2_dev (dr_world st'))) = out_buf (com2_dev (dr_world st));
  lo_mem : w_mem (dr_world st') = w_mem (dr_world st);
  lo_chip : configured default_param (view (w_hw (dr_world st'))) /\ c_rx (view (w_hw (dr_world st'))) = []
}.

Lemma module_handler_ok fuel (st : drv D S) srv os :
  (0 < fuel)%nat -> bootable st srv os ->
  exists st' new, module_handler fuel st = Ok (st', 0) /\ loaded st st' new os.
Proof.
  intros Hf [Hr [d Hd] [Hs1 Hs2] Hsub Hb He Hirq]. unfold module_handler, init_module_struct.
  destruct (alloc_some (dr_reg st) O_struct_module _ He) as (p & -> & Hp & _ & He1 & _).
  rewrite (proj2 (Z.eqb_neq _ _) Hp). cbn [negb defined_if rbind]. set (r1 := with_alloc _ _ _) in *.
  destruct (quiet_alloc (dr_reg st) p Hp) as [Q1 Q2 (_ & _ & Q3 & _) Q4 _ Q6]. fold r1 in Q1, Q2, Q3, Q4, Q6.
  cbn [fetch_module_init m_init]. unfold call_init. rewrite Z.eqb_refl.
  unfold uart16550_init. change (negb (valid_behavior behavior)) with false. cbn match.
  change ((major <? 0) || (8191 <? major)) with false. cbn match.
  destruct (class_create_ok r1 [] [] [117; 97; 114; 116; 49; 54; 53; 53; 48] (device_objects com2_name ++ os) (Q1 _ _ Hr) He1)
    as (r2 & cls & E2 & Hcls & Hr2 & Ecd & (G1 & G2 & G3) & _).
  cbn [dr_reg]. rewrite E2. cbn [rbind]. change (truthy (behavior .& OPTION_COM1)) with false. cbn [rbind Z.eqb negb].
  change (truthy (behavior .& OPTION_COM2)) with true. cbn match. cbn [dr_world dr_irq priv_module].
  set (st2 := Drv _ _ _ _ _). 
  destruct (init_device_ok (p := COM2_BASEPORT) (view := view) fuel st2 COM2 major 1 com2_name COM2_IRQ srv [] [] os)
    as (st' & new & E & [V1 V2 _ V3 V5 _ V4 _] & Ei & Hnew & _ & Hrec & _ & Hr' & [d' Ecd'] & _ & (K1 & K2 & K3) & Hchip).
  - split; try assumption; [intros a Ha; now apply not_elem_of_nil in Ha |]. cbn. rewrite Ecd, Q3. eauto.
  - repeat constructor; discriminate.
  - exact G3.
  - exact Hirq.
  - rewrite E. cbn [rbind bind recs fmap list_fmap snd Z.eqb negb]. exists st', new. split; [reflexivity |]. split; try assumption.
    + exists (priv_module st2), d'. rewrite Ecd'. apply lookup_insert_eq.
    + split; apply K1, G1, Q4; assumption.
    + apply K2, G2, Q6, Hsub.
    + rewrite Ei. apply lookup_insert_eq.
Qed.
End Boot.
(** ** Opening the port *)

Section Echo.
Context {D S : Type} {IO : PortIO D} {IS : IrqServer S} {A : ObjAlloc} {L : ObjAllocLaws A}.
Context {M : Allocator} {ML : AllocatorLaws M} (large : mem -> Z -> Z -> res (mem * ptr)).
Context {view : D -> chip} {U : Uart16550 IO COM2_BASEPORT view}.

Lemma device_status_ok fuel (st st' : drv D S) new os :
  loaded (view := view) st st' new os -> (0 < fuel)%nat ->
  debug_device_status fuel (dr_reg st') = Ok [(com2_path, MKDEV major 1)].
Proof.
  intros Hl Hf. unfold debug_device_status.
  rewrite (for_each_entry_ok _ _ _ _ [new] _ (ro_classes _ _ _ (lo_reg _ _ _ _ Hl))) by (cbn; lia). cbn [over].
  rewrite (class_at_ok _ [new] [] new (lo_reg _ _ _ _ Hl)) by set_solver. cbn [rbind]. rewrite (lo_rec _ _ _ _ Hl).
  unfold cdev_at. cbn [cl_cdev]. destruct (lo_cdev _ _ _ _ Hl) as (o & d & ->). reflexivity.
Qed.

Lemma no_files_ok (st st' : drv D S) new os : loaded (view := view) st st' new os -> table_ok (no_files (dr_reg st')) [] [new] [].
Proof.
  intros [H1 _ _ _ [_ H2] H3 _ _ _ _ _ _ _ _].
  split; cbn; try assumption; try lia;
    try (intros f Hf; now apply not_elem_of_nil in Hf); try (intros f o Hf; now apply not_elem_of_nil in Hf).
  - split; [repeat constructor | apply NoDup_singleton].
  - intros f g o o' Hf. now apply not_elem_of_nil in Hf.
  - constructor.
Qed.

Lemma open_com2_ok fuel (st st' : drv D S) new (w : world D) :
  loaded (view := view) st st' new (file_objects com2_path) -> (0 < fuel)%nat ->
  exists s f d, open (ops_at large idle fuel) fuel (no_files (dr_reg st')) w com2_path = Ok (s, w, 1) /\
    table_ok s [f] [new] [] /\ descriptor s [f] 1 (cdev_addr COM2) COM2 /\
    rg_cdevs (fs_reg s) !! cdev_addr COM2 = Some d /\ cd_ops d = fops.
Proof.
  intros Hl Hf. pose proof (no_files_ok _ _ _ _ Hl) as Ht.
  destruct Hl as [Hr Hnew Hrec (ow & dn & Hcd) [Hs1 Hs2] Hsub Hmem _ _ _ _ _ _ _].
  destruct (open_ok (ops_at large idle fuel) fuel (no_files (dr_reg st')) [] [new] [] w com2_path new
              (Class_ (cdev_addr COM2) com2_path (MKDEV major 1)) (Cdev fops ow dn) (uart_fops large idle fuel) w COM2 0)
    as (s & f & E & Ht' & _ & _ & Hd & _ & Hc & _); try assumption; try reflexivity.
  - intros a Ha. apply list_elem_of_singleton in Ha as ->. cbn [fs_reg no_files]. rewrite Hrec.
    split; [repeat constructor; discriminate | vm_compute; lia].
  - repeat constructor; discriminate.
  - cbn [by_name fs_reg no_files]. rewrite Hrec. now rewrite bool_decide_eq_true_2.
  - set_solver.
  - exists s, f. eexists. eauto.
Qed.

(** ** Echoing *)

(** The bytes [main] echoes when [bs] arrive. *)
Definition echoed (bs : list Z) : list Z := u8 <$> take 256 bs.

Lemma echoed_take bs :
  let q := u8 <$> take (Z.to_nat FIFO_SIZE) bs in let n := Z.min 256 (zlen q) in
  n = zlen (echoed bs) /\ take (Z.to_nat n) q = echoed bs /\ 0 <= n <= 256 /\ (bs <> [] -> n <> 0) /\
  drop (Z.to_nat n) q = u8 <$> take (Z.to_nat FIFO_SIZE - 256) (drop 256 bs).
Proof.
  intros q n. assert (length q = min (Z.to_nat FIFO_SIZE) (length bs)) as Hq
    by (unfold q; rewrite length_fmap, length_take; reflexivity).
  assert (length (echoed bs) = min 256 (length bs)) as He by (unfold echoed; now rewrite length_fmap, length_take).
  assert (256 < Z.to_nat FIFO_SIZE)%nat as HF by (change (256 < Z.to_nat 4096)%nat; lia).
  assert (n = zlen (echoed bs)) as Hn by (unfold n, zlen; rewrite Hq, He; lia).
  split; [exact Hn |]. split; [|split; [unfold n, zlen; lia |]; split].
  - rewrite Hn. unfold zlen, q. rewrite He, Nat2Z.id. unfold echoed. rewrite <- fmap_take, take_take. f_equal.
    destruct (Nat.le_ge_cases 256 (length bs)); [f_equal; lia |]. rewrite !take_ge by lia. reflexivity.
  - intros Hne. rewrite Hn. unfold zlen. rewrite He. destruct bs; [congruence |]. cbn [length]. lia.
  - rewrite Hn. unfold zlen, q. rewrite He, Nat2Z.id, <- fmap_drop. f_equal.
    destruct (Nat.le_ge_cases 256 (length bs)).
    + rewrite Nat.min_l by lia. rewrite skipn_firstn_comm. reflexivity.
    + rewrite Nat.min_r, (drop_ge bs 256), take_nil, drop_ge by (rewrite ?length_take; lia). reflexivity.
Qed.

(** Whether a zero byte follows in the buffer of 256 zeros they are read into. *)
Definition terminated (bs : list Z) : bool := (length bs <? 256)%nat || bool_decide (0 ∈ echoed bs).

Lemma until0_spec l : if bool_decide (0 ∈ l) then is_Some (until0 l) else until0 l = None.
Proof.
  induction l as [|x l IH]; [reflexivity |]. cbn [until0]. destruct (Z.eqb_spec x 0) as [->|Hx].
  - rewrite bool_decide_eq_true_2 by constructor. eauto.
  - rewrite (bool_decide_ext _ (0 ∈ l)) by (rewrite elem_of_cons; intuition congruence).
    destruct (bool_decide (0 ∈ l)); [destruct IH as [s ->]; eauto | now rewrite IH].
Qed.

Lemma echoed_string m m' a bs :
  blocks m !! a = Some (replicate (Z.to_nat 256) 0) ->
  blocks m' !! a = blocks (put_bytes m (Ptr a 0) (echoed bs)) !! a ->
  if terminated bs then (exists s, string_at m' (Ptr a 0) = Ok s) else string_at m' (Ptr a 0) = Err UB.
Proof.
  intros Ha E. unfold put_bytes in E. cbn [blk ofs] in E. rewrite Ha in E. cbn [blocks] in E. rewrite lookup_insert_eq in E.
  unfold string_at. cbn [blk ofs]. rewrite E. cbn [Z.leb Z.compare defined_if rbind Z.to_nat]. rewrite drop_0.
  set (l := write_at _ _ _). pose proof (until0_spec l) as Hu.
  replace (bool_decide (0 ∈ l)) with (terminated bs) in Hu.
  { destruct (terminated bs); [destruct Hu as [s ->]; eauto | now rewrite Hu]. }
  assert (length (echoed bs) = min 256 (length bs)) as He by (unfold echoed; now rewrite length_fmap, length_take).
  unfold l, write_at, terminated. change (Z.to_nat 0) with 0%nat. rewrite take_0, app_nil_l, Nat.add_0_l, drop_replicate, He.
  destruct (Nat.ltb_spec (length bs) 256) as [Hl|Hl]; cbn [orb].
  - symmetry. apply bool_decide_eq_true_2. rewrite elem_of_app. right. rewrite Nat.min_r by lia.
    change (Z.to_nat 256) with 256%nat. replace (256 - length bs)%nat with (Datatypes.S (255 - length bs)) by lia. constructor.
  - rewrite Nat.min_l by lia. cbn [replicate Nat.sub]. now rewrite app_nil_r.
Qed.

(** What the device, the handler's locals and the caller's buffer have to be. *)
Record echo_ready (w : world D) (bv val buf : ptr) : Prop := {
  er_dev : dev_ok (w_mem w) (com2_dev w) COM2_BASEPORT [] [];
  er_slots : slots_ok (w_mem w) (com2_dev w) bv val;
  er_locks : input_lock (com2_dev w) = 0 /\ output_lock (com2_dev w) = 0;
  er_user : user_ok (w_mem w) (com2_dev w) buf 256 [blk bv; blk val; blk (k_data (inbuffer (com2_dev w)))];
  er_dom : dyn (w_mem w) ⊆ dom (blocks (w_mem w));
  er_stack : forall b, b ∈ [blk bv; blk val; blk (k_data (inbuffer (com2_dev w)))] -> b ∉ dyn (w_mem w)
}.

Lemma valid_prefix m p n k : valid_at m p n -> 0 <= k <= n -> valid_at m p k.
Proof. intros (B & HB & Hb) Hk. exists B. split; [exact HB |]. apply in_bounds_iff in Hb. apply in_bounds_iff. lia. Qed.

Lemma echo_io fuel hfuel t bv val (w : world D) buf bs room c :
  (Z.to_nat FIFO_SIZE < hfuel)%nat -> (t < fuel)%nat -> t <> 1%nat -> echo_ready w bv val buf ->
  view (w_hw w) = arrive c bs room -> dlab c = false -> c_rx c = [] -> bs <> [] ->
  (forall m n, 0 <= n <= 256 -> malloc m n <> None) ->
  let r := zlen (echoed bs) in
  exists w1 w2 w3, uart16550_read large (irq_at bv val hfuel COM2_IRQ t) fuel COM2 buf 256 w = Ok (w1, r) /\
    blocks (w_mem w1) !! blk buf = blocks (put_bytes (w_mem w) buf (echoed bs)) !! blk buf /\
    uart16550_write large idle fuel COM2 buf r w1 = Ok (w2, r) /\
    load (w_mem w2) buf r = Ok (echoed bs) /\
    dev_ok (w_mem w2) (com2_dev w2) COM2_BASEPORT (u8 <$> take (Z.to_nat FIFO_SIZE - 256) (drop 256 bs)) (echoed bs) /\
    interrupt_handler bv val hfuel w2 COM2_IRQ = Ok (w3, IRQ_HANDLED) /\
    c_sent (view (w_hw w3)) = c_sent c ++ take room (echoed bs) /\ c_sent (view (w_hw w2)) = c_sent c.
Proof.
  intros Hhf Hf Ht [Hdev Hsl [Hl1 Hl2] Hus Hdom Hst] Hv Hdl Hrx Hne Hm r.
  assert (dlab (view (w_hw w)) = false /\ c_rx (view (w_hw w)) = bs /\ c_room (view (w_hw w)) = room /\
          c_sent (view (w_hw w)) = c_sent c) as (Hdlw & Hrxw & Hrmw & Hsw).
  { rewrite Hv. destruct c. cbn in *. now rewrite Hrx. }
  destruct (echoed_take bs) as (En & Et & Hn & Hn0 & Ed). fold r in En.
  destruct (read_blocking_ok IO COM2_BASEPORT view U M ML large bv val hfuel fuel COM2_IRQ t w [] buf 256)
    as (w1 & E1 & Hr & V1 & Hsl1); change (irq_com COM2_IRQ) with COM2 in *; cbn [the_dev] in *; try assumption; try lia.
  { now rewrite Hrxw. } { apply Hm. lia. }
  rewrite Hrxw in E1, Hr. rewrite En in E1, Hr, Et, Ed. rewrite drop_nil in Hr.
  destruct (same_device_data _ _ (wr_same _ _ _ _ _ _ _ _ _ Hr Hl1)) as [Ki Ko]. cbn [the_dev] in Ki, Ko.
  destruct (wr_same _ _ _ _ _ _ _ _ _ Hr Hl1) as (_ & _ & _ & _ & _ & Kl & _). cbn [the_dev] in Kl.
  destruct Hr as [Hdev1 Hld1 _ _ Hvu [Hdy1 Hbl1] Hblk]. cbn [the_dev] in *. rewrite Et in Hld1, Hblk. rewrite Ed in Hdev1.
  rewrite Hrmw, take_nil, fmap_nil, chip_sent_nil in V1.
  assert (dlab (view (w_hw w1)) = false /\ c_room (view (w_hw w1)) = room /\ c_sent (view (w_hw w1)) = c_sent c) as (Hdl1 & Hrm1 & Hs1).
  { rewrite V1. destruct (view (w_hw w)). cbn in *. auto. }
  destruct (write_ready_ok IO view M ML large fuel w1 COM2 U _ [] buf r (echoed bs) Hdev1) as [_ Hw]; cbn [the_dev]; try assumption; try lia.
  { now vm_compute. }
  { rewrite Hdy1. intros b Hb. apply elem_of_dom. destruct (decide (b = blk buf)) as [->|Hb1].
    - destruct (Hvu 256 (us_valid _ _ _ _ _ Hus)) as (V & HV & _). eauto.
    - rewrite Hbl1; [now apply elem_of_dom, Hdom |]. intros Hin. apply elem_of_cons in Hin as [?|Hin]; [contradiction |].
      now apply (Hst b). }
  destruct Hw as (w2 & E2 & [Hdev2 Hsd2 _ V2 [Hdy2 Hbl2]]); [apply Hm; lia |]. cbn [the_dev app] in *.
  replace (Z.min r (FIFO_SIZE - zlen [])) with r in E2, Hdev2 by (change (FIFO_SIZE - zlen []) with 4096; lia).
  rewrite (take_ge (echoed bs)) in Hdev2 by (unfold r, zlen; lia).
  destruct (same_device_data _ _ Hsd2) as [Ki2 Ko2].
  assert (forall p k, blk p <> blk (k_data (outbuffer (com2_dev w1))) -> valid_at (w_mem w1) p k -> valid_at (w_mem w2) p k) as Hval2.
  { intros p k Hp (V & HV & HVb). exists V. split; [|exact HVb]. rewrite Hbl2; [exact HV |]. rewrite list_elem_of_singleton. exact Hp. }
  destruct (handler_ok (p := COM2_BASEPORT) (view := view) bv val hfuel w2 COM2_IRQ (u8 <$> take (Z.to_nat FIFO_SIZE - 256) (drop 256 bs)) (echoed bs) Hhf)
    as (w3 & E3 & Hh & _); change (irq_com COM2_IRQ) with COM2 in *; cbn [the_dev] in *; try assumption.
  { destruct Hsl1 as [S1 S2 S3 S4 [S5 S6]]. split; rewrite ?Ki2, ?Ko2; auto. }
  { rewrite V2. destruct (view (w_hw w1)). exact Hdl1. }
  exists w1, w2, w3. split; [exact E1 |]. split; [exact Hblk |]. split; [exact E2 |].
  split; [|split; [exact Hdev2 | split; [exact E3 | split]]].
  - apply load_inv in Hld1 as (B & HB & Hb & ->). apply load_ok; [|exact Hb]. rewrite Hbl2; [exact HB |].
    rewrite list_elem_of_singleton, Ko. exact (us_out _ _ _ _ _ Hus).
  - rewrite (hd_chip _ _ _ _ _ _ Hh), V2. destruct (view (w_hw w1)) as [ier lcr mcr fcr dll dlm rx sent rm]. cbn in *.
    subst rm. rewrite Hs1. f_equal. unfold echoed. rewrite <- !fmap_take, <- list_fmap_compose. apply list_fmap_ext.
    intros i x _. unfold compose, u8. now rewrite Z.mod_mod by lia.
  - rewrite V2. destruct (view (w_hw w1)). exact Hs1.
Qed.

(** The locals of the interrupt handler: two bytes outside the device and the
    heap. *)
Record locals_ok (m : mem) (dev : com_dev) (bv val : ptr) : Prop := {
  lc_valid : valid_at m bv 1 /\ valid_at m val 1;
  lc_apart : blk bv <> blk val;
  lc_in : blk bv <> blk (in_buf dev) /\ blk val <> blk (in_buf dev);
  lc_out : blk bv <> blk (out_buf dev) /\ blk val <> blk (out_buf dev);
  lc_heap : forall b, b ∈ [blk bv; blk val; blk (in_buf dev)] -> b ∉ dyn m;
  lc_dom : dyn m ⊆ dom (blocks m)
}.

(** A loaded driver, a fresh buffer of 256 bytes and bytes on the line. *)
Lemma loaded_ready (st st' : drv D S) new os bv val (w : world D) a :
  loaded (view := view) st st' new os -> locals_ok (w_mem (dr_world st)) (com2_dev (dr_world st)) bv val ->
  bufs_ok (w_mem (dr_world st)) (com2_dev (dr_world st)) ->
  let m := w_mem (dr_world st') in
  blocks m !! a = None -> a <> 0 -> com2_dev w = com2_dev (dr_world st') ->
  w_mem w = Mem (<[a := replicate (Z.to_nat 256) 0]> (blocks m)) ({[a]} ∪ dyn m) ->
  echo_ready w bv val (Ptr a 0).
Proof.
  intros [_ _ _ _ _ _ _ _ Hdev Hlk _ [Hki Hko] Hmem _] [[Hv1 Hv2] Hap [Hi1 Hi2] [Ho1 Ho2] Hh Hdom]
    [(B1 & HB1 & _) (B2 & HB2 & _) _ _] m Ha Ha0 Edev Ew.
  assert (fresh_block m 256 0 (w_mem w) (Ptr a 0)) as Hfr.
  { rewrite Ew. split; [reflexivity |]. split; [exact Ha0 |]. split; [exact Ha |]. split; [reflexivity |].
    exists (replicate (Z.to_nat 256) 0). split; [reflexivity |]. split; [reflexivity |]. now intros _. }
  unfold m in *. rewrite Hmem in *. destruct (fresh_dev _ _ _ _ _ Hfr _ _ _ _ Hdev) as (Hdev' & Hbi & Hbo).
  assert (slots_ok (w_mem (dr_world st)) (com2_dev (dr_world st')) bv val) as Hsl by (split; rewrite ?Hki, ?Hko; auto).
  destruct (fresh_slots _ _ _ _ _ Hfr _ _ _ Hsl) as (Hsl' & Hb1 & Hb2). cbn [blk] in *.
  split; rewrite ?Edev; try assumption.
  - split; try assumption; [|rewrite Hki in *; set_solver]. exists (replicate (Z.to_nat 256) 0). rewrite Ew. split; [apply lookup_insert_eq |].
    reflexivity.
  - rewrite Ew. cbn [dyn blocks]. rewrite dom_insert_L. clear - Hdom. set_solver.
  - rewrite Ew, Hki. cbn [dyn]. intros b Hb. specialize (Hh b Hb). rewrite not_elem_of_union. split; [|exact Hh].
    rewrite not_elem_of_singleton. intros ->. rewrite Hki in Hbi. set_solver.
Qed.

Lemma main_ok (env : nat -> nat -> world D -> res (world D)) (hw : nat -> D -> D) fuel hfuel t bv val (st : drv D S) srv bs room :
  bootable st srv (file_objects com2_path) -> locals_ok (w_mem (dr_world st)) (com2_dev (dr_world st)) bv val ->
  (Z.to_nat FIFO_SIZE < hfuel)%nat -> (t < fuel)%nat -> t <> 1%nat -> env 0%nat = irq_at bv val hfuel COM2_IRQ t ->
  (forall d, view (hw 0%nat d) = arrive (view d) bs room) -> bs <> [] ->
  (forall m n, 0 <= n <= 256 -> malloc m n <> None) ->
  if terminated bs then
  exists s w i buf w', main large env hw fuel st = Ok (s, w, i, buf, zlen (echoed bs)) /\
    load (w_mem w) buf (zlen (echoed bs)) = Ok (echoed bs) /\
    dev_ok (w_mem w) (com2_dev w) COM2_BASEPORT (u8 <$> take (Z.to_nat FIFO_SIZE - 256) (drop 256 bs)) (echoed bs) /\
    ir_tokens i !! COM2_IRQ = Some (Some COM2) /\
    interrupt_handler bv val hfuel w COM2_IRQ = Ok (w', IRQ_HANDLED) /\
    c_sent (view (w_hw w')) = c_sent (view (w_hw w)) ++ take room (echoed bs)
  else main large env hw fuel st = Err UB.
Proof.
  intros Hbo Hlc Hhf Hf Ht Henv Hhw Hne Hm. unfold main.
  destruct (module_handler_ok (view := view) fuel st srv _ ltac:(lia) Hbo) as (st' & new & -> & Hl). cbn [rbind].
  rewrite (device_status_ok fuel _ _ _ _ Hl) by lia. cbn [rbind].
  destruct (open_com2_ok fuel st st' new (dr_world st') Hl ltac:(lia)) as (s & f & d & -> & Hta & Hde & Hcd & Hops). cbn [rbind].
  destruct (calloc_ok M ML (w_mem (dr_world st')) 1 256) as (a & -> & Ha0 & Ha); [lia | apply Hm; lia |]. cbn [rbind].
  unfold is_null. rewrite bool_decide_eq_false_2 by (unfold NULL; congruence). cbn [negb cassert rbind Z.ltb Z.compare].
  set (w1 := put_mem _ _). destruct fuel as [|fuel']; [lia |]. cbn [read_loop]. rewrite Henv. set (fuel := Datatypes.S fuel') in *.
  set (w2 := put_hw w1 _).
  pose proof (loaded_ready st st' new _ bv val w2 a Hl Hlc (bo_bufs _ _ _ Hbo) Ha Ha0 eq_refl eq_refl) as Her.
  destruct (lo_chip _ _ _ _ Hl) as [Hcf Hrx].
  destruct (echo_io fuel hfuel t bv val w2 (Ptr a 0) bs room (view (w_hw (dr_world st'))) Hhf Hf Ht Her)
    as (w3 & w4 & w5 & E1 & Hblk & E2 & Hld & Hdev & E3 & Hsent & Hsent2); try assumption.
  { apply Hhw. } { apply Hcf. }
  destruct (echoed_take bs) as (En & _ & Hn & Hn0 & _). specialize (Hn0 Hne).
  destruct (read_write_ok (ops_at large (irq_at bv val hfuel COM2_IRQ t) fuel) fuel s [f] [new] [] w2 1 (Ptr a 0) 256
              (cdev_addr COM2) COM2 d (uart_fops large (irq_at bv val hfuel COM2_IRQ t) fuel)) as [-> _]; try assumption.
  { cbn. lia. } { unfold is_null. apply bool_decide_eq_false_2. unfold NULL. congruence. } { now rewrite Hops. }
  cbn [op_read uart_fops]. rewrite E1. cbn [rbind]. rewrite En in Hn, Hn0.
  rewrite (proj2 (Z.eqb_neq _ _) Hn0). cbn [rbind]. rewrite (proj2 (Z.ltb_ge _ _)) by lia.
  pose proof (echoed_string (w_mem w2) (w_mem w3) a bs ltac:(apply lookup_insert_eq) Hblk) as Hstr.
  destruct (terminated bs); [destruct Hstr as [str ->] | now rewrite Hstr]. cbn [rbind].
  destruct (read_write_ok (ops_at large idle fuel) fuel s [f] [new] [] w3 1 (Ptr a 0) (zlen (echoed bs))
              (cdev_addr COM2) COM2 d (uart_fops large idle fuel)) as [_ ->]; try assumption.
  { cbn. lia. } { unfold is_null. apply bool_decide_eq_false_2. unfold NULL. congruence. } { now rewrite Hops. }
  cbn [op_write uart_fops]. rewrite E2. cbn [rbind].
  exists s, w4, (dr_irq st'), (Ptr a 0), w5. split; [reflexivity |]. split; [exact Hld |]. split; [exact Hdev |].
  split; [apply (lo_irq _ _ _ _ Hl) |]. split; [exact E3 |]. now rewrite Hsent2.
Qed.
End Echo.

(** An allocator that always finds room. *)
Definition roomy : Allocator := fun m n => bump_malloc (next_addr m + n) m n.

#[export] Instance roomy_laws : AllocatorLaws roomy.
Proof.
  split; intros m n a bs; unfold malloc, roomy.
  - apply (malloc_fresh (A := bump_malloc (next_addr m + n))).
  - apply (malloc_size (A := bump_malloc (next_addr m + n))).
Qed.

Definition power_on : drv (chip * chip) nat :=
  Drv (sample_world []) (with_cdevs (initial (list_to_set [4; 10; 11; 12])) {[ 10 := Cdev 0 0 0; 11 := Cdev 0 0 0 ]})
    (Irqs 0%nat ∅) 0 0.

Lemma power_on_ok : bootable (A := next_obj) power_on 0%nat (file_objects com2_path).
Proof.
  split.
  - split; cbn.
    + split; [repeat constructor | apply NoDup_singleton].
    + split; [repeat constructor | apply NoDup_singleton].
    + unfold devs_head, classes_head. set_solver.
    + intros a Ha. now apply not_elem_of_nil in Ha.
    + intros a Ha. now apply not_elem_of_nil in Ha.
    + unfold devs_head, classes_head. set_solver.
    + unfold devs_head, classes_head. set_solver.
  - now eexists.
  - unfold file_root. cbn. set_solver.
  - apply empty_subseteq.
  - assert (zlen (replicate (Z.to_nat FIFO_SIZE) 0) = FIFO_SIZE) as Hz
      by (unfold zlen; rewrite length_replicate; reflexivity).
    split; [now eexists | now eexists | now split | discriminate].
  - vm_compute. reflexivity.
  - reflexivity.
Qed.

End System.


