(* ===== verification/Boot.v ===== *)
(** * Starting the application

    The rest of src/apps/module-loader/src/main.c: setting up the seL4 process
    ([main] up to [module_handler], [make_irq_server]) and the functions that
    start a thread for a module ([spawn_new_module], [test_spawn]); the helpers
    of src/apps/module-loader/src/util.c, and [printk] (printk.c).

    The kernel and the seL4 libraries are not in the tree.  They are the class
    [Sel4] over a kernel state [K]: each call gives the next state and its error
    number.  [Sel4Laws] states what their manuals promise, in terms of a view of
    the kernel state: the objects behind capabilities, the page tables and pages
    of an address space, and the threads.  [ZF_LOGF_IF] and [ZF_LOGF_IFERR] stop
    the program. *)

From S2P Require Import Prelude Bytes Memory Kfifo KfifoApi Kdev UartHw ListHead Uart SerialLine Chardev Fd Driver Loader System.
Import Bytes Memory Kfifo KfifoApi Kdev UartHw Uart SerialLine ListHead Chardev Fd Interrupt Driver Loader System.

(** seL4_UserContext, the two registers written. *)
Record UserContext := Regs { r_ip : Z; r_sp : Z }.

(** The arguments of [seL4_TCB_Configure]. *)
Record tcb_config := TcbConfig {
  tc_fault_ep : Z;
  tc_priority : Z;
  tc_cspace : Z;
  tc_cspace_data : Z;
  tc_vspace : Z;
  tc_vspace_data : Z;
  tc_buffer : Z;
  tc_frame : Z
}.

(** sel4utils_thread_config_t *)
Record thread_config := ThreadConfig {
  th_fault_endpoint : Z;
  th_priority : Z;
  th_cspace : Z;
  th_no_ipc_buffer : bool;
  th_cspace_root_data : Z;
  th_custom_stack_size : bool
}.

Module Boot.

(** ** The seL4 libraries *)

Class Sel4 (K S : Type) := {
  (** constants of libsel4 *)
  seL4_CapNull : Z;
  seL4_CapInitThreadCNode : Z;
  seL4_CapInitThreadPD : Z;
  seL4_CapInitThreadTCB : Z;
  seL4_MaxPrio : Z;
  seL4_PrioProps_new : Z -> Z -> Z;
  seL4_NilData : Z;
  seL4_AllRights : Z;
  seL4_ARCH_Default_VMAttributes : Z;
  seL4_PageBits : Z;
  (** the build: SEL4_DEBUG_KERNEL and CONFIG_DEBUG_BUILD; the kernel's debug calls *)
  debug_kernel : bool;
  debug_build : bool;
  seL4_DebugNameThread : K -> Z -> list Z -> K;
  seL4_DebugPutChar : K -> Z -> K;
  (** process set-up *)
  seL4_GetBootInfo : K -> option Z;
  bootstrap_use_current_simple : K -> Z -> K * option Z;
  sel4utils_bootstrap_vspace_with_bootinfo_leaky : K -> Z -> Z -> K * Z;
  irq_server_new : K -> Z -> Z -> Z -> Z -> Z -> K * Z * option S;
  (** objects *)
  vka_alloc_tcb : K -> K * Z * Z;
  vka_alloc_endpoint : K -> K * Z * Z;
  vka_alloc_frame : K -> Z -> K * Z * Z;
  vka_alloc_page_table : K -> K * Z * Z;
  (** system calls *)
  seL4_ARCH_Page_Map : K -> Z -> Z -> Z -> Z -> Z -> K * Z;
  seL4_ARCH_PageTable_Map : K -> Z -> Z -> Z -> Z -> K * Z;
  seL4_TCB_Configure : K -> Z -> tcb_config -> K * Z;
  seL4_TCB_WriteRegisters : K -> Z -> Z -> Z -> Z -> UserContext -> K * Z;
  seL4_TCB_Resume : K -> Z -> K * Z;
  (** a word stored through the address space of the program *)
  poke : K -> Z -> Z -> option K;
  (** sel4utils threads *)
  sel4utils_configure_thread_config : K -> thread_config -> K * Z * Z;
  sel4utils_start_thread : K -> Z -> Z -> Z -> Z -> Z -> K * Z
}.

(** ** util.c and printk.c *)

Section Util.
Context {K S : Type} {KL : Sel4 K S}.

(** Thread names are for debugging kernels only. *)
Definition name_thread (k : K) (tcb : Z) (name : list Z) : K :=
  if debug_kernel then seL4_DebugNameThread k tcb name else k.

Definition __arch_putchar (k : K) (c : Z) : K :=
  if debug_build then seL4_DebugPutChar k c else k.

(** [while (1);]: no amount of fuel is enough. *)
Fixpoint abort (fuel : nat) (k : K) : res K :=
  match fuel with O => Err OutOfFuel | Datatypes.S fuel => abort fuel k end.

Lemma abort_never_returns fuel k : abort fuel k = Err OutOfFuel.
Proof. induction fuel; [reflexivity | assumption]. Qed.

(** [vprintf] of the C library, over the console [O] and the arguments [V]. *)
Definition printk {O V} (vprintf : O -> list Z -> V -> O * Z) (out : O) (fmt : list Z) (args : V) : O * Z :=
  let '(out, r) := vprintf out fmt args in (out, r).
End Util.

(** ** main.c *)

(** [ZF_LOGF_IFERR] and [ZF_LOGF_IF]. *)
Definition ZF_LOGF_IFERR (error : Z) : res unit := cassert (error =? 0).
Definition ZF_LOGF_IF (b : bool) : res unit := cassert (negb b).

Definition IPCBUF_FRAME_SIZE_BITS : Z := 12.
Definition IPCBUF_VADDR : Z := 0x7000000.
Definition THREAD_2_STACK_SIZE : Z := 512.
Definition sizeof_uint64_t : Z := 8.
Definition sizeof_seL4_Word : Z := 4.
Definition module_handler_fn : Z := 32.     (** module_handler *)
Definition loader_name : list Z :=          (** module-loader *)
  [109; 111; 100; 117; 108; 101; 45; 108; 111; 97; 100; 101; 114].
Definition new_module_name : list Z :=      (** module-loader: new-module *)
  [109; 111; 100; 117; 108; 101; 45; 108; 111; 97; 100; 101; 114; 58; 32; 110; 101; 119; 45; 109; 111; 100; 117; 108; 101].

Section Code.
Context {D S K : Type} {IO : PortIO D} {IS : IrqServer S} {A : ObjAlloc} {M : Allocator} {KL : Sel4 K S}.

Definition ALLOCATOR_STATIC_POOL_SIZE : Z := Z.shiftl 1 seL4_PageBits * 10.

(** Only [irq_server_new] is checked. *)
Definition make_irq_server (k : K) (cspace : Z) : res (K * option S) :=
  let '(k, _, _) := vka_alloc_endpoint k in
  let '(k, error, srv) := irq_server_new k cspace seL4_MaxPrio seL4_CapNull 0 256 in
  let! _ := ZF_LOGF_IF (negb (error =? 0)) in
  Ok (k, srv).

(** sel4utils_set_instruction_pointer and sel4utils_set_stack_pointer *)
Definition set_instruction_pointer (regs : UserContext) (v : Z) : UserContext := Regs v (r_sp regs).
Definition set_stack_pointer (regs : UserContext) (v : Z) : UserContext := Regs (r_ip regs) v.

(** [stack] is the address of [thread_2_stack]. *)
Definition spawn_new_module (stack : Z) (k : K) (st : drv D S) (cspace_cap pd_cap : Z)
    : res (K * drv D S * Z) :=
  let module := fetch_module_init module0 in
  let! st := init_module_struct st in
  let '(k, error, tcb) := vka_alloc_tcb k in
  let! _ := ZF_LOGF_IFERR error in
  let '(k, error, ipc_frame) := vka_alloc_frame k IPCBUF_FRAME_SIZE_BITS in
  let! _ := ZF_LOGF_IFERR error in
  let ipc_buffer_vaddr := IPCBUF_VADDR in
  let '(k, error) := seL4_ARCH_Page_Map k ipc_frame pd_cap ipc_buffer_vaddr
                       seL4_AllRights seL4_ARCH_Default_VMAttributes in
  let '(k, error, pt) := vka_alloc_page_table k in
  let! _ := ZF_LOGF_IFERR error in
  let '(k, error) := seL4_ARCH_PageTable_Map k pt pd_cap ipc_buffer_vaddr
                       seL4_ARCH_Default_VMAttributes in
  let! _ := ZF_LOGF_IFERR error in
  let '(k, error) := seL4_ARCH_Page_Map k ipc_frame pd_cap ipc_buffer_vaddr
                       seL4_AllRights seL4_ARCH_Default_VMAttributes in
  let! _ := ZF_LOGF_IFERR error in
  match poke k ipc_buffer_vaddr ipc_buffer_vaddr with
  | None => Err UB
  | Some k =>
      let '(k, error) := seL4_TCB_Configure k tcb
        (TcbConfig seL4_CapNull (seL4_PrioProps_new seL4_MaxPrio seL4_MaxPrio)
           cspace_cap seL4_NilData pd_cap seL4_NilData ipc_buffer_vaddr ipc_frame) in
      let! _ := ZF_LOGF_IFERR error in
      let k := name_thread k tcb new_module_name in
      let regs := Regs 0 0 in
      let regs := set_instruction_pointer regs (m_init module) in
      let stack_alignment_requirement := sizeof_seL4_Word * 2 in
      let thread_2_stack_top := stack ⊞ (THREAD_2_STACK_SIZE * sizeof_uint64_t) in
      let! _ := ZF_LOGF_IF (negb (thread_2_stack_top mod stack_alignment_requirement =? 0)) in
      let regs := set_stack_pointer regs thread_2_stack_top in
      let '(k, error) := seL4_TCB_WriteRegisters k tcb 0 0 2 regs in
      let! _ := ZF_LOGF_IFERR error in
      let '(k, error) := seL4_TCB_Resume k tcb in
      let! _ := ZF_LOGF_IFERR error in
      Ok (k, st, error)
  end.

Definition test_spawn (k : K) (cspace_cap : Z) : res K :=
  let config := ThreadConfig seL4_CapNull seL4_MaxPrio cspace_cap false 0 false in
  let '(k, err, thread) := sel4utils_configure_thread_config k config in
  let! _ := ZF_LOGF_IFERR err in
  let '(k, err) := sel4utils_start_thread k thread module_handler_fn 0 0 1 in
  let! _ := ZF_LOGF_IFERR err in
  Ok k.

(** [main] up to the interrupt server.  [simple_default_init_bootinfo] and
    [allocman_make_vka] only fill in tables of functions. *)
Definition main_setup (k : K) : res (K * S) :=
  match seL4_GetBootInfo k with
  | None => Err Panic
  | Some info =>
      let k := name_thread k seL4_CapInitThreadTCB loader_name in
      let '(k, allocman) := bootstrap_use_current_simple k ALLOCATOR_STATIC_POOL_SIZE in
      match allocman with
      | None => Err Panic
      | Some _ =>
          let '(k, error) := sel4utils_bootstrap_vspace_with_bootinfo_leaky k seL4_CapInitThreadPD info in
          let! _ := ZF_LOGF_IFERR error in
          let! (k, srv) := make_irq_server k seL4_CapInitThreadCNode in
          match srv with
          | None => Err Panic
          | Some srv => Ok (k, srv)
          end
      end
  end.

(** The global [srv] of main.c, which the interrupt code of liblinux uses. *)
Definition with_server (st : drv D S) (srv : S) : drv D S :=
  Drv (dr_world st) (dr_reg st) (Irqs srv (ir_tokens (dr_irq st))) (uart16550_class st) (priv_module st).

(** The whole of [main]. *)
Definition program (large : mem -> Z -> Z -> res (mem * ptr)) (env : nat -> nat -> world D -> res (world D))
    (hw : nat -> D -> D) (fuel : nat) (k : K) (st : drv D S)
    : res (K * (fdstate com * world D * irqs S com * ptr * Z)) :=
  let! (k, srv) := main_setup k in
  let! x := main large env hw fuel (with_server st srv) in
  Ok (k, x).
End Code.

(** ** What the kernel promises *)

Inductive kobj := KTcb | KEndpoint | KFrame (bits : Z) | KPageTable | KPageDirectory | KCNode.

#[global] Instance kobj_eq_dec : EqDecision kobj.
Proof. solve_decision. Defined.

Record thread := Thread { t_config : option tcb_config; t_regs : UserContext; t_running : bool }.

(** The kernel as a user sees it: the object behind each capability, where page
    tables are installed and pages mapped (by page directory), and the threads. *)
Record kview := KView {
  v_caps : gmap Z kobj;
  v_tables : gset (Z * Z);
  v_pages : gmap (Z * Z) Z;
  v_threads : gmap Z thread
}.

Definition add_cap (v : kview) (c : Z) (o : kobj) : kview :=
  KView (<[c := o]> (v_caps v)) (v_tables v) (v_pages v) (v_threads v).
Definition add_tcb (v : kview) (c : Z) : kview :=
  KView (<[c := KTcb]> (v_caps v)) (v_tables v) (v_pages v) (<[c := Thread None (Regs 0 0) false]> (v_threads v)).
Definition add_table (v : kview) (pd i : Z) : kview :=
  KView (v_caps v) ({[(pd, i)]} ∪ v_tables v) (v_pages v) (v_threads v).
Definition add_page (v : kview) (pd a frame : Z) : kview :=
  KView (v_caps v) (v_tables v) (<[(pd, a) := frame]> (v_pages v)) (v_threads v).
Definition set_thread (v : kview) (c : Z) (t : thread) : kview :=
  KView (v_caps v) (v_tables v) (v_pages v) (<[c := t]> (v_threads v)).

(** The page table that covers an address: one for every 4 MiB on IA-32. *)
Definition table_of (vaddr : Z) : Z := Z.shiftr vaddr 22.

(** An allocation either adds a fresh object or fails and adds nothing. *)
Definition allocates {K} (view : K -> kview) (add : kview -> Z -> kview) (k : K) (r : K * Z * Z) : Prop :=
  let '(k', error, c) := r in
  if error =? 0 then v_caps (view k) !! c = None /\ view k' = add (view k) c else view k' = view k.

Class Sel4Laws {K S} (KL : Sel4 K S) (view : K -> kview) : Prop := {
  (** names and characters are not part of what a user sees *)
  debug_name_law k c name : view (seL4_DebugNameThread k c name) = view k;
  alloc_tcb_law k : allocates view add_tcb k (vka_alloc_tcb k);
  alloc_frame_law k bits : allocates view (fun v c => add_cap v c (KFrame bits)) k (vka_alloc_frame k bits);
  alloc_table_law k : allocates view (fun v c => add_cap v c KPageTable) k (vka_alloc_page_table k);
  (** mapping a page needs the page table (else FailedLookup) *)
  page_map_fails k f pd a r t k' e :
    seL4_ARCH_Page_Map k f pd a r t = (k', e) -> e <> 0 -> view k' = view k;
  page_map_no_table k f pd a r t k' e :
    seL4_ARCH_Page_Map k f pd a r t = (k', e) -> (pd, table_of a) ∉ v_tables (view k) -> e <> 0;
  page_map_ok k f pd a r t k' :
    seL4_ARCH_Page_Map k f pd a r t = (k', 0) -> view k' = add_page (view k) pd a f;
  page_map_free k f pd a r t :
    v_caps (view k) !! f = Some (KFrame 12) -> v_caps (view k) !! pd = Some KPageDirectory ->
    a mod 4096 = 0 -> (pd, table_of a) ∈ v_tables (view k) ->
    v_pages (view k) !! (pd, a) = None -> exists k', seL4_ARCH_Page_Map k f pd a r t = (k', 0);
  (** only an empty slot takes a page table (else DeleteFirst) *)
  table_map_taken k p pd a t k' e :
    seL4_ARCH_PageTable_Map k p pd a t = (k', e) -> (pd, table_of a) ∈ v_tables (view k) -> e <> 0;
  table_map_free k p pd a t :
    v_caps (view k) !! p = Some KPageTable -> v_caps (view k) !! pd = Some KPageDirectory ->
    (pd, table_of a) ∉ v_tables (view k) ->
    exists k', seL4_ARCH_PageTable_Map k p pd a t = (k', 0) /\ view k' = add_table (view k) pd (table_of a);
  (** threads *)
  configure_law k c cfg th :
    v_threads (view k) !! c = Some th -> v_caps (view k) !! tc_cspace cfg = Some KCNode ->
    v_caps (view k) !! tc_vspace cfg = Some KPageDirectory ->
    v_caps (view k) !! tc_frame cfg = Some (KFrame 12) -> tc_buffer cfg mod 512 = 0 ->
    exists k', seL4_TCB_Configure k c cfg = (k', 0) /\
      view k' = set_thread (view k) c (Thread (Some cfg) (t_regs th) (t_running th));
  write_registers_law k c flags regs th :
    v_threads (view k) !! c = Some th ->
    exists k', seL4_TCB_WriteRegisters k c 0 flags 2 regs = (k', 0) /\
      view k' = set_thread (view k) c (Thread (t_config th) regs (t_running th));
  resume_law k c th :
    v_threads (view k) !! c = Some th ->
    exists k', seL4_TCB_Resume k c = (k', 0) /\
      view k' = set_thread (view k) c (Thread (t_config th) (t_regs th) true);
  (** a store to a mapped page of the program *)
  poke_law k a w f :
    v_pages (view k) !! (seL4_CapInitThreadPD, a) = Some f -> exists k', poke k a w = Some k' /\ view k' = view k
}.

(** ** Spawning a module *)

Section Spawn.
Context {D S K : Type} {IO : PortIO D} {IS : IrqServer S} {A : ObjAlloc} {M : Allocator}.
Context {KL : Sel4 K S} {view : K -> kview} {L : Sel4Laws KL view}.

(** Memory for kernel objects does not run out. *)
Definition objects_available : Prop :=
  (forall k, (vka_alloc_tcb k).1.2 = 0) /\ (forall k bits, (vka_alloc_frame k bits).1.2 = 0) /\
  (forall k, (vka_alloc_page_table k).1.2 = 0).

(** The thread a spawned module gets. *)
Definition module_thread (stack cspace_cap pd_cap frame : Z) : thread :=
  Thread (Some (TcbConfig seL4_CapNull (seL4_PrioProps_new seL4_MaxPrio seL4_MaxPrio) cspace_cap
                  seL4_NilData pd_cap seL4_NilData IPCBUF_VADDR frame))
    (Regs uart16550_init_fn (stack + 4096)) true.

(** With a page table already at the address of the IPC buffer, the unchecked
    first mapping may succeed, but the page table cannot be installed. *)
Lemma spawn_taken stack k (st st' : drv D S) cspace pd :
  init_module_struct st = Ok st' -> (pd, table_of IPCBUF_VADDR) ∈ v_tables (view k) ->
  spawn_new_module stack k st cspace pd = Err Panic.
Proof.
  intros Hi Ht. unfold spawn_new_module. rewrite Hi. cbn [rbind].
  pose proof (alloc_tcb_law k) as H1. destruct (vka_alloc_tcb k) as [[k1 e1] c1]. unfold ZF_LOGF_IFERR.
  cbn in H1. destruct (e1 =? 0); [|reflexivity]. destruct H1 as [_ H1]. cbn [cassert rbind].
  pose proof (alloc_frame_law k1 IPCBUF_FRAME_SIZE_BITS) as H2.
  destruct (vka_alloc_frame k1 IPCBUF_FRAME_SIZE_BITS) as [[k2 e2] c2].
  cbn in H2. destruct (e2 =? 0); [|reflexivity]. destruct H2 as [_ H2]. cbn [cassert rbind].
  destruct (seL4_ARCH_Page_Map k2 _ _ _ _ _) as [k3 e3] eqn:E3.
  assert (v_tables (view k3) = v_tables (view k2)) as H3.
  { destruct (Z.eq_dec e3 0) as [->|Hne]; [now rewrite (page_map_ok _ _ _ _ _ _ _ E3) |].
    now rewrite (page_map_fails _ _ _ _ _ _ _ _ E3 Hne). }
  pose proof (alloc_table_law k3) as H4. destruct (vka_alloc_page_table k3) as [[k4 e4] c4].
  cbn in H4. destruct (e4 =? 0); [|reflexivity]. destruct H4 as [_ H4]. cbn [cassert rbind].
  destruct (seL4_ARCH_PageTable_Map k4 _ _ _ _) as [k5 e5] eqn:E5.
  assert (e5 <> 0) as He5.
  { eapply table_map_taken; [exact E5 |]. rewrite H4. cbn. rewrite H3, H2. cbn. now rewrite H1. }
  rewrite (proj2 (Z.eqb_neq _ _) He5). reflexivity.
Qed.

(** The state of the kernel after a successful spawn. *)
Record spawned (k k' : K) (stack cspace pd : Z) : Prop := {
  sp_thread : exists tcb frame, v_caps (view k) !! tcb = None /\ v_caps (view k) !! frame = None /\
    v_threads (view k') = <[tcb := module_thread stack cspace pd frame]> (v_threads (view k)) /\
    v_pages (view k') = <[(pd, IPCBUF_VADDR) := frame]> (v_pages (view k));
  sp_tables : v_tables (view k') = {[(pd, table_of IPCBUF_VADDR)]} ∪ v_tables (view k)
}.

Lemma spawn_free stack k (st st' : drv D S) cspace pd :
  objects_available -> init_module_struct st = Ok st' -> pd = seL4_CapInitThreadPD ->
  0 <= stack -> stack + 4096 < W32 -> stack mod 8 = 0 ->
  v_caps (view k) !! pd = Some KPageDirectory -> v_caps (view k) !! cspace = Some KCNode ->
  (pd, table_of IPCBUF_VADDR) ∉ v_tables (view k) -> v_pages (view k) !! (pd, IPCBUF_VADDR) = None ->
  exists k', spawn_new_module stack k st cspace pd = Ok (k', st', 0) /\ spawned k k' stack cspace pd.
Proof.
  intros (Ha1 & Ha2 & Ha3) Hi Hpd Hs0 Hs1 Hs8 Cpd Ccs Ht Hp. unfold spawn_new_module. rewrite Hi. cbn [rbind].
  pose proof (alloc_tcb_law k) as H1. specialize (Ha1 k). destruct (vka_alloc_tcb k) as [[k1 e1] c1].
  cbn in Ha1. subst e1. destruct H1 as [F1 H1]. unfold ZF_LOGF_IFERR at 1. cbn [cassert rbind Z.eqb].
  pose proof (alloc_frame_law k1 IPCBUF_FRAME_SIZE_BITS) as H2. specialize (Ha2 k1 IPCBUF_FRAME_SIZE_BITS).
  destruct (vka_alloc_frame k1 IPCBUF_FRAME_SIZE_BITS) as [[k2 e2] c2].
  cbn in Ha2. subst e2. destruct H2 as [F2 H2]. unfold ZF_LOGF_IFERR at 1. cbn [cassert rbind Z.eqb].
  destruct (seL4_ARCH_Page_Map k2 _ _ _ _ _) as [k3 e3] eqn:E3.
  assert (view k3 = view k2) as H3.
  { eapply page_map_fails; [exact E3 |]. eapply page_map_no_table; [exact E3 |]. rewrite H2. cbn. now rewrite H1. }
  pose proof (alloc_table_law k3) as H4. specialize (Ha3 k3). destruct (vka_alloc_page_table k3) as [[k4 e4] c4].
  cbn in Ha3. subst e4. destruct H4 as [F4 H4]. unfold ZF_LOGF_IFERR at 1. cbn [cassert rbind Z.eqb].
  rewrite H3, H2, H1 in H4, F4. rewrite H1 in F2. cbn in F2, F4.
  apply lookup_insert_None in F2 as [F2 N12]. apply lookup_insert_None in F4 as [F4 N24].
  apply lookup_insert_None in F4 as [F4 N14]. clear H1 H2 H3 E3 k1 k2 k3 Hi.
  assert (forall c o, v_caps (view k) !! c = Some o -> v_caps (view k4) !! c = Some o) as Hkeep.
  { intros c o Hc. rewrite H4. cbn. rewrite !lookup_insert_ne by congruence. exact Hc. }
  assert (v_caps (view k4) !! c2 = Some (KFrame 12)) as Cf
    by (rewrite H4; cbn; rewrite lookup_insert_ne, lookup_insert_eq by congruence; reflexivity).
  destruct (table_map_free k4 c4 pd IPCBUF_VADDR seL4_ARCH_Default_VMAttributes) as (k5 & -> & H5);
    [rewrite H4; apply lookup_insert_eq | now apply Hkeep | rewrite H4; exact Ht |].
  cbn [cassert rbind Z.eqb ZF_LOGF_IFERR].
  destruct (page_map_free k5 c2 pd IPCBUF_VADDR seL4_AllRights seL4_ARCH_Default_VMAttributes) as (k6 & E6);
    try (rewrite H5; cbn); [exact Cf | now apply Hkeep | reflexivity | set_solver | rewrite H4; exact Hp |].
  rewrite E6. pose proof (page_map_ok _ _ _ _ _ _ _ E6) as H6. cbn [cassert rbind Z.eqb ZF_LOGF_IFERR].
  destruct (poke_law k6 IPCBUF_VADDR IPCBUF_VADDR c2) as (k7 & -> & H7);
    [rewrite H6, <- Hpd; apply lookup_insert_eq |].
  assert (v_caps (view k7) = v_caps (view k4)) as Hcaps by now rewrite H7, H6, H5.
  assert (v_threads (view k7) !! c1 = Some (Thread None (Regs 0 0) false)) as Hth
    by (rewrite H7, H6, H5; cbn; rewrite H4; apply lookup_insert_eq).
  edestruct (configure_law k7 c1) as (k8 & E8 & H8); [exact Hth | | | | | rewrite E8]; cbn [tc_cspace tc_vspace tc_frame tc_buffer];
    [rewrite Hcaps; now apply Hkeep | rewrite Hcaps; now apply Hkeep | now rewrite Hcaps | reflexivity |].
  cbn [cassert rbind Z.eqb ZF_LOGF_IFERR]. change (THREAD_2_STACK_SIZE * sizeof_uint64_t) with 4096.
  rewrite (u32_small (stack + 4096)) by lia. change (sizeof_seL4_Word * 2) with 8.
  replace ((stack + 4096) mod 8 =? 0) with true by (symmetry; apply Z.eqb_eq; zmod).
  cbn [negb ZF_LOGF_IF cassert rbind].
  assert (view (name_thread k8 c1 new_module_name) = view k8) as Hnm
    by (unfold name_thread; destruct debug_kernel; [apply debug_name_law | reflexivity]).
  generalize dependent (name_thread k8 c1 new_module_name). intros k8' Hnm. rewrite <- Hnm in H8. clear Hnm.
  unfold set_instruction_pointer, set_stack_pointer. cbn [r_ip r_sp m_init fetch_module_init].
  edestruct (write_registers_law k8' c1 0) as (k9 & E9 & H9); [rewrite H8; apply lookup_insert_eq | rewrite E9].
  cbn [cassert rbind Z.eqb ZF_LOGF_IFERR].
  destruct (resume_law k9 c1 _ ltac:(rewrite H9; apply lookup_insert_eq)) as (k10 & -> & H10).
  cbn [cassert rbind Z.eqb ZF_LOGF_IFERR]. exists k10. split; [reflexivity |].
  rewrite H9, H8, H7, H6, H5, H4 in H10.
  unfold set_thread, add_page, add_table, add_cap, add_tcb in H10. cbn [v_caps v_tables v_pages v_threads] in H10.
  rewrite !insert_insert_eq in H10.
  split; rewrite H10; [exists c1, c2 | reflexivity]. auto.
Qed.

End Spawn.

(** ** Theorems *)

(** A kernel to run the model with: the view itself, with no limit on objects. *)
Definition toy_alloc (add : kview -> Z -> kview) (v : kview) : kview * Z * Z :=
  let c := fresh (dom (v_caps v)) in (add v c, 0, c).
Definition toy_thread (v : kview) (c : Z) (g : thread -> thread) : kview * Z :=
  match v_threads v !! c with Some th => (set_thread v c (g th), 0) | None => (v, 2) end.

#[export] Instance toy_sel4 : Sel4 kview nat := {|
  seL4_CapNull := 0; seL4_CapInitThreadCNode := 2; seL4_CapInitThreadPD := 3;
  seL4_CapInitThreadTCB := 1; seL4_MaxPrio := 255; debug_kernel := true; debug_build := true;
  seL4_DebugNameThread v c name := v; seL4_DebugPutChar v c := v;
  seL4_PrioProps_new a b := a + 256 * b; seL4_NilData := 0; seL4_AllRights := 7;
  seL4_ARCH_Default_VMAttributes := 0; seL4_PageBits := 12;
  seL4_GetBootInfo v := Some 4096;
  bootstrap_use_current_simple v n := (v, Some 1);
  sel4utils_bootstrap_vspace_with_bootinfo_leaky v pd info := (v, 0);
  irq_server_new v cspace prio ep label n := (v, 0, Some 0%nat);
  vka_alloc_tcb := toy_alloc add_tcb;
  vka_alloc_endpoint := toy_alloc (fun v c => add_cap v c KEndpoint);
  vka_alloc_frame v bits := toy_alloc (fun v c => add_cap v c (KFrame bits)) v;
  vka_alloc_page_table := toy_alloc (fun v c => add_cap v c KPageTable);
  seL4_ARCH_Page_Map v f pd a r t :=
    if bool_decide ((pd, table_of a) ∈ v_tables v) && bool_decide (v_pages v !! (pd, a) = None)
    then (add_page v pd a f, 0) else (v, 6);
  seL4_ARCH_PageTable_Map v p pd a t :=
    if bool_decide ((pd, table_of a) ∈ v_tables v) then (v, 8) else (add_table v pd (table_of a), 0);
  seL4_TCB_Configure v c cfg := toy_thread v c (fun th => Thread (Some cfg) (t_regs th) (t_running th));
  seL4_TCB_WriteRegisters v c resume flags count regs :=
    toy_thread v c (fun th => Thread (t_config th) regs (t_running th));
  seL4_TCB_Resume v c := toy_thread v c (fun th => Thread (t_config th) (t_regs th) true);
  poke v a w := match v_pages v !! (3, a) with Some _ => Some v | None => None end;
  sel4utils_configure_thread_config v cfg := (v, 0, 0);
  sel4utils_start_thread v th fn a b resume := (v, 0)
|}.

Lemma toy_alloc_law add v : allocates (fun v => v) add v (toy_alloc add v).
Proof. cbn. split; [apply not_elem_of_dom, is_fresh | reflexivity]. Qed.

#[export] Instance toy_laws : Sel4Laws toy_sel4 (fun v => v).
Proof.
  split; intros; try apply toy_alloc_law; cbn in *; unfold toy_thread in *;
    repeat match goal with
      | H : v_threads _ !! _ = Some _ |- _ => rewrite H; clear H
      | H : v_pages _ !! _ = Some _ |- _ => rewrite H; clear H
      end; eauto.
  - destruct (_ && _); naive_solver.
  - rewrite bool_decide_eq_false_2 in H by assumption. naive_solver.
  - destruct (_ && _); naive_solver.
  - rewrite !bool_decide_eq_true_2 by assumption. eauto.
  - rewrite bool_decide_eq_true_2 in H by assumption. naive_solver.
  - rewrite bool_decide_eq_false_2 by assumption. eauto.
Qed.

(** A program that has its two root capabilities and nothing else. *)
Definition toy0 : kview := KView {[ 2 := KCNode; 3 := KPageDirectory ]} ∅ ∅ ∅.

(** C22: [spawn_new_module], once the module structure is there.  In an address
    space with no page table at the address of the IPC buffer and with objects
    to allocate, it returns 0 and leaves one new thread that runs [module.init]
    on the top of the aligned stack, at the highest priority, in the given
    CSpace and address space, with the frame of its IPC buffer mapped; every
    other thread is as before.  Where a page table is already installed there
    the program stops, so that it can be called once only: the first, unchecked
    mapping of the frame is what tells the two cases apart, and its result is
    thrown away. *)
Theorem spawn_new_module_spec {D S K} (A : ObjAlloc) (KL : Sel4 K S) view (L : Sel4Laws KL view)
    stack k (st st' : drv D S) cspace pd :
  init_module_struct st = Ok st' ->
  ((pd, table_of IPCBUF_VADDR) ∈ v_tables (view k) -> spawn_new_module stack k st cspace pd = Err Panic) /\
  (objects_available (KL := KL) -> pd = seL4_CapInitThreadPD ->
   0 <= stack -> stack + 4096 < W32 -> stack mod 8 = 0 ->
   v_caps (view k) !! pd = Some KPageDirectory -> v_caps (view k) !! cspace = Some KCNode ->
   (pd, table_of IPCBUF_VADDR) ∉ v_tables (view k) -> v_pages (view k) !! (pd, IPCBUF_VADDR) = None ->
   exists k', spawn_new_module stack k st cspace pd = Ok (k', st', 0) /\
     spawned (view := view) k k' stack cspace pd /\
     forall st1 st1' : drv D S, init_module_struct st1 = Ok st1' ->
       spawn_new_module stack k' st1 cspace pd = Err Panic).
Proof.
  intros Hi. split; [intros Ht; now apply (spawn_taken (view := view) stack k st st') |].
  intros Hav Hpd H0 H1 H8 C1 C2 Ht Hp.
  destruct (spawn_free (view := view) stack k st st' cspace pd) as (k' & E & Hsp); try assumption.
  exists k'. split; [exact E | split; [exact Hsp |]]. intros st1 st1' Hi1.
  apply (spawn_taken (view := view) stack k' st1 st1'); [exact Hi1 |].
  rewrite (sp_tables _ _ _ _ _ Hsp). set_solver.
Qed.

Lemma spawn_new_module_spec_witness :
  exists k' st', spawn_new_module (A := next_obj) 8192 toy0 power_on 2 3 = Ok (k', st', 0) /\
    spawned (view := fun v => v) toy0 k' 8192 2 3.
Proof.
  destruct (init_module_struct (A := next_obj) power_on) as [st'|] eqn:Hi; [|discriminate].
  destruct (spawn_new_module_spec next_obj toy_sel4 (fun v => v) toy_laws 8192 toy0 power_on st' 2 3 Hi) as [_ H].
  destruct H as (k' & E & Hsp & _); try reflexivity; try lia.
  - repeat split.
  - cbn. set_solver.
  - eauto.
Defined.

(** *** The program as a whole *)

Lemma main_setup_fails {K S} (KL : Sel4 K S) (k : K) e : main_setup k = Err e -> e = Panic.
Proof.
  unfold main_setup, make_irq_server, ZF_LOGF_IFERR, ZF_LOGF_IF, cassert.
  destruct (seL4_GetBootInfo k); [|congruence].
  destruct (bootstrap_use_current_simple _ _) as [k1 [|]]; [|congruence].
  destruct (sel4utils_bootstrap_vspace_with_bootinfo_leaky _ _ _) as [k2 e2].
  destruct (e2 =? 0); cbn; [|congruence]. destruct (vka_alloc_endpoint k2) as [[k3 e3] c3].
  destruct (irq_server_new _ _ _ _ _ _) as [[k4 e4] [|]]; destruct (e4 =? 0); cbn; congruence.
Qed.

(** C1: The program echoes.  Where the boot information, the allocator, the address
    space or the interrupt server cannot be had, it stops before it touches a
    device.  Otherwise, started with empty device tables, memory and an
    interrupt server that takes the line, [main] loads the driver, opens
    /dev/com2 and reads.  When bytes come in and their interrupt falls at any
    instant of the blocking read but the one of the lost wake-up, [main] gets
    past its read loop with the first bytes received, up to 256 and in order,
    in its buffer, writes exactly these back and reaches its final loop; the
    bytes are queued for sending, what it did not read stays queued, and the
    next interrupt, dispatched by [lmseL4_InterruptHandler] through the token
    the driver registered, hands them to the chip in order, as many as it has
    room for.  This needs fewer than 256 bytes or a zero among them: [main]
    prints its buffer as a string, and reads past its end otherwise. *)
Theorem program_echoes {D S K} (IO : PortIO D) (IS : IrqServer S) (A : ObjAlloc) (L : ObjAllocLaws A)
    (M : Allocator) (ML : AllocatorLaws M) (KL : Sel4 K S) large view (U : Uart16550 IO COM2_BASEPORT view)
    (env : nat -> nat -> world D -> res (world D)) (hw : nat -> D -> D) fuel hfuel t bv val (k : K) (st : drv D S) bs room :
  (forall k' srv, main_setup k = Ok (k', srv) ->
     exists srv', bootable (with_server st srv) srv' (file_objects com2_path)) ->
  locals_ok (w_mem (dr_world st)) (com2_dev (dr_world st)) bv val ->
  (Z.to_nat FIFO_SIZE < hfuel)%nat -> (t < fuel)%nat -> t <> 1%nat -> env 0%nat = irq_at bv val hfuel COM2_IRQ t ->
  (forall d, view (hw 0%nat d) = arrive (view d) bs room) -> bs <> [] ->
  (forall m n, 0 <= n <= 256 -> malloc m n <> None) ->
  match main_setup k with
  | Err e => e = Panic /\ program large env hw fuel k st = Err Panic
  | Ok (k', _) =>
      if terminated bs then
      exists s w i buf, program large env hw fuel k st = Ok (k', (s, w, i, buf, zlen (echoed bs))) /\
        load (w_mem w) buf (zlen (echoed bs)) = Ok (echoed bs) /\
        dev_ok (w_mem w) (com2_dev w) COM2_BASEPORT (u8 <$> take (Z.to_nat FIFO_SIZE - 256) (drop 256 bs)) (echoed bs) /\
        exists w', lmseL4_InterruptHandler
            (fun (_ : com) irq w => let! (w, _) := interrupt_handler bv val hfuel w irq in Ok w) i w COM2_IRQ =
          Ok (Irqs (irq_ack (ir_srv i) COM2_IRQ) (ir_tokens i), w') /\
          c_sent (view (w_hw w')) = c_sent (view (w_hw w)) ++ take room (echoed bs)
      else program large env hw fuel k st = Err UB
  end.
Proof.
  intros Hbo Hlc Hhf Hf Ht Henv Hhw Hne Hm. unfold program.
  destruct (main_setup k) as [[k' srv]|e] eqn:Ek; cbn [rbind].
  2: { rewrite (main_setup_fails _ _ _ Ek). auto. }
  destruct (Hbo k' srv eq_refl) as (srv' & Hb).
  pose proof (main_ok large env hw fuel hfuel t bv val (with_server st srv) srv' bs room Hb Hlc Hhf Hf Ht Henv Hhw Hne Hm) as H.
  destruct (terminated bs); [|now rewrite H].
  destruct H as (s & w & i & buf & w' & E & Hld & Hdev & Htok & Eh & Hs).
  exists s, w, i, buf. rewrite E. split; [reflexivity |]. do 2 (split; [assumption |]).
  exists w'. split; [|exact Hs]. unfold lmseL4_InterruptHandler. rewrite Htok, Eh. reflexivity.
Qed.

Lemma program_echoes_witness :
  exists s w i buf, program (A := next_obj) (M := roomy) (fun m _ _ => Ok (m, NULL))
      (fun _ => irq_at (Ptr 64 0) (Ptr 65 0) 4097 COM2_IRQ 5) (fun _ d => (fst d, arrive (snd d) [104; 105] 16)) 9
      toy0 power_on =
    Ok ((vka_alloc_endpoint toy0).1.1, (s, w, i, buf, 2)) /\ load (w_mem w) buf 2 = Ok [104; 105].
Proof.
  destruct (program_echoes two_chips counting_server next_obj next_obj_laws roomy roomy_laws toy_sel4 (fun m _ _ => Ok (m, NULL))
              snd com2_uart (fun _ => irq_at (Ptr 64 0) (Ptr 65 0) 4097 COM2_IRQ 5)
              (fun _ d => (fst d, arrive (snd d) [104; 105] 16)) 9 4097 5 (Ptr 64 0) (Ptr 65 0) toy0 power_on [104; 105] 16)
    as (s & w & i & buf & E & Hld & _).
  - intros k' srv [= <- <-]. exists 0%nat. apply power_on_ok.
  - split; [split; eexists; split; reflexivity | discriminate | split; discriminate | split; discriminate | |].
    + intros b _. apply not_elem_of_empty.
    + apply empty_subseteq.
  - unfold FIFO_SIZE. lia.
  - lia.
  - lia.
  - reflexivity.
  - reflexivity.
  - discriminate.
  - intros m n Hn. unfold malloc, roomy, bump_malloc. rewrite (proj2 (Z.ltb_ge n 0)) by lia. rewrite Z.ltb_irrefl. discriminate.
  - exists s, w, i, buf. split; [exact E | exact Hld].
Defined.

End Boot.
