(* ===== verification/Math64.v ===== *)
(** * 64-bit arithmetic on a 32-bit machine

    x86/asm/div64.h and linux/math64.h as CONFIG_X86_32 selects them: division
    of a 64-bit word by a 32-bit one with the [divl] instruction, which faults
    when the quotient does not fit, and multiplication of 64-bit words from
    32-bit parts. *)

From S2P Require Import Prelude Log2.
Import Log2.

Module Math64.

Definition u64 (z : Z) : Z := z mod 2 ^ 64.

(** The halves of a 64-bit word, [l.low]/[l.high] or [v32[0]]/[v32[1]]. *)
Definition low (z : Z) : Z := u32 z.
Definition high (z : Z) : Z := u32 (Z.shiftr z 32).
Definition join (hi lo : Z) : Z := hi * 2 ^ 32 + lo.

(** The instruction: quotient and remainder of [hi:lo], or a fault. *)
Definition divl (hi lo base : Z) : res (Z * Z) :=
  let n := join hi lo in
  let! _ := defined_if (negb (base =? 0) && (n / base <? 2 ^ 32)) in
  Ok (n / base, n mod base).

(** ** Operations *)

(** [const] says whether the compiler knows [base]; the new [n] and the value
    of the macro. *)
Definition do_div (const : bool) (n base : Z) : res (Z * Z) :=
  if const && is_power_of_2 base then
    match ilog2 true 4 base with
    | Some k => Ok (Z.shiftr n k, u32 (n .& (base ⊟ 1)))
    | None => Err UB
    end
  else
    let __low := low n in
    let __high := high n in
    let! (__upper, __high) :=
      if truthy __high then
        let! _ := defined_if (truthy base) in
        Ok (__high mod base, __high / base)
      else Ok (__high, __high) in
    let! (__low, __mod) := divl __upper __low base in
    Ok (join __high __low, __mod).

Definition div_u64_rem (dividend divisor : Z) : res (Z * Z) :=
  let upper := high dividend in
  let! (upper, d1) :=
    if divisor <=? upper then
      let! _ := defined_if (truthy divisor) in
      Ok (upper mod divisor, upper / divisor)
    else Ok (upper, 0) in
  let! (d0, remainder) := divl upper (low dividend) divisor in
  Ok (join d1 d0, remainder).

Definition div_u64 (dividend divisor : Z) : res Z :=
  let! (q, _) := div_u64_rem dividend divisor in Ok q.

(** [while (dividend >= divisor)], one unit of fuel per iteration. *)
Fixpoint iter_div_loop (fuel : nat) (dividend divisor ret : Z) : res (Z * Z) :=
  if divisor <=? dividend then
    match fuel with
    | O => Err OutOfFuel
    | S fuel => iter_div_loop fuel (u64 (dividend - divisor)) divisor (ret ⊞ 1)
    end
  else Ok (ret, dividend).
Definition __iter_div_u64_rem (fuel : nat) (dividend divisor : Z) : res (Z * Z) :=
  iter_div_loop fuel dividend divisor 0.

(** A shift count outside the type is undefined. *)
Definition shl64 (x s : Z) : res Z :=
  let! _ := defined_if ((0 <=? s) && (s <? 64)) in Ok (u64 (Z.shiftl x s)).
Definition shr64 (x s : Z) : res Z :=
  let! _ := defined_if ((0 <=? s) && (s <? 64)) in Ok (Z.shiftr x s).

Definition mul_u64_u32_shr (a mul shift : Z) : res Z :=
  let al := low a in
  let ah := high a in
  let! ret := shr64 (u64 (al * mul)) shift in
  if truthy ah then
    let! t := shl64 (u64 (ah * mul)) (32 ⊟ shift) in
    Ok (u64 (ret + t))
  else Ok ret.

Definition mul_u64_u64_shr (a b shift : Z) : res Z :=
  let rl := u64 (low a * low b) in
  let rm := u64 (low a * high b) in
  let rn := u64 (high a * low b) in
  let rh := u64 (high a * high b) in
  let c := u64 (high rl + low rm + low rn) in
  let rl := join (u32 c) (low rl) in
  let c := u64 (Z.shiftr c 32 + high rm + high rn + low rh) in
  let rh := join (u32 (Z.shiftr c 32 + high rh)) (u32 c) in
  if shift =? 0 then Ok rl
  else if shift <? 64 then
    let! x := shr64 rl shift in
    let! y := shl64 rh (64 ⊟ shift) in
    Ok (x .| y)
  else shr64 rh (shift .& 63).

Definition mul_u64_u32_div (a mul divisor : Z) : res Z :=
  let rl := u64 (low a * mul) in
  let rh := u64 (u64 (high a * mul) + high rl) in
  let! (rh, r) := do_div false rh divisor in
  let rl := join r (low rl) in
  let! (rl, _) := do_div false rl divisor in
  Ok (join (low rh) (low rl)).

(** ** Facts *)

Lemma high_div z : 0 <= z < 2 ^ 64 -> high z = z / 2 ^ 32.
Proof.
  intros H. unfold high. rewrite Z.shiftr_div_pow2 by lia. apply u32_small.
  change W32 with (2 ^ 32). split; [apply Z.div_pos; lia |]. apply Z.div_lt_upper_bound; lia.
Qed.

Lemma halves z : 0 <= z < 2 ^ 64 -> z = join (high z) (low z) /\ 0 <= high z < 2 ^ 32 /\ 0 <= low z < 2 ^ 32.
Proof.
  intros H. rewrite high_div by exact H. unfold low, join. change (2 ^ 32) with W32 in *. change (2 ^ 64) with (W32 * W32) in H.
  zmod.
Qed.

Lemma divl_ok hi lo base :
  0 < base < 2 ^ 32 -> 0 <= hi < base -> 0 <= lo < 2 ^ 32 ->
  divl hi lo base = Ok (join hi lo / base, join hi lo mod base) /\ 0 <= join hi lo / base < 2 ^ 32.
Proof.
  intros Hb Hh Hl. unfold divl, join in *.
  assert (0 <= (hi * 2 ^ 32 + lo) / base < 2 ^ 32) as Hq.
  { split; [apply Z.div_pos; nia |]. apply Z.div_lt_upper_bound; nia. }
  split; [|exact Hq]. rewrite (proj2 (Z.eqb_neq base 0)), (proj2 (Z.ltb_lt _ _)) by lia. reflexivity.
Qed.

(** Long division by a 32-bit digit. *)
Lemma long_div hi lo base :
  0 < base -> join (hi / base) (join (hi mod base) lo / base) = join hi lo / base /\
  join (hi mod base) lo mod base = join hi lo mod base.
Proof.
  intros Hb. unfold join. rewrite (Z.div_mod hi base) at 3 5 by lia.
  replace ((base * (hi / base) + hi mod base) * 2 ^ 32 + lo)
    with (hi mod base * 2 ^ 32 + lo + hi / base * 2 ^ 32 * base) by ring.
  rewrite Z.div_add, Z.mod_add by lia. split; lia.
Qed.

Lemma divide_ok n base :
  0 <= n < 2 ^ 64 -> 0 < base < 2 ^ 32 ->
  exists q0, divl (high n mod base) (low n) base = Ok (q0, n mod base) /\ join (high n / base) q0 = n / base /\ 0 <= q0 < 2 ^ 32.
Proof.
  intros Hn Hb. destruct (halves n Hn) as (E & Hh & Hl).
  destruct (divl_ok (high n mod base) (low n) base Hb) as [-> Hq]; [apply Z.mod_pos_bound; lia | exact Hl |].
  destruct (long_div (high n) (low n) base) as [E1 E2]; [lia |]. eexists. split; [rewrite E2, <- E; reflexivity |].
  split; [now rewrite E1, <- E | exact Hq].
Qed.

Lemma do_div_ok n base :
  0 <= n < 2 ^ 64 -> 0 < base < 2 ^ 32 -> do_div false n base = Ok (n / base, n mod base).
Proof.
  intros Hn Hb. unfold do_div. cbn [andb]. destruct (divide_ok n base Hn Hb) as (q0 & E & Eq & _).
  unfold truthy. destruct (Z.eqb_spec (high n) 0) as [E0|Hne]; cbn [negb].
  - cbn [rbind]. rewrite E0 in E, Eq |- *. rewrite Z.mod_0_l in E by lia. rewrite Z.div_0_l in Eq by lia.
    rewrite E. cbn [rbind]. now rewrite Eq.
  - rewrite (proj2 (Z.eqb_neq base 0)) by lia. cbn [negb defined_if rbind]. rewrite E. cbn [rbind]. now rewrite Eq.
Qed.

Lemma div_u64_rem_ok n base :
  0 <= n < 2 ^ 64 -> 0 < base < 2 ^ 32 -> div_u64_rem n base = Ok (n / base, n mod base).
Proof.
  intros Hn Hb. unfold div_u64_rem. destruct (divide_ok n base Hn Hb) as (q0 & E & Eq & _).
  destruct (halves n Hn) as (_ & Hh & _). destruct (Z.leb_spec base (high n)) as [Hle|Hlt].
  - unfold truthy. rewrite (proj2 (Z.eqb_neq base 0)) by lia. cbn [negb defined_if rbind]. rewrite E. cbn [rbind]. now rewrite Eq.
  - cbn [rbind]. rewrite Z.mod_small in E by lia. rewrite Z.div_small in Eq by lia. rewrite E. cbn [rbind]. now rewrite Eq.
Qed.

Lemma iter_div_ok divisor : 0 < divisor < 2 ^ 32 -> forall fuel n ret,
  0 <= n < 2 ^ 64 -> 0 <= ret < 2 ^ 32 -> n / divisor <= Z.of_nat fuel ->
  iter_div_loop fuel n divisor ret = Ok (u32 (ret + n / divisor), n mod divisor).
Proof.
  intros Hd. induction fuel as [|fuel IH]; intros n ret Hn Hr Hf; cbn [iter_div_loop];
    destruct (Z.leb_spec divisor n) as [Hle|Hlt].
  - exfalso. assert (1 <= n / divisor) by (apply Z.div_le_lower_bound; lia). lia.
  - rewrite Z.div_small, Z.mod_small, Z.add_0_r, u32_small by (change W32 with (2 ^ 32); lia). reflexivity.
  - assert (n / divisor = (n - divisor) / divisor + 1) as E.
    { replace n with (n - divisor + 1 * divisor) at 1 by ring. rewrite Z.div_add by lia. lia. }
    unfold u64. rewrite (Z.mod_small (n - divisor)) by lia. rewrite IH; [|lia | apply u32_range | lia].
    rewrite u32_add_l. f_equal. f_equal; [f_equal; lia |].
    replace n with (n - divisor + 1 * divisor) at 2 by ring. now rewrite Z.mod_add by lia.
  - rewrite Z.div_small, Z.mod_small, Z.add_0_r, u32_small by (change W32 with (2 ^ 32); lia). reflexivity.
Qed.

(** With a constant power of two the macro masks and shifts. *)
Lemma do_div_const n base :
  0 <= n < 2 ^ 64 -> 0 < base < 2 ^ 32 -> do_div true n base = do_div false n base.
Proof.
  intros Hn Hb. rewrite do_div_ok by assumption. unfold do_div at 1. cbn [andb].
  destruct (is_power_of_2 base) eqn:Hp; [|exact (do_div_ok n base Hn Hb)].
  apply is_power_of_2_iff in Hp as (k & Hk & ->); [|change W32 with (2 ^ 32); lia].
  assert (k < 32) by (apply (Z.pow_lt_mono_r_iff 2); lia).
  unfold ilog2, ilog2_const. rewrite (proj2 (Z.ltb_ge _ _)) by lia.
  rewrite ilog2_ladder_log2 by (split; [lia |]; apply Z.pow_lt_mono_r; lia).
  rewrite Z.log2_pow2, Z.shiftr_div_pow2 by lia. rewrite (u32_small (2 ^ k - 1)) by (change W32 with (2 ^ 32); lia).
  rewrite land_mask by lia. pose proof (Z.mod_pos_bound n (2 ^ k)). rewrite u32_small by (change W32 with (2 ^ 32); lia). reflexivity.
Qed.

Lemma part_product x y : 0 <= x < 2 ^ 32 -> 0 <= y < 2 ^ 32 -> 0 <= x * y <= (2 ^ 32 - 1) * (2 ^ 32 - 1) /\ u64 (x * y) = x * y.
Proof.
  intros Hx Hy. assert (0 <= x * y <= (2 ^ 32 - 1) * (2 ^ 32 - 1)) as H by nia. split; [exact H |].
  unfold u64. apply Z.mod_small. lia.
Qed.

(** The two words the multiplication leaves. *)
Lemma product_words a b :
  0 <= a < 2 ^ 64 -> 0 <= b < 2 ^ 64 ->
  let rl := low a * low b in let rm := low a * high b in let rn := high a * low b in let rh := high a * high b in
  let c := u64 (high rl + low rm + low rn) in
  let c' := u64 (Z.shiftr c 32 + high rm + high rn + low rh) in
  join (u32 c) (low rl) = a * b mod 2 ^ 64 /\
  join (u32 (Z.shiftr c' 32 + high rh)) (u32 c') = a * b / 2 ^ 64.
Proof.
  intros Ha Hb rl rm rn rh. destruct (halves a Ha) as (Ea & Hah & Hal), (halves b Hb) as (Eb & Hbh & Hbl).
  destruct (part_product _ _ Hal Hbl) as [B1 _], (part_product _ _ Hal Hbh) as [B2 _],
    (part_product _ _ Hah Hbl) as [B3 _], (part_product _ _ Hah Hbh) as [B4 _]. fold rl in B1. fold rm in B2. fold rn in B3. fold rh in B4.
  assert (a * b = rh * 2 ^ 64 + (rm + rn) * 2 ^ 32 + rl) as ->.
  { rewrite Ea, Eb. unfold join, rl, rm, rn, rh. ring. }
  clearbody rl rm rn rh. clear - B1 B2 B3 B4.
  destruct (halves rl ltac:(lia)) as (E1 & H1 & H1'), (halves rm ltac:(lia)) as (E2 & H2 & H2'),
    (halves rn ltac:(lia)) as (E3 & H3 & H3'), (halves rh ltac:(lia)) as (E4 & H4 & H4').
  replace (rh * 2 ^ 64 + (rm + rn) * 2 ^ 32 + rl)
    with (join (high rh) (low rh) * 2 ^ 64 + (join (high rm) (low rm) + join (high rn) (low rn)) * 2 ^ 32 + join (high rl) (low rl))
    by (rewrite <- E1, <- E2, <- E3, <- E4; reflexivity).
  rewrite E1 in B1. rewrite E2 in B2. rewrite E3 in B3. rewrite E4 in B4.
  revert H1 H1' H2 H2' H3 H3' H4 H4' B1 B2 B3 B4. clear E1 E2 E3 E4.
  generalize (high rl) (low rl) (high rm) (low rm) (high rn) (low rn) (high rh) (low rh).
  intros h1 l1 h2 l2 h3 l3 h4 l4 H1 H1' H2 H2' H3 H3' H4 H4' B1 B2 B3 B4. intros c c'. unfold join in *. unfold c', c, u64, u32.
  rewrite !Z.shiftr_div_pow2 by lia. change (2 ^ 64) with 18446744073709551616 in *. change (2 ^ 32) with 4294967296 in *.
  Z.to_euclidean_division_equations. lia.
Qed.

Lemma shr64_ok x s : 0 <= s < 64 -> shr64 x s = Ok (x / 2 ^ s).
Proof.
  intros Hs. unfold shr64. rewrite (proj2 (Z.leb_le 0 s)), (proj2 (Z.ltb_lt s 64)) by lia. cbn [andb defined_if rbind].
  now rewrite Z.shiftr_div_pow2 by lia.
Qed.
Lemma shl64_ok x s : 0 <= s < 64 -> shl64 x s = Ok (u64 (x * 2 ^ s)).
Proof.
  intros Hs. unfold shl64. rewrite (proj2 (Z.leb_le 0 s)), (proj2 (Z.ltb_lt s 64)) by lia. cbn [andb defined_if rbind].
  now rewrite Z.shiftl_mul_pow2 by lia.
Qed.

(** Shifting a two-word number right by less than a word. *)
Lemma shift_words h l s :
  0 < s < 64 -> 0 <= l < 2 ^ 64 ->
  Z.lor (l / 2 ^ s) (u64 (h * 2 ^ (64 - s))) = u64 ((h * 2 ^ 64 + l) / 2 ^ s).
Proof.
  intros Hs Hl. assert (2 ^ 64 = 2 ^ (64 - s) * 2 ^ s) as E by (rewrite <- Z.pow_add_r by lia; f_equal; lia).
  pose proof (Z.pow_pos_nonneg 2 s ltac:(lia) ltac:(lia)) as P1. pose proof (Z.pow_pos_nonneg 2 (64 - s) ltac:(lia) ltac:(lia)) as P2.
  assert (u64 (h * 2 ^ (64 - s)) = h mod 2 ^ s * 2 ^ (64 - s)) as ->.
  { unfold u64. rewrite E, (Z.mul_comm (2 ^ (64 - s))). now rewrite Z.mul_mod_distr_r by lia. }
  assert (0 <= l / 2 ^ s < 2 ^ (64 - s)) as Hq by (split; [apply Z.div_pos; lia | apply Z.div_lt_upper_bound; lia]).
  rewrite <- Z.shiftl_mul_pow2 by lia. rewrite lor_shiftl by (try exact Hq; lia).
  replace (h * 2 ^ 64 + l) with (l + h * 2 ^ (64 - s) * 2 ^ s) by (rewrite E; ring). rewrite Z.div_add by lia.
  unfold u64. apply Z.mod_unique with (h / 2 ^ s).
  - left. pose proof (Z.mod_pos_bound h (2 ^ s) P1). nia.
  - rewrite (Z.div_mod h (2 ^ s)) at 1 by lia. rewrite E. ring.
Qed.

(** 64-bit division.  For a divisor that is not zero the [divl] instruction
    never faults, and [do_div] (whether or not the compiler knows the divisor),
    [div_u64_rem] and [div_u64] give the quotient and remainder of the integers;
    [__iter_div_u64_rem] ends after as many steps as its quotient, with the
    same remainder and the quotient cut to 32 bits. *)
Theorem div64_spec const n base fuel :
  0 <= n < 2 ^ 64 -> 0 < base < 2 ^ 32 ->
  do_div const n base = Ok (n / base, n mod base) /\
  div_u64_rem n base = Ok (n / base, n mod base) /\
  div_u64 n base = Ok (n / base) /\
  (n / base <= Z.of_nat fuel -> __iter_div_u64_rem fuel n base = Ok (u32 (n / base), n mod base)).
Proof.
  intros Hn Hb. split; [|split; [|split]].
  - destruct const; [rewrite do_div_const by assumption |]; now apply do_div_ok.
  - now apply div_u64_rem_ok.
  - unfold div_u64. now rewrite div_u64_rem_ok.
  - intros Hf. unfold __iter_div_u64_rem. now rewrite iter_div_ok by (assumption || lia).
Qed.

Lemma div64_spec_witness : do_div true 1000000000000 4096 = Ok (244140625, 0) /\ div_u64 1000000000000 7 = Ok 142857142857.
Proof.
  destruct (div64_spec true 1000000000000 4096 0) as [H1 _]; [lia | lia |].
  destruct (div64_spec false 1000000000000 7 0) as (_ & _ & H2 & _); [lia | lia |].
  split; [rewrite H1; reflexivity | rewrite H2; reflexivity].
Defined.

(** 64-bit products.  [mul_u64_u64_shr] is the product of two 64-bit words
    shifted right by less than 128, without losing a bit of the 128-bit
    product; [mul_u64_u32_shr] is the same with a 32-bit factor for shifts up
    to 32; and [mul_u64_u32_div] is the quotient of the 96-bit product, each
    cut to 64 bits at the end only. *)
Theorem mul64_spec a b mul s d :
  0 <= a < 2 ^ 64 -> 0 <= b < 2 ^ 64 -> 0 <= mul < 2 ^ 32 -> 0 <= s < 128 -> 0 < d < 2 ^ 32 ->
  mul_u64_u64_shr a b s = Ok (u64 (a * b / 2 ^ s)) /\
  (s <= 32 -> mul_u64_u32_shr a mul s = Ok (u64 (a * mul / 2 ^ s))) /\
  mul_u64_u32_div a mul d = Ok (u64 (a * mul / d)).
Proof.
  intros Ha Hb Hm Hs Hd. destruct (halves a Ha) as (Ea & Hah & Hal), (halves b Hb) as (Eb & Hbh & Hbl).
  destruct (part_product _ _ Hal Hbl) as [_ E1], (part_product _ _ Hal Hbh) as [_ E2],
    (part_product _ _ Hah Hbl) as [_ E3], (part_product _ _ Hah Hbh) as [_ E4],
    (part_product _ _ Hal Hm) as [B5 E5], (part_product _ _ Hah Hm) as [B6 E6]. split; [|split].
  - unfold mul_u64_u64_shr. rewrite E1, E2, E3, E4. destruct (product_words a b Ha Hb) as [-> ->].
    pose proof (Z.mod_pos_bound (a * b) (2 ^ 64) ltac:(lia)) as Hl. pose proof (Z.div_mod (a * b) (2 ^ 64) ltac:(lia)) as Eab.
    assert (0 <= a * b / 2 ^ 64 < 2 ^ 64) as Hh by (split; [apply Z.div_pos; nia | apply Z.div_lt_upper_bound; nia]).
    destruct (Z.eqb_spec s 0) as [->|Hs0]; [now rewrite Z.pow_0_r, Z.div_1_r |]. destruct (Z.ltb_spec s 64).
    + rewrite shr64_ok by lia. cbn [rbind]. rewrite (u32_small (64 - s)) by lia. rewrite shl64_ok by lia. cbn [rbind].
      rewrite shift_words by lia. do 3 f_equal. lia.
    + change 63 with (2 ^ 6 - 1). rewrite land_mask by lia.
      replace (s mod 2 ^ 6) with (s - 64) by (change (2 ^ 6) with 64; apply Z.mod_unique with 1; lia).
      rewrite shr64_ok, Z.div_div, <- Z.pow_add_r by lia. replace (64 + (s - 64)) with s by lia. f_equal. unfold u64. symmetry. apply Z.mod_small.
      split; [apply Z.div_pos; nia |]. apply Z.div_lt_upper_bound; [lia |].
      assert (2 ^ 64 <= 2 ^ s) by (apply Z.pow_le_mono_r; lia). nia.
  - intros Hs32. unfold mul_u64_u32_shr. rewrite E5, E6, shr64_ok by lia. cbn [rbind].
    assert (a * mul / 2 ^ s = low a * mul / 2 ^ s + high a * mul * 2 ^ (32 - s)) as Eq.
    { rewrite Ea at 1. unfold join. replace ((high a * 2 ^ 32 + low a) * mul) with (low a * mul + high a * mul * 2 ^ (32 - s) * 2 ^ s).
      - rewrite Z.div_add by lia. reflexivity.
      - replace (2 ^ 32) with (2 ^ (32 - s) * 2 ^ s) by (rewrite <- Z.pow_add_r by lia; f_equal; lia). ring. }
    unfold truthy. destruct (Z.eqb_spec (high a) 0) as [E0|Hne]; cbn [negb].
    + rewrite Eq, E0, !Z.mul_0_l, Z.add_0_r. f_equal. unfold u64. symmetry. apply Z.mod_small.
      split; [apply Z.div_pos; lia |]. apply Z.div_lt_upper_bound; [lia |]. assert (1 <= 2 ^ s) by (apply (Z.pow_le_mono_r 2 0); lia). nia.
    + rewrite (u32_small (32 - s)) by lia. rewrite shl64_ok by lia. cbn [rbind]. f_equal. rewrite Eq. unfold u64.
      now rewrite Zplus_mod_idemp_r.
  - unfold mul_u64_u32_div. rewrite E5, E6. destruct (halves (low a * mul) ltac:(lia)) as (Er & Hrh & Hrl).
    assert (0 <= high a * mul + high (low a * mul) < 2 ^ 64) as Hrange by lia.
    assert (u64 (high a * mul + high (low a * mul)) = high a * mul + high (low a * mul)) as -> by (unfold u64; now apply Z.mod_small).
    set (h := high a * mul + high (low a * mul)) in *. set (l := low (low a * mul)) in *.
    rewrite do_div_ok by assumption. cbn [rbind]. pose proof (Z.mod_pos_bound h d ltac:(lia)).
    rewrite do_div_ok by (unfold join; lia). cbn [rbind].
    assert (a * mul = join h l) as Eam.
    { transitivity (high a * mul * 2 ^ 32 + low a * mul); [rewrite Ea at 1; unfold join; ring |].
      rewrite Er at 1. unfold join, h. fold l. ring. }
    destruct (long_div h l d ltac:(lia)) as [E _]. rewrite Eam, <- E.
    assert (0 <= join (h mod d) l / d < 2 ^ 32) as Hq by (destruct (divl_ok (h mod d) l d); [lia | lia | exact Hrl | assumption]).
    unfold low at 2. rewrite (u32_small (join (h mod d) l / d)) by (change W32 with (2 ^ 32); lia).
    f_equal. unfold join at 1 3, low, u64, u32. revert Hq. generalize (join (h mod d) l / d) (h / d). intros q x Hq.
    apply Z.mod_unique with (x / W32); [left; change (2 ^ 64) with (W32 * W32); change (2 ^ 32) with W32 in *; zmod |].
    change (2 ^ 64) with (W32 * W32). change (2 ^ 32) with W32. pose proof (Z.div_mod x W32). lia.
Qed.

Lemma mul64_spec_witness :
  mul_u64_u64_shr (2 ^ 63) (2 ^ 63) 100 = Ok (2 ^ 26) /\ mul_u64_u32_div (10 ^ 12) 3000000000 1000000000 = Ok (3 * 10 ^ 12).
Proof.
  destruct (mul64_spec (2 ^ 63) (2 ^ 63) 0 100 1) as (H1 & _); [lia | lia | lia | lia | lia |].
  destruct (mul64_spec (10 ^ 12) 0 3000000000 0 1000000000) as (_ & _ & H2); [lia | lia | lia | lia | lia |].
  split; [rewrite H1; reflexivity | rewrite H2; reflexivity].
Defined.
End Math64.
