(* ===== verification/Bitops.v ===== *)
(** * Bit operations

    The rest of linux/bitops.h (rotations, sign extension, first set bit of a
    64-bit word), the search for the first set bit of
    asm-generic/bitops/{ffs,__ffs}.h and x86/asm/bitops.h, and the weights of
    asm-generic/bitops/const_hweight.h.  A shift count outside the width of the
    (promoted) type is undefined. *)

From S2P Require Import Prelude Log2.
Import Log2.

Module Bitops.

(** ** Operations *)

(** [x << s] and [x >> s] on an unsigned type of [w] bits. *)
Definition shl (w x s : Z) : res Z :=
  let! _ := defined_if ((0 <=? s) && (s <? w)) in Ok (Z.shiftl x s mod 2 ^ w).
Definition shr (w x s : Z) : res Z :=
  let! _ := defined_if ((0 <=? s) && (s <? w)) in Ok (Z.shiftr x s).

(** [(a) | (b)] with the shifts on the left. *)
Definition bor (a b : res Z) : res Z := let! x := a in let! y := b in Ok (x .| y).

Definition rol64 (word shift : Z) : res Z := bor (shl 64 word shift) (shr 64 word (64 ⊟ shift)).
Definition ror64 (word shift : Z) : res Z := bor (shr 64 word shift) (shl 64 word (64 ⊟ shift)).
Definition rol32 (word shift : Z) : res Z := bor (shl 32 word shift) (shr 32 word (u32 (- shift) .& 31)).
Definition ror32 (word shift : Z) : res Z := bor (shr 32 word shift) (shl 32 word (32 ⊟ shift)).

(** The operands are promoted to [int] and the result is cut. *)
Definition rol16 (word shift : Z) : res Z :=
  let! r := bor (shl 32 word shift) (shr 32 word (16 ⊟ shift)) in Ok (u16 r).
Definition ror16 (word shift : Z) : res Z :=
  let! r := bor (shr 32 word shift) (shl 32 word (16 ⊟ shift)) in Ok (u16 r).
Definition rol8 (word shift : Z) : res Z :=
  let! r := bor (shl 32 word shift) (shr 32 word (8 ⊟ shift)) in Ok (u8 r).
Definition ror8 (word shift : Z) : res Z :=
  let! r := bor (shr 32 word shift) (shl 32 word (8 ⊟ shift)) in Ok (u8 r).

(** The value of a 64-bit pattern read as signed. *)
Definition s64 (z : Z) : Z :=
  let w := z mod 2 ^ 64 in if w <? 2 ^ 63 then w else w - 2 ^ 64.

Definition sign_extend32 (value index : Z) : res Z :=
  let shift := u8 (31 - index) in
  let! x := shl 32 value shift in Ok (Z.shiftr (s32 x) shift).
Definition sign_extend64 (value index : Z) : res Z :=
  let shift := u8 (63 - index) in
  let! x := shl 64 value shift in Ok (Z.shiftr (s64 x) shift).

(** The [bsf] instruction: the lowest set bit, searched upwards from bit [i]. *)
Fixpoint bsf_from (word i : Z) (n : nat) : option Z :=
  match n with
  | O => None
  | S n => if Z.testbit word i then Some i else bsf_from word (i + 1) n
  end.
Definition bsf (word : Z) : option Z := bsf_from word 0 32.

(** x86/asm/bitops.h; without a set bit the register is undefined. *)
Definition __ffs (word : Z) : res Z :=
  match bsf word with Some i => Ok i | None => Err UB end.
Definition ffz (word : Z) : res Z := __ffs (W32 - 1 - word).
(** [cmovzl] puts -1 when there is no set bit. *)
Definition ffs (x : Z) : Z := match bsf x with Some i => i + 1 | None => 0 end.

Definition __ffs64 (word : Z) : res Z :=
  if u32 word =? 0 then
    let! i := __ffs (u32 (Z.shiftr word 32)) in Ok (i + 32)
  else __ffs (u32 word).

(** One halving step of the portable search. *)
Definition ffs_halve (w : Z) (s : Z * Z) : Z * Z :=
  let '(x, r) := s in
  if (x .& (2 ^ w - 1)) =? 0 then (Z.shiftr x w, r + w) else (x, r).
Definition generic___ffs (word : Z) : Z :=
  snd (ffs_halve 1 (ffs_halve 2 (ffs_halve 4 (ffs_halve 8 (ffs_halve 16 (word, 0)))))).
Definition generic_ffs (x : Z) : Z :=
  if negb (truthy x) then 0
  else snd (ffs_halve 1 (ffs_halve 2 (ffs_halve 4 (ffs_halve 8 (ffs_halve 16 (x, 1)))))).

(** Whether one bit is set, [!!((w) & (1ULL << k))]. *)
Definition bit (w k : Z) : Z := b2z (truthy (w .& Z.shiftl 1 k)).
Definition __const_hweight8 (w : Z) : Z :=
  bit w 0 + bit w 1 + bit w 2 + bit w 3 + bit w 4 + bit w 5 + bit w 6 + bit w 7.
Definition __const_hweight16 (w : Z) : Z := __const_hweight8 w + __const_hweight8 (Z.shiftr w 8).
Definition __const_hweight32 (w : Z) : Z := __const_hweight16 w + __const_hweight16 (Z.shiftr w 16).
Definition __const_hweight64 (w : Z) : Z := __const_hweight32 w + __const_hweight32 (Z.shiftr w 32).

(** ** Rotations *)

(** The rotation of [w] bits to the left by [s], as arithmetic. *)
Definition rot (w x s : Z) : Z := x mod 2 ^ (w - s) * 2 ^ s + x / 2 ^ (w - s).

Lemma rot_range w x s : 0 <= s <= w -> 0 <= x < 2 ^ w ->
  0 <= x mod 2 ^ (w - s) < 2 ^ (w - s) /\ 0 <= x / 2 ^ (w - s) < 2 ^ s /\ 0 <= rot w x s < 2 ^ w.
Proof.
  intros Hs Hx. assert (2 ^ w = 2 ^ (w - s) * 2 ^ s) as E by (rewrite <- Z.pow_add_r by lia; f_equal; lia).
  pose proof (Z.pow_pos_nonneg 2 s ltac:(lia) ltac:(lia)) as P1. pose proof (Z.pow_pos_nonneg 2 (w - s) ltac:(lia) ltac:(lia)) as P2.
  pose proof (Z.mod_pos_bound x _ P2) as Hm.
  assert (0 <= x / 2 ^ (w - s) < 2 ^ s) as Hq by (split; [apply Z.div_pos; lia | apply Z.div_lt_upper_bound; lia]).
  split; [exact Hm |]. split; [exact Hq |]. unfold rot. nia.
Qed.

(** Rotating by [s] and then by what is left of the width gives the word back. *)
Lemma rot_back w x s : 0 <= s <= w -> 0 <= x < 2 ^ w -> rot w (rot w x s) (w - s) = x.
Proof.
  intros Hs Hx. destruct (rot_range w x s Hs Hx) as (Hm & Hq & _). unfold rot at 1. replace (w - (w - s)) with s by lia.
  unfold rot. set (A := x mod 2 ^ (w - s)) in *. set (B := x / 2 ^ (w - s)) in *.
  assert ((A * 2 ^ s + B) mod 2 ^ s = B) as -> by (rewrite Z.add_comm, Z.mod_add, Z.mod_small by lia; reflexivity).
  rewrite Z.div_add_l by lia. rewrite (Z.div_small B) by lia.
  pose proof (Z.div_mod x (2 ^ (w - s)) ltac:(lia)). fold A B in H. lia.
Qed.

Lemma shl_ok w x s : 0 <= s < w -> shl w x s = Ok (x * 2 ^ s mod 2 ^ w).
Proof.
  intros Hs. unfold shl. rewrite (proj2 (Z.leb_le 0 s)), (proj2 (Z.ltb_lt s w)) by lia. cbn [andb defined_if rbind].
  now rewrite Z.shiftl_mul_pow2 by lia.
Qed.
Lemma shr_ok w x s : 0 <= s < w -> shr w x s = Ok (x / 2 ^ s).
Proof.
  intros Hs. unfold shr. rewrite (proj2 (Z.leb_le 0 s)), (proj2 (Z.ltb_lt s w)) by lia. cbn [andb defined_if rbind].
  now rewrite Z.shiftr_div_pow2 by lia.
Qed.

(** The two shifted halves do not overlap. *)
Lemma rot_or w x s : 0 <= s <= w -> 0 <= x < 2 ^ w ->
  Z.lor (x * 2 ^ s mod 2 ^ w) (x / 2 ^ (w - s)) = rot w x s.
Proof.
  intros Hs Hx. destruct (rot_range w x s Hs Hx) as (Hm & Hq & _).
  assert (x * 2 ^ s mod 2 ^ w = x mod 2 ^ (w - s) * 2 ^ s) as ->.
  { replace w with (w - s + s) at 1 by lia. rewrite Z.pow_add_r by lia. now rewrite Z.mul_mod_distr_r by lia. }
  rewrite Z.lor_comm, <- Z.shiftl_mul_pow2 by lia. rewrite lor_shiftl by (try exact Hq; lia). unfold rot. lia.
Qed.

(** The cut to a narrow type after promotion. *)
Lemma rot_cut w x s : 0 <= s <= w -> w <= 16 -> 0 <= x < 2 ^ w ->
  Z.lor (x * 2 ^ s mod 2 ^ 32) (x / 2 ^ (w - s)) mod 2 ^ w = rot w x s.
Proof.
  intros Hs Hw Hx. destruct (rot_range w x s Hs Hx) as (_ & Hq & Hr). rewrite <- (rot_or w x s Hs Hx).
  apply Z.bits_inj'. intros i Hi. rewrite Z.lor_spec. destruct (Z.lt_ge_cases i w).
  - rewrite Z.mod_pow2_bits_low, Z.lor_spec, !Z.mod_pow2_bits_low by lia. reflexivity.
  - rewrite !Z.mod_pow2_bits_high by lia. symmetry. cbn [orb].
    rewrite <- (Z.mod_small (x / 2 ^ (w - s)) (2 ^ w)); [apply Z.mod_pow2_bits_high; lia |].
    assert (2 ^ s <= 2 ^ w) by (apply Z.pow_le_mono_r; lia). lia.
Qed.

Lemma rol32_ok x s : 0 <= s < 32 -> 0 <= x < 2 ^ 32 -> rol32 x s = Ok (rot 32 x s).
Proof.
  intros Hs Hx. unfold rol32. rewrite shl_ok by lia. change 31 with (2 ^ 5 - 1). rewrite land_mask by lia.
  destruct (Z.eq_dec s 0) as [->|Hne].
  - change (u32 (- 0) mod 2 ^ 5) with 0. rewrite shr_ok by lia. cbn [bor rbind]. f_equal. unfold rot.
    rewrite Z.sub_0_r, Z.pow_0_r, !Z.mul_1_r, Z.div_1_r, Z.mod_small, Z.div_small by lia. rewrite Z.lor_diag. lia.
  - rewrite u32_mod_pow2 by lia. replace (- s mod 2 ^ 5) with (32 - s) by (apply Z.mod_unique with (-1); lia).
    rewrite shr_ok by lia. cbn [bor rbind]. now rewrite rot_or by lia.
Qed.

(** The other rotations, in terms of [rot]: right by [s] is left by the rest. *)
Ltac rotation :=
  rewrite !shl_ok, !shr_ok by lia; cbn [bor rbind]; rewrite ?(Z.lor_comm (_ / _)); f_equal.

Lemma rotations_ok s :
  (forall x, 0 < s < 64 -> 0 <= x < 2 ^ 64 -> rol64 x s = Ok (rot 64 x s) /\ ror64 x s = Ok (rot 64 x (64 - s))) /\
  (forall x, 0 < s < 32 -> 0 <= x < 2 ^ 32 -> ror32 x s = Ok (rot 32 x (32 - s))) /\
  (forall x, 0 <= s <= 16 -> 0 <= x < 2 ^ 16 -> rol16 x s = Ok (rot 16 x s) /\ ror16 x s = Ok (rot 16 x (16 - s))) /\
  (forall x, 0 <= s <= 8 -> 0 <= x < 2 ^ 8 -> rol8 x s = Ok (rot 8 x s) /\ ror8 x s = Ok (rot 8 x (8 - s))).
Proof.
  assert (forall w s, 0 <= w - s < W32 -> u32 (w - s) = w - s) as Eu by (intros; now apply u32_small).
  split; [|split; [|split]]; intros x Hs Hx; try split;
    unfold rol64, ror64, ror32, rol16, ror16, rol8, ror8, u16, u8; rewrite Eu by lia; rotation.
  - apply rot_or; lia.
  - rewrite <- rot_or by lia. repeat f_equal; lia.
  - rewrite <- rot_or by lia. repeat f_equal; lia.
  - apply (rot_cut 16); lia.
  - rewrite <- (rot_cut 16) by lia. repeat f_equal; lia.
  - apply (rot_cut 8); lia.
  - rewrite <- (rot_cut 8) by lia. repeat f_equal; lia.
Qed.

(** Rotations are inverse to each other.  At every width and for every
    count between 1 and the width less one, [rolN] and [rorN] by the same count
    undo each other.  [rol32] is also defined for count 0, where it is the
    identity, while [ror32], [rol64] and [ror64] then shift by the whole width,
    which is undefined. *)
Theorem rotate_roundtrip s x y :
  (0 < s < 64 -> 0 <= x < 2 ^ 64 ->
     rbind (rol64 x s) (fun r => ror64 r s) = Ok x /\ rbind (ror64 x s) (fun r => rol64 r s) = Ok x) /\
  (0 < s < 32 -> 0 <= x < 2 ^ 32 ->
     rbind (rol32 x s) (fun r => ror32 r s) = Ok x /\ rbind (ror32 x s) (fun r => rol32 r s) = Ok x) /\
  (0 < s < 16 -> 0 <= x < 2 ^ 16 ->
     rbind (rol16 x s) (fun r => ror16 r s) = Ok x /\ rbind (ror16 x s) (fun r => rol16 r s) = Ok x) /\
  (0 < s < 8 -> 0 <= x < 2 ^ 8 ->
     rbind (rol8 x s) (fun r => ror8 r s) = Ok x /\ rbind (ror8 x s) (fun r => rol8 r s) = Ok x) /\
  (0 <= y < 2 ^ 32 -> rol32 y 0 = Ok y /\ ror32 y 0 = Err UB /\ rol64 y 0 = Err UB /\ ror64 y 0 = Err UB).
Proof.
  destruct (rotations_ok s) as (R64 & R32 & R16 & R8).
  assert (forall w z, 0 < s < w -> 0 <= z < 2 ^ w -> rot w (rot w z (w - s)) s = z) as Hback.
  { intros w z Hs Hz. rewrite <- (rot_back w z (w - s)) at 2 by lia. now replace (w - (w - s)) with s by lia. }
  split; [|split; [|split; [|split]]].
  - intros Hs Hx. destruct (R64 x Hs Hx) as [-> ->]. cbn [rbind]. split.
    + destruct (rot_range 64 x s) as (_ & _ & Hr); try lia. destruct (R64 _ Hs Hr) as [_ ->]. now rewrite rot_back by lia.
    + destruct (rot_range 64 x (64 - s)) as (_ & _ & Hr); try lia. destruct (R64 _ Hs Hr) as [-> _]. now rewrite Hback by lia.
  - intros Hs Hx. rewrite rol32_ok, R32 by lia. cbn [rbind]. split.
    + destruct (rot_range 32 x s) as (_ & _ & Hr); try lia. rewrite (R32 _ Hs Hr). now rewrite rot_back by lia.
    + destruct (rot_range 32 x (32 - s)) as (_ & _ & Hr); try lia. rewrite rol32_ok by lia. now rewrite Hback by lia.
  - intros Hs Hx. destruct (R16 x ltac:(lia) Hx) as [-> ->]. cbn [rbind]. split.
    + destruct (rot_range 16 x s) as (_ & _ & Hr); try lia. destruct (R16 _ ltac:(lia) Hr) as [_ ->]. now rewrite rot_back by lia.
    + destruct (rot_range 16 x (16 - s)) as (_ & _ & Hr); try lia. destruct (R16 _ ltac:(lia) Hr) as [-> _]. now rewrite Hback by lia.
  - intros Hs Hx. destruct (R8 x ltac:(lia) Hx) as [-> ->]. cbn [rbind]. split.
    + destruct (rot_range 8 x s) as (_ & _ & Hr); try lia. destruct (R8 _ ltac:(lia) Hr) as [_ ->]. now rewrite rot_back by lia.
    + destruct (rot_range 8 x (8 - s)) as (_ & _ & Hr); try lia. destruct (R8 _ ltac:(lia) Hr) as [-> _]. now rewrite Hback by lia.
  - intros Hy. rewrite rol32_ok by lia. split; [|now split].
    f_equal. unfold rot. rewrite Z.sub_0_r, Z.pow_0_r, Z.mul_1_r, Z.mod_small, Z.div_small by lia. lia.
Qed.

Lemma rotate_roundtrip_witness : rbind (rol32 0x80000001 4) (fun r => ror32 r 4) = Ok 0x80000001 /\ ror32 7 0 = Err UB.
Proof.
  destruct (rotate_roundtrip 4 0x80000001 7) as (_ & H & _ & _ & H0). split; [apply H; lia | apply H0; lia].
Defined.

(** ** Sign extension *)

(** The low [k + 1] bits of [v], read as a signed number. *)
Definition signed_low (v k : Z) : Z :=
  let m := v mod 2 ^ (k + 1) in if m <? 2 ^ k then m else m - 2 ^ (k + 1).

Lemma sign_extend_ok w v k (sx : Z -> Z) :
  0 < w -> 0 <= k < w -> (forall z, sx z = let m := z mod 2 ^ w in if m <? 2 ^ (w - 1) then m else m - 2 ^ w) ->
  Z.shiftr (sx (v * 2 ^ (w - 1 - k) mod 2 ^ w)) (w - 1 - k) = signed_low v k.
Proof.
  intros Hw Hk Hsx. set (s := w - 1 - k). assert (0 <= s) as Hs by lia.
  assert (2 ^ w = 2 ^ (k + 1) * 2 ^ s) as E by (unfold s; rewrite <- Z.pow_add_r by lia; f_equal; lia).
  assert (2 ^ (w - 1) = 2 ^ k * 2 ^ s) as E' by (unfold s; rewrite <- Z.pow_add_r by lia; f_equal; lia).
  pose proof (Z.pow_pos_nonneg 2 s ltac:(lia) Hs) as P.
  rewrite Hsx, Z.mod_mod by lia. cbn zeta. rewrite E, Z.mul_mod_distr_r, E', Z.shiftr_div_pow2 by lia. unfold signed_low.
  destruct (Z.ltb_spec (v mod 2 ^ (k + 1) * 2 ^ s) (2 ^ k * 2 ^ s)), (Z.ltb_spec (v mod 2 ^ (k + 1)) (2 ^ k)); try nia.
  - now rewrite Z.div_mul by lia.
  - rewrite <- Z.mul_sub_distr_r. now rewrite Z.div_mul by lia.
Qed.

(** Sign extension.  [sign_extend32] and [sign_extend64] give the value of
    the bits up to the sign bit as a two's complement number, whatever the
    higher bits hold: the number between [-2^index] and [2^index - 1] that is
    congruent to the argument. *)
Theorem sign_extend_spec v i :
  (0 <= i < 32 -> sign_extend32 v i = Ok (signed_low v i)) /\
  (0 <= i < 64 -> sign_extend64 v i = Ok (signed_low v i)) /\
  (0 <= i -> - 2 ^ i <= signed_low v i < 2 ^ i /\ signed_low v i mod 2 ^ (i + 1) = v mod 2 ^ (i + 1)).
Proof.
  split; [|split]; intros Hi.
  - unfold sign_extend32. rewrite (u8_small (31 - i)), shl_ok by lia. cbn [rbind]. f_equal.
    now apply (sign_extend_ok 32).
  - unfold sign_extend64. rewrite (u8_small (63 - i)), shl_ok by lia. cbn [rbind]. f_equal.
    now apply (sign_extend_ok 64).
  - unfold signed_low. assert (2 ^ (i + 1) = 2 * 2 ^ i) as E by (rewrite Z.pow_add_r by lia; lia).
    pose proof (Z.pow_pos_nonneg 2 i ltac:(lia) Hi). pose proof (Z.mod_pos_bound v (2 ^ (i + 1)) ltac:(lia)).
    destruct (Z.ltb_spec (v mod 2 ^ (i + 1)) (2 ^ i)).
    + split; [lia | now rewrite Z.mod_mod by lia].
    + split; [lia |]. replace (v mod 2 ^ (i + 1) - 2 ^ (i + 1)) with (v mod 2 ^ (i + 1) + (-1) * 2 ^ (i + 1)) by ring.
      now rewrite Z.mod_add, Z.mod_mod by lia.
Qed.

Lemma sign_extend_spec_witness : sign_extend32 0xabf0 7 = Ok (-16) /\ sign_extend64 0x7f 7 = Ok 127.
Proof.
  destruct (sign_extend_spec 0xabf0 7) as (H1 & _), (sign_extend_spec 0x7f 7) as (_ & H2 & _).
  split; [rewrite H1 by lia; reflexivity | rewrite H2 by lia; reflexivity].
Defined.

(** ** First set bit *)

Definition first_bit (x k : Z) : Prop := 0 <= k /\ Z.testbit x k = true /\ forall i, 0 <= i < k -> Z.testbit x i = false.

Lemma first_bit_unique x j k : first_bit x j -> first_bit x k -> j = k.
Proof.
  intros (H1 & H2 & H3) (K1 & K2 & K3). destruct (Z.lt_trichotomy j k) as [H|[H|H]]; [|exact H |].
  - rewrite K3 in H2 by lia. discriminate.
  - rewrite H3 in K2 by lia. discriminate.
Qed.

Lemma bsf_from_ok x n : forall i, 0 <= i -> (forall j, 0 <= j < i -> Z.testbit x j = false) ->
  match bsf_from x i n with
  | Some k => first_bit x k /\ k < i + Z.of_nat n
  | None => forall j, 0 <= j < i + Z.of_nat n -> Z.testbit x j = false
  end.
Proof.
  induction n as [|n IH]; intros i Hi Hlow; cbn [bsf_from].
  - intros j Hj. apply Hlow. lia.
  - destruct (Z.testbit x i) eqn:E; [split; [now repeat split | lia] |].
    assert (forall j, 0 <= j < i + 1 -> Z.testbit x j = false) as Hlow'.
    { intros j Hj. destruct (Z.eq_dec j i) as [->|]; [exact E | apply Hlow; lia]. }
    specialize (IH (i + 1) ltac:(lia) Hlow'). destruct (bsf_from x (i + 1) n) as [k|].
    + split; [apply IH | lia].
    + intros j Hj. apply IH. lia.
Qed.

Lemma bsf_ok x : x mod 2 ^ 32 <> 0 -> exists k, bsf x = Some k /\ first_bit x k /\ k < 32.
Proof.
  intros Hx. unfold bsf. pose proof (bsf_from_ok x 32 0 ltac:(lia) ltac:(intros; lia)) as H.
  destruct (bsf_from x 0 32) as [k|]; [exists k; split; [reflexivity |]; split; [apply H | lia] |].
  exfalso. apply Hx. apply Z.bits_inj'. intros i Hi. rewrite Z.bits_0. destruct (Z.lt_ge_cases i 32).
  - rewrite Z.mod_pow2_bits_low by lia. apply H. lia.
  - now rewrite Z.mod_pow2_bits_high by lia.
Qed.

(** The portable search: [x] is the part of [x0] above [n] zero bits, and has a
    set bit among its low [2 w]. *)
Lemma ffs_halve_ok w x0 x n r0 :
  0 < w -> 0 <= n -> x0 = x * 2 ^ n -> x mod 2 ^ (2 * w) <> 0 ->
  exists x' n', ffs_halve w (x, r0 + n) = (x', r0 + n') /\ 0 <= n' /\ x0 = x' * 2 ^ n' /\ x' mod 2 ^ w <> 0.
Proof.
  intros Hw Hn E Hx. unfold ffs_halve. rewrite land_mask by lia. destruct (Z.eqb_spec (x mod 2 ^ w) 0) as [E0|Hne].
  - exists (x / 2 ^ w), (n + w). pose proof (Z.div_mod x (2 ^ w)). assert (x = x / 2 ^ w * 2 ^ w) as Ex by lia.
    split; [rewrite Z.shiftr_div_pow2 by lia; f_equal; lia |]. split; [lia |].
    split; [rewrite E, Ex at 1; rewrite Z.pow_add_r by lia; ring |].
    intros E1. apply Hx. rewrite Ex. replace (2 * w) with (w + w) by lia. rewrite Z.pow_add_r, Z.mul_mod_distr_r, E1 by lia. lia.
  - exists x, n. auto.
Qed.

Lemma ffs_search x r0 : x mod 2 ^ 32 <> 0 ->
  exists k, snd (ffs_halve 1 (ffs_halve 2 (ffs_halve 4 (ffs_halve 8 (ffs_halve 16 (x, r0)))))) = r0 + k /\ first_bit x k.
Proof.
  intros Hx. replace (x, r0) with (x, r0 + 0) by (f_equal; lia).
  destruct (ffs_halve_ok 16 x x 0 r0) as (x1 & n1 & -> & H1 & E1 & M1); [lia | lia | lia | exact Hx |].
  destruct (ffs_halve_ok 8 x x1 n1 r0) as (x2 & n2 & -> & H2 & E2 & M2); [lia | lia | lia | exact M1 |].
  destruct (ffs_halve_ok 4 x x2 n2 r0) as (x3 & n3 & -> & H3 & E3 & M3); [lia | lia | lia | exact M2 |].
  destruct (ffs_halve_ok 2 x x3 n3 r0) as (x4 & n4 & -> & H4 & E4 & M4); [lia | lia | lia | exact M3 |].
  destruct (ffs_halve_ok 1 x x4 n4 r0) as (x5 & n5 & -> & H5 & E5 & M5); [lia | lia | lia | exact M4 |].
  exists n5. split; [reflexivity |]. split; [exact H5 |]. rewrite E5. split.
  - rewrite Z.mul_pow2_bits by lia. rewrite Z.sub_diag, Z.bit0_odd. rewrite Zmod_odd in M5. now destruct (Z.odd x5).
  - intros i Hi. apply Z.mul_pow2_bits_low. lia.
Qed.

(** The first set bit.  The portable binary searches [ffs] and [__ffs] agree
    with the ones that use the [bsf] instruction: for an argument with a bit
    set, all return the lowest one ([ffs] counting from 1), and so does
    [__ffs64] at 64 bits; for 0 both [ffs] return 0 and [__ffs] is undefined. *)
Theorem ffs_equiv x y :
  x mod 2 ^ 32 <> 0 -> 0 < y < 2 ^ 64 ->
  (exists k, first_bit x k /\ __ffs x = Ok k /\ generic___ffs x = k /\ ffs x = k + 1 /\ generic_ffs x = k + 1) /\
  (exists k, first_bit y k /\ __ffs64 y = Ok k) /\
  ffs 0 = 0 /\ generic_ffs 0 = 0 /\ __ffs 0 = Err UB.
Proof.
  intros Hx Hy. split; [|split; [|now repeat split]].
  - destruct (bsf_ok x Hx) as (k & Ek & Hk & _). destruct (ffs_search x 0 Hx) as (k0 & E0 & Hk0), (ffs_search x 1 Hx) as (k1 & E1 & Hk1).
    rewrite (first_bit_unique _ _ _ Hk0 Hk) in E0. rewrite (first_bit_unique _ _ _ Hk1 Hk) in E1.
    exists k. split; [exact Hk |]. unfold __ffs, ffs, generic___ffs, generic_ffs, truthy. rewrite Ek, E0.
    destruct (Z.eqb_spec x 0) as [->|Hne]; [now cbn in Hx |]. cbn [negb]. rewrite E1. repeat split; lia.
  - unfold __ffs64, __ffs. destruct (Z.eqb_spec (u32 y) 0) as [E|E].
    + assert (y = y / 2 ^ 32 * 2 ^ 32) as Ey by (unfold u32 in E; pose proof (Z.div_mod y W32); change (2 ^ 32) with W32; lia).
      assert (0 < y / 2 ^ 32 < 2 ^ 32) as Hh by (split; [|apply Z.div_lt_upper_bound]; lia).
      rewrite Z.shiftr_div_pow2, u32_small by (change W32 with (2 ^ 32); lia).
      destruct (bsf_ok (y / 2 ^ 32)) as (k & -> & (K1 & K2 & K3) & _); [rewrite Z.mod_small by lia; lia |].
      cbn [rbind]. exists (k + 32). split; [|reflexivity]. split; [lia |]. rewrite Ey. split.
      * rewrite Z.mul_pow2_bits by lia. now replace (k + 32 - 32) with k by lia.
      * intros i Hi. destruct (Z.lt_ge_cases i 32); [now apply Z.mul_pow2_bits_low |].
        rewrite Z.mul_pow2_bits by lia. apply K3. lia.
    + destruct (bsf_ok (u32 y)) as (k & -> & (K1 & K2 & K3) & Hk32); [unfold u32 in *; rewrite Z.mod_mod by lia; exact E |].
      exists k. split; [|reflexivity]. unfold u32 in K2, K3. change W32 with (2 ^ 32) in K2, K3.
      split; [exact K1 |]. rewrite Z.mod_pow2_bits_low in K2 by lia. split; [exact K2 |].
      intros i Hi. specialize (K3 i Hi). now rewrite Z.mod_pow2_bits_low in K3 by lia.
Qed.

Lemma ffs_equiv_witness : __ffs 40 = Ok 3 /\ generic_ffs 40 = 4 /\ __ffs64 (2 ^ 40) = Ok 40.
Proof.
  destruct (ffs_equiv 40 (2 ^ 40)) as ((k & _ & H1 & H1' & _ & H2) & (j & Hj & H3) & _); [discriminate | lia |].
  replace k with 3 in * by (rewrite <- H1'; reflexivity).
  split; [exact H1 | split; [exact H2 |]]. rewrite H3. f_equal.
  apply (first_bit_unique (2 ^ 40)); [exact Hj |]. split; [lia |]. split; [reflexivity |].
  intros i Hi. apply Z.pow2_bits_false. lia.
Defined.

(** ** Weights *)

(** The number of set bits among bits [i .. i + n - 1]. *)
Fixpoint weight (w i : Z) (n : nat) : Z :=
  match n with O => 0 | S n => b2z (Z.testbit w i) + weight w (i + 1) n end.

Lemma bit_ok w k : 0 <= k -> bit w k = b2z (Z.testbit w k).
Proof.
  intros Hk. unfold bit, truthy. f_equal. rewrite Z.shiftl_1_l. destruct (Z.testbit w k) eqn:E.
  - apply negb_true_iff, Z.eqb_neq. intros E0. apply (f_equal (fun z => Z.testbit z k)) in E0.
    rewrite Z.land_spec, Z.pow2_bits_true, E, Z.bits_0 in E0 by lia. discriminate.
  - apply negb_false_iff, Z.eqb_eq. apply Z.bits_inj'. intros i Hi. rewrite Z.land_spec, Z.bits_0, Z.pow2_bits_eqb by lia.
    destruct (Z.eqb_spec k i) as [<-|]; [now rewrite E | apply andb_false_r].
Qed.

Lemma weight_shift w i n k : 0 <= k -> 0 <= i -> weight (Z.shiftr w k) i n = weight w (i + k) n.
Proof.
  intros Hk. revert i. induction n as [|n IH]; intros i Hi; [reflexivity |]. cbn [weight].
  rewrite Z.shiftr_spec, IH by lia. f_equal. f_equal. lia.
Qed.

Lemma weight_app w i n m : weight w i (n + m) = weight w i n + weight w (i + Z.of_nat n) m.
Proof.
  revert i. induction n as [|n IH]; intros i; cbn [weight Nat.add]; [now rewrite Z.add_0_r |]. rewrite IH.
  replace (i + Z.of_nat (S n)) with (i + 1 + Z.of_nat n) by lia. lia.
Qed.

(** The constant weights count set bits, at 8, 16, 32 and 64 bits. *)
Theorem hweight_spec w :
  __const_hweight8 w = weight w 0 8 /\ __const_hweight16 w = weight w 0 16 /\
  __const_hweight32 w = weight w 0 32 /\ __const_hweight64 w = weight w 0 64.
Proof.
  assert (forall w, __const_hweight8 w = weight w 0 8) as H8.
  { intros v. unfold __const_hweight8. rewrite !bit_ok by lia. cbn [weight]. rewrite <- !Z.add_assoc, Z.add_0_r. reflexivity. }
  assert (forall w, __const_hweight16 w = weight w 0 16) as H16.
  { intros v. unfold __const_hweight16. rewrite !H8, weight_shift by lia. symmetry. apply (weight_app v 0 8 8). }
  assert (forall w, __const_hweight32 w = weight w 0 32) as H32.
  { intros v. unfold __const_hweight32. rewrite !H16, weight_shift by lia. symmetry. apply (weight_app v 0 16 16). }
  repeat split; auto. unfold __const_hweight64. rewrite !H32, weight_shift by lia. symmetry. apply (weight_app w 0 32 32).
Qed.
End Bitops.
