(* ===== verification/Jhash.v ===== *)
(** * The Jenkins hash

    linux/jhash.h: mixing of three 32-bit words, and the hashes of a byte
    string, of an array of words and of one to three words.  The machine is
    little endian. *)

From S2P Require Import Prelude Bytes Memory Bitops.
Import Bytes Memory Bitops.

Module Jhash.

Definition JHASH_INITVAL : Z := 0xdeadbeef.

(** ** Operations *)

(** One line of [__jhash_mix]: [x -= z; x ^= rol32(z, k); z += y;]. *)
Definition mix_line (x y z k : Z) : res (Z * Z) :=
  let! t := rol32 z k in
  Ok (Z.lxor (x ⊟ z) t, z ⊞ y).

Definition __jhash_mix (s : Z * Z * Z) : res (Z * Z * Z) :=
  let '(a, b, c) := s in
  let! (a, c) := mix_line a b c 4 in
  let! (b, a) := mix_line b c a 6 in
  let! (c, b) := mix_line c a b 8 in
  let! (a, c) := mix_line a b c 16 in
  let! (b, a) := mix_line b c a 19 in
  let! (c, b) := mix_line c a b 4 in
  Ok (a, b, c).

(** One line of [__jhash_final]: [x ^= y; x -= rol32(y, k);]. *)
Definition final_line (x y k : Z) : res Z :=
  let! t := rol32 y k in
  Ok (Z.lxor x y ⊟ t).

Definition __jhash_final (s : Z * Z * Z) : res (Z * Z * Z) :=
  let '(a, b, c) := s in
  let! c := final_line c b 14 in
  let! a := final_line a c 11 in
  let! b := final_line b a 25 in
  let! c := final_line c b 16 in
  let! a := final_line a c 4 in
  let! b := final_line b a 14 in
  let! c := final_line c b 24 in
  Ok (a, b, c).

Definition byte_at (m : mem) (k : ptr) (i : Z) : res Z :=
  let! b := load m (padd k i) 1 in Ok (default 0 (head b)).

Definition le32 (b0 b1 b2 b3 : Z) : Z := b0 + b1 * 2 ^ 8 + b2 * 2 ^ 16 + b3 * 2 ^ 24.

(** The four bytes at once. *)
Definition __get_unaligned_cpu32 (m : mem) (p : ptr) : res Z :=
  let! b := load m p 4 in
  match b with
  | [b0; b1; b2; b3] => Ok (le32 b0 b1 b2 b3)
  | _ => Err UB
  end.

(** [case n: x += (u32)k[i] << sh;], entered from above. *)
Definition tail_case (m : mem) (k : ptr) (length n sh x : Z) : res Z :=
  if n <=? length then
    let! b := byte_at m k (n - 1) in
    Ok (x ⊞ u32 (Z.shiftl b sh))
  else Ok x.

Fixpoint jhash_loop (fuel : nat) (m : mem) (k : ptr) (length : Z) (s : Z * Z * Z) : res (ptr * Z * (Z * Z * Z)) :=
  if 12 <? length then
    match fuel with
    | O => Err OutOfFuel
    | S fuel =>
        let '(a, b, c) := s in
        let! x := __get_unaligned_cpu32 m k in
        let! y := __get_unaligned_cpu32 m (padd k 4) in
        let! z := __get_unaligned_cpu32 m (padd k 8) in
        let! s := __jhash_mix (a ⊞ x, b ⊞ y, c ⊞ z) in
        jhash_loop fuel m (padd k 12) (length ⊟ 12) s
    end
  else Ok (k, length, s).

(** The last block: all cases fall through. *)
Definition jhash_tail (m : mem) (k : ptr) (length : Z) (s : Z * Z * Z) : res Z :=
  let '(a, b, c) := s in
  let! c := tail_case m k length 12 24 c in
  let! c := tail_case m k length 11 16 c in
  let! c := tail_case m k length 10 8 c in
  let! c := tail_case m k length 9 0 c in
  let! b := tail_case m k length 8 24 b in
  let! b := tail_case m k length 7 16 b in
  let! b := tail_case m k length 6 8 b in
  let! b := tail_case m k length 5 0 b in
  let! a := tail_case m k length 4 24 a in
  let! a := tail_case m k length 3 16 a in
  let! a := tail_case m k length 2 8 a in
  let! a := tail_case m k length 1 0 a in
  if 1 <=? length then
    let! (_, _, c) := __jhash_final (a, b, c) in Ok c
  else Ok c.

Definition jhash (fuel : nat) (m : mem) (key : ptr) (length initval : Z) : res Z :=
  let n := JHASH_INITVAL ⊞ length ⊞ initval in
  let! (k, length, s) := jhash_loop fuel m key length (n, n, n) in
  jhash_tail m k length s.

(** The [i]th element of an array of words. *)
Definition word_at (m : mem) (k : ptr) (i : Z) : res Z := __get_unaligned_cpu32 m (padd k (4 * i)).

Fixpoint jhash2_loop (fuel : nat) (m : mem) (k : ptr) (length : Z) (s : Z * Z * Z) : res (ptr * Z * (Z * Z * Z)) :=
  if 3 <? length then
    match fuel with
    | O => Err OutOfFuel
    | S fuel =>
        let '(a, b, c) := s in
        let! x := word_at m k 0 in
        let! y := word_at m k 1 in
        let! z := word_at m k 2 in
        let! s := __jhash_mix (a ⊞ x, b ⊞ y, c ⊞ z) in
        jhash2_loop fuel m (padd k 12) (length ⊟ 3) s
    end
  else Ok (k, length, s).

Definition tail_word (m : mem) (k : ptr) (length n x : Z) : res Z :=
  if n <=? length then
    let! w := word_at m k (n - 1) in Ok (x ⊞ w)
  else Ok x.

Definition jhash2_tail (m : mem) (k : ptr) (length : Z) (s : Z * Z * Z) : res Z :=
  let '(a, b, c) := s in
  let! c := tail_word m k length 3 c in
  let! b := tail_word m k length 2 b in
  let! a := tail_word m k length 1 a in
  if 1 <=? length then
    let! (_, _, c) := __jhash_final (a, b, c) in Ok c
  else Ok c.

Definition jhash2 (fuel : nat) (m : mem) (k : ptr) (length initval : Z) : res Z :=
  let n := JHASH_INITVAL ⊞ u32 (Z.shiftl length 2) ⊞ initval in
  let! (k, length, s) := jhash2_loop fuel m k length (n, n, n) in
  jhash2_tail m k length s.

Definition __jhash_nwords (a b c initval : Z) : res Z :=
  let! (_, _, c) := __jhash_final (a ⊞ initval, b ⊞ initval, c ⊞ initval) in Ok c.
Definition jhash_3words (a b c initval : Z) : res Z := __jhash_nwords a b c (initval ⊞ JHASH_INITVAL ⊞ 12).
Definition jhash_2words (a b initval : Z) : res Z := __jhash_nwords a b 0 (initval ⊞ JHASH_INITVAL ⊞ 8).
Definition jhash_1word (a initval : Z) : res Z := __jhash_nwords a 0 0 (initval ⊞ JHASH_INITVAL ⊞ 4).

(** ** Mixing can be undone *)

Definition word (x : Z) : Prop := 0 <= x < 2 ^ 32.
Definition words (s : Z * Z * Z) : Prop := word s.1.1 /\ word s.1.2 /\ word s.2.

Lemma word_u32 x : word (u32 x).
Proof. unfold word. change (2 ^ 32) with W32. apply u32_range. Qed.
Lemma word_lxor x y : word x -> word y -> word (Z.lxor x y).
Proof.
  intros Hx Hy. assert (Z.lxor x y mod 2 ^ 32 = Z.lxor x y) as <-; [|apply word_u32].
  apply Z.bits_inj'. intros i Hi. destruct (Z.lt_ge_cases i 32); [now rewrite Z.mod_pow2_bits_low by lia |].
  rewrite Z.mod_pow2_bits_high by lia. rewrite Z.lxor_spec.
  rewrite <- (Z.mod_small x (2 ^ 32)), <- (Z.mod_small y (2 ^ 32)) by assumption. now rewrite !Z.mod_pow2_bits_high by lia.
Qed.
Lemma lxor_twice x y : Z.lxor (Z.lxor x y) y = x.
Proof. now rewrite Z.lxor_assoc, Z.lxor_nilpotent, Z.lxor_0_r. Qed.

#[local] Hint Resolve word_u32 word_lxor : core.

Lemma rol_ok z k : word z -> 0 <= k < 32 -> exists t, rol32 z k = Ok t /\ word t.
Proof. intros Hz Hk. exists (rot 32 z k). rewrite rol32_ok by assumption. split; [reflexivity |]. apply rot_range; [lia | exact Hz]. Qed.

(** The inverse of one line. *)
Definition unmix_line (x y z k : Z) : res (Z * Z) :=
  let z := z ⊟ y in
  let! t := rol32 z k in
  Ok (Z.lxor x t ⊞ z, z).
Definition unfinal_line (x y k : Z) : res Z :=
  let! t := rol32 y k in
  Ok (Z.lxor (x ⊞ t) y).

Definition unmix (s : Z * Z * Z) : res (Z * Z * Z) :=
  let '(a, b, c) := s in
  let! (c, b) := unmix_line c a b 4 in
  let! (b, a) := unmix_line b c a 19 in
  let! (a, c) := unmix_line a b c 16 in
  let! (c, b) := unmix_line c a b 8 in
  let! (b, a) := unmix_line b c a 6 in
  let! (a, c) := unmix_line a b c 4 in
  Ok (a, b, c).
Definition unfinal (s : Z * Z * Z) : res (Z * Z * Z) :=
  let '(a, b, c) := s in
  let! c := unfinal_line c b 24 in
  let! b := unfinal_line b a 14 in
  let! a := unfinal_line a c 4 in
  let! c := unfinal_line c b 16 in
  let! b := unfinal_line b a 25 in
  let! a := unfinal_line a c 11 in
  let! c := unfinal_line c b 14 in
  Ok (a, b, c).

Lemma add_sub_word x y : word x -> u32 (u32 (x - y) + y) = x.
Proof. intros H. rewrite u32_add_l. replace (x - y + y) with x by lia. now apply u32_small. Qed.
Lemma sub_add_word x y : word x -> u32 (u32 (x + y) - y) = x.
Proof. intros H. rewrite u32_sub_l. replace (x + y - y) with x by lia. now apply u32_small. Qed.

Lemma mix_line_ok x y z k : word x -> word y -> word z -> 0 <= k < 32 ->
  exists x' z', mix_line x y z k = Ok (x', z') /\ word x' /\ word z' /\ unmix_line x' y z' k = Ok (x, z).
Proof.
  intros Hx Hy Hz Hk. destruct (rol_ok z k Hz Hk) as (t & Et & Ht). unfold mix_line, unmix_line. rewrite Et. cbn [rbind].
  eexists _, _. split; [reflexivity |]. split; [auto |]. split; [auto |].
  rewrite sub_add_word by exact Hz. rewrite Et. cbn [rbind]. rewrite lxor_twice. now rewrite add_sub_word.
Qed.

Lemma unmix_line_ok x y z k : word x -> word y -> word z -> 0 <= k < 32 ->
  exists x' z', unmix_line x y z k = Ok (x', z') /\ word x' /\ word z' /\ mix_line x' y z' k = Ok (x, z).
Proof.
  intros Hx Hy Hz Hk. unfold mix_line, unmix_line. destruct (rol_ok (z ⊟ y) k (word_u32 _) Hk) as (t & Et & Ht). rewrite Et. cbn [rbind].
  eexists _, _. split; [reflexivity |]. split; [auto |]. split; [auto |].
  rewrite Et. cbn [rbind]. rewrite sub_add_word by auto. rewrite lxor_twice. now rewrite add_sub_word.
Qed.

Lemma final_line_ok x y k : word x -> word y -> 0 <= k < 32 ->
  exists x', final_line x y k = Ok x' /\ word x' /\ unfinal_line x' y k = Ok x.
Proof.
  intros Hx Hy Hk. destruct (rol_ok y k Hy Hk) as (t & Et & Ht). unfold final_line, unfinal_line. rewrite Et. cbn [rbind].
  eexists. split; [reflexivity |]. split; [auto |]. rewrite add_sub_word by auto. now rewrite lxor_twice.
Qed.

Lemma unfinal_line_ok x y k : word x -> word y -> 0 <= k < 32 ->
  exists x', unfinal_line x y k = Ok x' /\ word x' /\ final_line x' y k = Ok x.
Proof.
  intros Hx Hy Hk. destruct (rol_ok y k Hy Hk) as (t & Et & Ht). unfold final_line, unfinal_line. rewrite Et. cbn [rbind].
  eexists. split; [reflexivity |]. split; [auto |]. rewrite lxor_twice. now rewrite sub_add_word.
Qed.

(** Run a line, with its inverse in the context. *)
Ltac line L x y z k :=
  let x' := fresh x in let z' := fresh z in let E := fresh "E" in let R := fresh "R" in
  destruct (L x y z k) as (x' & z' & E & ? & ? & R); [assumption.. | lia |]; rewrite E; cbn [rbind].
Ltac line1 L x y k :=
  let x' := fresh x in let E := fresh "E" in let R := fresh "R" in
  destruct (L x y k) as (x' & E & ? & R); [assumption.. | lia |]; rewrite E; cbn [rbind].
Ltac unwind := repeat match goal with R : ?f = Ok _ |- context [?f] => rewrite R; cbn [rbind] end.

Lemma mix_ok s : words s -> exists s', __jhash_mix s = Ok s' /\ words s' /\ unmix s' = Ok s.
Proof.
  destruct s as [[a b] c]. intros (Ha & Hb & Hc). cbn in Ha, Hb, Hc. unfold __jhash_mix.
  line mix_line_ok a b c 4. line mix_line_ok b c0 a0 6. line mix_line_ok c0 a1 b0 8.
  line mix_line_ok a1 b1 c1 16. line mix_line_ok b1 c2 a2 19. line mix_line_ok c2 a3 b2 4.
  eexists. split; [reflexivity |]. split; [split; [|split]; assumption |]. unfold unmix. unwind. reflexivity.
Qed.

Lemma final_ok s : words s -> exists s', __jhash_final s = Ok s' /\ words s' /\ unfinal s' = Ok s.
Proof.
  destruct s as [[a b] c]. intros (Ha & Hb & Hc). cbn in Ha, Hb, Hc. unfold __jhash_final.
  line1 final_line_ok c b 14. line1 final_line_ok a c0 11. line1 final_line_ok b a0 25. line1 final_line_ok c0 b0 16.
  line1 final_line_ok a0 c1 4. line1 final_line_ok b0 a1 14. line1 final_line_ok c1 b1 24.
  eexists. split; [reflexivity |]. split; [split; [|split]; assumption |]. unfold unfinal. unwind. reflexivity.
Qed.

Lemma unmix_ok s : words s -> exists s', unmix s = Ok s' /\ words s' /\ __jhash_mix s' = Ok s.
Proof.
  destruct s as [[a b] c]. intros (Ha & Hb & Hc). cbn in Ha, Hb, Hc. unfold unmix.
  line unmix_line_ok c a b 4. line unmix_line_ok b0 c0 a 19. line unmix_line_ok a0 b1 c0 16.
  line unmix_line_ok c1 a1 b1 8. line unmix_line_ok b2 c2 a1 6. line unmix_line_ok a2 b3 c2 4.
  eexists. split; [reflexivity |]. split; [split; [|split]; assumption |]. unfold __jhash_mix. unwind. reflexivity.
Qed.

Lemma unfinal_ok s : words s -> exists s', unfinal s = Ok s' /\ words s' /\ __jhash_final s' = Ok s.
Proof.
  destruct s as [[a b] c]. intros (Ha & Hb & Hc). cbn in Ha, Hb, Hc. unfold unfinal.
  line1 unfinal_line_ok c b 24. line1 unfinal_line_ok b a 14. line1 unfinal_line_ok a c0 4. line1 unfinal_line_ok c0 b0 16.
  line1 unfinal_line_ok b0 a0 25. line1 unfinal_line_ok a0 c1 11. line1 unfinal_line_ok c1 b1 14.
  eexists. split; [reflexivity |]. split; [split; [|split]; assumption |]. unfold __jhash_final. unwind. reflexivity.
Qed.

(** Mixing loses nothing.  On three 32-bit words [__jhash_mix] and
    [__jhash_final] always return, and each is a bijection: running the lines
    backwards with the opposite operations gives the words back, from either
    side. *)
Theorem jhash_mix_reversible s :
  words s ->
  (exists s', __jhash_mix s = Ok s' /\ words s' /\ unmix s' = Ok s) /\
  (exists s', unmix s = Ok s' /\ words s' /\ __jhash_mix s' = Ok s) /\
  (exists s', __jhash_final s = Ok s' /\ words s' /\ unfinal s' = Ok s) /\
  (exists s', unfinal s = Ok s' /\ words s' /\ __jhash_final s' = Ok s).
Proof. intros Hs. split; [now apply mix_ok |]. split; [now apply unmix_ok |]. split; [now apply final_ok | now apply unfinal_ok]. Qed.

Lemma jhash_mix_reversible_witness : exists s', __jhash_mix (1, 2, 3) = Ok s' /\ unmix s' = Ok (1, 2, 3).
Proof.
  destruct (jhash_mix_reversible (1, 2, 3)) as ((s' & E & _ & R) & _); [cbn; unfold words, word; cbn; lia |].
  exists s'. auto.
Defined.

(** ** The hash of a list of words *)

Definition add3 (s : Z * Z * Z) (x y z : Z) : Z * Z * Z := (s.1.1 ⊞ x, s.1.2 ⊞ y, s.2 ⊞ z).
Definition mixed (s : Z * Z * Z) : Z * Z * Z := match __jhash_mix s with Ok s => s | Err _ => s end.
Definition finished (s : Z * Z * Z) : Z := match __jhash_final s with Ok s => s.2 | Err _ => 0 end.

(** Three words at a time, the last ones filled up with zeros. *)
Fixpoint hash_words (s : Z * Z * Z) (ws : list Z) : Z :=
  match ws with
  | [] => s.2
  | [x] => finished (add3 s x 0 0)
  | [x; y] => finished (add3 s x y 0)
  | [x; y; z] => finished (add3 s x y z)
  | x :: y :: z :: rest => hash_words (mixed (add3 s x y z)) rest
  end.

(** The words of a byte string, the last one filled up with zeros. *)
Fixpoint words_of (bs : list Z) : list Z :=
  match bs with
  | [] => []
  | [b0] => [le32 b0 0 0 0]
  | [b0; b1] => [le32 b0 b1 0 0]
  | [b0; b1; b2] => [le32 b0 b1 b2 0]
  | b0 :: b1 :: b2 :: b3 :: rest => le32 b0 b1 b2 b3 :: words_of rest
  end.

Definition start (length initval : Z) : Z * Z * Z :=
  let n := JHASH_INITVAL ⊞ length ⊞ initval in (n, n, n).

Lemma words_start length initval : words (start length initval).
Proof. split; [|split]; apply word_u32. Qed.
Lemma words_add3 s x y z : words (add3 s x y z).
Proof. split; [|split]; apply word_u32. Qed.

Lemma mix_run s : words s -> __jhash_mix s = Ok (mixed s) /\ words (mixed s).
Proof. intros Hs. unfold mixed. destruct (mix_ok s Hs) as (s' & -> & Hw & _). auto. Qed.
Lemma final_run s : words s -> (let! (_, _, c) := __jhash_final s in Ok c) = Ok (finished s).
Proof. intros Hs. unfold finished. destruct (final_ok s Hs) as ([[a b] c] & -> & _). reflexivity. Qed.

Lemma byte_at_ok m k n bs i x : load m k n = Ok bs -> 0 <= i -> bs !! Z.to_nat i = Some x -> byte_at m k i = Ok x.
Proof.
  intros Hl Hi Hx. pose proof (load_length _ _ _ _ Hl) as Hlen. pose proof (lookup_lt_Some _ _ _ Hx) as Hlt.
  destruct (load_split m k n bs i Hl) as [_ H1]; [lia |].
  destruct (load_split m (padd k i) (n - i) _ 1 H1) as [H2 _]; [lia |].
  unfold byte_at. rewrite H2. cbn [rbind]. erewrite drop_S by exact Hx. reflexivity.
Qed.

(** The bytes beyond the end count as zeros. *)
Lemma tail_case_ok m k bs j sh x : load m k (zlen bs) = Ok bs -> word x -> 1 <= j -> 0 <= sh ->
  tail_case m k (zlen bs) j sh x = Ok (u32 (x + nth (Z.to_nat (j - 1)) bs 0 * 2 ^ sh)).
Proof.
  intros Hl Hx Hj Hs. unfold tail_case. destruct (Z.leb_spec j (zlen bs)) as [Hle|Hgt]; unfold zlen in *.
  - destruct (nth_lookup_or_length bs (Z.to_nat (j - 1)) 0) as [E|E]; [|lia].
    rewrite (byte_at_ok m k _ bs (j - 1) _ Hl ltac:(lia) E). cbn [rbind].
    rewrite u32_add_r, Z.shiftl_mul_pow2 by lia. reflexivity.
  - rewrite nth_overflow by lia. rewrite Z.mul_0_l, Z.add_0_r, u32_small by exact Hx. reflexivity.
Qed.

(** What the fallthrough adds to one word. *)
Lemma quad_sum x b0 b1 b2 b3 :
  u32 (u32 (u32 (u32 (x + b3 * 2 ^ 24) + b2 * 2 ^ 16) + b1 * 2 ^ 8) + b0 * 2 ^ 0) = x ⊞ le32 b0 b1 b2 b3.
Proof.
  rewrite (u32_add_l (x + b3 * 2 ^ 24)), (u32_add_l (x + b3 * 2 ^ 24 + b2 * 2 ^ 16)), u32_add_l. unfold le32. f_equal. ring.
Qed.

Lemma jhash_tail_ok m k bs s :
  load m k (zlen bs) = Ok bs -> (length bs <= 12)%nat -> words s ->
  jhash_tail m k (zlen bs) s = Ok (hash_words s (words_of bs)).
Proof.
  intros Hl Hn Hs. destruct s as [[a b] c]. pose proof Hs as (Ha & Hb & Hc). cbn in Ha, Hb, Hc. unfold jhash_tail.
  do 12 (rewrite (tail_case_ok m k bs _ _ _ Hl) by first [assumption | apply word_u32 | lia]; cbn [rbind]).
  rewrite !quad_sum. rewrite final_run by (split; [|split]; apply word_u32). clear Hl.
  destruct bs as [|b0 bs]; [change (1 <=? zlen []) with false; cbn; now rewrite Z.add_0_r, (u32_small c) by exact Hc |].
  rewrite (proj2 (Z.leb_le _ _)) by (unfold zlen; cbn; lia). f_equal.
  assert (le32 0 0 0 0 = 0) as E0 by reflexivity.
  do 12 (destruct bs as [|? bs]; [cbn [nth Z.to_nat Z.sub Z.add Z.opp Z.pos_sub Pos.pred_double Pos.to_nat Pos.iter_op Nat.add words_of hash_words]; rewrite ?E0; reflexivity |]).
  cbn in Hn. lia.
Qed.

Lemma get_u32_ok m k n b0 b1 b2 b3 rest :
  load m k n = Ok (b0 :: b1 :: b2 :: b3 :: rest) -> 0 <= n ->
  __get_unaligned_cpu32 m k = Ok (le32 b0 b1 b2 b3) /\ load m (padd k 4) (n - 4) = Ok rest.
Proof.
  intros Hl Hn. pose proof (load_length _ _ _ _ Hl) as Hlen. cbn [length] in Hlen.
  destruct (load_split m k n _ 4 Hl) as [H1 H2]; [lia |]. unfold __get_unaligned_cpu32. rewrite H1. auto.
Qed.

(** Thirteen bytes or more: one block and a rest that is not empty. *)
Lemma block_split (bs : list Z) :
  (12 < length bs)%nat -> exists b0 b1 b2 b3 b4 b5 b6 b7 b8 b9 b10 b11 x rest,
    bs = b0 :: b1 :: b2 :: b3 :: b4 :: b5 :: b6 :: b7 :: b8 :: b9 :: b10 :: b11 :: x :: rest.
Proof.
  intros H. do 13 (destruct bs as [|? bs]; [cbn in H; lia |]). repeat eexists.
Qed.

Lemma words_of_block b0 b1 b2 b3 b4 b5 b6 b7 b8 b9 b10 b11 x rest s :
  hash_words s (words_of (b0 :: b1 :: b2 :: b3 :: b4 :: b5 :: b6 :: b7 :: b8 :: b9 :: b10 :: b11 :: x :: rest)) =
  hash_words (mixed (add3 s (le32 b0 b1 b2 b3) (le32 b4 b5 b6 b7) (le32 b8 b9 b10 b11))) (words_of (x :: rest)).
Proof. destruct rest as [|y [|z [|u rest]]]; cbn [words_of hash_words]; reflexivity. Qed.

Lemma jhash_run fuel : forall m k bs s,
  load m k (zlen bs) = Ok bs -> zlen bs < 2 ^ 32 -> (length bs <= 12 * fuel + 12)%nat -> words s ->
  (let! (k, length, s) := jhash_loop fuel m k (zlen bs) s in jhash_tail m k length s) = Ok (hash_words s (words_of bs)).
Proof.
  induction fuel as [|fuel IH]; intros m k bs s Hl Hz Hn Hs; cbn [jhash_loop].
  - rewrite (proj2 (Z.ltb_ge _ _)) by (unfold zlen; lia). cbn [rbind]. apply jhash_tail_ok; [exact Hl | lia | exact Hs].
  - destruct (Z.ltb_spec 12 (zlen bs)) as [Hgt|Hle]; [|cbn [rbind]; apply jhash_tail_ok; [exact Hl | unfold zlen in Hle; lia | exact Hs]].
    destruct (block_split bs) as (b0 & b1 & b2 & b3 & b4 & b5 & b6 & b7 & b8 & b9 & b10 & b11 & x & rest & ->); [unfold zlen in Hgt; lia |].
    set (bs' := x :: rest) in *. pose proof (zlen_nonneg bs').
    destruct (get_u32_ok _ _ _ _ _ _ _ _ Hl ltac:(lia)) as [-> H4].
    destruct (get_u32_ok _ _ _ _ _ _ _ _ H4 ltac:(lia)) as [-> H8]. rewrite padd_padd in H8. change (4 + 4) with 8 in H8.
    destruct (get_u32_ok _ _ _ _ _ _ _ _ H8 ltac:(lia)) as [-> H12]. rewrite padd_padd in H12. change (8 + 4) with 12 in H12.
    destruct s as [[a b] c]. cbn [rbind].
    destruct (mix_run (add3 (a, b, c) (le32 b0 b1 b2 b3) (le32 b4 b5 b6 b7) (le32 b8 b9 b10 b11)) (words_add3 _ _ _ _)) as [Em Hw].
    unfold add3 at 1 in Em. cbn [fst snd] in Em. rewrite Em. cbn [rbind].
    set (L := zlen (b0 :: _)) in *. assert (L = 12 + zlen bs') as EL by (unfold L, zlen; cbn [length]; lia).
    rewrite u32_small by lia. replace (L - 12) with (zlen bs') by lia. replace (L - 4 - 4 - 4) with (zlen bs') in H12 by lia.
    unfold bs' in *. rewrite words_of_block. apply IH; [exact H12 | lia | cbn [length] in Hn |- *; lia | exact Hw].
Qed.

(** Groups of four bytes. *)
Lemma quads_split (bs : list Z) n : length bs = (4 * S n)%nat ->
  exists b0 b1 b2 b3 rest, bs = b0 :: b1 :: b2 :: b3 :: rest /\ length rest = (4 * n)%nat.
Proof. intros H. do 4 (destruct bs as [|? bs]; [cbn in H; lia |]). repeat eexists. cbn in H. lia. Qed.

Lemma words_of_length n : forall bs, length bs = (4 * n)%nat -> length (words_of bs) = n.
Proof.
  induction n as [|n IH]; intros bs H; [now destruct bs |].
  destruct (quads_split bs n H) as (b0 & b1 & b2 & b3 & rest & -> & Hr). cbn [words_of length]. now rewrite IH.
Qed.

Lemma word_at_ok i : forall m k bs n, load m k (zlen bs) = Ok bs -> length bs = (4 * n)%nat -> (i < n)%nat ->
  word_at m k (Z.of_nat i) = Ok (nth i (words_of bs) 0).
Proof.
  induction i as [|i IH]; intros m k bs n Hl Hlen Hi; (destruct n as [|n]; [lia |]);
    destruct (quads_split bs n Hlen) as (b0 & b1 & b2 & b3 & rest & -> & Hr); unfold word_at;
    destruct (get_u32_ok _ _ _ _ _ _ _ _ Hl (zlen_nonneg _)) as [E H4]; cbn [words_of nth].
  - rewrite <- E. f_equal. unfold padd. destruct k. cbn. f_equal. lia.
  - rewrite <- (IH m (padd k 4) rest n); [unfold word_at; f_equal; rewrite padd_padd; f_equal; lia | | exact Hr | lia].
    rewrite <- H4. f_equal. unfold zlen. cbn [length]. lia.
Qed.

Lemma tail_word_ok m k bs n j x : load m k (zlen bs) = Ok bs -> length bs = (4 * n)%nat -> word x -> 1 <= j ->
  tail_word m k (Z.of_nat n) j x = Ok (x ⊞ nth (Z.to_nat (j - 1)) (words_of bs) 0).
Proof.
  intros Hl Hlen Hx Hj. unfold tail_word. destruct (Z.leb_spec j (Z.of_nat n)) as [Hle|Hgt].
  - pose proof (word_at_ok (Z.to_nat (j - 1)) m k bs n Hl Hlen ltac:(lia)) as E. rewrite Z2Nat.id in E by lia. now rewrite E.
  - rewrite nth_overflow by (rewrite (words_of_length n) by exact Hlen; lia). rewrite Z.add_0_r. now rewrite u32_small.
Qed.

Lemma jhash2_tail_ok m k bs n s :
  load m k (zlen bs) = Ok bs -> length bs = (4 * n)%nat -> (n <= 3)%nat -> words s ->
  jhash2_tail m k (Z.of_nat n) s = Ok (hash_words s (words_of bs)).
Proof.
  intros Hl Hlen Hn Hs. destruct s as [[a b] c]. pose proof Hs as (Ha & Hb & Hc). cbn in Ha, Hb, Hc. unfold jhash2_tail.
  do 3 (rewrite (tail_word_ok m k bs n _ _ Hl Hlen) by first [assumption | lia]; cbn [rbind]).
  rewrite final_run by (split; [|split]; apply word_u32). clear Hl. pose proof (words_of_length n bs Hlen) as HL. clear Hlen.
  destruct (words_of bs) as [|w0 ws]; cbn [length] in HL; subst n.
  - change (1 <=? Z.of_nat 0) with false. cbn. now rewrite Z.add_0_r, (u32_small c) by exact Hc.
  - rewrite (proj2 (Z.leb_le _ _)) by lia. f_equal.
    do 3 (destruct ws as [|? ws]; [cbn [nth Z.to_nat Z.sub Z.add Z.opp Z.pos_sub Pos.pred_double Pos.to_nat Pos.iter_op Nat.add hash_words]; reflexivity |]).
    cbn in Hn. lia.
Qed.

Lemma jhash2_run fuel : forall m k bs n s,
  load m k (zlen bs) = Ok bs -> length bs = (4 * n)%nat -> Z.of_nat n < 2 ^ 32 -> (n <= 3 * fuel + 3)%nat -> words s ->
  (let! (k, length, s) := jhash2_loop fuel m k (Z.of_nat n) s in jhash2_tail m k length s) = Ok (hash_words s (words_of bs)).
Proof.
  induction fuel as [|fuel IH]; intros m k bs n s Hl Hlen Hz Hn Hs; cbn [jhash2_loop].
  - rewrite (proj2 (Z.ltb_ge _ _)) by lia. cbn [rbind]. apply jhash2_tail_ok; [exact Hl | exact Hlen | lia | exact Hs].
  - destruct (Z.ltb_spec 3 (Z.of_nat n)) as [Hgt|Hle]; [|cbn [rbind]; apply jhash2_tail_ok; [exact Hl | exact Hlen | lia | exact Hs]].
    destruct s as [[a b] c].
    pose proof (word_at_ok 0 m k bs n Hl Hlen ltac:(lia)) as E0. pose proof (word_at_ok 1 m k bs n Hl Hlen ltac:(lia)) as E1.
    pose proof (word_at_ok 2 m k bs n Hl Hlen ltac:(lia)) as E2. change (Z.of_nat 0) with 0 in E0. change (Z.of_nat 1) with 1 in E1. change (Z.of_nat 2) with 2 in E2. rewrite E0, E1, E2. cbn [rbind].
    destruct (block_split bs) as (b0 & b1 & b2 & b3 & b4 & b5 & b6 & b7 & b8 & b9 & b10 & b11 & x & rest & ->); [lia |].
    rewrite words_of_block. cbn [words_of nth].
    destruct (mix_run (add3 (a, b, c) (le32 b0 b1 b2 b3) (le32 b4 b5 b6 b7) (le32 b8 b9 b10 b11)) (words_add3 _ _ _ _)) as [Em Hw].
    unfold add3 at 1 in Em. cbn [fst snd] in Em. rewrite Em. cbn [rbind]. rewrite u32_small by lia.
    replace (Z.of_nat n - 3) with (Z.of_nat (n - 3)) by lia. cbn [length] in Hlen.
    apply (IH m (padd k 12) (x :: rest) (n - 3)%nat); [| cbn [length]; lia | lia | lia | exact Hw].
    destruct (load_split _ _ _ _ 12 Hl) as [_ H12]; [unfold zlen; cbn [length]; lia |].
    replace (zlen _ - 12) with (zlen (x :: rest)) in H12 by (unfold zlen; cbn [length]; lia). exact H12.
Qed.

(** Hashing reads its key and nothing else.  On a key of [length] bytes that
    can be read, [jhash] returns within a twelfth of its length in steps, and
    the result depends on these bytes only: it is the hash of their
    little-endian words, the last one filled up with zeros.  Hence [jhash2] of
    an array of words is [jhash] of its bytes, and [jhash_1word],
    [jhash_2words] and [jhash_3words] are the hashes of one to three words. *)
Theorem jhash_agree fuel m key bs n initval a b c :
  load m key (zlen bs) = Ok bs -> zlen bs < 2 ^ 30 -> (length bs <= 12 * fuel + 12)%nat -> word a -> word b -> word c ->
  jhash fuel m key (zlen bs) initval = Ok (hash_words (start (zlen bs) initval) (words_of bs)) /\
  (length bs = (4 * n)%nat -> jhash2 fuel m key (Z.of_nat n) initval = jhash fuel m key (zlen bs) initval) /\
  jhash_3words a b c initval = Ok (hash_words (start 12 initval) [a; b; c]) /\
  jhash_2words a b initval = Ok (hash_words (start 8 initval) [a; b]) /\
  jhash_1word a initval = Ok (hash_words (start 4 initval) [a]).
Proof.
  intros Hl Hz Hf Ha Hb Hc.
  assert (jhash fuel m key (zlen bs) initval = Ok (hash_words (start (zlen bs) initval) (words_of bs))) as E.
  { unfold jhash. apply jhash_run; [exact Hl | lia | exact Hf | apply words_start]. }
  split; [exact E |]. split.
  - intros Hn. rewrite E. unfold jhash2. rewrite Z.shiftl_mul_pow2 by lia.
    assert (zlen bs = Z.of_nat n * 2 ^ 2) as Ez by (unfold zlen; rewrite Hn; lia). rewrite <- Ez, (u32_small (zlen bs)) by (pose proof (zlen_nonneg bs); lia).
    apply jhash2_run; [exact Hl | exact Hn | lia | lia | apply words_start].
  - assert (forall x y z k, word k -> __jhash_nwords x y z (initval ⊞ JHASH_INITVAL ⊞ k) = Ok (finished (add3 (start k initval) x y z))) as H.
    { intros x y z k Hk. unfold __jhash_nwords. rewrite final_run by (split; [|split]; apply word_u32). do 2 f_equal.
      assert (forall v, v ⊞ (initval ⊞ JHASH_INITVAL ⊞ k) = JHASH_INITVAL ⊞ k ⊞ initval ⊞ v) as Ev.
      { intros v. rewrite (u32_add_l (initval + JHASH_INITVAL)), u32_add_r, (u32_add_l (JHASH_INITVAL + k)), u32_add_l. f_equal. lia. }
      unfold add3, start. cbn [fst snd]. now rewrite !Ev. }
    unfold jhash_3words, jhash_2words, jhash_1word. cbn [hash_words]. repeat split; apply H; unfold word; lia.
Qed.

Lemma jhash_agree_witness :
  let m := Mem {[ 1 := [1; 0; 0; 0; 2; 0; 0; 0] ]} ∅ in
  jhash 0 m (Ptr 1 0) 8 7 = jhash_2words 1 2 7.
Proof.
  intros m. destruct (jhash_agree 0 m (Ptr 1 0) [1; 0; 0; 0; 2; 0; 0; 0] 2 7 1 2 0) as (H1 & _ & _ & H2 & _).
  - reflexivity.
  - reflexivity.
  - cbn. lia.
  - unfold word. lia.
  - unfold word. lia.
  - unfold word. lia.
  - transitivity (Ok (hash_words (start 8 7) [1; 2])); [exact H1 | symmetry; exact H2].
Defined.
End Jhash.
