(* ===== verification/Swab.v ===== *)
(** * Byte swapping

    uapi/linux/swab.h with x86/uapi/asm/swab.h: the constant forms that mask
    and shift, the [bswapl] instruction, and the variants that work on memory.
    Words are stored little endian. *)

From Stdlib Require Import Btauto.
From S2P Require Import Prelude Bytes Memory.
Import Bytes Memory.

Module Swab.

(** ** Words and bytes *)

Fixpoint le (bs : list Z) : Z := match bs with [] => 0 | b :: bs => b + 256 * le bs end.
Fixpoint bytes_of (n : nat) (x : Z) : list Z :=
  match n with O => [] | S n => x mod 256 :: bytes_of n (x / 256) end.

Definition is_byte (b : Z) : Prop := 0 <= b < 256.

(** ** Operations *)

Definition ___constant_swab16 (x : Z) : Z :=
  u16 (Z.shiftl (x .& 0x00ff) 8 .| Z.shiftr (x .& 0xff00) 8).
Definition ___constant_swab32 (x : Z) : Z :=
  u32 (Z.shiftl (x .& 0x000000ff) 24 .| Z.shiftl (x .& 0x0000ff00) 8 .|
       Z.shiftr (x .& 0x00ff0000) 8 .| Z.shiftr (x .& 0xff000000) 24).
Definition ___constant_swab64 (x : Z) : Z :=
  (Z.shiftl (x .& 0x00000000000000ff) 56 .| Z.shiftl (x .& 0x000000000000ff00) 40 .|
   Z.shiftl (x .& 0x0000000000ff0000) 24 .| Z.shiftl (x .& 0x00000000ff000000) 8 .|
   Z.shiftr (x .& 0x000000ff00000000) 8 .| Z.shiftr (x .& 0x0000ff0000000000) 24 .|
   Z.shiftr (x .& 0x00ff000000000000) 40 .| Z.shiftr (x .& 0xff00000000000000) 56) mod 2 ^ 64.
Definition ___constant_swahw32 (x : Z) : Z :=
  u32 (Z.shiftl (x .& 0x0000ffff) 16 .| Z.shiftr (x .& 0xffff0000) 16).
Definition ___constant_swahb32 (x : Z) : Z :=
  u32 (Z.shiftl (x .& 0x00ff00ff) 8 .| Z.shiftr (x .& 0xff00ff00) 8).

(** The instruction reverses the four bytes of a register. *)
Definition bswapl (x : Z) : Z := le (reverse (bytes_of 4 x)).
Definition __arch_swab32 (val : Z) : Z := bswapl val.
(** [bswapl] both halves and exchange them. *)
Definition __arch_swab64 (val : Z) : Z :=
  let a := u32 val in
  let b := u32 (Z.shiftr val 32) in
  let '(a, b) := (bswapl b, bswapl a) in
  a + 2 ^ 32 * b.

Definition __fswab16 (val : Z) : Z := ___constant_swab16 val.
Definition __fswab32 (val : Z) : Z := __arch_swab32 val.
Definition __fswab64 (val : Z) : Z := __arch_swab64 val.
Definition __fswahw32 (val : Z) : Z := ___constant_swahw32 val.
Definition __fswahb32 (val : Z) : Z := ___constant_swahb32 val.

(** [const]: whether the compiler knows the argument. *)
Definition __swab16 (const : bool) (x : Z) : Z := if const then ___constant_swab16 x else __fswab16 x.
Definition __swab32 (const : bool) (x : Z) : Z := if const then ___constant_swab32 x else __fswab32 x.
Definition __swab64 (const : bool) (x : Z) : Z := if const then ___constant_swab64 x else __fswab64 x.
Definition __swahw32 (const : bool) (x : Z) : Z := if const then ___constant_swahw32 x else __fswahw32 x.
Definition __swahb32 (const : bool) (x : Z) : Z := if const then ___constant_swahb32 x else __fswahb32 x.

(** A word of [n] bytes in memory. *)
Definition get (n : nat) (m : mem) (p : ptr) : res Z := let! bs := load m p (Z.of_nat n) in Ok (le bs).
Definition put (n : nat) (m : mem) (p : ptr) (x : Z) : res mem := store m p (bytes_of n x).

Definition __swab16p (m : mem) (p : ptr) : res Z := let! x := get 2 m p in Ok (__swab16 false x).
Definition __swab32p (m : mem) (p : ptr) : res Z := let! x := get 4 m p in Ok (__swab32 false x).
Definition __swab64p (m : mem) (p : ptr) : res Z := let! x := get 8 m p in Ok (__swab64 false x).
Definition __swahw32p (m : mem) (p : ptr) : res Z := let! x := get 4 m p in Ok (__swahw32 false x).
Definition __swahb32p (m : mem) (p : ptr) : res Z := let! x := get 4 m p in Ok (__swahb32 false x).

Definition __swab16s (m : mem) (p : ptr) : res mem := let! x := __swab16p m p in put 2 m p x.
Definition __swab32s (m : mem) (p : ptr) : res mem := let! x := __swab32p m p in put 4 m p x.
Definition __swab64s (m : mem) (p : ptr) : res mem := let! x := __swab64p m p in put 8 m p x.
Definition __swahw32s (m : mem) (p : ptr) : res mem := let! x := __swahw32p m p in put 4 m p x.
Definition __swahb32s (m : mem) (p : ptr) : res mem := let! x := __swahb32p m p in put 4 m p x.

(** ** Facts *)

Lemma le_range bs : Forall is_byte bs -> 0 <= le bs < 256 ^ zlen bs.
Proof.
  unfold zlen. induction 1 as [|b bs Hb _ IH]; [cbn; lia |]. cbn [le length]. unfold is_byte in Hb.
  rewrite Nat2Z.inj_succ, Z.pow_succ_r by lia. lia.
Qed.

Lemma bytes_le bs : Forall is_byte bs -> bytes_of (length bs) (le bs) = bs.
Proof.
  induction 1 as [|b bs Hb _ IH]; [reflexivity |]. cbn [length bytes_of le]. unfold is_byte in Hb.
  rewrite (Z.mul_comm 256), Z.mod_add, Z.mod_small, Z.div_add, Z.div_small by lia. now rewrite Z.add_0_l, IH.
Qed.

Lemma le_bytes n : forall x, 0 <= x < 256 ^ Z.of_nat n -> le (bytes_of n x) = x.
Proof.
  induction n as [|n IH]; intros x Hx; [cbn in *; lia |]. cbn [bytes_of le]. rewrite Nat2Z.inj_succ, Z.pow_succ_r in Hx by lia.
  rewrite IH; [pose proof (Z.div_mod x 256); lia |]. split; [apply Z.div_pos; lia | apply Z.div_lt_upper_bound; lia].
Qed.

Lemma bytes_range n : forall x, Forall is_byte (bytes_of n x) /\ length (bytes_of n x) = n.
Proof.
  induction n as [|n IH]; intros x; [split; [constructor | reflexivity] |]. destruct (IH (x / 256)). cbn [bytes_of length].
  split; [constructor; [apply Z.mod_pos_bound; lia | assumption] | congruence].
Qed.

(** The byte at bit [k] of a sum of bytes. *)
Lemma le_field bs k b : Forall is_byte bs -> bs !! k = Some b ->
  Z.land (le bs) (Z.shiftl 255 (8 * Z.of_nat k)) = Z.shiftl b (8 * Z.of_nat k).
Proof.
  intros Hbs. revert k. induction Hbs as [|c bs Hc Hbs IH]; intros k Hk; [discriminate |]. cbn [le].
  assert (0 <= 256 * le bs) by (pose proof (le_range bs Hbs); lia). unfold is_byte in Hc.
  replace (c + 256 * le bs) with (Z.lor c (Z.shiftl (le bs) 8)) by (rewrite lor_shiftl by lia; change (2 ^ 8) with 256; lia).
  assert ((forall j, Z.land c (Z.shiftl 255 (8 * Z.of_nat (S j))) = 0) /\ Z.land (Z.shiftl (le bs) 8) 255 = 0) as [E1 E2].
  { split; [intros j |]; apply Z.bits_inj'; intros i Hi; rewrite Z.land_spec, Z.bits_0, Z.shiftl_spec by lia.
    - destruct (Z.lt_ge_cases i 8); [now rewrite (Z.testbit_neg_r 255) by lia; rewrite andb_false_r |].
      rewrite <- (Z.mod_small c (2 ^ 8)), Z.mod_pow2_bits_high by (change (2 ^ 8) with 256; lia). reflexivity.
    - destruct (Z.lt_ge_cases i 8); [now rewrite (Z.testbit_neg_r (le bs)) by lia |].
      change 255 with (Z.ones 8). rewrite Z.ones_spec_high by lia. apply andb_false_r. }
  rewrite Z.land_lor_distr_l. destruct k as [|k].
  - injection Hk as ->. cbn [Z.of_nat Z.mul]. rewrite !Z.shiftl_0_r, E2, Z.lor_0_r. change 255 with (2 ^ 8 - 1).
    rewrite land_mask, Z.mod_small by (change (2 ^ 8) with 256; lia). reflexivity.
  - rewrite E1, Z.lor_0_l. replace (8 * Z.of_nat (S k)) with (8 * Z.of_nat k + 8) by lia.
    rewrite <- !Z.shiftl_shiftl by lia. rewrite <- Z.shiftl_land. f_equal. now apply IH.
Qed.

(** A word as the union of its bytes. *)
Lemma le_lor b bs : is_byte b -> Forall is_byte bs -> le (b :: bs) = Z.lor b (Z.shiftl (le bs) 8).
Proof. intros Hb Hbs. unfold is_byte in Hb. cbn [le]. rewrite lor_shiftl by lia. change (2 ^ 8) with 256. lia. Qed.

Ltac lor_ac := apply Z.bits_inj'; intros ? ?; rewrite ?Z.lor_spec; btauto.
Ltac all_bytes := repeat (apply Forall_cons_2; [assumption |]); try apply Forall_nil_2.

(** Evaluate the shift counts. *)
Ltac shift_counts :=
  repeat match goal with
    | |- context [Z.shiftl _ (?a + ?b)] => let c := eval compute in (a + b) in change (a + b) with c
    | |- context [Z.shiftl _ (?a - ?b)] => let c := eval compute in (a - b) in change (a - b) with c
    end.

(** *** The constant forms reverse bytes *)

Lemma swab16_le b0 b1 : is_byte b0 -> is_byte b1 -> ___constant_swab16 (le [b0; b1]) = le [b1; b0].
Proof.
  intros H0 H1. assert (Forall is_byte [b0; b1]) as Hb by all_bytes. unfold ___constant_swab16.
  rewrite (le_field _ 0 b0 Hb eq_refl : Z.land _ 0x00ff = _), (le_field _ 1 b1 Hb eq_refl : Z.land _ 0xff00 = _).
  assert (Z.lor (Z.shiftl (Z.shiftl b0 (8 * Z.of_nat 0)) 8) (Z.shiftr (Z.shiftl b1 (8 * Z.of_nat 1)) 8) = le [b1; b0]) as ->.
  { rewrite Z.shiftl_0_r, Z.shiftr_shiftl_l by lia. change (8 * Z.of_nat 1 - 8) with 0. rewrite Z.shiftl_0_r.
    rewrite !le_lor by (assumption || all_bytes). cbn [le]. rewrite Z.shiftl_0_l, Z.lor_0_r. lor_ac. }
  unfold u16. apply Z.mod_small. apply (le_range [b1; b0]). all_bytes.
Qed.

Lemma swab32_le b0 b1 b2 b3 : is_byte b0 -> is_byte b1 -> is_byte b2 -> is_byte b3 ->
  ___constant_swab32 (le [b0; b1; b2; b3]) = le [b3; b2; b1; b0] /\
  ___constant_swahw32 (le [b0; b1; b2; b3]) = le [b2; b3; b0; b1] /\
  ___constant_swahb32 (le [b0; b1; b2; b3]) = le [b1; b0; b3; b2].
Proof.
  intros H0 H1 H2 H3. assert (Forall is_byte [b0; b1; b2; b3]) as Hb by all_bytes.
  pose proof (le_field _ 0 b0 Hb eq_refl : Z.land _ 0x000000ff = Z.shiftl b0 0) as F0.
  pose proof (le_field _ 1 b1 Hb eq_refl : Z.land _ 0x0000ff00 = Z.shiftl b1 8) as F1.
  pose proof (le_field _ 2 b2 Hb eq_refl : Z.land _ 0x00ff0000 = Z.shiftl b2 16) as F2.
  pose proof (le_field _ 3 b3 Hb eq_refl : Z.land _ 0xff000000 = Z.shiftl b3 24) as F3.
  set (x := le [b0; b1; b2; b3]) in *.
  assert (forall c0 c1 c2 c3, is_byte c0 -> is_byte c1 -> is_byte c2 -> is_byte c3 ->
    le [c0; c1; c2; c3] = Z.lor c0 (Z.lor (Z.shiftl c1 8) (Z.lor (Z.shiftl c2 16) (Z.shiftl c3 24))) /\
    u32 (le [c0; c1; c2; c3]) = le [c0; c1; c2; c3]) as Hw.
  { intros c0 c1 c2 c3 C0 C1 C2 C3. split; [|apply u32_small, (le_range [c0; c1; c2; c3]); all_bytes].
    rewrite !le_lor by (assumption || all_bytes). cbn [le]. rewrite Z.shiftl_0_l, Z.lor_0_r, !Z.shiftl_lor, !Z.shiftl_shiftl by lia. reflexivity. }
  assert (forall m m', Z.land x (Z.lor m m') = Z.lor (Z.land x m) (Z.land x m')) as Hd by (intros; apply Z.land_lor_distr_r).
  unfold ___constant_swab32, ___constant_swahw32, ___constant_swahb32.
  change 0x0000ffff with (Z.lor 0x000000ff 0x0000ff00). change 0xffff0000 with (Z.lor 0x00ff0000 0xff000000).
  change 0x00ff00ff with (Z.lor 0x000000ff 0x00ff0000). change 0xff00ff00 with (Z.lor 0x0000ff00 0xff000000).
  rewrite !Hd, F0, F1, F2, F3, !Z.shiftl_lor, !Z.shiftr_lor.
  rewrite !Z.shiftr_shiftl_l, !Z.shiftl_shiftl by lia. shift_counts.
  destruct (Hw b3 b2 b1 b0) as [E1 R1]; try assumption. destruct (Hw b2 b3 b0 b1) as [E2 R2]; try assumption.
  destruct (Hw b1 b0 b3 b2) as [E3 R3]; try assumption.
  split; [|split]; [rewrite <- R1, E1 | rewrite <- R2, E2 | rewrite <- R3, E3]; f_equal; rewrite ?Z.shiftl_0_r; lor_ac.
Qed.

Lemma swab64_le b0 b1 b2 b3 b4 b5 b6 b7 :
  is_byte b0 -> is_byte b1 -> is_byte b2 -> is_byte b3 -> is_byte b4 -> is_byte b5 -> is_byte b6 -> is_byte b7 ->
  ___constant_swab64 (le [b0; b1; b2; b3; b4; b5; b6; b7]) = le [b7; b6; b5; b4; b3; b2; b1; b0].
Proof.
  intros H0 H1 H2 H3 H4 H5 H6 H7. assert (Forall is_byte [b0; b1; b2; b3; b4; b5; b6; b7]) as Hb by all_bytes.
  pose proof (le_field _ 0 b0 Hb eq_refl : Z.land _ 0x00000000000000ff = Z.shiftl b0 0) as F0.
  pose proof (le_field _ 1 b1 Hb eq_refl : Z.land _ 0x000000000000ff00 = Z.shiftl b1 8) as F1.
  pose proof (le_field _ 2 b2 Hb eq_refl : Z.land _ 0x0000000000ff0000 = Z.shiftl b2 16) as F2.
  pose proof (le_field _ 3 b3 Hb eq_refl : Z.land _ 0x00000000ff000000 = Z.shiftl b3 24) as F3.
  pose proof (le_field _ 4 b4 Hb eq_refl : Z.land _ 0x000000ff00000000 = Z.shiftl b4 32) as F4.
  pose proof (le_field _ 5 b5 Hb eq_refl : Z.land _ 0x0000ff0000000000 = Z.shiftl b5 40) as F5.
  pose proof (le_field _ 6 b6 Hb eq_refl : Z.land _ 0x00ff000000000000 = Z.shiftl b6 48) as F6.
  pose proof (le_field _ 7 b7 Hb eq_refl : Z.land _ 0xff00000000000000 = Z.shiftl b7 56) as F7.
  unfold ___constant_swab64. rewrite F0, F1, F2, F3, F4, F5, F6, F7, !Z.shiftr_shiftl_l, !Z.shiftl_shiftl by lia. shift_counts.
  transitivity (le [b7; b6; b5; b4; b3; b2; b1; b0] mod 2 ^ 64);
    [f_equal | apply Z.mod_small, (le_range [b7; b6; b5; b4; b3; b2; b1; b0]); all_bytes].
  rewrite !le_lor by (assumption || all_bytes). cbn [le]. rewrite Z.shiftl_0_l, Z.lor_0_r, !Z.shiftl_lor, !Z.shiftl_shiftl by lia.
  shift_counts. rewrite ?Z.shiftl_0_r. lor_ac.
Qed.

(** *** The instruction does the same *)

Lemma four_bytes x : 0 <= x < 2 ^ 32 -> exists b0 b1 b2 b3,
  is_byte b0 /\ is_byte b1 /\ is_byte b2 /\ is_byte b3 /\ x = le [b0; b1; b2; b3].
Proof.
  intros Hx. destruct (bytes_range 4 x) as [Hb _]. pose proof (le_bytes 4 x Hx) as E. cbn [bytes_of] in *.
  apply Forall_cons_1 in Hb as [? Hb]. apply Forall_cons_1 in Hb as [? Hb]. apply Forall_cons_1 in Hb as [? Hb]. apply Forall_cons_1 in Hb as [? _].
  exists (x mod 256), (x / 256 mod 256), (x / 256 / 256 mod 256), (x / 256 / 256 / 256 mod 256). do 4 (split; [assumption |]). now symmetry.
Qed.

Lemma bswapl_le bs : Forall is_byte bs -> length bs = 4%nat -> bswapl (le bs) = le (reverse bs).
Proof. intros Hb Hl. unfold bswapl. rewrite <- Hl, bytes_le by exact Hb. reflexivity. Qed.

Lemma arch_swab64_le b0 b1 b2 b3 b4 b5 b6 b7 :
  is_byte b0 -> is_byte b1 -> is_byte b2 -> is_byte b3 -> is_byte b4 -> is_byte b5 -> is_byte b6 -> is_byte b7 ->
  __arch_swab64 (le [b0; b1; b2; b3; b4; b5; b6; b7]) = le [b7; b6; b5; b4; b3; b2; b1; b0].
Proof.
  intros H0 H1 H2 H3 H4 H5 H6 H7. assert (Forall is_byte [b0; b1; b2; b3] /\ Forall is_byte [b4; b5; b6; b7]) as [Hl Hh] by (split; all_bytes).
  pose proof (le_range _ Hl) as Rl. pose proof (le_range _ Hh) as Rh. change (256 ^ zlen _) with W32 in Rl, Rh.
  assert (le [b0; b1; b2; b3; b4; b5; b6; b7] = le [b0; b1; b2; b3] + le [b4; b5; b6; b7] * W32) as -> by (cbn [le]; ring).
  unfold __arch_swab64. rewrite Z.shiftr_div_pow2 by lia. change (2 ^ 32) with W32.
  unfold u32 at 2. rewrite Z.mod_add, Z.mod_small, Z.div_add, Z.div_small, Z.add_0_l, u32_small by lia.
  rewrite !bswapl_le by (assumption || reflexivity). cbn [reverse rev_append app le]. ring.
Qed.

(** One word of [n] bytes swapped in place: [f] on bytes is [g] on memory. *)
Lemma swap_in_place n (f : Z -> Z) (g : list Z -> list Z) m p bs :
  load m p (Z.of_nat n) = Ok bs -> Forall is_byte bs ->
  (forall bs, Forall is_byte bs -> length bs = n -> f (le bs) = le (g bs) /\ Forall is_byte (g bs) /\ length (g bs) = n) ->
  exists m', (let! x := (let! x := get n m p in Ok (f x)) in put n m p x) = Ok m' /\ load m' p (Z.of_nat n) = Ok (g bs) /\
    only_block (blk p) m m'.
Proof.
  intros Hl Hb Hf. pose proof (load_length _ _ _ _ Hl) as Hlen. rewrite Nat2Z.id in Hlen. destruct (Hf bs Hb Hlen) as (E & Hg & Hgl).
  unfold get. rewrite Hl. cbn [rbind]. rewrite E. unfold put. pose proof (bytes_le _ Hg) as Eb. rewrite Hgl in Eb. rewrite Eb.
  assert (valid_at m p (zlen (g bs))) as Hv.
  { apply load_inv in Hl as (B & HB & Hbd & _). exists B. split; [exact HB |]. unfold zlen. now rewrite Hgl. }
  rewrite store_put by exact Hv. eexists. split; [reflexivity |]. split; [|apply put_bytes_only].
  apply load_put_bytes; [unfold zlen in Hv; now rewrite Hgl in Hv | now rewrite Nat2Z.id].
Qed.

Lemma list2 {A} (l : list A) : length l = 2%nat -> exists a b, l = [a; b].
Proof. intros H. do 2 (destruct l as [|? l]; [discriminate |]). destruct l; [eauto | discriminate]. Qed.
Lemma list4 {A} (l : list A) : length l = 4%nat -> exists a b c d, l = [a; b; c; d].
Proof. intros H. do 4 (destruct l as [|? l]; [discriminate |]). destruct l; [eauto | discriminate]. Qed.
Lemma list8 {A} (l : list A) : length l = 8%nat -> exists a b c d e f g h, l = [a; b; c; d; e; f; g; h].
Proof. intros H. do 8 (destruct l as [|? l]; [discriminate |]). destruct l; [repeat eexists | discriminate]. Qed.

Ltac byte_facts H := repeat (let H' := fresh in apply Forall_cons_1 in H as [H' H]).

Lemma swab_bytes const :
  (forall bs, Forall is_byte bs -> length bs = 2%nat -> __swab16 const (le bs) = le (reverse bs)) /\
  (forall bs, Forall is_byte bs -> length bs = 4%nat -> __swab32 const (le bs) = le (reverse bs)) /\
  (forall bs, Forall is_byte bs -> length bs = 8%nat -> __swab64 const (le bs) = le (reverse bs)).
Proof.
  split; [|split]; intros bs Hb Hl.
  - destruct (list2 bs Hl) as (a & b & ->). byte_facts Hb. change (reverse [a; b]) with [b; a].
    destruct const; cbn [__swab16]; [|unfold __fswab16]; apply swab16_le; assumption.
  - destruct const; [|apply bswapl_le; assumption]. destruct (list4 bs Hl) as (a & b & c & d & ->). byte_facts Hb.
    change (reverse [a; b; c; d]) with [d; c; b; a]. cbn [__swab32].
    destruct (swab32_le a b c d) as (E & _ & _); assumption.
  - destruct (list8 bs Hl) as (a & b & c & d & e & f & g & h & ->). byte_facts Hb.
    change (reverse [a; b; c; d; e; f; g; h]) with [h; g; f; e; d; c; b; a].
    destruct const; cbn [__swab64]; [|unfold __fswab64]; [apply swab64_le | apply arch_swab64_le]; assumption.
Qed.

(** Byte swapping.  On the little-endian bytes of a word, [__swab16],
    [__swab32] and [__swab64] reverse them, [__swahw32] exchanges the halves and
    [__swahb32] the bytes of each half; for [__swab32] and [__swab64] the
    masks and shifts used for constants and the [bswapl] instruction used
    otherwise agree. *)
Theorem swab_spec const bs :
  Forall is_byte bs ->
  (length bs = 2%nat -> __swab16 const (le bs) = le (reverse bs)) /\
  (length bs = 4%nat -> __swab32 const (le bs) = le (reverse bs) /\
     __swahw32 const (le bs) = le (drop 2 bs ++ take 2 bs) /\
     __swahb32 const (le bs) = le (reverse (take 2 bs) ++ reverse (drop 2 bs))) /\
  (length bs = 8%nat -> __swab64 const (le bs) = le (reverse bs)).
Proof.
  intros Hb. destruct (swab_bytes const) as (S16 & S32 & S64). split; [auto |]. split; [|auto]. intros Hl. split; [auto |].
  destruct (list4 bs Hl) as (a & b & c & d & ->). byte_facts Hb.
  destruct (swab32_le a b c d) as (_ & Ew & Eb); try assumption.
  split; destruct const; [exact Ew | exact Ew | exact Eb | exact Eb].
Qed.

Lemma swab_spec_witness : __swab32 false (le [1; 2; 3; 4]) = le [4; 3; 2; 1] /\ __swahb32 true (le [1; 2; 3; 4]) = le [2; 1; 4; 3].
Proof.
  assert (Forall is_byte [1; 2; 3; 4]) as Hb by (repeat constructor; discriminate).
  destruct (swab_spec false [1; 2; 3; 4] Hb) as (_ & H & _), (swab_spec true [1; 2; 3; 4] Hb) as (_ & H' & _).
  split; [apply H; reflexivity | apply H'; reflexivity].
Defined.

(** Swapping is its own inverse, on values and in memory: twice [__swab16],
    [__swab32] or [__swab64] of a word is the word, and [__swab16s],
    [__swab32s] and [__swab64s] reverse the bytes at the address, touching no
    other block. *)
Theorem swab_involutive const x y z m p bs :
  0 <= x < 2 ^ 16 -> 0 <= y < 2 ^ 32 -> 0 <= z < 2 ^ 64 -> Forall is_byte bs ->
  __swab16 const (__swab16 const x) = x /\ __swab32 const (__swab32 const y) = y /\ __swab64 const (__swab64 const z) = z /\
  (load m p 2 = Ok bs -> exists m', __swab16s m p = Ok m' /\ load m' p 2 = Ok (reverse bs) /\ only_block (blk p) m m') /\
  (load m p 4 = Ok bs -> exists m', __swab32s m p = Ok m' /\ load m' p 4 = Ok (reverse bs) /\ only_block (blk p) m m') /\
  (load m p 8 = Ok bs -> exists m', __swab64s m p = Ok m' /\ load m' p 8 = Ok (reverse bs) /\ only_block (blk p) m m').
Proof.
  intros Hx Hy Hz Hb. destruct (swab_bytes const) as (S16 & S32 & S64), (swab_bytes false) as (F16 & F32 & F64).
  assert (forall f n v, 0 <= v < 256 ^ Z.of_nat n ->
    (forall bs, Forall is_byte bs -> length bs = n -> f (le bs) = le (reverse bs)) -> f (f v) = v) as Htwice.
  { intros f n v Hv Hf. destruct (bytes_range n v) as [B1 B2]. rewrite <- (le_bytes n v Hv). rewrite (Hf (bytes_of n v)) by assumption.
    rewrite Hf; [now rewrite reverse_involutive | now apply Forall_reverse | now rewrite length_reverse]. }
  assert (forall n f, (forall bs, Forall is_byte bs -> length bs = n -> f (le bs) = le (reverse bs)) ->
    forall bs, Forall is_byte bs -> length bs = n -> f (le bs) = le (reverse bs) /\ Forall is_byte (reverse bs) /\ length (reverse bs) = n) as Hg.
  { intros n f Hf l Hl Hn. split; [auto |]. split; [now apply Forall_reverse | now rewrite length_reverse]. }
  split; [now apply (Htwice _ 2%nat) |]. split; [now apply (Htwice _ 4%nat) |]. split; [now apply (Htwice _ 8%nat) |].
  split; [|split]; intros Hl.
  - now apply (swap_in_place 2 (__swab16 false) reverse m p bs Hl Hb), Hg.
  - now apply (swap_in_place 4 (__swab32 false) reverse m p bs Hl Hb), Hg.
  - now apply (swap_in_place 8 (__swab64 false) reverse m p bs Hl Hb), Hg.
Qed.

Lemma swab_involutive_witness :
  __swab32 true (__swab32 true 0x12345678) = 0x12345678 /\
  exists m', __swab32s (Mem {[ 1 := [1; 2; 3; 4] ]} ∅) (Ptr 1 0) = Ok m' /\ load m' (Ptr 1 0) 4 = Ok [4; 3; 2; 1].
Proof.
  destruct (swab_involutive true 0 0x12345678 0 (Mem {[ 1 := [1; 2; 3; 4] ]} ∅) (Ptr 1 0) [1; 2; 3; 4]) as (_ & H & _ & _ & H4 & _).
  - lia.
  - lia.
  - lia.
  - repeat constructor; discriminate.
  - split; [exact H |]. destruct (H4 eq_refl) as (m' & E & L & _). exists m'. auto.
Defined.
End Swab.
