(* ===== verification/Bitmap.v ===== *)
(** * Bits in memory

    The operations on arrays of bits: asm-generic/bitops/non-atomic.h (on words,
    in C), x86/asm/bitops.h (one locked instruction, on a byte when the bit
    number is known at compile time and on a word otherwise), and the mask
    macros, bit loops and compare-and-exchange loops of linux/bitops.h.  Words
    have 32 bits and are little endian.

    [find_next_bit] and its kin are declared by asm-generic/bitops/find.h and
    defined nowhere in the tree: they are a parameter with their documented
    behaviour. *)

From S2P Require Import Prelude Bytes Memory Bitops Swab.
Import Bytes Memory Bitops Swab.

Module Bitmap.

(** ** Masks *)

Definition BITS_PER_LONG : Z := 32.
Definition BITS_PER_LONG_LONG : Z := 64.
Definition BITS_PER_BYTE : Z := 8.
Definition BIT (nr : Z) : res Z := shl 32 1 nr.
Definition BIT_ULL (nr : Z) : res Z := shl 64 1 nr.
Definition BIT_MASK (nr : Z) : Z := Z.shiftl 1 (Z.rem nr BITS_PER_LONG).
Definition BIT_WORD (nr : Z) : Z := Z.quot nr BITS_PER_LONG.
Definition BIT_ULL_MASK (nr : Z) : Z := Z.shiftl 1 (Z.rem nr BITS_PER_LONG_LONG).
Definition BIT_ULL_WORD (nr : Z) : Z := Z.quot nr BITS_PER_LONG_LONG.
Definition BITS_TO_LONGS (nr : Z) : Z := Z.quot (nr + BITS_PER_BYTE * 4 - 1) (BITS_PER_BYTE * 4).

Definition GENMASK (h l : Z) : res Z :=
  let! a := shl 32 (2 ^ 32 - 1) l in
  let! b := shr 32 (2 ^ 32 - 1) (BITS_PER_LONG - 1 - h) in
  Ok (a .& b).
Definition GENMASK_ULL (h l : Z) : res Z :=
  let! a := shl 64 (2 ^ 64 - 1) l in
  let! b := shr 64 (2 ^ 64 - 1) (BITS_PER_LONG_LONG - 1 - h) in
  Ok (a .& b).

(** ** asm-generic/bitops/non-atomic.h *)

(** [~mask] of an unsigned long. *)
Definition not32 (mask : Z) : Z := u32 (Z.lnot mask).

Definition generic___set_bit (nr : Z) (m : mem) (addr : ptr) : res mem :=
  let mask := BIT_MASK nr in
  let p := padd addr (4 * BIT_WORD nr) in
  let! w := get 4 m p in
  put 4 m p (w .| mask).

Definition generic___clear_bit (nr : Z) (m : mem) (addr : ptr) : res mem :=
  let mask := BIT_MASK nr in
  let p := padd addr (4 * BIT_WORD nr) in
  let! w := get 4 m p in
  put 4 m p (w .& not32 mask).

Definition generic___change_bit (nr : Z) (m : mem) (addr : ptr) : res mem :=
  let mask := BIT_MASK nr in
  let p := padd addr (4 * BIT_WORD nr) in
  let! w := get 4 m p in
  put 4 m p (Z.lxor w mask).

Definition generic___test_and_set_bit (nr : Z) (m : mem) (addr : ptr) : res (mem * bool) :=
  let mask := BIT_MASK nr in
  let p := padd addr (4 * BIT_WORD nr) in
  let! old := get 4 m p in
  let! m := put 4 m p (old .| mask) in
  Ok (m, negb ((old .& mask) =? 0)).

Definition generic___test_and_clear_bit (nr : Z) (m : mem) (addr : ptr) : res (mem * bool) :=
  let mask := BIT_MASK nr in
  let p := padd addr (4 * BIT_WORD nr) in
  let! old := get 4 m p in
  let! m := put 4 m p (old .& not32 mask) in
  Ok (m, negb ((old .& mask) =? 0)).

Definition generic___test_and_change_bit (nr : Z) (m : mem) (addr : ptr) : res (mem * bool) :=
  let mask := BIT_MASK nr in
  let p := padd addr (4 * BIT_WORD nr) in
  let! old := get 4 m p in
  let! m := put 4 m p (Z.lxor old mask) in
  Ok (m, negb ((old .& mask) =? 0)).

Definition generic_test_bit (nr : Z) (m : mem) (addr : ptr) : res bool :=
  let! w := get 4 m (padd addr (4 * BIT_WORD nr)) in
  let! x := shr 32 w (nr .& (BITS_PER_LONG - 1)) in
  Ok (truthy (1 .& x)).

(** ** x86/asm/bitops.h *)

(** The instructions [bts], [btr], [btc] and [bt] with a register operand: the
    bit string starts at the memory operand; the old bit goes to the carry. *)
Definition bit_insn (op : Z -> Z -> Z) (nr : Z) (m : mem) (addr : ptr) : res (mem * bool) :=
  let p := padd addr (4 * Z.shiftr nr 5) in
  let! w := get 4 m p in
  let! m := put 4 m p (op w (nr .& 31)) in
  Ok (m, Z.testbit w (nr .& 31)).
Definition bts := bit_insn Z.setbit.
Definition btr := bit_insn Z.clearbit.
Definition btc := bit_insn (fun w i => Z.lxor w (2 ^ i)).
Definition bt (nr : Z) (m : mem) (addr : ptr) : res bool :=
  let! w := get 4 m (padd addr (4 * Z.shiftr nr 5)) in
  Ok (Z.testbit w (nr .& 31)).

(** [orb], [andb] and [xorb] on a byte. *)
Definition byte_insn (op : Z -> Z -> Z) (m : mem) (p : ptr) (mask : Z) : res mem :=
  let! b := get 1 m p in
  put 1 m p (op b mask).

Definition CONST_MASK_ADDR (nr : Z) (addr : ptr) : ptr := padd addr (Z.shiftr nr 3).
Definition CONST_MASK (nr : Z) : Z := Z.shiftl 1 (nr .& 7).

(** [imm]: whether the compiler knows [nr] ([IS_IMMEDIATE]). *)
Definition set_bit (imm : bool) (nr : Z) (m : mem) (addr : ptr) : res mem :=
  if imm then byte_insn Z.lor m (CONST_MASK_ADDR nr addr) (u8 (CONST_MASK nr))
  else let! (m, _) := bts nr m addr in Ok m.

Definition __set_bit (nr : Z) (m : mem) (addr : ptr) : res mem := let! (m, _) := bts nr m addr in Ok m.

Definition clear_bit (imm : bool) (nr : Z) (m : mem) (addr : ptr) : res mem :=
  if imm then byte_insn Z.land m (CONST_MASK_ADDR nr addr) (u8 (Z.lnot (CONST_MASK nr)))
  else let! (m, _) := btr nr m addr in Ok m.

Definition clear_bit_unlock (imm : bool) (nr : Z) (m : mem) (addr : ptr) : res mem := clear_bit imm nr m addr.

Definition __clear_bit (nr : Z) (m : mem) (addr : ptr) : res mem := let! (m, _) := btr nr m addr in Ok m.

Definition __clear_bit_unlock (nr : Z) (m : mem) (addr : ptr) : res mem := __clear_bit nr m addr.

Definition __change_bit (nr : Z) (m : mem) (addr : ptr) : res mem := let! (m, _) := btc nr m addr in Ok m.

Definition change_bit (imm : bool) (nr : Z) (m : mem) (addr : ptr) : res mem :=
  if imm then byte_insn Z.lxor m (CONST_MASK_ADDR nr addr) (u8 (CONST_MASK nr))
  else let! (m, _) := btc nr m addr in Ok m.

Definition test_and_set_bit (nr : Z) (m : mem) (addr : ptr) : res (mem * bool) := bts nr m addr.
Definition test_and_set_bit_lock (nr : Z) (m : mem) (addr : ptr) : res (mem * bool) := test_and_set_bit nr m addr.
Definition __test_and_set_bit (nr : Z) (m : mem) (addr : ptr) : res (mem * bool) := bts nr m addr.
Definition test_and_clear_bit (nr : Z) (m : mem) (addr : ptr) : res (mem * bool) := btr nr m addr.
Definition __test_and_clear_bit (nr : Z) (m : mem) (addr : ptr) : res (mem * bool) := btr nr m addr.
Definition __test_and_change_bit (nr : Z) (m : mem) (addr : ptr) : res (mem * bool) := btc nr m addr.
Definition test_and_change_bit (nr : Z) (m : mem) (addr : ptr) : res (mem * bool) := btc nr m addr.

Definition constant_test_bit (nr : Z) (m : mem) (addr : ptr) : res bool :=
  let! w := get 4 m (padd addr (4 * Z.shiftr nr 5)) in
  Ok (negb ((Z.shiftl 1 (nr .& (BITS_PER_LONG - 1)) .& w) =? 0)).
Definition variable_test_bit (nr : Z) (m : mem) (addr : ptr) : res bool := bt nr m addr.
Definition test_bit (imm : bool) (nr : Z) (m : mem) (addr : ptr) : res bool :=
  if imm then constant_test_bit nr m addr else variable_test_bit nr m addr.

(** ** Loops of linux/bitops.h *)

(** The word at [ptr] is [v]; [env k] is what other threads do to it between
    the read and the exchange of round [k].  The result is the word and the
    value of the macro. *)
Fixpoint set_mask_bits (env : nat -> Z -> Z) (fuel k : nat) (v mask bits : Z) : res (Z * Z) :=
  match fuel with
  | O => Err OutOfFuel
  | S fuel =>
      let old := v in
      let new := (old .& not32 mask) .| bits in
      let v := env k v in
      if v =? old then Ok (new, new) else set_mask_bits env fuel (S k) v mask bits
  end.

Fixpoint bit_clear_unless (env : nat -> Z -> Z) (fuel k : nat) (v clear test : Z) : res (Z * bool) :=
  match fuel with
  | O => Err OutOfFuel
  | S fuel =>
      let old := v in
      let new := old .& not32 clear in
      if negb ((old .& test) =? 0) then Ok (v, false)
      else
        let v := env k v in
        if v =? old then Ok (new, true) else bit_clear_unless env fuel (S k) v clear test
  end.

Section ForEach.
Variables find_first_bit find_first_zero_bit : list Z -> Z -> Z.
Variables find_next_bit find_next_zero_bit : list Z -> Z -> Z -> Z.

(** The values a loop gives to [bit]. *)
Fixpoint bit_loop (next : list Z -> Z -> Z -> Z) (fuel : nat) (bit : Z) (bm : list Z) (size : Z) : res (list Z) :=
  if bit <? size then
    match fuel with
    | O => Err OutOfFuel
    | S fuel => let! l := bit_loop next fuel (next bm size (bit + 1)) bm size in Ok (bit :: l)
    end
  else Ok [].

Definition for_each_set_bit (fuel : nat) (bm : list Z) (size : Z) : res (list Z) :=
  bit_loop find_next_bit fuel (find_first_bit bm size) bm size.
Definition for_each_set_bit_from (fuel : nat) (bit : Z) (bm : list Z) (size : Z) : res (list Z) :=
  bit_loop find_next_bit fuel (find_next_bit bm size bit) bm size.
Definition for_each_clear_bit (fuel : nat) (bm : list Z) (size : Z) : res (list Z) :=
  bit_loop find_next_zero_bit fuel (find_first_zero_bit bm size) bm size.
Definition for_each_clear_bit_from (fuel : nat) (bit : Z) (bm : list Z) (size : Z) : res (list Z) :=
  bit_loop find_next_zero_bit fuel (find_next_zero_bit bm size bit) bm size.
End ForEach.

(** ** Bit arrays *)

(** Bit [i] of an array of bytes, and the array with one bit put through [op]. *)
Definition bit (D : list Z) (i : Z) : bool := Z.testbit (default 0 (D !! Z.to_nat (i / 8))) (i mod 8).
Definition update (op : Z -> Z -> Z) (D : list Z) (nr : Z) : list Z :=
  <[Z.to_nat (nr / 8) := op (default 0 (D !! Z.to_nat (nr / 8))) (2 ^ (nr mod 8))]> D.

(** An operation that works byte by byte. *)
Class Bitwise (op : Z -> Z -> Z) : Prop := {
  bw_mod a b : op a b mod 256 = op (a mod 256) (b mod 256);
  bw_div a b : op a b / 256 = op (a / 256) (b / 256);
  bw_zero a : op a 0 = a
}.

Lemma mod_bits a : a mod 256 = Z.land a (Z.ones 8).
Proof. symmetry. exact (Z.land_ones a 8 ltac:(lia)). Qed.
Lemma div_bits a : a / 256 = Z.shiftr a 8.
Proof. symmetry. exact (Z.shiftr_div_pow2 a 8 ltac:(lia)). Qed.

Ltac bitwise :=
  split; intros; rewrite ?mod_bits, ?div_bits;
  [ apply Z.bits_inj'; intros i Hi;
    rewrite ?Z.land_spec, ?Z.lor_spec, ?Z.ldiff_spec, ?Z.lxor_spec, ?Z.land_spec;
    repeat match goal with |- context [Z.testbit ?x ?y] => destruct (Z.testbit x y) end; reflexivity
  | now rewrite ?Z.shiftr_lor, ?Z.shiftr_ldiff, ?Z.shiftr_lxor
  | now rewrite ?Z.lor_0_r, ?Z.ldiff_0_r, ?Z.lxor_0_r ].

#[export] Instance lor_bitwise : Bitwise Z.lor.
Proof. bitwise. Qed.
#[export] Instance ldiff_bitwise : Bitwise Z.ldiff.
Proof. bitwise. Qed.
#[export] Instance lxor_bitwise : Bitwise Z.lxor.
Proof. bitwise. Qed.

(** An operation with a single bit of a word changes one byte of it. *)
Lemma bytes_update op (B : Bitwise op) bs : Forall is_byte bs -> forall j k b,
  bs !! j = Some b -> 0 <= k < 8 ->
  bytes_of (length bs) (op (le bs) (2 ^ (8 * Z.of_nat j + k))) = <[j := op b (2 ^ k)]> bs.
Proof.
  induction 1 as [|c bs Hc Hbs IH]; intros j k b Hj Hk; [discriminate |]. cbn [length bytes_of le]. unfold is_byte in Hc.
  rewrite bw_mod, bw_div. replace ((c + 256 * le bs) mod 256) with c by zmod.
  replace ((c + 256 * le bs) / 256) with (le bs) by zmod.
  assert (0 < 2 ^ k <= 2 ^ 7) as Hp by (split; [apply Z.pow_pos_nonneg | apply Z.pow_le_mono_r]; lia).
  change (2 ^ 7) with 128 in Hp. destruct j as [|j].
  - injection Hj as ->. change (8 * Z.of_nat 0 + k) with k.
    rewrite (Z.mod_small (2 ^ k)), (Z.div_small (2 ^ k)), bw_zero, bytes_le by (assumption || lia). reflexivity.
  - replace (8 * Z.of_nat (S j) + k) with (8 * Z.of_nat j + k + 8) by lia.
    rewrite Z.pow_add_r by lia. change (2 ^ 8) with 256.
    rewrite Z.mod_mul, Z.div_mul, bw_zero by lia. cbn. f_equal. now apply IH.
Qed.

Lemma le_testbit bs : Forall is_byte bs -> forall j k b,
  bs !! j = Some b -> 0 <= k < 8 -> Z.testbit (le bs) (8 * Z.of_nat j + k) = Z.testbit b k.
Proof.
  induction 1 as [|c bs Hc Hbs IH]; intros j k b Hj Hk; [discriminate |].
  rewrite le_lor, Z.lor_spec, Z.shiftl_spec by (assumption || lia). unfold is_byte in Hc. destruct j as [|j].
  - injection Hj as ->. change (8 * Z.of_nat 0 + k) with k. rewrite (Z.testbit_neg_r (le bs)) by lia. apply orb_false_r.
  - replace (8 * Z.of_nat (S j) + k - 8) with (8 * Z.of_nat j + k) by lia. rewrite (IH j k b Hj Hk).
    rewrite <- (Z.mod_small c (2 ^ 8)), Z.mod_pow2_bits_high by (change (2 ^ 8) with 256; lia). reflexivity.
Qed.

(** Writing inside a loaded range rewrites the range. *)
Lemma put_inner m p n D o bs :
  load m p n = Ok D -> 0 <= o -> o + zlen bs <= n ->
  put_bytes m (padd p o) bs = put_bytes m p (write_at D (Z.to_nat o) bs).
Proof.
  intros (B & HB & Hb & ->)%load_inv Ho Hn. apply in_bounds_iff in Hb. unfold zlen in *.
  unfold put_bytes. cbn [blk ofs padd]. rewrite HB. do 2 f_equal.
  rewrite <- window_write by lia. replace (Z.to_nat (ofs p + o)) with (Z.to_nat (ofs p) + Z.to_nat o)%nat by lia.
  set (W := write_at B _ bs). assert (length W = length B) as HW by (apply length_write_at; lia).
  apply list_eq. intros i. rewrite lookup_write_at by (rewrite length_read_at; lia).
  rewrite length_read_at by lia.
  repeat case_decide; [|rewrite lookup_read_at, decide_True by lia; f_equal; lia |];
    unfold W; rewrite lookup_write_at by lia; rewrite ?decide_True, ?decide_False by lia;
    repeat case_decide; try lia; reflexivity.
Qed.

(** ** Lemmas on single bits *)

Lemma and_not w i n : 0 <= w < 2 ^ n -> 0 <= n -> w .& (Z.lnot (2 ^ i) mod 2 ^ n) = Z.ldiff w (2 ^ i).
Proof.
  intros Hw Hn. apply Z.bits_inj'. intros l Hl. rewrite Z.land_spec, Z.ldiff_spec.
  destruct (Z.lt_ge_cases l n).
  - now rewrite Z.mod_pow2_bits_low, Z.lnot_spec by lia.
  - rewrite <- (Z.mod_small w (2 ^ n)) by lia. now rewrite Z.mod_pow2_bits_high by lia.
Qed.

Lemma and_bit w i : 0 <= i -> negb ((w .& 2 ^ i) =? 0) = Z.testbit w i.
Proof.
  intros Hi. destruct (Z.testbit w i) eqn:E.
  - apply negb_true_iff, Z.eqb_neq. intros H. apply (f_equal (fun x => Z.testbit x i)) in H.
    rewrite Z.land_spec, Z.pow2_bits_true, E, Z.bits_0 in H by lia. discriminate.
  - apply negb_false_iff, Z.eqb_eq. apply Z.bits_inj'. intros l Hl. rewrite Z.land_spec, Z.bits_0.
    destruct (Z.eq_dec l i) as [->|Hne]; [now rewrite E | now rewrite Z.pow2_bits_false, andb_false_r by lia].
Qed.

Lemma one_and_shift w i : 0 <= i -> truthy (1 .& Z.shiftr w i) = Z.testbit w i.
Proof.
  intros Hi. rewrite Z.land_comm. change 1 with (2 ^ 0). unfold truthy.
  replace (negb (_ =? 0)) with (Z.testbit (Z.shiftr w i) 0) by (symmetry; apply and_bit; lia).
  now rewrite Z.shiftr_spec by lia.
Qed.

Lemma byte_op op (B : Bitwise op) b i : is_byte b -> 0 <= i < 8 -> is_byte (op b (2 ^ i)).
Proof.
  unfold is_byte. intros Hb Hi. assert (0 < 2 ^ i <= 2 ^ 7) by (split; [apply Z.pow_pos_nonneg | apply Z.pow_le_mono_r]; lia).
  change (2 ^ 7) with 128 in *. rewrite <- (Z.mod_small b 256), <- (Z.mod_small (2 ^ i) 256), <- bw_mod by lia.
  apply Z.mod_pos_bound. lia.
Qed.

(** ** One bit of an array of words *)

Section Array.
Context (m : mem) (addr : ptr) (n : Z) (D : list Z) (nr : Z).
Hypothesis Hld : load m addr n = Ok D.
Hypothesis Hbytes : Forall is_byte D.
Hypothesis Hn : n mod 4 = 0.
Hypothesis Hnr : 0 <= nr < 8 * n.

(** The word, the byte in it and the bit in that. *)
Let q := nr / 32.
Let j := (nr mod 32) / 8.
Let k := nr mod 8.
Let ws := read_at D (Z.to_nat (4 * q)) 4.

Lemma array_facts :
  length D = Z.to_nat n /\ 0 <= 4 * q /\ 4 * q + 4 <= n /\ 0 <= j < 4 /\ 0 <= k < 8 /\
  nr / 8 = 4 * q + j /\ nr mod 32 = 8 * j + k /\ length ws = 4%nat /\ Forall is_byte ws.
Proof.
  pose proof (load_length _ _ _ _ Hld) as Hl. pose proof (load_nonneg _ _ _ _ Hld) as H0.
  assert (0 <= 4 * q /\ 4 * q + 4 <= n) as [H1 H2] by (unfold q; zmod).
  split; [exact Hl |]. do 2 (split; [assumption |]). do 4 (split; [unfold j, k, q; zmod |]).
  split; [unfold ws; rewrite length_read_at; lia |]. unfold ws, read_at. now apply Forall_take, Forall_drop.
Qed.

Lemma the_byte : exists b, ws !! Z.to_nat j = Some b /\ D !! Z.to_nat (nr / 8) = Some b /\ is_byte b.
Proof.
  destruct array_facts as (Hl & H1 & H2 & Hj & Hk & Hb & _ & Hw & Hf).
  destruct (lookup_lt_is_Some_2 ws (Z.to_nat j)) as [b E]; [lia |]. exists b. split; [exact E |]. split.
  - rewrite <- E. unfold ws. rewrite lookup_read_at, decide_True by lia. f_equal. lia.
  - now apply (Forall_lookup_1 _ _ _ _ Hf E).
Qed.

Lemma get_word : get 4 m (padd addr (4 * q)) = Ok (le ws).
Proof.
  destruct array_facts as (Hl & H1 & H2 & _). unfold get.
  destruct (load_split _ _ _ _ (4 * q) Hld) as [_ H]; [lia |].
  destruct (load_split _ _ _ _ 4 H) as [H' _]; [lia |]. change (Z.of_nat 4) with 4. rewrite H'. reflexivity.
Qed.

Lemma valid_word o l : 0 <= o -> 0 <= l -> o + l <= n -> valid_at m (padd addr o) l.
Proof.
  intros Ho Hl Hol. apply load_inv in Hld as (B & HB & Hb & _).
  destruct (valid_split m addr n o) as [_ H]; [now exists B | lia |].
  destruct (valid_split _ _ _ l H) as [H' _]; [lia | exact H'].
Qed.

(** Through the word, or through the byte. *)
Lemma put_word op (B : Bitwise op) :
  put 4 m (padd addr (4 * q)) (op (le ws) (2 ^ (nr mod 32))) = Ok (put_bytes m addr (update op D nr)).
Proof.
  destruct array_facts as (Hl & H1 & H2 & Hj & Hk & Hb & Hm & Hw & Hf). destruct the_byte as (b & E & Ed & _).
  unfold put. rewrite Hm. replace (8 * j) with (8 * Z.of_nat (Z.to_nat j)) by lia.
  rewrite <- Hw. rewrite (bytes_update op B ws Hf _ _ b E Hk).
  assert (zlen (<[Z.to_nat j := op b (2 ^ k)]> ws) = 4) as Hz by (unfold zlen; rewrite length_insert; lia).
  rewrite store_put by (rewrite Hz; apply valid_word; lia).
  rewrite (put_inner m addr n D) by (assumption || lia). do 2 f_equal.
  unfold update. rewrite Ed. cbn [default]. fold k. rewrite Hb.
  apply list_eq. intros i. rewrite lookup_write_at by (rewrite length_insert; lia). rewrite length_insert, Hw.
  destruct (Nat.eq_dec i (Z.to_nat (4 * q + j))) as [->|Hne].
  - rewrite decide_False, decide_True by lia. rewrite (list_lookup_insert_eq D) by lia.
    replace (Z.to_nat (4 * q + j) - Z.to_nat (4 * q))%nat with (Z.to_nat j) by lia.
    apply list_lookup_insert_eq. lia.
  - rewrite (list_lookup_insert_ne D) by congruence. repeat case_decide; try reflexivity.
    rewrite list_lookup_insert_ne by lia. unfold ws. rewrite lookup_read_at, decide_True by lia. f_equal. lia.
Qed.

Lemma put_one_byte op b : D !! Z.to_nat (nr / 8) = Some b -> is_byte (op b (2 ^ k)) ->
  get 1 m (padd addr (nr / 8)) = Ok b /\
  put 1 m (padd addr (nr / 8)) (op b (2 ^ k)) = Ok (put_bytes m addr (update op D nr)).
Proof.
  intros Ed Hb. destruct array_facts as (Hl & H1 & H2 & Hj & Hk & Hq & _).
  assert (0 <= nr / 8 < n) as H8 by lia. split.
  - unfold get. destruct (load_split _ _ _ _ (nr / 8) Hld) as [_ H]; [lia |].
    destruct (load_split _ _ _ _ 1 H) as [H' _]; [lia |]. change (Z.of_nat 1) with 1. rewrite H'. cbn [rbind].
    rewrite (drop_S _ _ _ Ed). change (Z.to_nat 1) with 1%nat. rewrite firstn_cons, take_0. cbn [le]. f_equal. lia.
  - unfold put. cbn [bytes_of]. unfold is_byte in Hb. rewrite Z.mod_small by lia.
    rewrite store_put by (apply valid_word; unfold zlen; cbn [length]; lia).
    rewrite (put_inner m addr n D) by (try assumption; unfold zlen; cbn [length]; lia). do 2 f_equal.
    unfold update. rewrite Ed. cbn [default]. apply write_at_insert. lia.
Qed.
(** The same positions and masks in each header. *)
Lemma positions :
  BIT_WORD nr = q /\ BIT_MASK nr = 2 ^ (nr mod 32) /\ Z.shiftr nr 5 = q /\ nr .& 31 = nr mod 32 /\
  Z.shiftr nr 3 = nr / 8 /\ CONST_MASK nr = 2 ^ k /\ u8 (CONST_MASK nr) = 2 ^ k.
Proof.
  destruct array_facts as (_ & _ & _ & _ & Hk & _).
  unfold BIT_WORD, BIT_MASK, CONST_MASK, BITS_PER_LONG. rewrite Z.quot_div_nonneg, Z.rem_mod_nonneg by lia.
  rewrite (Z.shiftr_div_pow2 nr 5), (Z.shiftr_div_pow2 nr 3), !Z.shiftl_1_l by lia.
  replace (nr .& 31) with (nr mod 32) by (symmetry; exact (land_mask 5 nr ltac:(lia))).
  replace (nr .& 7) with k by (symmetry; exact (land_mask 3 nr ltac:(lia))).
  do 6 (split; [reflexivity |]). apply u8_small. split; [apply Z.pow_nonneg; lia |].
  change 256 with (2 ^ 8). apply Z.pow_lt_mono_r; lia.
Qed.

Lemma bit_in_word : Z.testbit (le ws) (nr mod 32) = bit D nr.
Proof.
  destruct array_facts as (_ & _ & _ & Hj & Hk & _ & Hm & _ & Hf). destruct the_byte as (b & E & Ed & _).
  rewrite Hm. replace (8 * j) with (8 * Z.of_nat (Z.to_nat j)) by lia.
  rewrite (le_testbit ws Hf _ _ b E Hk). unfold bit. now rewrite Ed.
Qed.

Lemma old_bit : negb ((le ws .& 2 ^ (nr mod 32)) =? 0) = bit D nr.
Proof. rewrite and_bit; [exact bit_in_word | zmod]. Qed.

Lemma clear_in_word : le ws .& not32 (BIT_MASK nr) = Z.ldiff (le ws) (2 ^ (nr mod 32)).
Proof.
  destruct array_facts as (_ & _ & _ & _ & _ & _ & _ & Hw & Hf). destruct positions as (_ & -> & _).
  apply (and_not (le ws) _ 32); [|lia]. pose proof (le_range ws Hf) as Hr. unfold zlen in Hr. now rewrite Hw in Hr.
Qed.

(** The instructions on a word and on a byte. *)
Lemma bit_insn_ok (g op : Z -> Z -> Z) (B : Bitwise op) : (forall w i, g w i = op w (2 ^ i)) ->
  bit_insn g nr m addr = Ok (put_bytes m addr (update op D nr), bit D nr).
Proof.
  intros Hg. destruct positions as (_ & _ & E5 & E31 & _). unfold bit_insn. rewrite E5, E31, get_word. cbn [rbind].
  now rewrite Hg, (put_word op B), bit_in_word.
Qed.

Lemma byte_insn_ok (g op : Z -> Z -> Z) (B : Bitwise op) mask :
  (forall b, is_byte b -> g b mask = op b (2 ^ k)) ->
  byte_insn g m (CONST_MASK_ADDR nr addr) mask = Ok (put_bytes m addr (update op D nr)).
Proof.
  intros Hg. destruct positions as (_ & _ & _ & _ & E3 & _). destruct array_facts as (_ & _ & _ & _ & Hk & _).
  destruct the_byte as (b & _ & Ed & Hb). destruct (put_one_byte op b Ed (byte_op op B b _ Hb Hk)) as [G1 G2].
  unfold byte_insn, CONST_MASK_ADDR. rewrite E3, G1. cbn [rbind]. now rewrite (Hg b Hb), G2.
Qed.

Lemma x86_words :
  bts nr m addr = Ok (put_bytes m addr (update Z.lor D nr), bit D nr) /\
  btr nr m addr = Ok (put_bytes m addr (update Z.ldiff D nr), bit D nr) /\
  btc nr m addr = Ok (put_bytes m addr (update Z.lxor D nr), bit D nr).
Proof.
  split; [|split]; apply bit_insn_ok; try apply _;
    [apply Z.setbit_spec' | apply Z.clearbit_spec' | reflexivity].
Qed.

Lemma x86_bytes :
  byte_insn Z.lor m (CONST_MASK_ADDR nr addr) (u8 (CONST_MASK nr)) = Ok (put_bytes m addr (update Z.lor D nr)) /\
  byte_insn Z.land m (CONST_MASK_ADDR nr addr) (u8 (Z.lnot (CONST_MASK nr))) =
    Ok (put_bytes m addr (update Z.ldiff D nr)) /\
  byte_insn Z.lxor m (CONST_MASK_ADDR nr addr) (u8 (CONST_MASK nr)) = Ok (put_bytes m addr (update Z.lxor D nr)).
Proof.
  destruct positions as (_ & _ & _ & _ & _ & E7 & E8).
  split; [|split]; apply byte_insn_ok; try apply _; intros b Hb; rewrite ?E8; try reflexivity.
  rewrite E7. exact (and_not b _ 8 Hb ltac:(lia)).
Qed.

Lemma x86_test imm : test_bit imm nr m addr = Ok (bit D nr).
Proof.
  destruct positions as (_ & _ & E5 & E31 & _).
  unfold test_bit, constant_test_bit, variable_test_bit, bt, BITS_PER_LONG. change (32 - 1) with 31.
  rewrite E5, E31, get_word. cbn [rbind]. rewrite Z.shiftl_1_l, Z.land_comm, old_bit, bit_in_word. now destruct imm.
Qed.

Lemma portable_test : generic_test_bit nr m addr = Ok (bit D nr).
Proof.
  destruct positions as (EW & _ & _ & E31 & _). unfold generic_test_bit, shr, BITS_PER_LONG.
  change (32 - 1) with 31. rewrite E31, EW, get_word. cbn [rbind].
  replace ((0 <=? nr mod 32) && (nr mod 32 <? 32)) with true
    by (symmetry; rewrite andb_true_iff, Z.leb_le, Z.ltb_lt; zmod).
  cbn [defined_if rbind]. now rewrite one_and_shift, bit_in_word by zmod.
Qed.
End Array.

(** What an update means, bit by bit. *)
Lemma update_bit op (g : bool -> bool -> bool) D nr i :
  (forall a b l, 0 <= l -> Z.testbit (op a b) l = g (Z.testbit a l) (Z.testbit b l)) ->
  (forall a, g a false = a) -> 0 <= nr < 8 * zlen D -> 0 <= i ->
  bit (update op D nr) i = g (bit D i) (i =? nr).
Proof.
  intros Hop Hg Hnr Hi. unfold bit, update, zlen in *.
  assert (Z.to_nat (nr / 8) < length D)%nat as Hlt by zmod.
  destruct (Z.eq_dec (i / 8) (nr / 8)) as [E|E].
  - rewrite E, list_lookup_insert_eq by exact Hlt. unfold default, from_option, id. rewrite Hop by zmod. f_equal.
    destruct (Z.eqb_spec i nr) as [->|Hne]; [apply Z.pow2_bits_true; zmod |].
    apply Z.pow2_bits_false. intros E'. apply Hne. zmod.
  - rewrite list_lookup_insert_ne by zmod. destruct (Z.eqb_spec i nr) as [->|]; [congruence | now rewrite Hg].
Qed.

(** ** Theorems *)

(** The implementations agree.  On an array of words that lies in memory, the
    operation of x86 on a byte (bit number known) and the one on a word, locked
    or not, and the portable one are the same function for setting, clearing
    and changing a bit; the ones that return the old bit return it, and all
    tests give the bit.  The result is the array with that one bit changed. *)
Theorem bitops_agree m addr n D nr :
  load m addr n = Ok D -> Forall is_byte D -> n mod 4 = 0 -> 0 <= nr < 8 * n ->
  let after op := put_bytes m addr (update op D nr) in
  (forall imm, set_bit imm nr m addr = Ok (after Z.lor) /\ clear_bit imm nr m addr = Ok (after Z.ldiff) /\
     change_bit imm nr m addr = Ok (after Z.lxor) /\ test_bit imm nr m addr = Ok (bit D nr)) /\
  (__set_bit nr m addr = Ok (after Z.lor) /\ __clear_bit nr m addr = Ok (after Z.ldiff) /\
   __change_bit nr m addr = Ok (after Z.lxor)) /\
  (generic___set_bit nr m addr = Ok (after Z.lor) /\ generic___clear_bit nr m addr = Ok (after Z.ldiff) /\
   generic___change_bit nr m addr = Ok (after Z.lxor) /\ generic_test_bit nr m addr = Ok (bit D nr)) /\
  (test_and_set_bit nr m addr = Ok (after Z.lor, bit D nr) /\
   test_and_clear_bit nr m addr = Ok (after Z.ldiff, bit D nr) /\
   test_and_change_bit nr m addr = Ok (after Z.lxor, bit D nr)) /\
  (generic___test_and_set_bit nr m addr = Ok (after Z.lor, bit D nr) /\
   generic___test_and_clear_bit nr m addr = Ok (after Z.ldiff, bit D nr) /\
   generic___test_and_change_bit nr m addr = Ok (after Z.lxor, bit D nr)) /\
  (forall i, 0 <= i ->
     bit (update Z.lor D nr) i = bit D i || (i =? nr) /\
     bit (update Z.ldiff D nr) i = bit D i && negb (i =? nr) /\
     bit (update Z.lxor D nr) i = xorb (bit D i) (i =? nr)).
Proof.
  intros Hld Hb Hn Hnr after. pose proof (load_length _ _ _ _ Hld) as Hlen. pose proof (load_nonneg _ _ _ _ Hld) as H0.
  destruct (x86_words m addr n D nr Hld Hb Hn Hnr) as (HS & HC & HX).
  destruct (x86_bytes m addr n D nr Hld Hb Hn Hnr) as (BS & BC & BX).
  destruct (positions m addr n D nr Hld Hb Hn Hnr) as (EW & EM & _).
  pose proof (get_word m addr n D nr Hld Hb Hn Hnr) as Hget.
  pose proof (put_word m addr n D nr Hld Hb Hn Hnr) as Hput.
  pose proof (clear_in_word m addr n D nr Hld Hb Hn Hnr) as E32.
  pose proof (old_bit m addr n D nr Hld Hb Hn Hnr) as Hold.
  split; [|split; [|split; [|split; [|split]]]].
  - intros imm. rewrite (x86_test m addr n D nr Hld Hb Hn Hnr). unfold set_bit, clear_bit, change_bit.
    rewrite HS, HC, HX, BS, BC, BX. now destruct imm.
  - unfold __set_bit, __clear_bit, __change_bit. rewrite HS, HC, HX. auto.
  - rewrite (portable_test m addr n D nr Hld Hb Hn Hnr).
    unfold generic___set_bit, generic___clear_bit, generic___change_bit.
    rewrite EW, Hget. cbn [rbind]. rewrite E32, EM, !(Hput _ _). auto.
  - unfold test_and_set_bit, test_and_clear_bit, test_and_change_bit. auto.
  - unfold generic___test_and_set_bit, generic___test_and_clear_bit, generic___test_and_change_bit.
    rewrite EW, Hget. cbn [rbind]. rewrite E32, EM, !(Hput _ _), Hold. cbn [rbind]. auto.
  - intros i Hi. split; [|split].
    + apply (update_bit Z.lor orb); [intros; apply Z.lor_spec | apply orb_false_r | unfold zlen; lia | exact Hi].
    + apply (update_bit Z.ldiff (fun a b => a && negb b));
        [intros; apply Z.ldiff_spec | apply andb_true_r | unfold zlen; lia | exact Hi].
    + apply (update_bit Z.lxor xorb); [intros; apply Z.lxor_spec | apply xorb_false_r | unfold zlen; lia | exact Hi].
Qed.

Lemma bitops_agree_witness :
  let m := Mem {[ 64 := [0; 0; 0; 0; 255; 0; 0; 128] ]} ∅ in
  set_bit true 33 m (Ptr 64 0) = generic___set_bit 33 m (Ptr 64 0) /\
  test_and_clear_bit 63 m (Ptr 64 0) = Ok (Mem {[ 64 := [0; 0; 0; 0; 255; 0; 0; 0] ]} ∅, true).
Proof.
  intros m. destruct (bitops_agree m (Ptr 64 0) 8 [0; 0; 0; 0; 255; 0; 0; 128] 33) as (H1 & _ & H2 & _);
    [reflexivity | repeat constructor; lia | reflexivity | lia |].
  destruct (bitops_agree m (Ptr 64 0) 8 [0; 0; 0; 0; 255; 0; 0; 128] 63) as (_ & _ & _ & H3 & _);
    [reflexivity | repeat constructor; lia | reflexivity | lia |].
  split; [rewrite (proj1 (H1 true)), (proj1 H2); reflexivity |].
  rewrite (proj1 (proj2 H3)). vm_compute. reflexivity.
Defined.

(** *** Masks *)

Lemma genmask_bits w h l i :
  0 <= l -> l <= h -> h < w -> 0 <= i ->
  Z.testbit ((Z.shiftl (2 ^ w - 1) l mod 2 ^ w) .& Z.shiftr (2 ^ w - 1) (w - 1 - h)) i = ((l <=? i) && (i <=? h)).
Proof.
  intros Hl Hh Hw Hi. replace (2 ^ w - 1) with (Z.ones w) by (rewrite Z.ones_equiv; lia).
  rewrite Z.land_spec, Z.shiftr_spec by lia. destruct (Z.lt_ge_cases i w).
  - rewrite Z.mod_pow2_bits_low, Z.shiftl_spec by lia.
    destruct (Z.leb_spec l i); [|now rewrite Z.testbit_neg_r by lia].
    rewrite (Z.ones_spec_low w (i - l)) by lia. destruct (Z.leb_spec i h).
    + now rewrite Z.ones_spec_low by lia.
    + now rewrite Z.ones_spec_high by lia.
  - rewrite Z.mod_pow2_bits_high by lia. destruct (Z.leb_spec i h); [lia | now rewrite andb_false_r].
Qed.

(** [GENMASK(h, l)] has exactly the bits from [l] to [h], in both widths. *)
Theorem genmask_spec h l :
  0 <= l <= h ->
  (h < 32 -> exists x, GENMASK h l = Ok x /\ forall i, 0 <= i -> Z.testbit x i = ((l <=? i) && (i <=? h))) /\
  (h < 64 -> exists x, GENMASK_ULL h l = Ok x /\ forall i, 0 <= i -> Z.testbit x i = ((l <=? i) && (i <=? h))).
Proof.
  intros Hl. unfold GENMASK, GENMASK_ULL, shl, shr, BITS_PER_LONG, BITS_PER_LONG_LONG. split; intros Hh.
  - replace ((0 <=? l) && (l <? 32)) with true by (symmetry; rewrite andb_true_iff, Z.leb_le, Z.ltb_lt; lia).
    replace ((0 <=? 32 - 1 - h) && (32 - 1 - h <? 32)) with true by (symmetry; rewrite andb_true_iff, Z.leb_le, Z.ltb_lt; lia).
    cbn [defined_if rbind]. eexists. split; [reflexivity |]. intros i Hi. apply (genmask_bits 32); lia.
  - replace ((0 <=? l) && (l <? 64)) with true by (symmetry; rewrite andb_true_iff, Z.leb_le, Z.ltb_lt; lia).
    replace ((0 <=? 64 - 1 - h) && (64 - 1 - h <? 64)) with true by (symmetry; rewrite andb_true_iff, Z.leb_le, Z.ltb_lt; lia).
    cbn [defined_if rbind]. eexists. split; [reflexivity |]. intros i Hi. apply (genmask_bits 64); lia.
Qed.

Lemma genmask_spec_witness : exists x, GENMASK_ULL 39 21 = Ok x /\ Z.testbit x 21 = true /\ Z.testbit x 40 = false.
Proof.
  destruct (proj2 (genmask_spec 39 21 ltac:(lia)) ltac:(lia)) as (x & E & H). exists x.
  split; [exact E |]. now rewrite !H by lia.
Defined.

(** *** Compare and exchange *)

(** The word after [r] rounds of the others. *)
Fixpoint seen (env : nat -> Z -> Z) (k r : nat) (v : Z) : Z :=
  match r with O => v | S r => seen env (S k) r (env k v) end.

(** A round the others leave alone. *)
Definition quiet_round (env : nat -> Z -> Z) (k r : nat) (v : Z) : Prop :=
  (forall i, (i < r)%nat -> env (k + i)%nat (seen env k i v) <> seen env k i v) /\
  env (k + r)%nat (seen env k r v) = seen env k r v.

Lemma quiet_round_S env k r v : quiet_round env k (S r) v -> env k v <> v /\ quiet_round env (S k) r (env k v).
Proof.
  intros [H1 H2]. split; [pose proof (H1 0%nat ltac:(lia)) as H; now rewrite Nat.add_0_r in H |].
  split; [|now rewrite <- Nat.add_succ_r in H2 |- * || (rewrite Nat.add_succ_r in H2; exact H2)].
  intros i Hi. specialize (H1 (S i) ltac:(lia)). now rewrite Nat.add_succ_r in H1.
Qed.

Lemma set_mask_loop env mask bits r : forall fuel k v, (r < fuel)%nat -> quiet_round env k r v ->
  let new := (seen env k r v .& not32 mask) .| bits in
  set_mask_bits env fuel k v mask bits = Ok (new, new).
Proof.
  induction r as [|r IH]; intros fuel k v Hf Hq; (destruct fuel as [|fuel]; [lia |]); cbn [set_mask_bits].
  - destruct Hq as [_ Hq]. rewrite Nat.add_0_r in Hq. cbn [seen] in *. now rewrite Hq, Z.eqb_refl.
  - apply quiet_round_S in Hq as [Hne Hq]. rewrite (proj2 (Z.eqb_neq _ _) Hne). apply (IH fuel (S k)); [lia | exact Hq].
Qed.

Lemma bit_clear_loop env clear test r : forall fuel k v, (r < fuel)%nat ->
  (forall i, (i < r)%nat -> env (k + i)%nat (seen env k i v) <> seen env k i v /\ (seen env k i v .& test) = 0) ->
  (((seen env k r v .& test) <> 0 -> bit_clear_unless env fuel k v clear test = Ok (seen env k r v, false)) /\
   ((seen env k r v .& test) = 0 -> env (k + r)%nat (seen env k r v) = seen env k r v ->
      bit_clear_unless env fuel k v clear test = Ok (seen env k r v .& not32 clear, true))).
Proof.
  induction r as [|r IH]; intros fuel k v Hf Hq; (destruct fuel as [|fuel]; [lia |]); cbn [bit_clear_unless].
  - rewrite Nat.add_0_r. cbn [seen]. split.
    + intros Ht. now rewrite (proj2 (Z.eqb_neq _ _) Ht).
    + intros -> ->. now rewrite !Z.eqb_refl.
  - pose proof (Hq 0%nat ltac:(lia)) as [Hne Ht]. rewrite Nat.add_0_r in Hne. cbn [seen] in Hne, Ht.
    rewrite Ht. cbn [Z.eqb negb]. rewrite (proj2 (Z.eqb_neq _ _) Hne).
    rewrite Nat.add_succ_r. apply (IH fuel (S k)); [lia |]. intros i Hi. specialize (Hq (S i) ltac:(lia)).
    now rewrite Nat.add_succ_r in Hq.
Qed.

(** The loops are atomic.  However the other threads change the word between
    the read and the exchange, [set_mask_bits] ends in the first round they
    leave alone, with the masked bits replaced in the value they left: no change
    of theirs is lost.  [bit_clear_unless] ends in the first round that is left
    alone or that finds one of the forbidden bits; in the first case it clears
    the bits in the value the others left and returns true, in the second it
    writes nothing and returns false. *)
Theorem cmpxchg_loops_atomic env fuel v r mask bits clear test :
  (r < fuel)%nat ->
  (quiet_round env 0 r v -> let new := (seen env 0 r v .& not32 mask) .| bits in
     set_mask_bits env fuel 0 v mask bits = Ok (new, new) /\
     forall i, 0 <= i < 32 ->
       Z.testbit new i = Z.testbit bits i || (Z.testbit (seen env 0 r v) i && negb (Z.testbit mask i))) /\
  ((forall i, (i < r)%nat -> env i (seen env 0 i v) <> seen env 0 i v /\ (seen env 0 i v .& test) = 0) ->
     ((seen env 0 r v .& test) <> 0 -> bit_clear_unless env fuel 0 v clear test = Ok (seen env 0 r v, false)) /\
     ((seen env 0 r v .& test) = 0 -> env r (seen env 0 r v) = seen env 0 r v ->
        bit_clear_unless env fuel 0 v clear test = Ok (seen env 0 r v .& not32 clear, true))).
Proof.
  intros Hf. split; [|exact (bit_clear_loop env clear test r fuel 0 v Hf)].
  intros Hq new. split; [exact (set_mask_loop env mask bits r fuel 0 v Hf Hq) |]. intros i Hi. unfold new, not32, u32.
  rewrite Z.lor_spec, Z.land_spec. change W32 with (2 ^ 32). rewrite Z.mod_pow2_bits_low, Z.lnot_spec by lia. apply orb_comm.
Qed.

Lemma cmpxchg_loops_atomic_witness :
  let env k v := if (k =? 0)%nat then v .| 8 else v in
  set_mask_bits env 3 0 0x11 0x0f 0x04 = Ok (0x14, 0x14) /\ bit_clear_unless env 3 0 0x11 0x01 0x08 = Ok (0x19, false).
Proof.
  intros env. destruct (cmpxchg_loops_atomic env 3 0x11 1 0x0f 0x04 0x01 0x08 ltac:(lia)) as [H1 H2]. split.
  - apply H1. split; [|reflexivity]. intros i Hi. replace i with 0%nat by lia. discriminate.
  - apply H2; [|discriminate]. intros i Hi. replace i with 0%nat by lia. split; [discriminate | reflexivity].
Defined.

(** *** Bit loops *)

(** What asm-generic/bitops/find.h documents: the next bit of the kind looked
    for at or after the offset, the size if there is none. *)
Class FindNext (next : list Z -> Z -> Z -> Z) (want : bool) : Prop := {
  next_range bm size off : 0 <= off <= size -> off <= next bm size off <= size;
  next_skips bm size off i : 0 <= off <= i -> i < next bm size off -> bit bm i = negb want;
  next_found bm size off : 0 <= off -> next bm size off < size -> bit bm (next bm size off) = want
}.

(** The first one, the size if there is none. *)
Class FindFirst (first : list Z -> Z -> Z) (want : bool) : Prop := {
  first_range bm size : 0 <= size -> 0 <= first bm size <= size;
  first_skips bm size i : 0 <= i < first bm size -> bit bm i = negb want;
  first_found bm size : first bm size < size -> bit bm (first bm size) = want
}.

Lemma first_is_next first next want (F : FindFirst first want) (N : FindNext next want) bm size :
  0 <= size -> first bm size = next bm size 0.
Proof.
  intros Hs. pose proof (first_range (first := first) bm size Hs).
  pose proof (next_range (next := next) bm size 0 ltac:(lia)).
  destruct (Z.lt_trichotomy (first bm size) (next bm size 0)) as [Hlt|[E|Hlt]]; [|exact E|]; exfalso.
  - pose proof (next_skips bm size 0 (first bm size) ltac:(lia) Hlt) as E.
    rewrite (first_found bm size) in E by lia. now destruct want.
  - pose proof (first_skips (first := first) bm size (next bm size 0) ltac:(lia)) as E.
    rewrite (next_found bm size 0) in E by lia. now destruct want.
Qed.

Definition wanted (bm : list Z) (want : bool) (b : Z) : Prop := bit bm b = want.
#[export] Instance wanted_dec bm want b : Decision (wanted bm want b).
Proof. unfold wanted. apply _. Defined.

Lemma filter_none {A} (P : A -> Prop) `{!forall x, Decision (P x)} l :
  (forall x, x ∈ l -> ~ P x) -> filter P l = [].
Proof.
  induction l as [|x l IH]; intros Hl; [reflexivity |]. rewrite filter_cons_False by (apply Hl; apply elem_of_cons; auto).
  apply IH. intros y Hy. apply Hl, elem_of_cons. auto.
Qed.

Lemma skip_unwanted next want (F : FindNext next want) bm size off :
  0 <= off <= size ->
  filter (wanted bm want) (seqZ off (size - off)) =
  filter (wanted bm want) (seqZ (next bm size off) (size - next bm size off)).
Proof.
  intros Ho. pose proof (next_range bm size off Ho) as Hr.
  replace (size - off) with ((next bm size off - off) + (size - next bm size off)) by lia.
  rewrite seqZ_app by lia. rewrite list.filter_app. replace (off + (next bm size off - off)) with (next bm size off) by lia.
  rewrite filter_none; [reflexivity |]. intros x Hx. apply elem_of_seqZ in Hx. unfold wanted.
  rewrite (next_skips bm size off) by lia. now destruct want.
Qed.

Lemma bit_loop_ok next want (F : FindNext next want) bm size fuel : forall off,
  0 <= off <= size -> (Z.to_nat (size - off) <= fuel)%nat ->
  bit_loop next fuel (next bm size off) bm size = Ok (filter (wanted bm want) (seqZ off (size - off))).
Proof.
  induction fuel as [|fuel IH]; intros off Ho Hf; pose proof (next_range bm size off Ho) as Hr;
    rewrite (skip_unwanted next want F) by exact Ho; cbn [bit_loop]; destruct (Z.ltb_spec (next bm size off) size) as [Hlt|Hge].
  - lia.
  - replace (next bm size off) with size by lia. rewrite Z.sub_diag. reflexivity.
  - rewrite IH by lia. cbn [rbind]. rewrite (seqZ_cons (next bm size off)) by lia.
    rewrite filter_cons_True by (apply (next_found bm size off); lia).
    do 3 f_equal. f_equal; lia.
  - replace (next bm size off) with size by lia. rewrite Z.sub_diag. reflexivity.
Qed.

(** The bit loops visit exactly the bits that are set (or clear) below [size],
    from the start given, in increasing order, and stop. *)
Theorem for_each_bit_spec first first0 next next0 (I : FindFirst first true) (I0 : FindFirst first0 false)
    (F : FindNext next true) (F0 : FindNext next0 false) fuel bm size from :
  0 <= from <= size -> (Z.to_nat size <= fuel)%nat ->
  for_each_set_bit first next fuel bm size = Ok (filter (wanted bm true) (seqZ 0 size)) /\
  for_each_clear_bit first0 next0 fuel bm size = Ok (filter (wanted bm false) (seqZ 0 size)) /\
  for_each_set_bit_from next fuel from bm size = Ok (filter (wanted bm true) (seqZ from (size - from))) /\
  for_each_clear_bit_from next0 fuel from bm size = Ok (filter (wanted bm false) (seqZ from (size - from))).
Proof.
  intros Hs Hf. unfold for_each_set_bit, for_each_clear_bit, for_each_set_bit_from, for_each_clear_bit_from.
  rewrite (first_is_next first next true I F), (first_is_next first0 next0 false I0 F0) by lia.
  rewrite (bit_loop_ok next true F bm size fuel 0), (bit_loop_ok next0 false F0 bm size fuel 0),
    (bit_loop_ok next true F bm size fuel from), (bit_loop_ok next0 false F0 bm size fuel from) by lia.
  now rewrite Z.sub_0_r.
Qed.

(** A search that meets the documented behaviour. *)
Fixpoint search (want : bool) (bm : list Z) (n : nat) (off : Z) : Z :=
  match n with O => off | S n => if Bool.eqb (bit bm off) want then off else search want bm n (off + 1) end.
Definition slow_next (want : bool) (bm : list Z) (size off : Z) : Z := search want bm (Z.to_nat (size - off)) off.

Lemma search_ok want bm n : forall off,
  off <= search want bm n off <= off + Z.of_nat n /\
  (forall i, off <= i < search want bm n off -> bit bm i = negb want) /\
  (search want bm n off < off + Z.of_nat n -> bit bm (search want bm n off) = want).
Proof.
  induction n as [|n IH]; intros off; cbn [search]; [repeat split; lia |].
  destruct (Bool.eqb (bit bm off) want) eqn:E.
  - apply eqb_prop in E. repeat split; [lia | lia | lia | intros _; exact E].
  - apply eqb_false_iff in E. destruct (IH (off + 1)) as (H1 & H2 & H3). split; [lia |]. split.
    + intros i Hi. destruct (Z.eq_dec i off) as [->|]; [now destruct (bit bm off), want | apply H2; lia].
    + intros H. apply H3. lia.
Qed.

#[export] Instance slow_next_ok want : FindNext (slow_next want) want.
Proof.
  split; unfold slow_next; intros; pose proof (search_ok want bm (Z.to_nat (size - off)) off) as (H1 & H2 & H3).
  - lia.
  - apply H2. lia.
  - apply H3. lia.
Qed.

Definition slow_first (want : bool) (bm : list Z) (size : Z) : Z := slow_next want bm size 0.

#[export] Instance slow_first_ok want : FindFirst (slow_first want) want.
Proof.
  split; unfold slow_first; intros.
  - apply next_range. lia.
  - eapply next_skips; [|apply H]; lia.
  - apply next_found; [lia | exact H].
Qed.

Lemma for_each_bit_spec_witness :
  for_each_set_bit (slow_first true) (slow_next true) 16 [5; 128] 16 = Ok [0; 2; 15] /\
  for_each_set_bit_from (slow_next true) 16 3 [5; 128] 16 = Ok [15].
Proof.
  destruct (for_each_bit_spec (slow_first true) (slow_first false) (slow_next true) (slow_next false) _ _ _ _ 16 [5; 128] 16 3) as (-> & _ & -> & _);
    [lia | cbn; lia |]. split; vm_compute; reflexivity.
Defined.

End Bitmap.
